(* ===== verification/_CoqProject ===== *)
-Q . S2P
Prelude.v
JsMap.v
Runtime.v
Watchdog.v
Health.v
Async.v
Logic.v
Rely.v
Api.v
Socket.v
Client.v
Translator.v
Assembler.v
Pool.v
Shutdown.v
Orchestrator.v
Invariant.v
System.v
Cli.v
Stream.v
