(* ===== verification/Prelude.v ===== *)
(** * peertube-supernovao: a verification development

    The program is a bridge between a PeerTube instance (the job queue) and
    a supernovao encoding pool (the encoding substrate).  It is written in
    JavaScript for Node.js: one event loop, asynchronous functions that
    suspend at every [await], timers, and a few tables ([Map], [Set]) shared
    by all tasks.  The bridge polls PeerTube for jobs, admits them up to a
    limit, and runs each admitted job as a task of its own: download the
    input, run it through the pool, check and upload the result, clean up.
    A watchdog and a health monitor supervise the jobs with timers.

    ** How asynchronous code is modelled ([Async], [Logic], [Rely])

    Node.js runs one callback at a time; a running function gives up control
    only at an [await].  An asynchronous function is a value of the
    inductive type [task]: a tree whose nodes read the shared state ([Get]),
    write it ([Put]), await an operation of the outside world ([Await], with
    a continuation for each answer, a rejection included), start another
    task without awaiting it ([Spawn]), return or throw.  [try], [catch],
    [finally] and sequencing are functions on these trees ([handle], [bind],
    [catch], [finally]); a function whose [let] variables are read by its
    [catch] or [finally] block threads them explicitly ([ltask]).

    - [run t s] is the segment of [t] from state [s] up to its first
      suspension: atomic, as the code between two [await]s is.  Awaiting a
      function of the program itself is sequencing; a suspension is an
      [await] of the outside world.  The switches between promise reactions
      that Node.js may do at an [await] of an internal call are not
      interleaving points of the model.
    - [exec ora env t s] runs [t] to its end: every operation is answered by
      the oracle [ora] (any answer of the right type, or a rejection), and
      [env] is applied to the state at every suspension: it stands for
      whatever the other tasks, timers and callbacks did meanwhile.  The
      theorems quantify over [ora] and [env]; what they need of [env] is a
      hypothesis that the statement shows.
    - [along P Q ora env t s] says that [P] holds of the state and the
      operation at every suspension of that run and [Q] at its end;
      [keeps I], [total] and [ensures] ([Logic]) are the invariant,
      no-rejection and postcondition judgements built on it, each with one
      rule per construct and a tactic that follows the text of a method
      ([keeps_auto], [total_auto]).
    - One run of [exec] answers equal operations equally and lets the other
      tasks do the same thing at every suspension.  [sure I P Qc Q t s]
      ([Async], with its rules in [Rely]) is the judgement without that
      limit: at every [await] the task goes on with any answer and from any
      state of [I], and every task it starts without [await] is judged too.
      [holds b I t] says that [t] keeps [I] in every run, [settles b I t]
      moreover (for [b = true]) that neither [t] nor a task it starts is
      rejected; [holds_auto] follows the text of a method.  [System] turns
      these judgements into facts of the event loop.
    - The operations of the outside world are the constructors of [Api.op],
      with the type of their answers ([Api.ans]).  A component works on its
      part of the state through a [Lens].

    ** The parts of the program and the files that model them

    - [Prelude] (this file): job identifiers, the JavaScript idioms the
      sources rely on ([x || d]), the errors the sources throw ([error]),
      settled promises as values ([result]), the shared tactics and hints.
    - [JsMap]: a JavaScript [Map] whose iteration order and iteration under
      deletion matter: a list of entries with tombstones.
    - [Runtime]: the clock and the timer table of Node.js ([setTimeout],
      [setInterval], [clearTimeout]), with the rule that a delay outside
      [1, 2^31-1] ms is replaced by 1 ms.  The platform, not code of the
      repository.
    - [Watchdog]: class [JobWatchdog] of src/lib/health.js.
    - [Health]: class [HealthMonitor] of src/lib/health.js; [_check] from the
      outcome of its probe on.
    - [Async]: tasks, [run], [exec], [along], [sure], lenses.
    - [Logic]: the judgements on one run, their rules and tactics.
    - [Rely]: the judgements on all runs, their rules and tactics.
    - [Api]: the requests of the runner API, the other awaited operations,
      and the types of their answers.
    - [Socket]: src/unnamed/part_002 (lib/socket-listener.js), Module
      [SocketListener]: the options of the socket and the handlers of its
      five events.
    - [Client]: class [RunnerClient] of src/lib/runner-client.js; every
      method a task on the runner token and the table of job tokens.
    - [Translator]: src/unnamed/part_001 (lib/job-translator.js).
    - [Assembler]: src/lib/result-assembler.js.
    - [Pool]: class [PoolManager] of src/lib/pool-manager.js (Module
      [PoolManager]): the pipeline of [processJob] with its [try], [catch]
      and [finally] blocks, the progress percentage on IEEE doubles,
      [cancelJob], [destroy].
    - [Stream], Module [PipeStreams]: [pipeStreams] of
      src/lib/pool-manager.js: the handlers it registers on the two
      streams, and a relation [step] for what the streams do between them.
    - [Shutdown]: [gracefulShutdown] of src/lib/health.js.
    - [Orchestrator]: class [Bridge] of src/unnamed/part_003 (lib/bridge.js),
      Module [Bridge]: the state of the whole program, [start], [poll],
      [processJob], the callbacks it hands to the watchdog and to the pool
      manager, [stop], the signal handlers, the callback of the socket, and
      the health check as the bridge runs it.
    - [Invariant]: the well-formedness of the state of the bridge
      ([state_wf]) and that every write and every task of the bridge keeps
      it.
    - [System], Module [System]: the process.  Its state is the shared
      state of the bridge, the list of suspended tasks and the list of
      rejections nobody handled; [step] has one rule per kind of event (the
      clock moves, a timer that is due runs its callback, an awaited
      operation completes with any answer, the socket emits an event, a
      signal arrives), and [deliver] computes it.  The callbacks of the
      timers are the arrow functions the sources hand to [setTimeout] and
      [setInterval] ([on_timer]); the timer of the pipeline rejects the
      promise [processJob] waits for ([reject_finalized]).
    - [Cli], Module [Cli]: cli.js (src/unnamed/part_000, from line 138): the
      early exits, [loadConfig], the commands [start], [register],
      [unregister] and [status], and the handler of [main().catch], as
      tasks on a [world] of files, console, exit code, client and bridge.
      [process.exit] ends a function with [None], which [catch] does not
      see.

    ** Data

    - [Map] and [Set] objects keyed by job UUID are stdpp's [gmap string] and
      [gset string] where the code only looks keys up, inserts and deletes;
      [PoolManager.activeJobs], which is iterated while it changes, is a
      [JsMap.jsmap].
    - Times and durations are integers in milliseconds ([Z]); JavaScript
      numbers are doubles, exact on integers below 2^53, and no quantity of
      the model approaches that bound in a run of realistic length.  The one
      place where the code divides is the progress percentage; it is
      computed with [SpecFloat] on binary64.
    - A value that may be [undefined] or [null] is an [option]; an object
      whose fields the code reads is a record.
    - What the program writes to its log and the exit of the process are
      events appended to a field of the state ([Bridge.log]).

    ** What the theorems show

    - [Runtime], [Watchdog]: timers fire only when due and once; the
      watchdog and the timer table stay well-formed along every sequence of
      calls, firings and clock ticks ([wd_run_wf]); after [watch] or [kick]
      the callback is delivered at most once and not before the timeout
      ([watch_timeout_guarantee], [kick_timeout_guarantee]); [watch] on a
      watched job stacks a second timer ([rewatch_stacks]).
    - [Health]: the flag is down exactly while the streak is at or above
      the threshold, along every sequence of probes ([hm_run_inv],
      [failure_hysteresis]).
    - [Client]: the keys of [jobTokens] refine the abstract set of held
      jobs ([calls_refine_spec]); a final report consumes the token exactly
      when it succeeds and cannot be repeated; a report without a usable
      token sends nothing.
    - [Translator], [Assembler]: [translateJob] and [prepareResult] accept
      exactly what their checks describe and throw the error of the first
      failed check.
    - [Pool]: every path of [processJob] destroys the pool and deletes the
      entry ([processJob_teardown]); a run that succeeds made the thirteen
      calls of the pipeline in order ([processJob_sequence]); the temp
      directory of a failed run is left behind ([processJob_keeps_tempDir]);
      the percentage on doubles is within one point of the linear formula
      ([progress_pct_checked]).
    - [Shutdown]: the hard timer is disarmed on every path; only jobs with
      a usable token are reported.
    - [Pool], [Shutdown], [Orchestrator]: with a fuel of the length of the
      table and no entry added meanwhile, the loops over the live [Map]
      visit every entry ([destroy_finishes], [stop_finishes]), and the loop
      of [destroy], whose body deletes the entry it stands on, is the loop
      over the keys the table had ([cancel_all_snapshot]).
    - [Orchestrator]: every job [processJob] takes comes to an end
      ([processJob_settles]); [poll] accepts only jobs that are listed,
      supported, not failed before and under the limit
      ([poll_accepts_admissible]); the number of active jobs stays within
      the limit during one poll cycle ([poll_admission_bound]) and not
      across polls that overlap: from every state below the limit, two
      polls that are each offered a job admit both
      ([overlapping_polls]).  A job that passes the checks of [poll] is
      accepted and its task started, whether or not it is active already
      ([poll_accepts_listed]).  A paused poll does nothing and [stop]
      pauses for good ([poll_paused], [stop_halts]).  When the swarm or
      the store fails to close, the signal handler is rejected before it
      unregisters the runner and without ending the process, in every run
      ([shutdown_close_fails]).  The progress timer re-arms the watchdog
      whether or not there was progress ([progress_rearms_watchdog]).  The
      examples at the end of the file run a job from admission to upload,
      and a job whose segmentation fails.
    - [Invariant], [System]: every state the process can reach is
      well-formed ([reachable_typed]); as long as no signal arrives no
      promise is rejected without a handler ([no_unhandled_rejection]);
      a task that runs alone in the event loop runs as [exec] says
      ([alone_exec], a fact of the model that links the two ways of
      running a task).  The examples deliver whole sequences of events by
      computation: a pool that times out (Scenario B of the design), a
      pool that makes no progress under a short watchdog, a shutdown, a
      shutdown whose swarm fails to close (the rejection of the handler is
      unhandled), a job that is accepted twice.
    - [Stream]: a resolved promise means that every chunk was written, in
      order ([resolved_writes_all]); without a failure the copy is never
      stuck and ends within a bound ([pipe_finishes]); the queue holds at
      most one chunk beyond the high-water mark ([queue_bounded]); a reader
      that fails leaves the writer open
      ([reader_error_leaves_writer_open]).
    - [Cli]: the exit status on every path ([cli_exits]); only [register]
      writes a file ([only_register_writes]); the token [register] writes
      is the token [start] runs with ([register_then_start]); [start] ends
      in the first state of the event loop ([cli_start_boots]).

    ** Bounds and fuel

    - The loops of [PoolManager.destroy] and [gracefulShutdown] iterate over
      a [Map] that other tasks change while the loop awaits.  They are
      [Fixpoint]s on a fuel, the number of entries the iterator may visit;
      the result of the task says whether the loop came to its end, so a
      run that uses up its fuel is told apart from one that finished.  The
      safety theorems about them hold for every fuel; [destroy_finishes]
      and [stop_finishes] show that a fuel of the length of the table (its
      entries, emptied ones included) is enough when no other task adds an
      entry while the loop runs, and [System.signalled] takes the fuel as
      an argument of the event.
    - The scenarios of [System] are finite sequences of events delivered by
      [deliver_all]; [orderly] checks that their timers run in the order in
      which they are due, as Node.js runs them.  The theorems of [System]
      are about every sequence [step] allows, orderly or not.
    - [PipeStreams.todo] bounds the events of a copy in which no stream
      fails: two per chunk at the reader, one per chunk in the queue, the
      end and the finish.
    - [progress_pct_checked] is proved by evaluation for pools of up to 64
      segments ([max_checked_segments]); the pools of the program have a
      few segments per minute of video.

    ** Not modelled

    In [Pool] a call of [pipeStreams] is one awaited operation
    ([PipeToDrive], [PipeFromDrive]); [Stream] models the function by
    itself, and the streams around it as Node.js documents them (the
    streams of Hyperdrive are taken to behave alike).  The socket.io
    transport, [util.parseArgs], [path.resolve] and
    [JSON.parse]: the model starts from the events of the socket, the parsed
    arguments and the parsed configuration.  A configuration is taken to
    hold numbers in [polling.intervalMs] and [polling.maxConcurrentJobs]
    (the code reads them without a default).  The bodies of HTTP messages
    beyond the fields the code reads, URLs and headers, the texts of log and
    error messages and of the usage, the README that shares a source file
    with cli.js, the supernovao library, hyperswarm and ffmpeg: their calls are awaited
    operations whose outcomes are arguments.  The switches between promise
    reactions at an [await] of a function of the program itself are not
    interleaving points: a segment of a task runs to its next [await] of the
    outside world.

    ** Where the model is coarser than the code

    - [Client]: [await fetch(...)] and the [await res.json()] that follows
      are one suspension, whose answer holds the status and the parsed
      body; [await res.text()], which only feeds the text of an error
      message, is left out.  The model has fewer points at which other
      tasks can run, and the same outcomes.
    - [Pool]: [new Pool(...)] does not throw, and the list of segments is
      what the operation [Segment] answers.  The promise that waits for
      ['finalized'] can be rejected by the oracle with any error, where
      the code rejects it only from its timer; [System.from_outside]
      restricts the event loop to the code's case.  The number of
      completed segments the progress timer reads is an argument of the
      event; for the natural numbers it ranges over, the percentage is a
      number and the branch of [progress_tick] without one is not taken.
      The theorems on [processJob] are about the progress callback the
      bridge passes, which does not throw (it is a [callback_of]).
    - [Cli]: [require('./package.json')] and [fs.writeFileSync] succeed.
    - [Stream]: the two streams behave as Node.js documents its streams;
      a flush moves the whole queue of the writer at once.
    - [Orchestrator]: [polling.intervalMs] and [polling.maxConcurrentJobs]
      are numbers; what the code does when they are absent is recorded
      as a finding and not modelled. *)

From Stdlib Require Export ZArith Lia.
From stdpp Require Export base tactics option list gmap strings.

#[global] Open Scope string_scope.
#[global] Open Scope list_scope.
#[global] Open Scope Z_scope.

(** ** Identifiers *)

(** A job UUID, as PeerTube sends it. *)
Abbreviation job_id := string (only parsing).

(** ** JavaScript idioms *)

(** [x || d] on a number that may be [undefined]: [undefined] and [0] are
    falsy. *)
Definition js_or (x : option Z) (d : Z) : Z :=
  match x with
  | Some v => if decide (v = 0) then d else v
  | None => d
  end.

(** [x || d] on a string that may be [undefined]: the empty string is
    falsy. *)
Definition js_or_str (x : option string) (d : string) : string :=
  match x with
  | Some v => if decide (v = "") then d else v
  | None => d
  end.

(** [!x] on a string that may be [undefined]. *)
Definition js_falsy_str (x : option string) : bool :=
  match x with
  | Some v => bool_decide (v = "")
  | None => true
  end.

(** [res.ok] of the Fetch API: the status is in the range 200-299. *)
Definition http_ok (status : Z) : bool :=
  bool_decide (200 ≤ status) && bool_decide (status ≤ 299).

(** ** Errors *)

(** The REST operations of [RunnerClient], used to tag transport errors. *)
Inductive api_op : Type :=
| OpRegister | OpUnregister | OpRequestJob | OpAcceptJob
| OpUpdateJob | OpPostSuccess | OpPostError | OpAbortJob.

(** One constructor per [throw] site of the sources, carrying the data the
    message interpolates.  [EBadJson] is the rejection of [res.json()] on a
    body that is not JSON, [ETypeError] the error of reading a property of
    [undefined], and [EExternal] an error raised by a library call ([fetch],
    [fs], supernovao, ffprobe), known only by its message. *)
Inductive error : Type :=
| ENoRunnerToken
| ENoJobToken (id : job_id)
| EApi (op : api_op) (status : Z)
| EUnsupportedType (ty : string)
| EInputMissing (ty : string)
| EOutputMissing (ty : string)
| EDownloadFailed (status : Z)
| EPoolNotReady
| EPoolTimeout (ms : Z)
| EOutputFileMissing (path : string)
| EOutputFileEmpty (path : string)
| EProbeFailed (path : string)
| ENoStreams (path : string)
| EBadJson
| ETypeError
| EExternal (msg : string).

(** The taxonomy of errors of the design. *)
Inductive error_class : Type :=
| Transport | Timeout | Validation | Other.

Definition classify (e : error) : error_class :=
  match e with
  | EApi _ _ | EDownloadFailed _ | ENoJobToken _ => Transport
  | EPoolTimeout _ => Timeout
  | EUnsupportedType _ | EInputMissing _ | EOutputMissing _
  | EOutputFileMissing _ | EOutputFileEmpty _ | EProbeFailed _
  | ENoStreams _ | EPoolNotReady | ENoRunnerToken => Validation
  | EBadJson | ETypeError | EExternal _ => Other
  end.

#[global] Instance api_op_eq_dec : EqDecision api_op.
Proof. solve_decision. Defined.

#[global] Instance error_eq_dec : EqDecision error.
Proof. solve_decision. Defined.

#[global] Instance error_class_eq_dec : EqDecision error_class.
Proof. solve_decision. Defined.

(** ** Results: a returned value or a thrown error *)

Inductive result (A : Type) : Type :=
| Ok (a : A)
| Err (e : error).

Arguments Ok {A} a.
Arguments Err {A} e.

Definition res_bind {A B} (m : result A) (k : A → result B) : result B :=
  match m with
  | Ok a => k a
  | Err e => Err e
  end.

Definition is_ok {A} (m : result A) : bool :=
  match m with Ok _ => true | Err _ => false end.

(** [try { m } catch (e) { h e }]. *)
Definition res_catch {A} (m : result A) (h : error → result A) : result A :=
  match m with
  | Ok a => Ok a
  | Err e => h e
  end.

(** ** Automation *)

Create HintDb bridge discriminated.
Create Rewrite HintDb bridge_rw.

(** Case analysis on the first [match], [if] or [decide] of the goal. *)
Ltac case_step :=
  first [ case_decide | case_bool_decide | case_match ];
  simplify_eq; simpl in *; try (done || lia).

Ltac case_steps := repeat case_step.

(** Turn boolean tests of the code into propositions, in the context and
    in the goal. *)
Ltac boolify :=
  repeat match goal with
  | H : _ && _ = true |- _ => apply andb_true_iff in H; destruct H
  | H : _ && _ = false |- _ => apply andb_false_iff in H
  | H : bool_decide _ = true |- _ => apply bool_decide_eq_true_1 in H
  | H : bool_decide _ = false |- _ => apply bool_decide_eq_false_1 in H
  | H : negb _ = true |- _ => apply negb_true_iff in H
  | H : negb _ = false |- _ => apply negb_false_iff in H
  | |- _ && _ = true => apply andb_true_iff; split
  | |- bool_decide _ = true => apply bool_decide_eq_true_2
  | |- bool_decide _ = false => apply bool_decide_eq_false_2
  end.

(** ** Shared lemmas *)

Section results.
Context {A B : Type}.

Lemma res_bind_ok (m : result A) (k : A → result B) b :
  res_bind m k = Ok b ↔ ∃ a, m = Ok a ∧ k a = Ok b.
Proof. destruct m; naive_solver. Qed.

Lemma res_bind_err (m : result A) (k : A → result B) e :
  res_bind m k = Err e ↔ m = Err e ∨ ∃ a, m = Ok a ∧ k a = Err e.
Proof. destruct m; naive_solver. Qed.

Lemma res_catch_ok_total (m : result A) (h : error → result A) :
  (∀ e, is_ok (h e) = true) → is_ok (res_catch m h) = true.
Proof. destruct m; simpl; auto. Qed.

End results.

Section js.

Lemma js_or_nonzero x d : d ≠ 0 → js_or x d ≠ 0.
Proof. unfold js_or; intros; case_steps. Qed.

Lemma js_or_some x d v : x = Some v → v ≠ 0 → js_or x d = v.
Proof. intros -> ?; unfold js_or; case_steps. Qed.

Lemma js_or_pos x d : 0 < d → (∀ v, x = Some v → 0 ≤ v) → 0 < js_or x d.
Proof.
  unfold js_or; intros Hd Hx; destruct x as [v|]; [|done].
  specialize (Hx v eq_refl); case_steps; lia.
Qed.

Lemma http_ok_spec status : http_ok status = true ↔ 200 ≤ status ≤ 299.
Proof.
  unfold http_ok; rewrite andb_true_iff, !bool_decide_eq_true; lia.
Qed.

End js.

Section maps.
Context {V : Type}.
Implicit Types (m : gmap string V) (k : string) (v : V).

Lemma size_insert_fresh m k v :
  m !! k = None → size (<[k:=v]> m) = S (size m).
Proof. apply map_size_insert_None. Qed.

Lemma size_insert_le m k v : (size (<[k:=v]> m) ≤ S (size m))%nat.
Proof. rewrite map_size_insert; destruct (m !! k); simpl; lia. Qed.

Lemma size_delete_le m k : (size (delete k m) ≤ size m)%nat.
Proof. rewrite map_size_delete; destruct (m !! k); simpl; lia. Qed.

Lemma size_delete_present m k v :
  m !! k = Some v → S (size (delete k m)) = size m.
Proof.
  intros Hk; rewrite map_size_delete, Hk; simpl.
  assert (size m ≠ 0%nat); [|lia].
  intros ->%map_size_empty_inv; simplify_map_eq.
Qed.

Lemma delete_absent m k : m !! k = None → delete k m = m.
Proof. apply delete_id. Qed.

End maps.

#[export] Hint Resolve size_insert_le size_delete_le : bridge.
#[export] Hint Rewrite @lookup_insert_eq @lookup_delete_eq @lookup_empty : bridge_rw.
