(* ===== verification/JsMap.v ===== *)
(** * JsMap: a JavaScript [Map] whose order of iteration matters

    A [Map] iterates in insertion order, and its iterators are live: a loop
    that awaits in its body sees the entries that other tasks add meanwhile
    and skips those they delete.  ECMAScript specifies it with a list of
    entries in which [delete] empties an entry in place and [set] of a new
    key appends; an iterator is an index into that list.  [jsmap] is that
    list.

    The tables of the sources that are never iterated are [gmap]s; [jm_map]
    is the [gmap] a [jsmap] stands for. *)

From S2P Require Import Prelude.

Abbreviation jsmap V := (list (option (job_id * V))).

Section jsmap.
Context {V : Type}.
Implicit Types m : jsmap V.

(** [map.get(k)] *)
Fixpoint jm_get (k : job_id) (m : jsmap V) : option V :=
  match m with
  | [] => None
  | Some (k', v) :: m' => if decide (k' = k) then Some v else jm_get k m'
  | None :: m' => jm_get k m'
  end.

(** [map.has(k)] *)
Definition jm_has (k : job_id) (m : jsmap V) : bool := bool_decide (is_Some (jm_get k m)).

(** [map.set(k, v)]: in place when the key is present, appended when not. *)
Fixpoint jm_set (k : job_id) (v : V) (m : jsmap V) : jsmap V :=
  match m with
  | [] => [Some (k, v)]
  | Some (k', v') :: m' =>
      if decide (k' = k) then Some (k, v) :: m' else Some (k', v') :: jm_set k v m'
  | None :: m' => None :: jm_set k v m'
  end.

(** [map.delete(k)]: the entry of [k] is emptied, the others keep their
    place.  A [Map] has at most one entry per key; the list is not
    constrained, so every entry of [k] is emptied. *)
Fixpoint jm_delete (k : job_id) (m : jsmap V) : jsmap V :=
  match m with
  | [] => []
  | Some (k', v') :: m' =>
      (if decide (k' = k) then None else Some (k', v')) :: jm_delete k m'
  | None :: m' => None :: jm_delete k m'
  end.

(** The entries in the order of iteration. *)
Definition jm_entries (m : jsmap V) : list (job_id * V) := omap id m.

(** [map.size] *)
Definition jm_size (m : jsmap V) : nat := length (jm_entries m).

(** The step of an iterator that stands at index [i]: the first entry at
    or after [i] that is not empty, with its index. *)
Fixpoint first_live (j : nat) (m : jsmap V) : option (nat * job_id * V) :=
  match m with
  | [] => None
  | Some (k, v) :: _ => Some (j, k, v)
  | None :: m' => first_live (S j) m'
  end.

Definition jm_next (i : nat) (m : jsmap V) : option (nat * job_id * V) :=
  first_live i (drop i m).

(** The finite map a [jsmap] stands for. *)
Definition jm_map (m : jsmap V) : gmap job_id V := list_to_map (jm_entries m).

(** No key has two entries. *)
Definition jm_wf (m : jsmap V) : Prop := NoDup (jm_entries m).*1.

End jsmap.

(** * Facts *)

Section jsmap_facts.
Context {V : Type}.
Implicit Types (m : jsmap V) (k : job_id) (v : V).

Lemma jm_get_map k m : jm_get k m = jm_map m !! k.
Proof.
  unfold jm_map; induction m as [|[[k' v']|] m IH]; simpl; [done| |done].
  rewrite lookup_insert; case_decide; simplify_eq/=; done.
Qed.

Lemma jm_keys_map k m : k ∈ (jm_entries m).*1 ↔ is_Some (jm_map m !! k).
Proof.
  unfold jm_map; rewrite <-elem_of_dom, dom_list_to_map_L, elem_of_list_to_set; done.
Qed.

Lemma jm_entries_set_in k v m :
  k ∈ (jm_entries m).*1 →
  (jm_entries (jm_set k v m)).*1 = (jm_entries m).*1.
Proof.
  induction m as [|[[k' v']|] m IH]; simpl; [by intros ?%elem_of_nil| |done].
  case_decide; simplify_eq/=; [done|].
  intros [?|?]%elem_of_cons; [done|]; f_equal; auto.
Qed.

Lemma jm_entries_set_notin k v m :
  k ∉ (jm_entries m).*1 →
  jm_entries (jm_set k v m) = jm_entries m ++ [(k, v)].
Proof.
  induction m as [|[[k' v']|] m IH]; simpl; [done| |done].
  case_decide; simplify_eq/=; [by intros []; left|].
  intros Hk; f_equal; apply IH; intros ?; apply Hk; by right.
Qed.

Lemma jm_map_set k v m : jm_map (jm_set k v m) = <[k:=v]> (jm_map m).
Proof.
  unfold jm_map; induction m as [|[[k' v']|] m IH]; simpl; [done| |done].
  case_decide; simplify_eq/=; [by rewrite insert_insert_eq|].
  by rewrite IH, insert_insert_ne.
Qed.

Lemma jm_map_delete k m : jm_map (jm_delete k m) = delete k (jm_map m).
Proof.
  unfold jm_map; induction m as [|[[k' v']|] m IH]; simpl;
    [by rewrite delete_empty| |done].
  case_decide; simplify_eq/=.
  - by rewrite IH, delete_insert_eq.
  - by rewrite IH, delete_insert_ne.
Qed.

Lemma jm_get_set k k' v m :
  jm_get k' (jm_set k v m) = if decide (k = k') then Some v else jm_get k' m.
Proof. by rewrite !jm_get_map, jm_map_set, lookup_insert. Qed.

Lemma jm_get_delete k k' m :
  jm_get k' (jm_delete k m) = if decide (k = k') then None else jm_get k' m.
Proof. by rewrite !jm_get_map, jm_map_delete, lookup_delete. Qed.

Lemma jm_set_wf k v m : jm_wf m → jm_wf (jm_set k v m).
Proof.
  unfold jm_wf; intros Hm.
  destruct (decide (k ∈ (jm_entries m).*1)) as [Hk|Hk].
  - by rewrite jm_entries_set_in.
  - rewrite jm_entries_set_notin, fmap_app by done; simpl.
    apply NoDup_app; split_and!; [done| |apply NoDup_singleton].
    intros k' ? ->%list_elem_of_singleton; done.
Qed.

Lemma jm_entries_delete k m :
  jm_entries (jm_delete k m) `sublist_of` jm_entries m.
Proof.
  induction m as [|[[k' v']|] m IH]; simpl; [done| |done].
  case_decide; simpl; [by apply sublist_cons|by apply sublist_skip].
Qed.

Lemma jm_delete_wf k m : jm_wf m → jm_wf (jm_delete k m).
Proof.
  unfold jm_wf; intros Hm; eapply sublist_NoDup; [done|].
  apply fmap_sublist, jm_entries_delete.
Qed.

Lemma jm_size_delete k m : (jm_size (jm_delete k m) ≤ jm_size m)%nat.
Proof. apply sublist_length, jm_entries_delete. Qed.

Lemma jm_delete_length k m : length (jm_delete k m) = length m.
Proof.
  induction m as [|[[k' v']|] m IH]; simpl; by f_equal.
Qed.

(** An iterator finds an entry exactly when one is left at or after its
    index, and then moves forward. *)
Lemma first_live_Some j m i k v :
  first_live j m = Some (i, k, v) → (j ≤ i < j + length m)%nat ∧ m !! (i - j)%nat = Some (Some (k, v)).
Proof.
  revert j; induction m as [|[[k' v']|] m IH]; intros j; simpl; [done| |].
  - intros; simplify_eq; split; [lia|by rewrite Nat.sub_diag].
  - intros [? Hi]%IH; split; [lia|].
    replace (i - j)%nat with (S (i - S j)) by lia; done.
Qed.

Lemma jm_next_Some i m j k v :
  jm_next i m = Some (j, k, v) → (i ≤ j < length m)%nat ∧ m !! j = Some (Some (k, v)).
Proof.
  unfold jm_next; intros [Hj Hl]%first_live_Some.
  rewrite lookup_drop in Hl; rewrite length_drop in Hj.
  replace (i + (j - i))%nat with j in Hl by lia; split; [lia|done].
Qed.

(** An iterator that stands past the end of the table finds nothing. *)
Lemma jm_next_past i m : (length m ≤ i)%nat → jm_next i m = None.
Proof. intros; unfold jm_next; by rewrite drop_ge. Qed.

(** ** The iterator and the entries

    What an iterator that stands at [i] has still to visit in a table that
    does not change is [jm_entries (drop i m)]. *)
Lemma first_live_None j m : first_live j m = None ↔ jm_entries m = [].
Proof. revert j; induction m as [|[[k v]|] m IH]; intros j; simpl; [done..|apply IH]. Qed.

Lemma first_live_entries j0 m j k v :
  first_live j0 m = Some (j, k, v) →
  jm_entries m = (k, v) :: jm_entries (drop (S (j - j0)) m).
Proof.
  revert j0; induction m as [|[[k' v']|] m IH]; intros j0; simpl; [done| |].
  - intros; simplify_eq; by rewrite Nat.sub_diag.
  - intros Hf; pose proof (first_live_Some _ _ _ _ _ Hf) as [? _].
    rewrite (IH _ Hf); by replace (j - j0)%nat with (S (j - S j0)) by lia.
Qed.

Lemma jm_next_None i m : jm_next i m = None ↔ jm_entries (drop i m) = [].
Proof. apply first_live_None. Qed.

Lemma jm_next_entries i m j k v :
  jm_next i m = Some (j, k, v) →
  jm_entries (drop i m) = (k, v) :: jm_entries (drop (S j) m).
Proof.
  intros Hn; pose proof (jm_next_Some _ _ _ _ _ Hn) as [? _].
  rewrite (first_live_entries _ _ _ _ _ Hn), drop_drop; do 3 f_equal; lia.
Qed.

(** Deleting a key that has no entry changes nothing, and deleting the
    entry at [j] leaves the entries after it as they are. *)
Lemma jm_delete_absent k m : k ∉ (jm_entries m).*1 → jm_delete k m = m.
Proof.
  induction m as [|[[k' v']|] m IH]; simpl; [done| |by intros ->%IH].
  rewrite not_elem_of_cons; intros [? ->%IH]; by rewrite decide_False.
Qed.

Lemma jm_delete_after k v j m :
  jm_wf m → m !! j = Some (Some (k, v)) → drop (S j) (jm_delete k m) = drop (S j) m.
Proof.
  unfold jm_wf; revert j; induction m as [|[[k' v']|] m IH]; intros [|j]; simpl; try done.
  - intros [? _]%NoDup_cons [= -> ->]; by rewrite jm_delete_absent.
  - intros [_ ?]%NoDup_cons ?; by apply IH.
  - by apply IH.
Qed.

End jsmap_facts.
