(* ===== verification/Runtime.v ===== *)
(** * Runtime: the clock and the timer table of Node.js

    The sources never compute with time themselves: they read the clock with
    [Date.now()] and ask the runtime to call them back ([setTimeout],
    [setInterval]).  This file is the model of that part of the platform,
    shared by [Watchdog], [Health] and the components built on them.

    A timer is an entry of a table keyed by its handle; the handle is a
    fresh number, the entry holds the time at which the timer is due, the
    period when it repeats, and what to run (a value of the parameter [P],
    chosen by the component that arms the timer).  The event loop may run a
    timer at any moment at or after its due time: [fire] is enabled from
    then on, and nothing forces it to happen at once.

    Node.js replaces a delay that is not in [1, 2^31-1] by 1 ms
    ([clamp_delay]). *)

From S2P Require Import Prelude.

Abbreviation timer_id := nat (only parsing).

Section runtime.
Context {P : Type}.

Record timer : Type := Timer {
  t_due : Z;
  t_every : option Z;
  t_cb : P
}.

Record runtime : Type := Rt {
  now : Z;
  next_timer : timer_id;
  timers : gmap timer_id timer
}.

Definition TIMEOUT_MAX : Z := 2147483647.

Definition clamp_delay (ms : Z) : Z :=
  if bool_decide (1 ≤ ms ≤ TIMEOUT_MAX) then ms else 1.

Definition rt_init (t0 : Z) : runtime := Rt t0 0 ∅.

Definition arm (tm : timer) (rt : runtime) : timer_id * runtime :=
  (next_timer rt,
   Rt (now rt) (S (next_timer rt)) (<[next_timer rt := tm]> (timers rt))).

Definition setTimeout (cb : P) (ms : Z) (rt : runtime) : timer_id * runtime :=
  arm (Timer (now rt + clamp_delay ms) None cb) rt.

Definition setInterval (cb : P) (ms : Z) (rt : runtime) : timer_id * runtime :=
  arm (Timer (now rt + clamp_delay ms) (Some (clamp_delay ms)) cb) rt.

(** [clearTimeout] and [clearInterval] are the same operation; a handle
    that is not in the table is ignored. *)
Definition clearTimeout (t : timer_id) (rt : runtime) : runtime :=
  Rt (now rt) (next_timer rt) (delete t (timers rt)).

Definition clearInterval := clearTimeout.

(** The clock moves forward by [d] ms. *)
Definition advance (d : Z) (rt : runtime) : runtime :=
  Rt (now rt + Z.max 0 d) (next_timer rt) (timers rt).

Definition due (t : timer_id) (rt : runtime) : bool :=
  match timers rt !! t with
  | Some tm => bool_decide (t_due tm ≤ now rt)
  | None => false
  end.

(** The event loop runs timer [t]: a one-shot timer leaves the table, a
    repeating one is due again one period later. *)
Definition fire (t : timer_id) (rt : runtime) : option (P * runtime) :=
  match timers rt !! t with
  | Some tm =>
      if bool_decide (t_due tm ≤ now rt) then
        Some (t_cb tm,
              Rt (now rt) (next_timer rt)
                 match t_every tm with
                 | Some p => <[t := Timer (now rt + p) (Some p) (t_cb tm)]> (timers rt)
                 | None => delete t (timers rt)
                 end)
      else None
  | None => None
  end.

(** Handles in the table were all handed out already. *)
Definition rt_wf (rt : runtime) : Prop :=
  ∀ t tm, timers rt !! t = Some tm → (t < next_timer rt)%nat.

(** What every operation on the table does to the handles: the table stays
    well-formed and no handle that was handed out is handed out again. *)
Definition rt_grows (rt rt' : runtime) : Prop :=
  (rt_wf rt → rt_wf rt') ∧ (next_timer rt ≤ next_timer rt')%nat.

End runtime.

Arguments timer : clear implicits.
Arguments runtime : clear implicits.

(** ** The callbacks the program hands to the timers

    One constructor per arrow function passed to [setTimeout] or
    [setInterval] in the sources, with the variables it closes over.  [C] is
    the type of the [onTimeout] argument of [JobWatchdog.watch]. *)
Inductive callback (C : Type) : Type :=
| CbWatchdog (id : job_id) (onTimeout : C)
| CbHealthCheck
| CbPoll
| CbPoolProgress (id : job_id) (totalSegs : nat)
| CbPoolTimeout (id : job_id) (ms : Z)
| CbHardShutdown.

Arguments CbWatchdog {C} id onTimeout.
Arguments CbHealthCheck {C}.
Arguments CbPoll {C}.
Arguments CbPoolProgress {C} id totalSegs.
Arguments CbPoolTimeout {C} id ms.
Arguments CbHardShutdown {C}.

#[global] Instance callback_eq_dec `{EqDecision C} : EqDecision (callback C).
Proof. solve_decision. Defined.

(** * Facts *)

Section runtime_facts.
Context {P : Type}.
Implicit Types (rt : runtime P) (tm : timer P) (t : timer_id) (cb : P).

(** ** Delays *)

Lemma clamp_delay_range ms : 1 ≤ clamp_delay ms ≤ TIMEOUT_MAX.
Proof. unfold clamp_delay, TIMEOUT_MAX in *; case_steps. Qed.

Lemma clamp_delay_id ms : 1 ≤ ms ≤ TIMEOUT_MAX → clamp_delay ms = ms.
Proof. unfold clamp_delay; intros; case_steps. Qed.

Lemma clamp_delay_out ms : ms < 1 ∨ TIMEOUT_MAX < ms → clamp_delay ms = 1.
Proof. unfold clamp_delay; intros; case_steps; lia. Qed.

Lemma clamp_delay_idem ms : clamp_delay (clamp_delay ms) = clamp_delay ms.
Proof. apply clamp_delay_id, clamp_delay_range. Qed.

(** ** The table *)

Lemma arm_fresh tm rt : rt_wf rt → timers rt !! (arm tm rt).1 = None.
Proof.
  intros Hwf; simpl; destruct (timers rt !! next_timer rt) eqn:E; [|done].
  apply Hwf in E; lia.
Qed.

Lemma arm_lookup tm rt : timers (arm tm rt).2 !! (arm tm rt).1 = Some tm.
Proof. apply lookup_insert_eq. Qed.

Lemma arm_lookup_ne tm rt t :
  t ≠ (arm tm rt).1 → timers (arm tm rt).2 !! t = timers rt !! t.
Proof. intros; simpl; by rewrite lookup_insert_ne. Qed.

Lemma arm_wf tm rt : rt_wf rt → rt_wf (arm tm rt).2.
Proof.
  intros Hwf t tm'; simpl; rewrite lookup_insert.
  case_decide; [intros; simplify_eq; lia|intros ?%Hwf; lia].
Qed.

Lemma arm_now tm rt : now (arm tm rt).2 = now rt.
Proof. done. Qed.

Lemma arm_next tm rt : next_timer (arm tm rt).2 = S (arm tm rt).1.
Proof. done. Qed.

Lemma clearTimeout_wf t rt : rt_wf rt → rt_wf (clearTimeout t rt).
Proof.
  intros Hwf t' tm; simpl; rewrite lookup_delete.
  case_decide; [done|apply Hwf].
Qed.

Lemma clearTimeout_lookup t rt : timers (clearTimeout t rt) !! t = None.
Proof. apply lookup_delete_eq. Qed.

Lemma clearTimeout_lookup_ne t t' rt :
  t ≠ t' → timers (clearTimeout t rt) !! t' = timers rt !! t'.
Proof. intros; simpl; by rewrite lookup_delete_ne. Qed.

Lemma clearTimeout_idem t rt :
  clearTimeout t (clearTimeout t rt) = clearTimeout t rt.
Proof. unfold clearTimeout; simpl; f_equal; apply delete_delete_eq. Qed.

Lemma clearTimeout_absent t rt :
  timers rt !! t = None → clearTimeout t rt = rt.
Proof. destruct rt; unfold clearTimeout; simpl; intros; f_equal; by apply delete_id. Qed.

Lemma advance_wf d rt : rt_wf rt → rt_wf (advance d rt).
Proof. done. Qed.

Lemma advance_mono d rt : now rt ≤ now (advance d rt).
Proof. simpl; lia. Qed.

(** ** Firing *)

Lemma fire_Some t rt cb rt' :
  fire t rt = Some (cb, rt') →
  ∃ tm, timers rt !! t = Some tm ∧ t_due tm ≤ now rt ∧ cb = t_cb tm
        ∧ now rt' = now rt ∧ next_timer rt' = next_timer rt.
Proof. unfold fire; intros; case_steps; eauto 10. Qed.

Lemma fire_due t rt : is_Some (fire t rt) ↔ due t rt = true.
Proof.
  unfold fire, due; destruct (timers rt !! t) as [tm|]; [|by split; [intros []|]].
  case_bool_decide; split; intros; try done; by destruct H0.
Qed.

Lemma fire_once t rt cb rt' tm :
  timers rt !! t = Some tm → t_every tm = None →
  fire t rt = Some (cb, rt') → timers rt' !! t = None ∧ fire t rt' = None.
Proof.
  unfold fire at 1; intros Ht Hone Hf; rewrite Ht, Hone in Hf.
  case_bool_decide; simplify_eq.
  split; [apply lookup_delete_eq|unfold fire; simpl; by rewrite lookup_delete_eq].
Qed.

Lemma fire_other t t' rt cb rt' :
  t ≠ t' → fire t rt = Some (cb, rt') → timers rt' !! t' = timers rt !! t'.
Proof.
  unfold fire; intros; case_steps; by rewrite ?lookup_insert_ne, ?lookup_delete_ne.
Qed.

Lemma fire_wf t rt cb rt' : rt_wf rt → fire t rt = Some (cb, rt') → rt_wf rt'.
Proof.
  unfold fire; intros Hwf Hf t' tm'; case_steps.
  - rewrite lookup_insert; case_decide; [|apply Hwf].
    intros; simplify_eq; eauto.
  - rewrite lookup_delete; case_decide; [done|apply Hwf].
Qed.

Lemma fire_cleared t rt : fire t (clearTimeout t rt) = None.
Proof. unfold fire; by rewrite clearTimeout_lookup. Qed.

(** A timer armed with [setTimeout] cannot run before its delay has
    passed. *)
Lemma setTimeout_not_due cb ms rt :
  rt_wf rt → due (setTimeout cb ms rt).1 (setTimeout cb ms rt).2 = false.
Proof.
  intros; unfold due, setTimeout; rewrite arm_lookup; simpl.
  pose proof (clamp_delay_range ms); boolify; lia.
Qed.

(** ** The handles *)

Lemma rt_grows_refl rt : rt_grows rt rt.
Proof. by split. Qed.

Lemma rt_grows_trans rt1 rt2 rt3 : rt_grows rt1 rt2 → rt_grows rt2 rt3 → rt_grows rt1 rt3.
Proof. intros [??] [??]; split; [auto|lia]. Qed.

Lemma arm_grows tm rt : rt_grows rt (arm tm rt).2.
Proof. split; [apply arm_wf|simpl; lia]. Qed.

Lemma arm_handle tm rt : ((arm tm rt).1 < next_timer (arm tm rt).2)%nat.
Proof. simpl; lia. Qed.

Lemma clearTimeout_grows t rt : rt_grows rt (clearTimeout t rt).
Proof. split; [apply clearTimeout_wf|done]. Qed.

Lemma advance_grows d rt : rt_grows rt (advance d rt).
Proof. by split. Qed.

Lemma fire_grows t rt cb rt' : fire t rt = Some (cb, rt') → rt_grows rt rt'.
Proof.
  intros Hf; split; [intros; by eapply fire_wf|].
  apply fire_Some in Hf as (? & _ & _ & _ & _ & ->); done.
Qed.

End runtime_facts.

#[export] Hint Resolve arm_wf clearTimeout_wf advance_wf fire_wf : bridge.
#[export] Hint Rewrite @arm_lookup @clearTimeout_lookup @arm_now : bridge_rw.
