(* ===== verification/Watchdog.v ===== *)
(** * Watchdog: class [JobWatchdog] of src/lib/health.js

    The watchdog keeps one entry per watched job: the handle of the armed
    timer, the callback to run on expiry and the time at which the watch
    began.  Its operations arm and clear timers of the runtime, so each of
    them is a function on the pair of the watchdog and the runtime.

    The file gives the operations ([watch], [kick], [clear], [clearAll],
    [elapsed]), the well-formedness invariant of the pair ([wd_wf]) and its
    preservation, the behaviour of each operation on every branch, and the
    consequences for timing: a kicked job cannot expire before a full
    timeout has passed, and [watch] on a job that is already watched leaves
    the earlier timer armed. *)

From S2P Require Import Prelude Runtime.

Section watchdog.
Context {C : Type}.

Record wd_entry : Type := WdEntry {
  timer : timer_id;
  onTimeout : C;
  startTime : Z
}.

Record watchdog : Type := Wd {
  timeoutMs : Z;
  jobs : gmap job_id wd_entry
}.

Abbreviation rt := (runtime (callback C)).
Abbreviation wd_state := (watchdog * rt)%type.

(** [constructor(timeoutMs)] *)
Definition wd_new (cfg : option Z) : watchdog :=
  Wd (js_or cfg 3600000) ∅.

(** [watch(jobUUID, onTimeout)] *)
Definition watch (id : job_id) (cb : C) (s : wd_state) : wd_state :=
  let '(t, r) := setTimeout (CbWatchdog id cb) (timeoutMs s.1) s.2 in
  (Wd (timeoutMs s.1) (<[id := WdEntry t cb (now r)]> (jobs s.1)), r).

(** [kick(jobUUID)] *)
Definition kick (id : job_id) (s : wd_state) : wd_state :=
  match jobs s.1 !! id with
  | None => s
  | Some e =>
      let r1 := clearTimeout (timer e) s.2 in
      let '(t, r2) := setTimeout (CbWatchdog id (onTimeout e)) (timeoutMs s.1) r1 in
      (Wd (timeoutMs s.1)
          (<[id := WdEntry t (onTimeout e) (startTime e)]> (jobs s.1)), r2)
  end.

(** [clear(jobUUID)] *)
Definition clear (id : job_id) (s : wd_state) : wd_state :=
  match jobs s.1 !! id with
  | None => s
  | Some e => (Wd (timeoutMs s.1) (delete id (jobs s.1)), clearTimeout (timer e) s.2)
  end.

(** [clearAll()] *)
Definition clearAll (s : wd_state) : wd_state :=
  (Wd (timeoutMs s.1) ∅,
   map_fold (λ _ e r, clearTimeout (timer e) r) s.2 (jobs s.1)).

(** [elapsed(jobUUID)] *)
Definition elapsed (id : job_id) (s : wd_state) : Z :=
  match jobs s.1 !! id with
  | None => -1
  | Some e => now s.2 - startTime e
  end.

(** ** Well-formedness *)

(** Timer [t] is armed for job [id]. *)
Definition armed_for (id : job_id) (t : timer_id) (r : rt) : Prop :=
  ∃ tm cb, timers r !! t = Some tm ∧ t_cb tm = CbWatchdog id cb.

Record wd_wf (s : wd_state) : Prop := WdWf {
  wf_rt : rt_wf s.2;
  (* the handle of an entry was handed out by the runtime *)
  wf_handle : ∀ id e, jobs s.1 !! id = Some e → (timer e < next_timer s.2)%nat;
  (* while an entry's timer is armed, it is a one-shot timer that runs the
     entry's callback on the entry's job *)
  wf_own : ∀ id e tm, jobs s.1 !! id = Some e → timers s.2 !! timer e = Some tm →
           t_cb tm = CbWatchdog id (onTimeout e) ∧ t_every tm = None;
  (* every armed watchdog timer is the timer of the entry of its job *)
  wf_no_orphan : ∀ id t, armed_for id t s.2 →
                 ∃ e, jobs s.1 !! id = Some e ∧ timer e = t
}.

(** The part of well-formedness that no call of the program breaks: the
    handles of the table and of the entries were handed out by the
    runtime. *)
Definition wd_typed (s : wd_state) : Prop :=
  rt_wf s.2 ∧ ∀ id e, jobs s.1 !! id = Some e → (timer e < next_timer s.2)%nat.

(** A step of the runtime that is not an operation of the watchdog: it
    may remove timers, keep them (a firing interval timer keeps its
    callback and period), and arm timers of other components on fresh
    handles. *)
Definition wd_frame (r r' : rt) : Prop :=
  (rt_wf r → rt_wf r') ∧
  (next_timer r ≤ next_timer r')%nat ∧
  ∀ t tm, timers r' !! t = Some tm →
    (∃ tm0, timers r !! t = Some tm0 ∧ t_cb tm0 = t_cb tm ∧ t_every tm0 = t_every tm
            ∧ (t_every tm = None → t_due tm0 = t_due tm))
    ∨ ((next_timer r ≤ t)%nat ∧ ∀ id cb, t_cb tm ≠ CbWatchdog id cb).

(** The common part of [watch] and [kick]: arm a timer for [id] and store
    its handle in the entry of [id]. *)
Definition rearm (id : job_id) (cb : C) (st : Z) (s : wd_state) : wd_state :=
  let '(t, r) := setTimeout (CbWatchdog id cb) (timeoutMs s.1) s.2 in
  (Wd (timeoutMs s.1) (<[id := WdEntry t cb st]> (jobs s.1)), r).

(** The entry of [id] is forgotten. *)
Definition forget (id : job_id) (s : wd_state) : wd_state :=
  (Wd (timeoutMs s.1) (delete id (jobs s.1)), s.2).

(** ** Runs

    What can happen to a watchdog in the event loop: a call of one of its
    methods, a timer that fires, time that passes.  A run keeps the log of
    the callbacks the runtime delivered, with the time of delivery. *)
Inductive wd_op : Type :=
| OpWatch (id : job_id) (cb : C)
| OpKick (id : job_id)
| OpClear (id : job_id)
| OpClearAll
| OpFire (t : timer_id)
| OpTick (d : Z).

Definition wd_do (o : wd_op) (s : wd_state) : wd_state * list (Z * callback C) :=
  match o with
  | OpWatch id cb => (watch id cb s, [])
  | OpKick id => (kick id s, [])
  | OpClear id => (clear id s, [])
  | OpClearAll => (clearAll s, [])
  | OpFire t =>
      match fire t s.2 with
      | Some (cb, r) => ((s.1, r), [(now s.2, cb)])
      | None => (s, [])
      end
  | OpTick d => ((s.1, advance d s.2), [])
  end.

Fixpoint wd_run (ops : list wd_op) (s : wd_state) : wd_state * list (Z * callback C) :=
  match ops with
  | [] => (s, [])
  | o :: ops' =>
      let '(s1, l1) := wd_do o s in
      let '(s2, l2) := wd_run ops' s1 in
      (s2, l1 ++ l2)
  end.

(** The caller's discipline: [watch] is called on jobs that are not
    watched. *)
Definition fresh_watch (o : wd_op) (s : wd_state) : bool :=
  match o with
  | OpWatch id _ => bool_decide (jobs s.1 !! id = None)
  | _ => true
  end.

Fixpoint fresh_watches (ops : list wd_op) (s : wd_state) : bool :=
  match ops with
  | [] => true
  | o :: ops' => fresh_watch o s && fresh_watches ops' (wd_do o s).1
  end.

(** The operation is a call on job [id] (or on all jobs). *)
Definition touches (id : job_id) (o : wd_op) : bool :=
  match o with
  | OpWatch id' _ | OpKick id' | OpClear id' => bool_decide (id' = id)
  | OpClearAll => true
  | OpFire _ | OpTick _ => false
  end.

Definition quiet (id : job_id) (ops : list wd_op) : bool :=
  forallb (λ o, negb (touches id o)) ops.

(** The times at which the log delivered the timeout of job [id]. *)
Definition timeouts_of (id : job_id) (log : list (Z * callback C)) : list Z :=
  omap (λ x, match x.2 with
             | CbWatchdog id' _ => if decide (id' = id) then Some x.1 else None
             | _ => None
             end) log.

Arguments timeouts_of : simpl never.

(** *** What a quiet period guarantees

    [pending_due id D s]: job [id] is watched and its timer, if it is still
    armed, is due at [D].  [spent id s]: no timer is armed for [id]. *)
Definition pending_due (id : job_id) (D : Z) (s : wd_state) : Prop :=
  ∃ e, jobs s.1 !! id = Some e ∧ ∀ tm, timers s.2 !! timer e = Some tm → t_due tm = D.

Definition spent (id : job_id) (s : wd_state) : Prop :=
  ∀ t, ¬ armed_for id t s.2.


End watchdog.

Arguments wd_entry : clear implicits.
Arguments watchdog : clear implicits.
Arguments timeouts_of {C} id log : simpl never.

Abbreviation wd_state C := (watchdog C * runtime (callback C))%type.

(** ** Concrete watchdogs and runs, used by the witnesses *)

Definition wd_demo : wd_state unit := (wd_new (Some 1000), rt_init 0).

Definition wd_demo_ops : list (@wd_op unit) :=
  [OpWatch "job-a" tt; OpTick 400; OpKick "job-a"; OpWatch "job-b" tt;
   OpTick 1000; OpFire 1; OpFire 2; OpClear "job-a"; OpClearAll].

Definition wd_demo_a : wd_state unit := watch "job-a" tt wd_demo.

Definition wd_quiet_ops : list (@wd_op unit) :=
  [OpTick 999; OpFire 1; OpTick 1; OpFire 1; OpFire 1; OpWatch "job-b" tt; OpTick 2000; OpFire 1].

Definition wd_huge : wd_state unit := (wd_new (Some 2592000000), rt_init 0).

(** * Facts *)

Section watchdog_facts.
Context {C : Type}.

(** ** Preservation of well-formedness *)

Implicit Types (s : wd_state C) (w : watchdog C) (r : runtime (callback C))
  (id : job_id) (cb : C) (t : timer_id) (e : wd_entry C).

Lemma wd_init_wf cfg start : wd_wf (C:=C) (wd_new cfg, rt_init start).
Proof.
  split; simpl; try done.
  intros id t (tm & cb & Htm & _); simplify_map_eq.
Qed.

Lemma watch_rearm id cb s : watch id cb s = rearm id cb (now s.2) s.
Proof. done. Qed.

Lemma kick_rearm id s e :
  jobs s.1 !! id = Some e →
  kick id s = rearm id (onTimeout e) (startTime e) (clear id s).
Proof.
  intros He; unfold kick, clear, rearm; rewrite He; simpl.
  by rewrite insert_delete_eq.
Qed.

Lemma armed_for_arm id id' cb ms t r :
  armed_for id' t (setTimeout (CbWatchdog id cb) ms r).2 ↔
  (t = next_timer r ∧ id' = id) ∨ (t ≠ next_timer r ∧ armed_for id' t r).
Proof.
  unfold armed_for; simpl; split.
  - intros (tm & cb' & [[<- <-]|[? ?]]%lookup_insert_Some & Hcb); simplify_eq/=; eauto 10.
  - intros [[-> ->]|[? (tm & cb' & ? & ?)]].
    + eexists _, cb; by rewrite lookup_insert_eq.
    + exists tm, cb'; by rewrite lookup_insert_ne.
Qed.

Lemma armed_for_clear id t t' r :
  armed_for id t (clearTimeout t' r) ↔ t ≠ t' ∧ armed_for id t r.
Proof.
  unfold armed_for; simpl; split.
  - intros (tm & cb & [? ?]%lookup_delete_Some & ?); eauto 10.
  - intros [? (tm & cb & ? & ?)]; exists tm, cb; by rewrite lookup_delete_ne.
Qed.

Lemma rearm_wf id cb st s : wd_wf (forget id s) → wd_wf (rearm id cb st s).
Proof.
  destruct s as [w r]; intros [Hrt Hh Hown Horph]; split; simpl in *.
  - by apply arm_wf.
  - intros id' e' [[<- <-]|[? He]]%lookup_insert_Some; simpl; [lia|].
    enough (timer e' < next_timer r)%nat by lia.
    apply (Hh id'); by rewrite lookup_delete_ne.
  - intros id' e' tm [[<- <-]|[? He]]%lookup_insert_Some Ht; simpl in Ht.
    + by rewrite lookup_insert_eq in Ht; simplify_eq.
    + assert (delete id (jobs w) !! id' = Some e') as He' by by rewrite lookup_delete_ne.
      rewrite lookup_insert_ne in Ht; [eauto|]. apply Hh in He'; lia.
  - intros id' t [[-> ->]|[? Ha]]%armed_for_arm.
    + rewrite lookup_insert_eq; eauto.
    + destruct (Horph id' t Ha) as (e' & [? ?]%lookup_delete_Some & <-).
      rewrite lookup_insert_ne; eauto.
Qed.

Lemma forget_absent id s : jobs s.1 !! id = None → forget id s = s.
Proof. destruct s as [[T m] r]; unfold forget; simpl; intros; by rewrite delete_id. Qed.

Lemma forget_clear id s : forget id (clear id s) = clear id s.
Proof.
  unfold clear; destruct (jobs s.1 !! id) eqn:E; [|by apply forget_absent].
  unfold forget; simpl; by rewrite delete_delete_eq.
Qed.

Lemma clear_wf id s : wd_wf s → wd_wf (clear id s).
Proof.
  unfold clear; destruct (jobs s.1 !! id) as [e|] eqn:E; [|done].
  destruct s as [w r]; intros [Hrt Hh Hown Horph]; split; simpl in *.
  - by apply clearTimeout_wf.
  - intros id' e' [? ?]%lookup_delete_Some; eauto.
  - intros id' e' tm [? ?]%lookup_delete_Some [? ?]%lookup_delete_Some; eauto.
  - intros id' t [Hne Ha]%armed_for_clear.
    destruct (Horph id' t Ha) as (e' & He' & <-).
    exists e'; split; [|done]. rewrite lookup_delete_ne; [done|congruence].
Qed.

Lemma watch_wf id cb s :
  wd_wf s → jobs s.1 !! id = None → wd_wf (watch id cb s).
Proof. intros ? ?; rewrite watch_rearm; apply rearm_wf; by rewrite forget_absent. Qed.

Lemma kick_wf id s : wd_wf s → wd_wf (kick id s).
Proof.
  intros Hwf; destruct (jobs s.1 !! id) as [e|] eqn:E.
  - rewrite (kick_rearm _ _ e E); apply rearm_wf.
    rewrite forget_clear; by apply clear_wf.
  - unfold kick; by rewrite E.
Qed.

Lemma frame_wf w r r' : wd_wf (w, r) → wd_frame r r' → wd_wf (w, r').
Proof.
  intros [Hrt Hh Hown Horph] (Hrt' & Hnext & Hkeep); split; simpl in *.
  - auto.
  - intros id e ?%Hh; lia.
  - intros id e tm He Ht.
    destruct (Hkeep _ _ Ht) as [(tm0 & Ht0 & <- & <- & _)|[? _]]; [eauto|].
    apply Hh in He; lia.
  - intros id t (tm & cb & Ht & Hcb).
    destruct (Hkeep _ _ Ht) as [(tm0 & Ht0 & Hcb0 & _ & _)|[_ Hnew]]; [|by destruct (Hnew id cb)].
    apply Horph; exists tm0, cb; split; [done|congruence].
Qed.

(** *** Runtime steps *)

Lemma frame_refl r : wd_frame r r.
Proof. split; [done|split; [done|]]; intros t tm ?; left; eauto 10. Qed.

Lemma frame_trans r1 r2 r3 : wd_frame r1 r2 → wd_frame r2 r3 → wd_frame r1 r3.
Proof.
  intros (Hw1 & Hn1 & Hk1) (Hw2 & Hn2 & Hk2); split; [auto|split; [lia|]].
  intros t tm Ht; destruct (Hk2 _ _ Ht) as [(tm0 & Ht0 & Hcb & Hev & Hd)|[? ?]].
  - destruct (Hk1 _ _ Ht0) as [(tm1 & ? & ? & ? & Hd1)|[? Hnew]].
    + left; exists tm1; split_and!; try congruence.
      intros Hone; rewrite Hd1, Hd; congruence.
    + right; split; [done|]; intros id cb; rewrite <-Hcb; apply Hnew.
  - right; split; [lia|done].
Qed.


Lemma clearTimeout_frame t r : wd_frame r (clearTimeout t r).
Proof.
  split; [apply clearTimeout_wf|split; [done|]]; simpl.
  intros t' tm [? ?]%lookup_delete_Some; left; eauto 10.
Qed.

Lemma advance_frame d r : wd_frame r (advance d r).
Proof. split; [done|split; [done|]]; intros t tm ?; left; eauto 10. Qed.

Lemma fire_frame t r p r' : fire t r = Some (p, r') → wd_frame r r'.
Proof.
  intros Hf; split; [intros; by eapply fire_wf|].
  unfold fire in Hf; destruct (timers r !! t) as [tm0|] eqn:E; [|done].
  case_bool_decide; simplify_eq/=; split; [done|].
  intros t' tm; destruct (t_every tm0) as [p|] eqn:Ep.
  - intros [[<- <-]|[? ?]]%lookup_insert_Some; left; [|eauto 10].
    exists tm0; by split_and!.
  - intros [? ?]%lookup_delete_Some; left; eauto 10.
Qed.

(** Arming a timer of another component. *)
Lemma arm_frame tm r :
  (∀ id cb, t_cb tm ≠ CbWatchdog id cb) → wd_frame r (arm tm r).2.
Proof.
  intros Hcb; split; [apply arm_wf|split; [simpl; lia|]]; simpl.
  intros t' tm' [[<- <-]|[? ?]]%lookup_insert_Some; [right|left]; eauto 10.
Qed.

(** *** clearAll *)

Lemma clear_fold_spec (m : gmap job_id (wd_entry C)) r :
  let r' := map_fold (λ _ e r, clearTimeout (timer e) r) r m in
  now r' = now r ∧ next_timer r' = next_timer r ∧
  ∀ t tm, timers r' !! t = Some tm ↔
          timers r !! t = Some tm ∧ ∀ id e, m !! id = Some e → timer e ≠ t.
Proof.
  apply (map_fold_weak_ind (λ r' m, now r' = now r ∧ next_timer r' = next_timer r ∧
    ∀ t tm, timers r' !! t = Some tm ↔
            timers r !! t = Some tm ∧ ∀ id e, m !! id = Some e → timer e ≠ t)).
  { split_and!; try done; intros t tm; split; [|naive_solver].
    intros ?; split; [done|]; intros id e ?; simplify_map_eq. }
  intros i x m' r1 Hi (Hnow & Hnext & Hl); split_and!; try done.
  intros t tm; simpl; rewrite lookup_delete_Some, Hl; split.
  - intros (Hne & Ht & Hm); split; [done|].
    intros id e [[<- <-]|[? ?]]%lookup_insert_Some; eauto.
  - intros (Ht & Hm); split_and!; [|done|].
    + apply (Hm i x), lookup_insert_eq.
    + intros id e He; apply (Hm id e); rewrite lookup_insert_ne; [done|congruence].
Qed.

Lemma clearAll_frame s : wd_frame s.2 (clearAll s).2.
Proof.
  simpl; destruct (clear_fold_spec (jobs s.1) s.2) as (Hnow & Hnext & Hl).
  split; [|split; [lia|]].
  - intros Hwf t tm [? _]%Hl; rewrite Hnext; eauto.
  - intros t tm [? _]%Hl; left; eauto 10.
Qed.

Lemma clearAll_wf s : wd_wf s → wd_wf (clearAll s).
Proof.
  destruct s as [w r]; intros Hwf.
  pose proof (frame_wf _ _ _ Hwf (clearAll_frame (w, r))) as [Hrt _ _ Horph].
  split; simpl in *; [done|intros ??; by rewrite lookup_empty..|].
  intros id t Ha; destruct (Horph id t Ha) as (e & He & <-).
  destruct Ha as (tm & cb & Ht & _).
  apply (clear_fold_spec (jobs w) r) in Ht as [_ Hno]; by destruct (Hno id e).
Qed.

(** ** The handles

    Every method keeps the handles valid, also [watch] on a job that is
    watched already, which loses [wd_wf]. *)
Lemma wd_wf_typed s : wd_wf s → wd_typed s.
Proof. intros [? ? _ _]; by split. Qed.

Lemma wd_typed_grows w r r' : wd_typed (w, r) → rt_grows r r' → wd_typed (w, r').
Proof.
  intros [Hrt Hh] [Hwf Hle]; split; simpl in *; [auto|].
  intros id e ?%Hh; lia.
Qed.

Lemma frame_grows r r' : wd_frame r r' → rt_grows r r'.
Proof. intros (? & ? & _); by split. Qed.

Lemma rearm_grows id cb st s : rt_grows s.2 (rearm id cb st s).2.
Proof. apply arm_grows. Qed.

Lemma rearm_typed id cb st s : wd_typed s → wd_typed (rearm id cb st s).
Proof.
  intros [Hrt Hh]; split; simpl; [by apply arm_wf|].
  intros id' e [[_ <-]|[_ ?%Hh]]%lookup_insert_Some; simpl; lia.
Qed.

Lemma watch_grows id cb s : rt_grows s.2 (watch id cb s).2.
Proof. rewrite watch_rearm; apply rearm_grows. Qed.

Lemma watch_typed id cb s : wd_typed s → wd_typed (watch id cb s).
Proof. rewrite watch_rearm; apply rearm_typed. Qed.

Lemma clear_grows id s : rt_grows s.2 (clear id s).2.
Proof.
  unfold clear; destruct (jobs s.1 !! id); [apply clearTimeout_grows|apply rt_grows_refl].
Qed.

Lemma clear_typed id s : wd_typed s → wd_typed (clear id s).
Proof.
  intros [Hrt Hh]; unfold clear; destruct (jobs s.1 !! id); [|done].
  split; simpl; [by apply clearTimeout_wf|].
  intros id' e' [_ ?]%lookup_delete_Some; eauto.
Qed.

Lemma kick_grows id s : rt_grows s.2 (kick id s).2.
Proof.
  destruct (jobs s.1 !! id) as [e|] eqn:He; [|unfold kick; rewrite He; apply rt_grows_refl].
  rewrite (kick_rearm id s e He).
  eapply rt_grows_trans; [apply clear_grows|apply rearm_grows].
Qed.

Lemma kick_typed id s : wd_typed s → wd_typed (kick id s).
Proof.
  destruct (jobs s.1 !! id) as [e|] eqn:He; [|unfold kick; by rewrite He].
  rewrite (kick_rearm id s e He); intros; by apply rearm_typed, clear_typed.
Qed.

Lemma clearAll_grows s : rt_grows s.2 (clearAll s).2.
Proof. apply frame_grows, clearAll_frame. Qed.

Lemma clearAll_typed s : wd_typed s → wd_typed (clearAll s).
Proof.
  intros [Hrt Hh]; split; [by apply clearAll_grows|].
  intros id e; simpl; by rewrite lookup_empty.
Qed.

(** *** Runs *)

Lemma wd_do_wf o s : wd_wf s → fresh_watch o s = true → wd_wf (wd_do o s).1.
Proof.
  destruct o as [id cb|id|id| |t|d]; simpl; intros Hwf Hf.
  - apply watch_wf; [done|by boolify].
  - by apply kick_wf.
  - by apply clear_wf.
  - by apply clearAll_wf.
  - destruct (fire t s.2) as [[p r']|] eqn:E; [|done]; destruct s.
    eapply frame_wf, fire_frame; eauto.
  - destruct s; eapply frame_wf, advance_frame; eauto.
Qed.

Lemma wd_run_cons o ops s :
  wd_run (o :: ops) s =
  ((wd_run ops (wd_do o s).1).1, (wd_do o s).2 ++ (wd_run ops (wd_do o s).1).2).
Proof. simpl; destruct (wd_do o s), (wd_run ops _); done. Qed.

Lemma wd_run_app ops1 ops2 s :
  wd_run (ops1 ++ ops2) s =
  ((wd_run ops2 (wd_run ops1 s).1).1,
   (wd_run ops1 s).2 ++ (wd_run ops2 (wd_run ops1 s).1).2).
Proof.
  revert s; induction ops1 as [|o ops1 IH]; intros s.
  - simpl; by destruct (wd_run ops2 s).
  - rewrite <-app_comm_cons, !wd_run_cons, IH; simpl; by rewrite app_assoc.
Qed.

Lemma timeouts_of_app id (l1 l2 : list (Z * callback C)) :
  timeouts_of id (l1 ++ l2) = timeouts_of id l1 ++ timeouts_of id l2.
Proof. apply omap_app. Qed.

Lemma spent_frame id w w' r r' : spent id (w, r) → wd_frame r r' → spent id (w', r').
Proof.
  intros Hs (_ & _ & Hk) t (tm & cb & Ht & Hcb).
  destruct (Hk _ _ Ht) as [(tm0 & ? & Hcb0 & _ & _)|[_ Hnew]]; [|by destruct (Hnew id cb)].
  apply (Hs t); exists tm0, cb; split; [done|congruence].
Qed.

Lemma spent_rearm id id' cb st s : id' ≠ id → spent id s → spent id (rearm id' cb st s).
Proof.
  intros Hne Hs t [[_ ?]|[_ Ha]]%armed_for_arm; [done|by apply (Hs t)].
Qed.

Lemma spent_clear id id' s : spent id s → spent id (clear id' s).
Proof.
  unfold clear; destruct (jobs s.1 !! id'); [|done].
  intros Hs t [_ Ha]%armed_for_clear; by apply (Hs t).
Qed.

Lemma timeouts_of_single id x (p : callback C) :
  (∃ cb, p = CbWatchdog id cb ∧ timeouts_of id [(x, p)] = [x]) ∨
  ((∀ cb, p ≠ CbWatchdog id cb) ∧ timeouts_of id [(x, p)] = []).
Proof.
  unfold timeouts_of; destruct p as [id' cb| | | | |]; simpl; try by right.
  case_decide; subst; [left; eauto|right; split; [congruence|done]].
Qed.

Lemma quiet_step_spent id o s :
  spent id s → negb (touches id o) = true →
  spent id (wd_do o s).1 ∧ timeouts_of id (wd_do o s).2 = [].
Proof.
  destruct o as [id' cb|id'|id'| |t|d]; simpl; intros Hs Hq; boolify; try done.
  - split; [|done]. rewrite watch_rearm; by apply spent_rearm.
  - split; [|done]. destruct (jobs s.1 !! id') as [e|] eqn:E.
    + rewrite (kick_rearm _ _ e E); by apply spent_rearm, spent_clear.
    + unfold kick; by rewrite E.
  - split; [by apply spent_clear|done].
  - destruct (fire t s.2) as [[p r']|] eqn:E; [|done]; simpl.
    split; [destruct s; eapply spent_frame, fire_frame; eauto|].
    destruct (timeouts_of_single id (now s.2) p) as [(cb & -> & _)|[_ ?]]; [|done].
    apply fire_Some in E as (tm & ? & _ & ? & _); destruct (Hs t); by exists tm, cb.
Qed.

Lemma quiet_run_spent id ops s :
  spent id s → quiet id ops = true → timeouts_of id (wd_run ops s).2 = [].
Proof.
  revert s; induction ops as [|o ops IH]; intros s Hs Hq; [done|].
  simpl in Hq; boolify.
  destruct (quiet_step_spent id o s) as [Hs' Hl]; [done|by apply negb_true_iff|].
  rewrite wd_run_cons; simpl; rewrite timeouts_of_app, Hl; eauto.
Qed.

Lemma pending_due_frame id D w r r' :
  wd_wf (w, r) → pending_due id D (w, r) → wd_frame r r' → pending_due id D (w, r').
Proof.
  intros Hwf (e & He & Hd) (_ & _ & Hk); exists e; split; [done|]; simpl in *.
  intros tm Ht; destruct (Hk _ _ Ht) as [(tm0 & Ht0 & Hcb & Hev & Hdue)|[? _]].
  - destruct (wf_own _ Hwf id e tm0 He Ht0) as [_ Hone].
    rewrite <-Hdue; [eauto|congruence].
  - pose proof (wf_handle _ Hwf id e He); simpl in *; lia.
Qed.

Lemma pending_due_rearm id id' D cb st s :
  id' ≠ id → wd_wf s → pending_due id D s → pending_due id D (rearm id' cb st s).
Proof.
  intros Hne Hwf (e & He & Hd); exists e; simpl; rewrite lookup_insert_ne by done.
  split; [done|]; intros tm Ht; apply Hd; rewrite lookup_insert_ne in Ht; [done|].
  pose proof (wf_handle _ Hwf id e He); lia.
Qed.

Lemma pending_due_clear id id' D s :
  id' ≠ id → pending_due id D s → pending_due id D (clear id' s).
Proof.
  intros Hne (e & He & Hd); unfold clear; destruct (jobs s.1 !! id'); [|by exists e].
  exists e; simpl; rewrite lookup_delete_ne by done.
  split; [done|]; intros tm [_ Ht]%lookup_delete_Some; eauto.
Qed.

(** One quiet step from a state where the timer of [id] is pending: either
    nothing is delivered for [id] and the timer is still pending, or the
    timeout is delivered, not before [D], and no timer is left for [id]. *)
Lemma quiet_step_pending id D o s :
  wd_wf s → pending_due id D s → fresh_watch o s = true → negb (touches id o) = true →
  (timeouts_of id (wd_do o s).2 = [] ∧ pending_due id D (wd_do o s).1) ∨
  (∃ x, timeouts_of id (wd_do o s).2 = [x] ∧ D ≤ x ∧ spent id (wd_do o s).1).
Proof.
  intros Hwf Hp Hf Hq.
  destruct o as [id' cb|id'|id'| |t|d]; simpl in *; boolify; try done.
  - left; split; [done|]. rewrite watch_rearm; by apply pending_due_rearm.
  - left; split; [done|]. destruct (jobs s.1 !! id') as [e|] eqn:E.
    + rewrite (kick_rearm _ _ e E).
      apply pending_due_rearm; [done|by apply clear_wf|by apply pending_due_clear].
    + unfold kick; by rewrite E.
  - left; split; [done|by apply pending_due_clear].
  - destruct (fire t s.2) as [[p r']|] eqn:E; [|by left]; simpl.
    pose proof (fire_frame _ _ _ _ E) as Hfr; destruct s as [w r]; simpl in *.
    destruct (timeouts_of_single id (now r) p) as [(cb & -> & ->)|[_ ->]].
    + right; exists (now r); split; [done|].
      pose proof E as (tm & Ht & Hdue & Hcb & _)%fire_Some.
      destruct Hp as (e & He & Hd).
      destruct (wf_no_orphan _ Hwf id t) as (e' & ? & <-); [by exists tm, cb|].
      simplify_eq/=; split; [by rewrite <-(Hd tm Ht)|].
      destruct (wf_own _ Hwf id e tm He Ht) as [_ Hone].
      destruct (fire_once _ _ _ _ _ Ht Hone E) as [Hgone _].
      intros t' Ha. pose proof (frame_wf _ _ _ Hwf Hfr) as Hwf'.
      destruct (wf_no_orphan _ Hwf' id t' Ha) as (e'' & ? & <-); simplify_eq/=.
      destruct Ha as (? & ? & ? & _); congruence.
    + left; split; [done|by eapply pending_due_frame].
  - left; split; [done|]. destruct s; eapply pending_due_frame, advance_frame; eauto.
Qed.

(** ** The properties of the watchdog *)

(** Claim C4: along every run in which [watch] is called on unwatched
    jobs only, the watchdog and the timer table stay well-formed: every
    entry's handle was issued by the runtime, an armed timer of an entry is
    a one-shot timer carrying that entry's job and callback, and every armed
    watchdog timer belongs to the entry of its job. *)
Theorem wd_run_wf ops s :
  wd_wf s → fresh_watches ops s = true → wd_wf (wd_run ops s).1.
Proof.
  revert s; induction ops as [|o ops IH]; intros s Hwf Hf; [done|].
  simpl in Hf; boolify; rewrite wd_run_cons; simpl.
  apply IH; [by apply wd_do_wf|done].
Qed.

(** In a well-formed state at most one timer is armed for a
    job. *)
Theorem wf_one_timer_per_job s id t1 t2 :
  wd_wf s → armed_for id t1 s.2 → armed_for id t2 s.2 → t1 = t2.
Proof.
  intros Hwf H1 H2.
  destruct (wf_no_orphan _ Hwf id t1 H1) as (e1 & He1 & <-).
  destruct (wf_no_orphan _ Hwf id t2 H2) as (e2 & He2 & <-).
  congruence.
Qed.

(** What [kick] does to a watched job: the entry keeps its callback and its
    start time, the old timer is cleared, and the new one is due one
    (clamped) timeout after the current moment. *)
Lemma kick_known id s e :
  wd_wf s → jobs s.1 !! id = Some e →
  jobs (kick id s).1 = <[id := WdEntry (next_timer s.2) (onTimeout e) (startTime e)]> (jobs s.1)
  ∧ timers (kick id s).2 !! next_timer s.2 =
      Some (Timer (now s.2 + clamp_delay (timeoutMs s.1)) None (CbWatchdog id (onTimeout e)))
  ∧ timers (kick id s).2 !! timer e = None
  ∧ now (kick id s).2 = now s.2.
Proof.
  intros Hwf He; unfold kick; rewrite He; simpl; split_and!; try done.
  - by rewrite lookup_insert_eq.
  - pose proof (wf_handle _ Hwf id e He).
    rewrite lookup_insert_ne by lia; apply lookup_delete_eq.
Qed.

Lemma kick_pending id s e :
  wd_wf s → jobs s.1 !! id = Some e →
  pending_due id (now s.2 + clamp_delay (timeoutMs s.1)) (kick id s).
Proof.
  intros Hwf He; destruct (kick_known id s e Hwf He) as (Hj & Ht & _).
  eexists; rewrite Hj, lookup_insert_eq; split; [done|]; simpl.
  intros tm; rewrite Ht; by intros [= <-].
Qed.

Lemma watch_pending id cb s :
  pending_due id (now s.2 + clamp_delay (timeoutMs s.1)) (watch id cb s).
Proof.
  eexists; simpl; rewrite lookup_insert_eq; split; [done|]; simpl.
  intros tm; rewrite lookup_insert_eq; by intros [= <-].
Qed.

Lemma quiet_run_timeouts id D ops s :
  wd_wf s → pending_due id D s → fresh_watches ops s = true → quiet id ops = true →
  (length (timeouts_of id (wd_run ops s).2) ≤ 1)%nat
  ∧ Forall (λ x, D ≤ x) (timeouts_of id (wd_run ops s).2).
Proof.
  revert s; induction ops as [|o ops IH]; intros s Hwf Hp Hf Hq.
  { split; [simpl; lia|constructor]. }
  simpl in Hf, Hq; boolify; rewrite wd_run_cons; simpl; rewrite timeouts_of_app.
  destruct (quiet_step_pending id D o s) as [[-> Hp']|(x & -> & Hx & Hs)];
    [done..|by apply negb_true_iff| |].
  - apply IH; [by apply wd_do_wf|done..].
  - rewrite (quiet_run_spent id ops _ Hs) by done; split; [simpl; lia|by repeat constructor].
Qed.

(** Claim C12: after [kick] on a watched job, as long as no method is
    called on that job, its timeout is delivered at most once, and not
    before one (clamped) timeout has passed since the kick. *)
Theorem kick_timeout_guarantee id s e ops :
  wd_wf s → jobs s.1 !! id = Some e →
  fresh_watches ops (kick id s) = true → quiet id ops = true →
  (length (timeouts_of id (wd_run ops (kick id s)).2) ≤ 1)%nat
  ∧ Forall (λ x, now s.2 + clamp_delay (timeoutMs s.1) ≤ x)
           (timeouts_of id (wd_run ops (kick id s)).2).
Proof.
  intros Hwf He; apply quiet_run_timeouts; [by apply kick_wf|by eapply kick_pending].
Qed.

(** The same guarantee after [watch] on an unwatched job. *)
Theorem watch_timeout_guarantee id cb s ops :
  wd_wf s → jobs s.1 !! id = None →
  fresh_watches ops (watch id cb s) = true → quiet id ops = true →
  (length (timeouts_of id (wd_run ops (watch id cb s)).2) ≤ 1)%nat
  ∧ Forall (λ x, now s.2 + clamp_delay (timeoutMs s.1) ≤ x)
           (timeouts_of id (wd_run ops (watch id cb s)).2).
Proof.
  intros Hwf He; apply quiet_run_timeouts; [by apply watch_wf|apply watch_pending].
Qed.

(** Claim C28: a job that is watched and then left alone for a full
    (clamped) timeout expires: once the clock has advanced that far the
    timer may run, and running it delivers the callback given to [watch]
    for that job, once. *)
Theorem watch_expires id cb s d :
  rt_wf s.2 → clamp_delay (timeoutMs s.1) ≤ d →
  (wd_run [OpTick d; OpFire (next_timer s.2); OpFire (next_timer s.2)] (watch id cb s)).2
  = [(now s.2 + d, CbWatchdog id cb)].
Proof.
  intros Hwf Hd; simpl; unfold fire; simpl; rewrite lookup_insert_eq; simpl.
  rewrite bool_decide_eq_true_2 by lia; simpl.
  rewrite lookup_delete_eq; simpl; by rewrite Z.max_r by (pose proof (clamp_delay_range (timeoutMs s.1)); lia).
Qed.

(** [kick] and [clear] on a job that is not watched change
    nothing, [elapsed] answers -1 for it, and [clear] is idempotent. *)
Theorem unknown_job_noop id s :
  jobs s.1 !! id = None →
  kick id s = s ∧ clear id s = s ∧ elapsed id s = -1
  ∧ ∀ id', clear id' (clear id' s) = clear id' s.
Proof.
  intros Hid; unfold kick, clear, elapsed; rewrite Hid; split_and!; try done.
  intros id'; destruct (jobs s.1 !! id') eqn:E; simpl; [|by rewrite E].
  by rewrite lookup_delete_eq.
Qed.

(** [elapsed] measures the time since [watch]; [kick] re-arms
    the timer and does not reset that measure. *)
Theorem elapsed_since_watch id cb s d :
  0 ≤ d →
  let s1 := watch id cb s in
  let s2 := kick id (s1.1, advance d s1.2) in
  elapsed id s1 = 0 ∧ elapsed id (s1.1, advance d s1.2) = d ∧ elapsed id s2 = d.
Proof.
  intros Hd; unfold elapsed, kick; simpl; rewrite !lookup_insert_eq; simpl.
  rewrite !lookup_insert_eq; simpl; lia.
Qed.

(** Claim C29: [watch] on a job that is already watched does not clear the
    timer of the earlier call: both timers are armed for the job afterwards,
    and the state is no longer well-formed. *)
Theorem rewatch_stacks id cb s e tm :
  wd_wf s → jobs s.1 !! id = Some e → timers s.2 !! timer e = Some tm →
  armed_for id (timer e) (watch id cb s).2
  ∧ armed_for id (next_timer s.2) (watch id cb s).2
  ∧ timer e ≠ next_timer s.2
  ∧ ¬ wd_wf (watch id cb s).
Proof.
  intros Hwf He Ht; pose proof (wf_handle _ Hwf id e He) as Hlt.
  destruct (wf_own _ Hwf id e tm He Ht) as [Hcb _].
  assert (armed_for id (timer e) (watch id cb s).2) as H1.
  { exists tm, (onTimeout e); simpl; by rewrite lookup_insert_ne by lia. }
  assert (armed_for id (next_timer s.2) (watch id cb s).2) as H2.
  { eexists _, cb; simpl; by rewrite lookup_insert_eq. }
  split_and!; [done|done|lia|].
  intros Hwf'; pose proof (wf_one_timer_per_job _ _ _ _ Hwf' H1 H2); lia.
Qed.

(** A configured timeout above 2^31-1 ms is not honoured: the
    timer armed by [watch] is due one millisecond later. *)
Theorem watch_huge_timeout id cb s :
  TIMEOUT_MAX < timeoutMs s.1 →
  timers (watch id cb s).2 !! next_timer s.2
  = Some (Timer (now s.2 + 1) None (CbWatchdog id cb)).
Proof.
  intros Hbig; simpl; rewrite lookup_insert_eq, clamp_delay_out; [done|lia].
Qed.

End watchdog_facts.

(** ** Witnesses: the theorems at a concrete watchdog *)

Lemma wd_run_wf_witness : wd_wf (wd_run wd_demo_ops wd_demo).1.
Proof. apply wd_run_wf; [apply wd_init_wf|vm_compute; reflexivity]. Defined.


Lemma wd_demo_a_wf : wd_wf wd_demo_a.
Proof. apply watch_wf; [apply wd_init_wf|reflexivity]. Defined.

Lemma wf_one_timer_per_job_witness : (0 = 0)%nat.
Proof.
  apply (wf_one_timer_per_job wd_demo_a "job-a" 0%nat 0%nat wd_demo_a_wf);
    eexists _, tt; split; vm_compute; reflexivity.
Defined.

Lemma kick_timeout_guarantee_witness :
  (length (timeouts_of "job-a" (wd_run wd_quiet_ops (kick "job-a" wd_demo_a)).2) ≤ 1)%nat
  ∧ Forall (λ x, now wd_demo_a.2 + clamp_delay (timeoutMs wd_demo_a.1) ≤ x)
           (timeouts_of "job-a" (wd_run wd_quiet_ops (kick "job-a" wd_demo_a)).2).
Proof.
  apply (kick_timeout_guarantee "job-a" wd_demo_a (WdEntry 0 tt 0) wd_quiet_ops wd_demo_a_wf);
    vm_compute; reflexivity.
Defined.

Lemma watch_timeout_guarantee_witness :
  (length (timeouts_of "job-a" (wd_run wd_quiet_ops (watch "job-a" tt wd_demo)).2) ≤ 1)%nat
  ∧ Forall (λ x, now wd_demo.2 + clamp_delay (timeoutMs wd_demo.1) ≤ x)
           (timeouts_of "job-a" (wd_run wd_quiet_ops (watch "job-a" tt wd_demo)).2).
Proof.
  apply (watch_timeout_guarantee "job-a" tt wd_demo wd_quiet_ops (wd_init_wf _ _));
    vm_compute; reflexivity.
Defined.

Lemma watch_expires_witness :
  (wd_run [OpTick 1000; OpFire (next_timer wd_demo.2); OpFire (next_timer wd_demo.2)]
          (watch "job-a" tt wd_demo)).2
  = [(now wd_demo.2 + 1000, CbWatchdog "job-a" tt)].
Proof.
  apply (watch_expires "job-a" tt wd_demo 1000); [by apply wd_init_wf|vm_compute; discriminate].
Defined.

Lemma unknown_job_noop_witness :
  kick "job-z" wd_demo_a = wd_demo_a ∧ clear "job-z" wd_demo_a = wd_demo_a
  ∧ elapsed "job-z" wd_demo_a = -1
  ∧ ∀ id', clear id' (clear id' wd_demo_a) = clear id' wd_demo_a.
Proof. apply (unknown_job_noop "job-z" wd_demo_a); reflexivity. Defined.

Lemma elapsed_since_watch_witness :
  elapsed "job-a" wd_demo_a = 0
  ∧ elapsed "job-a" (wd_demo_a.1, advance 250 wd_demo_a.2) = 250
  ∧ elapsed "job-a" (kick "job-a" (wd_demo_a.1, advance 250 wd_demo_a.2)) = 250.
Proof. apply (elapsed_since_watch "job-a" tt wd_demo 250); lia. Defined.

Lemma rewatch_stacks_witness :
  armed_for "job-a" 0%nat (watch "job-a" tt wd_demo_a).2
  ∧ armed_for "job-a" 1%nat (watch "job-a" tt wd_demo_a).2
  ∧ 0%nat ≠ 1%nat
  ∧ ¬ wd_wf (watch "job-a" tt wd_demo_a).
Proof.
  apply (rewatch_stacks "job-a" tt wd_demo_a (WdEntry 0 tt 0)
           (Timer 1000 None (CbWatchdog "job-a" tt)) wd_demo_a_wf); reflexivity.
Defined.

(** After two calls of [watch] on one job, one expiry delivers the timeout
    twice. *)
Example rewatch_fires_twice :
  timeouts_of "job-a"
    (wd_run [OpWatch "job-a" tt; OpWatch "job-a" tt; OpTick 1000; OpFire 0; OpFire 1]%nat
            wd_demo).2
  = [1000; 1000].
Proof. vm_compute; reflexivity. Qed.

Lemma watch_huge_timeout_witness :
  timers (watch "job-a" tt wd_huge).2 !! next_timer wd_huge.2
  = Some (Timer (now wd_huge.2 + 1) None (CbWatchdog "job-a" tt)).
Proof. apply (watch_huge_timeout "job-a" tt wd_huge); reflexivity. Defined.
