(* ===== verification/Health.v ===== *)
(** * Health: class [HealthMonitor] of src/lib/health.js

    The monitor probes the job queue on a fixed interval and keeps the
    length of the current streak of failed probes and a flag, [healthy],
    that the orchestrator consults before it asks for jobs.

    [_check] awaits the probe, so it is two segments: the first sends the
    request and changes nothing, the second ([check_resume]) receives the
    outcome of the probe: a response with its status, or a rejected promise.
    The second segment also scans the active jobs of the pool manager for
    jobs that have run for more than twice the job timeout; the scan only
    reports.

    What the monitor makes known to the outside (the 'unhealthy' event, the
    warning of the scan) is the list of [hm_event]s a segment returns. *)

From S2P Require Import Prelude Runtime.

(** The [config] argument of the constructor; a field that is absent is
    [None]. *)
Record health_config : Type := HmConfig {
  cfg_checkIntervalMs : option Z;
  cfg_jobTimeoutMs : option Z;
  cfg_maxConsecutiveFailures : option Z
}.

Record health : Type := Hm {
  checkIntervalMs : Z;
  jobTimeoutMs : Z;
  maxConsecutiveFailures : Z;
  consecutiveFailures : Z;
  healthy : bool;
  interval : option timer_id
}.

(** The outcome of the awaited [fetch] of [_check]. *)
Inductive probe : Type :=
| ProbeResp (status : Z)
| ProbeThrow (err : error).

(** The [reason] argument of [_recordFailure]. *)
Inductive reason : Type :=
| ReturnedStatus (status : Z)
| Message (err : error).

Inductive hm_event : Type :=
| Unhealthy (why : reason) (failures : Z)
| ZombieWarning (id : job_id) (elapsed : Z).

(** [(config && config.f) || d] *)
Definition cfg_field (config : option health_config)
    (f : health_config → option Z) (d : Z) : Z :=
  js_or (config ≫= f) d.

(** [constructor(runnerClient, poolManager, config)] *)
Definition hm_new (config : option health_config) : health :=
  Hm (cfg_field config cfg_checkIntervalMs 30000)
     (cfg_field config cfg_jobTimeoutMs 3600000)
     (cfg_field config cfg_maxConsecutiveFailures 5)
     0 true None.

Definition set_streak (h : health) (n : Z) (b : bool) : health :=
  Hm (checkIntervalMs h) (jobTimeoutMs h) (maxConsecutiveFailures h) n b (interval h).

Definition set_interval (h : health) (i : option timer_id) : health :=
  Hm (checkIntervalMs h) (jobTimeoutMs h) (maxConsecutiveFailures h)
     (consecutiveFailures h) (healthy h) i.

Section with_runtime.
Context {C : Type}.

(** [start()] *)
Definition hm_start (s : health * runtime (callback C)) : health * runtime (callback C) :=
  let '(t, r) := setInterval CbHealthCheck (checkIntervalMs s.1) s.2 in
  (set_interval s.1 (Some t), r).

(** [stop()] *)
Definition hm_stop (s : health * runtime (callback C)) : health * runtime (callback C) :=
  match interval s.1 with
  | Some t => (set_interval s.1 None, clearInterval t s.2)
  | None => s
  end.

End with_runtime.

(** [isHealthy()] *)
Definition isHealthy (h : health) : bool := healthy h.

(** [_recordFailure(reason)] *)
Definition recordFailure (why : reason) (h : health) : health * list hm_event :=
  let n := consecutiveFailures h + 1 in
  if bool_decide (maxConsecutiveFailures h ≤ n)
  then (set_streak h n false, [Unhealthy why n])
  else (set_streak h n (healthy h), []).

(** The [try]/[catch] of [_check], from the outcome of the probe on. *)
Definition probe_step (o : probe) (h : health) : health * list hm_event :=
  match o with
  | ProbeResp status =>
      if http_ok status then (set_streak h 0 true, [])
      else recordFailure (ReturnedStatus status) h
  | ProbeThrow err => recordFailure (Message err) h
  end.

(** The loop over [poolManager.activeJobs]: [active] lists the job ids with
    their [startTime] field, in the order of the [Map]. *)
Definition zombie_scan (h : health) (now : Z) (active : list (job_id * option Z))
    : list hm_event :=
  omap (λ j, let elapsed := now - js_or j.2 0 in
             if bool_decide (jobTimeoutMs h * 2 < elapsed)
             then Some (ZombieWarning j.1 elapsed) else None) active.

(** [_check()] after its [await]. *)
Definition check_resume (o : probe) (now : Z) (active : list (job_id * option Z))
    (h : health) : health * list hm_event :=
  let '(h', evs) := probe_step o h in
  (h', evs ++ zombie_scan h' now active).

(** A sequence of probes, each with the clock and the active jobs at the
    time its outcome arrives. *)
Fixpoint hm_run (os : list (probe * Z * list (job_id * option Z))) (h : health)
    : health * list hm_event :=
  match os with
  | [] => (h, [])
  | (o, now, active) :: os' =>
      let '(h1, e1) := check_resume o now active h in
      let '(h2, e2) := hm_run os' h1 in
      (h2, e1 ++ e2)
  end.

Definition probe_failed (o : probe) : bool :=
  match o with
  | ProbeResp status => negb (http_ok status)
  | ProbeThrow _ => true
  end.

(** The streak lengths carried by the 'unhealthy' events of a log. *)
Definition unhealthy_of (evs : list hm_event) : list Z :=
  omap (λ e, match e with Unhealthy _ n => Some n | ZombieWarning _ _ => None end) evs.

(** The invariant of the monitor: the streak is not negative, and the flag
    is down exactly when the streak is not empty and has reached the
    threshold. *)
Definition hm_inv (h : health) : Prop :=
  0 ≤ consecutiveFailures h ∧
  healthy h = negb (bool_decide (0 < consecutiveFailures h)
                    && bool_decide (maxConsecutiveFailures h ≤ consecutiveFailures h)).

(** The monitor with the timer table: the handle of its interval timer was
    handed out by the runtime. *)
Definition hm_typed {C} (s : health * runtime (callback C)) : Prop :=
  hm_inv s.1 ∧ ∀ t, interval s.1 = Some t → (t < next_timer s.2)%nat.

(** ** Inputs of the witnesses *)

Definition hm_demo : health := hm_new (Some (HmConfig None None (Some 3))).

Definition fail_n (n : nat) : list (probe * Z * list (job_id * option Z)) :=
  replicate n (ProbeResp 503, 0, []).

Definition hm_demo_probes : list (probe * Z * list (job_id * option Z)) :=
  [(ProbeResp 503, 10, []); (ProbeThrow (EExternal "ECONNREFUSED"), 20, []);
   (ProbeResp 200, 30, []); (ProbeResp 500, 40, [("job-a", Some 0)])].

(** * Facts *)

Section health_facts.
Implicit Types (h : health) (o : probe) (os : list (probe * Z * list (job_id * option Z))).

Lemma hm_new_inv config : hm_inv (hm_new config).
Proof. split; simpl; [lia|done]. Qed.

Lemma recordFailure_streak why h :
  consecutiveFailures (recordFailure why h).1 = consecutiveFailures h + 1
  ∧ maxConsecutiveFailures (recordFailure why h).1 = maxConsecutiveFailures h
  ∧ jobTimeoutMs (recordFailure why h).1 = jobTimeoutMs h.
Proof. unfold recordFailure; case_steps. Qed.

Lemma recordFailure_cases why h :
  (maxConsecutiveFailures h ≤ consecutiveFailures h + 1
   ∧ recordFailure why h = (set_streak h (consecutiveFailures h + 1) false,
                            [Unhealthy why (consecutiveFailures h + 1)]))
  ∨ (consecutiveFailures h + 1 < maxConsecutiveFailures h
     ∧ recordFailure why h = (set_streak h (consecutiveFailures h + 1) (healthy h), [])).
Proof. unfold recordFailure; case_bool_decide; [left|right]; split; (done || lia). Qed.

Lemma recordFailure_inv why h : hm_inv h → hm_inv (recordFailure why h).1.
Proof.
  intros [Hn Hh]; destruct (recordFailure_cases why h) as [[Hm ->]|[Hm ->]];
    split; simpl; try lia.
  - rewrite !bool_decide_eq_true_2 by lia; done.
  - rewrite Hh, (bool_decide_eq_false_2 (_ ≤ _ + 1)) by lia.
    rewrite (bool_decide_eq_false_2 (_ ≤ consecutiveFailures h)) by lia.
    by rewrite !andb_false_r.
Qed.

Lemma probe_step_inv o h : hm_inv h → hm_inv (probe_step o h).1.
Proof.
  destruct o as [status|msg]; simpl; [|apply recordFailure_inv].
  destruct (http_ok status); [|apply recordFailure_inv].
  intros _; split; simpl; [lia|done].
Qed.

Lemma probe_step_failed o h :
  probe_failed o = true →
  ∃ why, probe_step o h = recordFailure why h.
Proof.
  destruct o as [status|msg]; simpl; [|eauto].
  destruct (http_ok status); [done|eauto].
Qed.

Lemma probe_step_ok o h :
  probe_failed o = false → probe_step o h = (set_streak h 0 true, []).
Proof. destruct o as [status|msg]; simpl; [|done]. by destruct (http_ok status). Qed.

Lemma check_resume_state o now active h :
  (check_resume o now active h).1 = (probe_step o h).1.
Proof. unfold check_resume; by destruct (probe_step o h). Qed.

Lemma check_resume_events o now active h :
  (check_resume o now active h).2
  = (probe_step o h).2 ++ zombie_scan (probe_step o h).1 now active.
Proof. unfold check_resume; by destruct (probe_step o h). Qed.

Lemma hm_run_cons o now active os h :
  hm_run ((o, now, active) :: os) h =
  ((hm_run os (check_resume o now active h).1).1,
   (check_resume o now active h).2 ++ (hm_run os (check_resume o now active h).1).2).
Proof. simpl; destruct (check_resume o now active h), (hm_run os _); done. Qed.

Lemma unhealthy_of_app evs1 evs2 :
  unhealthy_of (evs1 ++ evs2) = unhealthy_of evs1 ++ unhealthy_of evs2.
Proof. apply omap_app. Qed.

Lemma zombie_scan_not_unhealthy h now active :
  unhealthy_of (zombie_scan h now active) = [].
Proof.
  unfold zombie_scan, unhealthy_of; induction active as [|j active IH]; [done|].
  simpl; by case_bool_decide.
Qed.

Lemma check_resume_unhealthy o now active h :
  unhealthy_of (check_resume o now active h).2 = unhealthy_of (probe_step o h).2.
Proof.
  by rewrite check_resume_events, unhealthy_of_app, zombie_scan_not_unhealthy, app_nil_r.
Qed.

(** Whatever the probes answer, the streak is never negative
    and the flag is down exactly when the streak is not empty and has
    reached the threshold. *)
Theorem hm_run_inv os config : hm_inv (hm_run os (hm_new config)).1.
Proof.
  generalize (hm_new_inv config); generalize (hm_new config).
  induction os as [|[[o now] active] os IH]; intros h Hh; [done|].
  rewrite hm_run_cons; simpl; apply IH.
  rewrite check_resume_state; by apply probe_step_inv.
Qed.

Lemma failures_streak os h :
  Forall (λ x, probe_failed x.1.1 = true) os →
  consecutiveFailures (hm_run os h).1 = consecutiveFailures h + Z.of_nat (length os)
  ∧ maxConsecutiveFailures (hm_run os h).1 = maxConsecutiveFailures h.
Proof.
  revert h; induction os as [|[[o now] active] os IH]; intros h Hos.
  { simpl; split; [lia|done]. }
  apply Forall_cons in Hos as [Ho Hos]; simpl in Ho.
  rewrite hm_run_cons; simpl; destruct (IH (check_resume o now active h).1 Hos) as [-> ->].
  rewrite check_resume_state; destruct (probe_step_failed o h Ho) as [why ->].
  destruct (recordFailure_streak why h) as (-> & -> & _); split; [lia|done].
Qed.

(** Claim C13: from a new monitor, after [k] failed probes in a row the
    streak is [k] and [isHealthy] is false exactly when [k] is at least 1
    and at least the threshold; a probe that succeeds after them resets the
    streak to 0 and makes [isHealthy] true again. *)
Theorem failure_hysteresis os config o now active :
  Forall (λ x, probe_failed x.1.1 = true) os →
  probe_failed o = false →
  let h := (hm_run os (hm_new config)).1 in
  consecutiveFailures h = Z.of_nat (length os)
  ∧ (isHealthy h = false ↔
     (0 < length os)%nat ∧ maxConsecutiveFailures (hm_new config) ≤ Z.of_nat (length os))
  ∧ consecutiveFailures (check_resume o now active h).1 = 0
  ∧ isHealthy (check_resume o now active h).1 = true.
Proof.
  intros Hos Ho h; destruct (failures_streak os (hm_new config) Hos) as [Hn Hm].
  destruct (hm_run_inv os config) as [_ Hh]; fold h in Hn, Hm, Hh; simpl in Hn.
  split_and!; [done| |by rewrite check_resume_state, probe_step_ok..].
  unfold isHealthy; rewrite Hh, Hm, Hn, negb_false_iff, andb_true_iff, !bool_decide_eq_true; lia.
Qed.

(** The 'unhealthy' event is emitted by every failed probe
    that leaves the streak at or above the threshold: in a row of failed
    probes that starts with the streak one below the threshold or higher,
    each probe emits the event, with the streak counting up. *)
Theorem unhealthy_every_cycle os h :
  Forall (λ x, probe_failed x.1.1 = true) os →
  maxConsecutiveFailures h ≤ consecutiveFailures h + 1 →
  unhealthy_of (hm_run os h).2
  = (λ i : nat, consecutiveFailures h + Z.of_nat i) <$> seq 1 (length os).
Proof.
  revert h; induction os as [|[[o now] active] os IH]; intros h Hos Hm; [done|].
  apply Forall_cons in Hos as [Ho Hos]; simpl in Ho.
  rewrite hm_run_cons; simpl; rewrite unhealthy_of_app, check_resume_unhealthy.
  destruct (probe_step_failed o h Ho) as [why Hw].
  destruct (recordFailure_cases why h) as [[_ Hr]|[? _]]; [|lia].
  rewrite IH; [|done|rewrite check_resume_state, Hw, Hr; simpl; lia].
  rewrite check_resume_state, Hw, Hr; simpl; f_equal.
  rewrite <-(fmap_S_seq 1), <-list_fmap_compose; apply list_fmap_ext; intros; simpl; lia.
Qed.

(** Below the threshold nothing is emitted. *)
Lemma unhealthy_silent_below os h :
  Forall (λ x, probe_failed x.1.1 = true) os →
  consecutiveFailures h + Z.of_nat (length os) < maxConsecutiveFailures h →
  unhealthy_of (hm_run os h).2 = [].
Proof.
  revert h; induction os as [|[[o now] active] os IH]; intros h Hos Hm; [done|].
  apply Forall_cons in Hos as [Ho Hos]; simpl in Ho, Hm.
  rewrite hm_run_cons; simpl; rewrite unhealthy_of_app, check_resume_unhealthy.
  destruct (probe_step_failed o h Ho) as [why Hw].
  destruct (recordFailure_cases why h) as [[? _]|[_ Hr]]; [lia|].
  rewrite IH; [|done|rewrite check_resume_state, Hw, Hr; simpl; lia].
  by rewrite Hw, Hr.
Qed.

(** The scan of the active jobs reports exactly the jobs whose
    age exceeds twice the job timeout, and changes nothing: the state after
    [_check] does not depend on the jobs scanned. *)
Theorem zombie_scan_observes o now active h id el :
  (check_resume o now active h).1 = (check_resume o now [] h).1
  ∧ (ZombieWarning id el ∈ zombie_scan h now active ↔
     ∃ st, (id, st) ∈ active ∧ el = now - js_or st 0 ∧ jobTimeoutMs h * 2 < el).
Proof.
  split; [by rewrite !check_resume_state|].
  unfold zombie_scan; rewrite list_elem_of_omap; split.
  - intros ([id' st] & Hin & Hj); simpl in Hj; case_bool_decide; simplify_eq; eauto.
  - intros (st & Hin & -> & Hlt); exists (id, st); split; [done|]; simpl.
    by rewrite bool_decide_eq_true_2.
Qed.

(** The defaults of the constructor: an absent configuration
    or an absent field gives 30 s, 1 h and 5; a threshold of 0 cannot be
    configured, it is replaced by 5. *)
Theorem hm_new_defaults config :
  hm_new None = Hm 30000 3600000 5 0 true None
  ∧ maxConsecutiveFailures (hm_new config) ≠ 0
  ∧ (config ≫= cfg_maxConsecutiveFailures = Some 0 →
     maxConsecutiveFailures (hm_new config) = 5).
Proof.
  split_and!; [done|by apply js_or_nonzero|].
  unfold hm_new, cfg_field; simpl; by intros ->.
Qed.

End health_facts.

Section health_timer_facts.
Context {C : Type}.
Implicit Types (s : health * runtime (callback C)).

(** [stop] after [start] leaves no timer behind and forgets
    the handle; [stop] is idempotent. *)
Theorem hm_stop_start s :
  rt_wf s.2 →
  timers (hm_stop (hm_start s)).2 = timers s.2
  ∧ interval (hm_stop (hm_start s)).1 = None
  ∧ hm_stop (hm_stop (hm_start s)) = hm_stop (hm_start s).
Proof.
  intros Hwf; unfold hm_stop, hm_start; simpl; split_and!; try done.
  apply delete_insert_id, (arm_fresh (Timer 0 None CbHealthCheck) _ Hwf).
Qed.

(** ** The handle of the interval timer *)

Lemma hm_typed_grows h (r r' : runtime (callback C)) :
  hm_typed (h, r) → rt_grows r r' → hm_typed (h, r').
Proof. intros [? Hh] [_ ?]; split; [done|]; intros t ?%Hh; simpl in *; lia. Qed.

Lemma hm_start_grows s : rt_grows s.2 (hm_start s).2.
Proof. apply arm_grows. Qed.

Lemma hm_start_typed s : hm_typed s → hm_typed (hm_start s).
Proof. intros [? _]; split; [done|]; simpl; intros; simplify_eq; lia. Qed.

Lemma hm_stop_grows s : rt_grows s.2 (hm_stop s).2.
Proof.
  unfold hm_stop; destruct (interval s.1); [apply clearTimeout_grows|apply rt_grows_refl].
Qed.

Lemma hm_stop_typed s : hm_typed s → hm_typed (hm_stop s).
Proof.
  intros Hs; unfold hm_stop; destruct (interval s.1); [|done].
  destruct Hs; split; [done|]; simpl; by intros.
Qed.

Lemma check_resume_typed o now active h (r : runtime (callback C)) :
  hm_typed (h, r) → hm_typed ((check_resume o now active h).1, r).
Proof.
  intros [Hinv Hh]; split; simpl in *.
  - rewrite check_resume_state; by apply probe_step_inv.
  - rewrite check_resume_state; unfold probe_step, recordFailure; by case_steps.
Qed.

End health_timer_facts.

(** ** Witnesses *)

Lemma failure_hysteresis_witness :
  consecutiveFailures (hm_run (fail_n 3) hm_demo).1 = Z.of_nat (length (fail_n 3))
  ∧ (isHealthy (hm_run (fail_n 3) hm_demo).1 = false ↔
     (0 < length (fail_n 3))%nat
     ∧ maxConsecutiveFailures hm_demo ≤ Z.of_nat (length (fail_n 3)))
  ∧ consecutiveFailures (check_resume (ProbeResp 200) 0 [] (hm_run (fail_n 3) hm_demo).1).1 = 0
  ∧ isHealthy (check_resume (ProbeResp 200) 0 [] (hm_run (fail_n 3) hm_demo).1).1 = true.
Proof.
  apply (failure_hysteresis (fail_n 3) (Some (HmConfig None None (Some 3))) (ProbeResp 200) 0 []);
    [by repeat constructor|reflexivity].
Defined.

Lemma unhealthy_every_cycle_witness :
  unhealthy_of (hm_run (fail_n 4) (hm_run (fail_n 2) hm_demo).1).2
  = (λ i : nat, consecutiveFailures (hm_run (fail_n 2) hm_demo).1 + Z.of_nat i)
      <$> seq 1 (length (fail_n 4)).
Proof.
  apply (unhealthy_every_cycle (fail_n 4) (hm_run (fail_n 2) hm_demo).1);
    [by repeat constructor|vm_compute; discriminate].
Defined.

Lemma hm_stop_start_witness :
  timers (hm_stop (hm_start (hm_demo, rt_init (P:=callback unit) 0))).2 = ∅
  ∧ interval (hm_stop (hm_start (hm_demo, rt_init (P:=callback unit) 0))).1 = None
  ∧ hm_stop (hm_stop (hm_start (hm_demo, rt_init (P:=callback unit) 0)))
    = hm_stop (hm_start (hm_demo, rt_init (P:=callback unit) 0)).
Proof. apply (hm_stop_start (hm_demo, rt_init 0)); done. Defined.

(** The events of a concrete run: two failures below the threshold of 3
    emit nothing, the success resets, and the scan reports the old job. *)
Example hm_demo_run :
  (hm_run hm_demo_probes hm_demo).2 = []
  ∧ (hm_run hm_demo_probes (set_streak hm_demo 2 true)).2
    = [Unhealthy (ReturnedStatus 503) 3; Unhealthy (Message (EExternal "ECONNREFUSED")) 4]
  ∧ zombie_scan (hm_new (Some (HmConfig None (Some 10) None))) 40 [("job-a", Some 0); ("job-b", Some 25)]
    = [ZombieWarning "job-a" 40].
Proof. vm_compute; done. Qed.
