(* ===== verification/Async.v ===== *)
(** * Async: asynchronous functions as trees of atomic segments

    An [async] function of the sources is a value of [task A]: a tree whose
    inner nodes are what the function does next and whose leaves are how it
    settles.  [Get] and [Put] read and write the state shared by all tasks
    (the fields of the objects of the program); [Await o k] starts the
    external operation [o] and suspends, and [k] is the rest of the function,
    waiting for the promise to settle ([Ok] for a resolved promise, [Err] for
    a rejected one); [Spawn t k] calls the asynchronous function [t] without
    awaiting it: [t] runs at once up to its first [await], then [k] goes on.

    The code between two [await]s runs without interruption in Node.js;
    [run] is that: it executes a task up to its next suspension.  Calling an
    asynchronous function of the program and awaiting it is [≫=]: the
    microtask hop between a callee that returns and its caller is not a point
    where a timer or the completion of an operation can be served.

    [try]/[catch]/[finally] are [catch] and [finally]; all of them are
    instances of [handle], which passes the way a task settled to its
    continuation.

    The type of external operations [Op] and the type [ans o] of what an
    operation resolves to are parameters, fixed in [Api]. *)

From S2P Require Import Prelude.

Section task.
Context {Op : Type} {ans : Op → Type} {Σ : Type}.

Inductive task (A : Type) : Type :=
| Ret (a : A)
| Throw (e : error)
| Get (k : Σ → task A)
| Put (s : Σ) (k : task A)
| Await (o : Op) (k : result (ans o) → task A)
| Spawn (t : task unit) (k : task A).

Arguments Ret {A} a.
Arguments Throw {A} e.
Arguments Get {A} k.
Arguments Put {A} s k.
Arguments Await {A} o k.
Arguments Spawn {A} t k.

(** A settled promise as a task. *)
Definition settle {A} (r : result A) : task A :=
  match r with
  | Ok a => Ret a
  | Err e => Throw e
  end.

(** [handle t f]: run [t], then [f] on the way it settled. *)
Fixpoint handle {A B} (t : task A) (f : result A → task B) : task B :=
  match t with
  | Ret a => f (Ok a)
  | Throw e => f (Err e)
  | Get k => Get (λ s, handle (k s) f)
  | Put s k => Put s (handle k f)
  | Await o k => Await o (λ r, handle (k r) f)
  | Spawn t' k => Spawn t' (handle k f)
  end.

Definition bind {A B} (t : task A) (f : A → task B) : task B :=
  handle t (λ r, match r with Ok a => f a | Err e => Throw e end).

(** [try { t } catch (e) { h e }] *)
Definition catch {A} (t : task A) (h : error → task A) : task A :=
  handle t (λ r, match r with Ok a => Ret a | Err e => h e end).

(** [try { t } finally { fin }]: an error of [fin] replaces the outcome of
    [t]. *)
Definition finally {A} (t : task A) (fin : task unit) : task A :=
  handle t (λ r, handle fin (λ r', match r' with Ok _ => settle r | Err e => Throw e end)).

(** [t.catch(() => {})] on the promise of a call *)
Definition ignore_errors (t : task unit) : task unit := catch t (λ _, Ret tt).

Definition get : task Σ := Get Ret.
Definition gets {A} (f : Σ → A) : task A := Get (λ s, Ret (f s)).
Definition put (s : Σ) : task unit := Put s (Ret tt).
Definition modify (f : Σ → Σ) : task unit := Get (λ s, Put (f s) (Ret tt)).
Definition throw {A} (e : error) : task A := Throw e.
Definition await (o : Op) : task (ans o) := Await o settle.
Definition spawn (t : task unit) : task unit := Spawn t (Ret tt).

(** [if (!b) throw e] *)
Definition guard (b : bool) (e : error) : task unit :=
  if b then Ret tt else Throw e.

(** [for (const x of xs) { body x }], with [break]: the body returns [true]
    to go on and [false] to leave the loop. *)
Fixpoint for_each {X} (xs : list X) (body : X → task bool) : task unit :=
  match xs with
  | [] => Ret tt
  | x :: xs' => bind (body x) (λ go, if go : bool then for_each xs' body else Ret tt)
  end.

(** ** Running a task up to its next suspension *)

(** A suspended task: the operation it waits for and its continuation. *)
Record susp (A : Type) : Type := Susp {
  s_op : Op;
  s_k : result (ans s_op) → task A
}.
Arguments Susp {A} s_op s_k.
Arguments s_op {A} s.
Arguments s_k {A} s.

Inductive status (A : Type) : Type :=
| Done (r : result A)
| Blocked (w : susp A).
Arguments Done {A} r.
Arguments Blocked {A} w.

(** What a segment leaves behind: the state, how far the task got, the
    tasks it started that are now suspended, and the errors of tasks it
    started that nobody caught. *)
Record ran (A : Type) : Type := Ran {
  r_state : Σ;
  r_status : status A;
  r_spawned : list (susp unit);
  r_unhandled : list error
}.
Arguments Ran {A} r_state r_status r_spawned r_unhandled.
Arguments r_state {A} r.
Arguments r_status {A} r.
Arguments r_spawned {A} r.
Arguments r_unhandled {A} r.

Definition left_behind (st : status unit) : list (susp unit) * list error :=
  match st with
  | Done (Ok _) => ([], [])
  | Done (Err e) => ([], [e])
  | Blocked w => ([w], [])
  end.

(** What a task that was started without [await] adds to the segment of its
    caller. *)
Definition ran_after {A} (r1 : ran unit) (r2 : ran A) : ran A :=
  Ran (r_state r2) (r_status r2)
      ((left_behind (r_status r1)).1 ++ r_spawned r1 ++ r_spawned r2)
      ((left_behind (r_status r1)).2 ++ r_unhandled r1 ++ r_unhandled r2).

(** The segment [r2] that goes on where [r1] settled. *)
Definition ran_then {A B} (r1 : ran A) (r2 : ran B) : ran B :=
  Ran (r_state r2) (r_status r2) (r_spawned r1 ++ r_spawned r2)
      (r_unhandled r1 ++ r_unhandled r2).

Fixpoint run {A : Type} (t : task A) (s : Σ) : ran A :=
  match t with
  | Ret a => Ran s (Done (Ok a)) [] []
  | Throw e => Ran s (Done (Err e)) [] []
  | Get k => run (k s) s
  | Put s' k => run k s'
  | Await o k => Ran s (Blocked (Susp o k)) [] []
  | Spawn t' k => ran_after (run t' s) (run k (r_state (run t' s)))
  end.

(** The operations a task has sent off when it suspends: its own and those of
    the tasks it started. *)
Definition started {A} (r : ran A) : list Op :=
  match r_status r with Blocked w => [s_op w] | Done _ => [] end
  ++ (s_op <$> r_spawned r).

(** The next segment of a task that [r] left suspended, when the operation
    it waits for is answered [ora] says and the state is [s] by then.  A task
    that has settled stays as it is. *)
Definition resume {A} (ora : ∀ o : Op, result (ans o)) (r : ran A) (s : Σ) : ran A :=
  match r_status r with
  | Blocked w => run (s_k w (ora (s_op w))) s
  | Done x => Ran s (Done x) [] []
  end.

(** ** Running a task alone

    [exec] runs a task to its end: every operation is answered at once by
    [ora], and between suspension and resumption the state is changed by
    [env] (what the other tasks did meanwhile; [id] when the task runs
    alone).  Tasks started on the way are left where [run] left them.  The
    result lists the operations the task itself awaited, in order. *)
Definition oracle : Type := ∀ o : Op, result (ans o).

Record execd (A : Type) : Type := Execd {
  e_state : Σ;
  e_result : result A;
  e_ops : list Op;
  e_spawned : list (susp unit);
  e_unhandled : list error
}.
Arguments Execd {A} e_state e_result e_ops e_spawned e_unhandled.
Arguments e_state {A} e.
Arguments e_result {A} e.
Arguments e_ops {A} e.
Arguments e_spawned {A} e.
Arguments e_unhandled {A} e.

(** The run [r] after the operation [o]. *)
Definition op_then {A} (o : Op) (r : execd A) : execd A :=
  Execd (e_state r) (e_result r) (o :: e_ops r) (e_spawned r) (e_unhandled r).

(** The run [r2] after the segment [r1] of a task started without
    [await]. *)
Definition spawn_then {A} (r1 : ran unit) (r2 : execd A) : execd A :=
  Execd (e_state r2) (e_result r2) (e_ops r2)
        ((left_behind (r_status r1)).1 ++ r_spawned r1 ++ e_spawned r2)
        ((left_behind (r_status r1)).2 ++ r_unhandled r1 ++ e_unhandled r2).

(** The run [r2] after the run [r1] of what came before it. *)
Definition exec_then {A B} (r1 : execd A) (r2 : execd B) : execd B :=
  Execd (e_state r2) (e_result r2) (e_ops r1 ++ e_ops r2)
        (e_spawned r1 ++ e_spawned r2) (e_unhandled r1 ++ e_unhandled r2).

Fixpoint exec {A : Type} (ora : oracle) (env : Σ → Σ) (t : task A) (s : Σ) : execd A :=
  match t with
  | Ret a => Execd s (Ok a) [] [] []
  | Throw e => Execd s (Err e) [] [] []
  | Get k => exec ora env (k s) s
  | Put s' k => exec ora env k s'
  | Await o k => op_then o (exec ora env (k (ora o)) (env s))
  | Spawn t' k => spawn_then (run t' s) (exec ora env k (r_state (run t' s)))
  end.

(** [along P Q ora env t s]: in the run of [t] that [exec] computes, [P]
    holds of the state and of the operation every time [t] suspends, and [Q]
    of the outcome and the state when it settles. *)
Fixpoint along {A : Type} (P : Σ → Op → Prop) (Q : result A → Σ → Prop)
    (ora : oracle) (env : Σ → Σ) (t : task A) (s : Σ) : Prop :=
  match t with
  | Ret a => Q (Ok a) s
  | Throw e => Q (Err e) s
  | Get k => along P Q ora env (k s) s
  | Put s' k => along P Q ora env k s'
  | Await o k => P s o ∧ along P Q ora env (k (ora o)) (env s)
  | Spawn t' k => along P Q ora env k (r_state (run t' s))
  end.

(** [sure I P Qc Q t s]: the same for every run of [t] from [s], whatever
    the operations answer and whatever state of [I] the other tasks leave
    when [t] is resumed; moreover every task that [t] starts settles in
    [Qc], and so does every task those start. *)
Fixpoint sure {A : Type} (I : Σ → Prop) (P : Σ → Op → Prop) (Qc : result unit → Σ → Prop)
    (Q : result A → Σ → Prop) (t : task A) (s : Σ) : Prop :=
  match t with
  | Ret a => Q (Ok a) s
  | Throw e => Q (Err e) s
  | Get k => sure I P Qc Q (k s) s
  | Put s' k => sure I P Qc Q k s'
  | Await o k => P s o ∧ ∀ r s', I s' → sure I P Qc Q (k r) s'
  | Spawn t' k => sure I P Qc Qc t' s ∧ sure I P Qc Q k (r_state (run t' s))
  end.

(** [I] at every suspension and at the end. *)
Definition always {A : Type} (I : Σ → Prop) (ora : oracle) (env : Σ → Σ) (t : task A) (s : Σ)
    : Prop :=
  along (λ s' _, I s') (λ _, I) ora env t s.

(** [t] keeps the invariant [I], from every state. *)
Definition keeps {A : Type} (I : Σ → Prop) (ora : oracle) (env : Σ → Σ) (t : task A) : Prop :=
  ∀ s, I s → always I ora env t s.

End task.

Arguments Ret {Op ans Σ A} a.
Arguments Throw {Op ans Σ A} e.
Arguments Get {Op ans Σ A} k.
Arguments Put {Op ans Σ A} s k.
Arguments Await {Op ans Σ A} o k.
Arguments Spawn {Op ans Σ A} t k.
Arguments Susp {Op ans Σ A} s_op s_k.
Arguments s_op {Op ans Σ A} s.
Arguments s_k {Op ans Σ A} s.
Arguments Done {Op ans Σ A} r.
Arguments Blocked {Op ans Σ A} w.
Arguments Ran {Op ans Σ A} r_state r_status r_spawned r_unhandled.
Arguments r_state {Op ans Σ A} r.
Arguments r_status {Op ans Σ A} r.
Arguments r_spawned {Op ans Σ A} r.
Arguments r_unhandled {Op ans Σ A} r.
Arguments Execd {Op ans Σ A} e_state e_result e_ops e_spawned e_unhandled.
Arguments e_state {Op ans Σ A} e.
Arguments e_result {Op ans Σ A} e.
Arguments e_ops {Op ans Σ A} e.
Arguments e_spawned {Op ans Σ A} e.
Arguments e_unhandled {Op ans Σ A} e.
Arguments task Op ans Σ A : clear implicits.
Arguments susp Op ans Σ A : clear implicits.
Arguments status Op ans Σ A : clear implicits.
Arguments ran Op ans Σ A : clear implicits.
Arguments execd Op ans Σ A : clear implicits.
Arguments oracle Op ans : clear implicits.

#[global] Instance task_ret {Op ans Σ} : MRet (task Op ans Σ) := λ A, Ret.
#[global] Instance task_bind {Op ans Σ} : MBind (task Op ans Σ) := λ A B f t, bind t f.

(** ** Parts of the state and local variables

    A component reads and writes its own part of the shared state: a
    [Lens Σ A] says where the part [A] sits in [Σ].  [zoom] runs a task
    written over the part on the whole state.

    The [let] variables of a function that its [catch] and [finally] blocks
    read live in the continuation of its task and are seen by nobody else,
    the tasks it starts included.  A function with such variables is an
    [ltask L Σ A]: given the variables it runs a task that ends with the
    outcome (a value or the error it threw) and the variables as they are
    then.  [with_locals l t] is the whole function as a task. *)
Class Lens (Σ A : Type) : Type := {
  view : Σ → A;
  update : A → Σ → Σ;
  view_update a s : view (update a s) = a;
  update_view s : update (view s) s = s;
  update_update a b s : update a (update b s) = update a s
}.

(** Two parts that do not overlap: writing one leaves the other as it
    was. *)
Class Apart {Σ A B : Type} (la : Lens Σ A) (lb : Lens Σ B) : Prop := {
  view_update_apart (b : B) (s : Σ) : view (Lens:=la) (update b s) = view s;
  view_update_apart' (a : A) (s : Σ) : view (Lens:=lb) (update a s) = view s;
  update_comm (a : A) (b : B) (s : Σ) : update a (update b s) = update b (update a s)
}.

Section parts.
Context {Op : Type} {ans : Op → Type}.

Definition vgets {Σ A X} `{!Lens Σ A} (f : A → X) : task Op ans Σ X :=
  Get (λ s, Ret (f (view s))).

Definition vmodify {Σ A} `{!Lens Σ A} (f : A → A) : task Op ans Σ unit :=
  Get (λ s, Put (update (f (view s)) s) (Ret tt)).

(** A computation on a part that returns a value: [f] gives the value and
    the new part. *)
Definition vstate {Σ A X} `{!Lens Σ A} (f : A → X * A) : task Op ans Σ X :=
  Get (λ s, Put (update (f (view s)).2 s) (Ret (f (view s)).1)).

Fixpoint zoom {Σ A} `{!Lens Σ A} {X : Type} (t : task Op ans A X) : task Op ans Σ X :=
  match t with
  | Ret x => Ret x
  | Throw e => Throw e
  | Get k => Get (λ s, zoom (k (view s)))
  | Put a k => Get (λ s, Put (update a s) (zoom k))
  | Await o k => Await o (λ r, zoom (k r))
  | Spawn t' k => Spawn (zoom t') (zoom k)
  end.

(** *** Functions with local variables *)

Definition ltask (L Σ A : Type) : Type := L → task Op ans Σ (result A * L).

(** A task of the shared state inside a function with locals; an error it
    throws is an outcome like another. *)
Definition lift {L Σ A} (t : task Op ans Σ A) : ltask L Σ A :=
  λ l, handle t (λ r, Ret (r, l)).

Definition lret {L Σ A} (a : A) : ltask L Σ A := λ l, Ret (Ok a, l).
Definition lthrow {L Σ A} (e : error) : ltask L Σ A := λ l, Ret (Err e, l).

(** Run [t], then [f] on its outcome, with the variables as [t] left
    them. *)
Definition lhandle {L Σ A B} (t : ltask L Σ A) (f : result A → ltask L Σ B) : ltask L Σ B :=
  λ l, handle (t l) (λ r, match r with
                          | Ok rl => f rl.1 rl.2
                          | Err e => f (Err e) l
                          end).

Definition lbind {L Σ A B} (t : ltask L Σ A) (f : A → ltask L Σ B) : ltask L Σ B :=
  lhandle t (λ r, match r with Ok a => f a | Err e => lthrow e end).

Definition lcatch {L Σ A} (t : ltask L Σ A) (h : error → ltask L Σ A) : ltask L Σ A :=
  lhandle t (λ r, match r with Ok a => lret a | Err e => h e end).

Definition lfinally {L Σ A} (t : ltask L Σ A) (fin : ltask L Σ unit) : ltask L Σ A :=
  lhandle t (λ r, lhandle fin (λ r', match r' with
                                      | Ok _ => match r with Ok a => lret a | Err e => lthrow e end
                                      | Err e => lthrow e
                                      end)).

(** Reading and assigning the variables. *)
Definition local {L Σ A} (f : L → A) : ltask L Σ A := λ l, Ret (Ok (f l), l).
Definition assign {L Σ} (f : L → L) : ltask L Σ unit := λ l, Ret (Ok tt, f l).

Definition with_locals {L Σ A} (l : L) (t : ltask L Σ A) : task Op ans Σ A :=
  bind (t l) (λ rl, settle rl.1).

Definition susp_zoom {Σ A} `{!Lens Σ A} (w : susp Op ans A unit) : susp Op ans Σ unit :=
  Susp (s_op w) (λ r, zoom (s_k w r)).

(** A callback that returns at once: it changes the state by [g] and starts
    [child] without awaiting it. *)
Definition callback_of {Σ} (g : Σ → Σ) (child : task Op ans Σ unit) : task Op ans Σ unit :=
  Get (λ s, Put (g s) (Spawn child (Ret tt))).

(** The segment of a task on a part, seen from the whole state [s]. *)
Definition ran_zoom {Σ A} `{!Lens Σ A} {X} (s : Σ) (r : ran Op ans A X) : ran Op ans Σ X :=
  Ran (update (r_state r) s)
      match r_status r with
      | Done x => Done x
      | Blocked w => Blocked (Susp (s_op w) (λ r, zoom (s_k w r)))
      end
      (susp_zoom <$> r_spawned r) (r_unhandled r).

End parts.

Arguments ltask Op ans L Σ A : clear implicits.
#[global] Typeclasses Opaque ltask.

#[global] Instance ltask_ret {Op ans L Σ} : MRet (ltask Op ans L Σ) := λ A, lret.
#[global] Instance ltask_bind {Op ans L Σ} : MBind (ltask Op ans L Σ) := λ A B f t, lbind t f.

(** ** Symbolic execution

    [task_cbn] computes with the combinators of this file and nothing else,
    so that the state stays in the form the component wrote it.
    [exec_cases ora] replaces a run [exec ora env t s] in the goal by its
    value along every path: it computes, and where the run depends on an
    answer of [ora] or on a variable it splits on it. *)
Ltac task_cbn H :=
  unfold mbind, mret, ltask_bind, ltask_ret, task_bind, task_ret, with_locals, lfinally,
    lcatch, lbind, lhandle, lift, lret, lthrow, local, assign, guard in H;
  cbn [exec run along sure always handle bind catch finally ignore_errors
       settle guard await throw get gets put modify spawn vgets vmodify vstate zoom
       callback_of op_then spawn_then exec_then ran_after ran_then left_behind for_each
       e_state e_result e_ops e_spawned e_unhandled r_state r_status r_spawned r_unhandled
       fst snd app default] in H.

(** Computing with the tasks, the blocks of functions with local variables
    left as they are. *)
Ltac task_compute :=
  unfold mbind, mret, task_bind, task_ret;
  cbn [exec run along sure always handle bind catch finally ignore_errors
       settle guard await throw get gets put modify spawn vgets vmodify vstate zoom
       callback_of op_then spawn_then exec_then ran_after ran_then left_behind for_each
       e_state e_result e_ops e_spawned e_unhandled r_state r_status r_spawned r_unhandled
       fst snd app default].

Ltac task_cbn_goal :=
  unfold mbind, mret, ltask_bind, ltask_ret, task_bind, task_ret, with_locals, lfinally,
    lcatch, lbind, lhandle, lift, lret, lthrow, local, assign, guard;
  cbn [exec run along sure always handle bind catch finally ignore_errors
       settle guard await throw get gets put modify spawn vgets vmodify vstate zoom
       callback_of op_then spawn_then exec_then ran_after ran_then left_behind for_each
       e_state e_result e_ops e_spawned e_unhandled r_state r_status r_spawned r_unhandled
       fst snd app default].

Ltac exec_split ora T :=
  match T with
  | context [ora ?o] => destruct (ora o) as [?|?] eqn:?
  | context [match ?x with _ => _ end] => is_var x; destruct x
  | context [if ?x then _ else _] => is_var x; destruct x
  end.

Ltac exec_ora ora H extra :=
  repeat first
    [ progress task_cbn H
    | progress extra H
    | let T := type of H in exec_split ora T ].

(** [extra] is a tactic that computes with the definitions of the component
    in a hypothesis. *)
Ltac exec_cases_with ora extra :=
  match goal with
  | |- context [exec ora ?env ?t ?s] =>
      let r := fresh "r" in
      let Hr := fresh "Hr" in
      remember (exec ora env t s) as r eqn:Hr;
      exec_ora ora Hr extra; subst r; task_cbn_goal
  end.

Ltac exec_cases ora := exec_cases_with ora ltac:(fun H => fail).

(** * Facts *)

Section task_facts.
Context {Op : Type} {ans : Op → Type} {Σ : Type}.
Implicit Types (s : Σ) (ora : oracle Op ans) (env : Σ → Σ).

Local Abbreviation task := (task Op ans Σ).
Local Abbreviation execd := (execd Op ans Σ).
Local Abbreviation ran := (ran Op ans Σ).

(** ** Sequencing of runs *)

Lemma exec_then_ret {A B} s (a : result A) (r : execd B) :
  exec_then (Execd s a [] [] []) r = r.
Proof. by destruct r. Qed.

Lemma exec_then_op {A B} o (r1 : execd A) (r2 : execd B) :
  exec_then (op_then o r1) r2 = op_then o (exec_then r1 r2).
Proof. done. Qed.

Lemma exec_then_spawn {A B} (r0 : ran unit) (r1 : execd A) (r2 : execd B) :
  exec_then (spawn_then r0 r1) r2 = spawn_then r0 (exec_then r1 r2).
Proof. unfold exec_then, spawn_then; simpl; f_equal; by rewrite <-!app_assoc. Qed.

(** The run of [handle t f] is the run of [t] followed by the run of [f]
    on the way [t] settled, from the state [t] left. *)
Lemma exec_handle {A B} ora env (t : task A) (f : result A → task B) s :
  exec ora env (handle t f) s
  = exec_then (exec ora env t s)
      (exec ora env (f (e_result (exec ora env t s))) (e_state (exec ora env t s))).
Proof.
  revert B f s; induction t as [A a|A e|A k IH|A s' k IH|A o k IH|A t' _ k IH];
    intros B f s; simpl.
  - by rewrite exec_then_ret.
  - by rewrite exec_then_ret.
  - apply IH.
  - apply IH.
  - by rewrite IH, exec_then_op.
  - by rewrite IH, exec_then_spawn.
Qed.

Lemma exec_bind {A B} ora env (t : task A) (f : A → task B) s :
  exec ora env (t ≫= f) s
  = exec_then (exec ora env t s)
      match e_result (exec ora env t s) with
      | Ok a => exec ora env (f a) (e_state (exec ora env t s))
      | Err e => Execd (e_state (exec ora env t s)) (Err e) [] [] []
      end.
Proof.
  unfold mbind, task_bind, bind; rewrite exec_handle.
  by destruct (e_result (exec ora env t s)).
Qed.

Lemma exec_catch {A} ora env (t : task A) (h : error → task A) s :
  exec ora env (catch t h) s
  = exec_then (exec ora env t s)
      match e_result (exec ora env t s) with
      | Ok a => Execd (e_state (exec ora env t s)) (Ok a) [] [] []
      | Err e => exec ora env (h e) (e_state (exec ora env t s))
      end.
Proof.
  unfold catch; rewrite exec_handle.
  by destruct (e_result (exec ora env t s)).
Qed.

(** [finally] runs its second task however the first one settled, and
    keeps the outcome of the first when the second one succeeds. *)
Lemma exec_finally {A} ora env (t : task A) (fin : task unit) s :
  let r1 := exec ora env t s in
  let r2 := exec ora env fin (e_state r1) in
  exec ora env (finally t fin) s
  = exec_then r1 (Execd (e_state r2)
                        match e_result r2 with Ok _ => e_result r1 | Err e => Err e end
                        (e_ops r2) (e_spawned r2) (e_unhandled r2)).
Proof.
  simpl; unfold finally; rewrite !exec_handle; f_equal.
  destruct (exec ora env fin _) as [s2 [[]|e] ops sp un]; simpl;
    [destruct (e_result (exec ora env t s))|]; simpl;
    unfold exec_then; simpl; by rewrite !app_nil_r.
Qed.

(** A task that catches everything does not fail. *)
Lemma exec_ignore_errors ora env (t : task unit) s :
  e_result (exec ora env (ignore_errors t) s) = Ok tt.
Proof.
  unfold ignore_errors; rewrite exec_catch; simpl.
  by destruct (e_result (exec ora env t s)) as [[]|].
Qed.

(** ** Segments *)

Lemma ran_then_ret {A B} s (a : result A) (r : ran B) :
  ran_then (Ran s (Done a) [] []) r = r.
Proof. by destruct r. Qed.

Lemma ran_then_after {A B} (r0 : ran unit) (r1 : ran A) (r2 : ran B) :
  ran_then (ran_after r0 r1) r2 = ran_after r0 (ran_then r1 r2).
Proof. unfold ran_then, ran_after; simpl; f_equal; by rewrite <-!app_assoc. Qed.

(** The first segment of [handle t f]: when [t] settles in its first
    segment, [f] goes on in the same segment; when [t] suspends, so does
    [handle t f], and [f] waits behind the continuation of [t]. *)
Lemma run_handle {A B} (t : task A) (f : result A → task B) s :
  run (handle t f) s
  = match r_status (run t s) with
    | Done r => ran_then (run t s) (run (f r) (r_state (run t s)))
    | Blocked w =>
        Ran (r_state (run t s)) (Blocked (Susp (s_op w) (λ x, handle (s_k w x) f)))
            (r_spawned (run t s)) (r_unhandled (run t s))
    end.
Proof.
  revert B f s; induction t as [A a|A e|A k IH|A s' k IH|A o k IH|A t' _ k IH];
    intros B f s; simpl; try done.
  - by rewrite ran_then_ret.
  - by rewrite ran_then_ret.
  - rewrite IH; destruct (r_status (run k _)); [by rewrite ran_then_after|done].
Qed.

(** [exec] is [run] repeated: the first segment, then, if the task is
    suspended, the answer of the oracle to its operation and the run of the
    continuation from the state the others left. *)
Lemma exec_run {A} ora env (t : task A) s :
  exec ora env t s
  = match r_status (run t s) with
    | Done r => Execd (r_state (run t s)) r [] (r_spawned (run t s)) (r_unhandled (run t s))
    | Blocked w =>
        let r := exec ora env (s_k w (ora (s_op w))) (env (r_state (run t s))) in
        Execd (e_state r) (e_result r) (s_op w :: e_ops r)
              (r_spawned (run t s) ++ e_spawned r) (r_unhandled (run t s) ++ e_unhandled r)
    end.
Proof.
  revert s; induction t as [A a|A e|A k IH|A s' k IH|A o k IH|A t' _ k IH];
    intros s; simpl; try done.
  rewrite IH; destruct (r_status (run k _)); simpl; unfold spawn_then; simpl;
    f_equal; by rewrite ?app_nil_r, <-?app_assoc.
Qed.

End task_facts.

Section part_facts.
Context {Op : Type} {ans : Op → Type} {Σ A : Type} `{!Lens Σ A}.

(** A task on a part runs on the whole state as it runs on the part: it
    sees the part, and what it writes is put back in place. *)
Lemma run_zoom {X} (t : task Op ans A X) (s : Σ) :
  run (zoom t) s = ran_zoom s (run t (view s)).
Proof.
  revert s; induction t as [X x|X e|X k IH|X a k IH|X o k IH|X t' IH' k IH];
    intros s; unfold ran_zoom; simpl.
  - by rewrite update_view.
  - by rewrite update_view.
  - apply IH.
  - rewrite IH; unfold ran_zoom; by rewrite view_update, update_update.
  - by rewrite update_view.
  - rewrite IH', IH; unfold ran_zoom, ran_after; simpl.
    rewrite view_update, update_update, !fmap_app.
    by destruct (r_status (run t' (view s))) as [[[]|]|].
Qed.

(** The same for a whole run, when what the others do to the whole state
    ([env']) is, on the part, what [env] does. *)
Lemma exec_zoom {X} ora (env : A → A) (env' : Σ → Σ) (t : task Op ans A X) (s : Σ) :
  (∀ s, view (env' s) = env (view s)) →
  let r := exec ora env t (view s) in
  let r' := exec ora env' (zoom t) s in
  view (e_state r') = e_state r ∧ e_result r' = e_result r ∧ e_ops r' = e_ops r
  ∧ e_unhandled r' = e_unhandled r.
Proof.
  intros Henv; revert s.
  induction t as [X x|X e|X k IH|X a k IH|X o k IH|X t' _ k IH]; intros s; simpl.
  - done.
  - done.
  - apply IH.
  - specialize (IH (update a s)); rewrite view_update in IH; apply IH.
  - specialize (IH (ora o) (env' s)); rewrite Henv in IH.
    destruct IH as (? & ? & -> & ?); done.
  - rewrite run_zoom; simpl.
    specialize (IH (update (r_state (run t' (view s))) s)); rewrite view_update in IH.
    destruct IH as (? & ? & ? & ->); split_and!; try done.
    by destruct (r_status (run t' (view s))) as [[[]|]|].
Qed.

(** When the task runs alone, the rest of the state is untouched. *)
Lemma exec_zoom_alone {X} ora (t : task Op ans A X) (s : Σ) :
  e_state (exec ora id (zoom t) s) = update (e_state (exec ora id t (view s))) s.
Proof.
  revert s; induction t as [X x|X e|X k IH|X a k IH|X o k IH|X t' _ k IH];
    intros s; simpl.
  - by rewrite update_view.
  - by rewrite update_view.
  - apply IH.
  - by rewrite IH, view_update, update_update.
  - apply IH.
  - by rewrite run_zoom, IH; simpl; rewrite view_update, update_update.
Qed.

End part_facts.
