(* ===== verification/Logic.v ===== *)
(** * Logic: what holds along the run of a task

    The judgements on tasks and their rules, one rule per construct of
    [Async], so that a proof about a method follows its text:

    - [along P Q] ([Async]): [P] at every suspension, [Q] at the end;
    - [keeps I]: the task keeps an invariant that the other tasks keep;
    - [total], [ltotal]: the promise of the task is never rejected;
    - [ensures R]: a function with local variables returns normally only in
      a state of [R], with the rules for [try], [catch] and [finally].

    [keeps_auto] and [total_auto] apply the rules along the text of a
    method and unfold the methods it calls. *)

From S2P Require Import Prelude Async.

(** ** Tasks that do not fail

    [total t]: the promise of [t] is never rejected, whatever the answers
    and whatever the other tasks do.  [ltotal t] is the same for a function
    with local variables. *)
Definition total {Op ans Σ A} (t : task Op ans Σ A) : Prop :=
  ∀ ora env s, along (λ _ _, True) (λ r _, is_ok r = true) ora env t s.

Definition lok {A L} (rl : result (result A * L)) : bool :=
  match rl with
  | Ok (Ok _, _) => true
  | _ => false
  end.

Definition ltotal {Op ans L Σ A} (t : ltask Op ans L Σ A) : Prop :=
  ∀ l ora env s, along (λ _ _, True) (λ r _, lok r = true) ora env (t l) s.

(** [ensures ora env R t]: the function [t] returns normally only in a state
    of [R]. *)
Definition ensures {Op ans L Σ A} (ora : oracle Op ans) (env : Σ → Σ) (R : Σ → Prop)
    (t : ltask Op ans L Σ A) : Prop :=
  ∀ l s, along (λ _ _, True) (λ rl s', lok rl = true → R s') ora env (t l) s.

(** * Facts *)

Section along_facts.
Context {Op : Type} {ans : Op → Type} {Σ : Type}.
Implicit Types (s : Σ) (ora : oracle Op ans) (env : Σ → Σ) (P : Σ → Op → Prop) (I : Σ → Prop).

Local Abbreviation task := (task Op ans Σ).

Lemma along_mono {A} P P' (Q Q' : result A → Σ → Prop) ora env (t : task A) s :
  (∀ s' o, P s' o → P' s' o) → (∀ r s', Q r s' → Q' r s') →
  along P Q ora env t s → along P' Q' ora env t s.
Proof. intros HP HQ; revert s; induction t; simpl; naive_solver. Qed.

Lemma along_and {A} P P' (Q Q' : result A → Σ → Prop) ora env (t : task A) s :
  along P Q ora env t s → along P' Q' ora env t s →
  along (λ s' o, P s' o ∧ P' s' o) (λ r s', Q r s' ∧ Q' r s') ora env t s.
Proof. revert s; induction t; simpl; naive_solver. Qed.

Lemma along_True {A} ora env (t : task A) s :
  along (λ _ _, True) (λ _ _, True) ora env t s.
Proof. revert s; induction t; simpl; naive_solver. Qed.

(** A sequence: along the first task, then along the second from where the
    first one settled. *)
Lemma along_handle {A B} P (Q : result B → Σ → Prop) ora env
    (t : task A) (f : result A → task B) s :
  along P Q ora env (handle t f) s
  ↔ along P (λ r s', along P Q ora env (f r) s') ora env t s.
Proof. revert s; induction t; simpl; intros; rewrite ?H, ?IHt, ?IHt2; done. Qed.

Lemma along_bind {A B} P (Q : result B → Σ → Prop) ora env (t : task A) (f : A → task B) s :
  along P Q ora env (bind t f) s
  ↔ along P (λ r s', match r with
                     | Ok a => along P Q ora env (f a) s'
                     | Err e => Q (Err e) s'
                     end) ora env t s.
Proof.
  unfold bind; rewrite along_handle.
  split; apply along_mono; try done; by intros [].
Qed.

(** Stepping over [t]: the rest is run from any outcome and any state. *)
Lemma along_handle_skip {A B} P (Q : result B → Σ → Prop) ora env
    (t : task A) (f : result A → task B) s :
  along P (λ _ _, True) ora env t s →
  (∀ r s', along P Q ora env (f r) s') →
  along P Q ora env (handle t f) s.
Proof. intros Ht Hf; apply along_handle; eapply along_mono; [..|apply Ht]; naive_solver. Qed.

Lemma along_bind_skip {A B} P (Q : result B → Σ → Prop) ora env (t : task A) (f : A → task B) s :
  along P (λ _ _, True) ora env t s →
  (∀ e s', Q (Err e) s') →
  (∀ a s', along P Q ora env (f a) s') →
  along P Q ora env (bind t f) s.
Proof. intros Ht He Hf; apply along_handle_skip; [done|]; intros [] ?; simpl; auto. Qed.

(** What holds of the outcome of [exec] holds at the end of the run, and
    what holds of its operations holds of each when it is started. *)
Lemma along_exec {A} (Q : result A → Σ → Prop) ora env (t : task A) s :
  along (λ _ _, True) Q ora env t s
  ↔ Q (e_result (exec ora env t s)) (e_state (exec ora env t s)).
Proof. revert s; induction t; simpl; intros; rewrite ?H, ?IHt, ?IHt2; naive_solver. Qed.

Lemma along_ops {A} (Po : Op → Prop) ora env (t : task A) s :
  along (λ _ o, Po o) (λ _ _, True) ora env t s ↔ Forall Po (e_ops (exec ora env t s)).
Proof.
  revert s; induction t; simpl; intros; rewrite ?Forall_cons, ?Forall_nil, ?H, ?IHt, ?IHt2;
    done.
Qed.

(** The segment up to the first suspension ends in a state of the
    invariant. *)
Lemma always_run {A} I ora env (t : task A) s : always I ora env t s → I (r_state (run t s)).
Proof. unfold always; revert s; induction t; simpl; naive_solver. Qed.

(** The loop rule: an invariant [I] that every iteration which goes on
    re-establishes. *)
Lemma along_for_each {X} P (Q : result unit → Σ → Prop) I ora env
    (xs : list X) (body : X → task bool) s :
  I s →
  (∀ s', I s' → Q (Ok tt) s') →
  (∀ x s', x ∈ xs → I s' →
     along P (λ r s'', match r with
                       | Ok true => I s''
                       | Ok false => Q (Ok tt) s''
                       | Err e => Q (Err e) s''
                       end) ora env (body x) s') →
  along P Q ora env (for_each xs body) s.
Proof.
  revert s; induction xs as [|x xs IH]; intros s Hs Hend Hbody; simpl; [by apply Hend|].
  apply along_bind.
  eapply along_mono; [done| |apply Hbody; [left|done]].
  intros [[]|] s'; simpl; try done.
  intros; apply IH; [done..|]; intros; apply Hbody; [by right|done].
Qed.

End along_facts.

(** ** Invariants

    The rules by which a task is shown to keep an invariant [I] that the
    other tasks keep too: one rule per construct, so that the proof follows
    the text of the method. *)
Section keeps_facts.
Context {Op : Type} {ans : Op → Type} {Σ : Type}.
Context (I : Σ → Prop) (ora : oracle Op ans) (env : Σ → Σ).
Context (Henv : ∀ s, I s → I (env s)).

Local Abbreviation task := (task Op ans Σ).
Local Abbreviation keeps := (keeps I ora env).

Lemma keeps_ret {A} (a : A) : keeps (Ret a).
Proof. by intros s. Qed.

Lemma keeps_throw {A} e : keeps (Throw e : task A).
Proof. by intros s. Qed.

Lemma keeps_settle {A} (r : result A) : keeps (settle r).
Proof. by destruct r; intros s. Qed.

Lemma keeps_guard b e : keeps (guard b e).
Proof. by destruct b; intros s. Qed.

Lemma keeps_get {A} (k : Σ → task A) : (∀ s, I s → keeps (k s)) → keeps (Get k).
Proof. intros Hk s Hs; by apply Hk. Qed.

Lemma keeps_gets {A} (f : Σ → A) : keeps (gets f).
Proof. by intros s. Qed.

Lemma keeps_get_state : keeps get.
Proof. by intros s. Qed.

Lemma keeps_modify (f : Σ → Σ) : (∀ s, I s → I (f s)) → keeps (modify f).
Proof. intros Hf s Hs; by apply Hf. Qed.

Lemma keeps_Await {A} o (k : result (ans o) → task A) : (∀ r, keeps (k r)) → keeps (Await o k).
Proof. intros Hk s Hs; split; [done|]; by apply Hk, Henv. Qed.

Lemma keeps_await o : keeps (await o).
Proof. apply keeps_Await, keeps_settle. Qed.

Lemma keeps_Put {A} s' (k : task A) : I s' → keeps k → keeps (Put s' k).
Proof. intros Hs' Hk s _; by apply Hk. Qed.

Lemma keeps_Spawn {A} (t : task unit) (k : task A) : keeps t → keeps k → keeps (Spawn t k).
Proof. intros Ht Hk s Hs; by apply Hk, (always_run I ora env), Ht. Qed.

Lemma keeps_handle {A B} (t : task A) (f : result A → task B) :
  keeps t → (∀ r, keeps (f r)) → keeps (handle t f).
Proof.
  intros Ht Hf s Hs; apply along_handle.
  eapply along_mono; [..|by apply Ht]; [done|]; intros r s' Hs'; by apply Hf.
Qed.

Lemma keeps_bind {A B} (t : task A) (f : A → task B) :
  keeps t → (∀ a, keeps (f a)) → keeps (bind t f).
Proof. intros Ht Hf; apply keeps_handle; [done|]; intros []; [done|apply keeps_throw]. Qed.

Lemma keeps_catch {A} (t : task A) (h : error → task A) :
  keeps t → (∀ e, keeps (h e)) → keeps (catch t h).
Proof. intros Ht Hf; apply keeps_handle; [done|]; intros []; [apply keeps_ret|done]. Qed.

Lemma keeps_finally {A} (t : task A) (fin : task unit) :
  keeps t → keeps fin → keeps (finally t fin).
Proof.
  intros Ht Hf; apply keeps_handle; [done|]; intros r.
  apply keeps_handle; [done|]; intros []; [apply keeps_settle|apply keeps_throw].
Qed.

Lemma keeps_ignore_errors (t : task unit) : keeps t → keeps (ignore_errors t).
Proof. intros; apply keeps_catch; [done|]; intros; apply keeps_ret. Qed.

(** A task started without [await]: its first segment runs at once. *)
Lemma keeps_spawn (t : task unit) : keeps t → keeps (spawn t).
Proof. intros Ht s Hs; by apply (always_run I ora env), Ht. Qed.

Lemma keeps_callback_of (g : Σ → Σ) (child : task unit) :
  (∀ s, I s → I (g s)) → keeps child → keeps (callback_of g child).
Proof. intros Hg Ht s Hs; by apply (always_run I ora env), Ht, Hg. Qed.

Lemma keeps_for_each {X} (xs : list X) (body : X → task bool) :
  (∀ x, keeps (body x)) → keeps (for_each xs body).
Proof.
  intros Hb s Hs; apply along_for_each with (I := I); [done..|]; intros x s' _ Hs'.
  eapply along_mono; [..|by apply Hb]; [done|]; by intros [[]|].
Qed.

(** An assignment to a part of the state. *)
Lemma keeps_vmodify_with {A} `{!Lens Σ A} (f : A → A) :
  (∀ s, I s → I (update (f (view s)) s)) → keeps (vmodify f).
Proof. intros Hf s Hs; by apply Hf. Qed.

Lemma keeps_vstate_with {A X} `{!Lens Σ A} (f : A → X * A) :
  (∀ s, I s → I (update (f (view s)).2 s)) → keeps (vstate f).
Proof. intros Hf s Hs; by apply Hf. Qed.

(** *** Parts *)

Section part.
Context {A : Type} `{!Lens Σ A}.
Context (Hframe : ∀ s (a : A), I s → I (update a s)).

Lemma keeps_vgets {X} (f : A → X) : keeps (vgets f).
Proof. by intros s. Qed.

Lemma keeps_vmodify (f : A → A) : keeps (vmodify f).
Proof. intros s Hs; by apply Hframe. Qed.

Lemma keeps_vstate {X} (f : A → X * A) : keeps (vstate f).
Proof. intros s Hs; by apply Hframe. Qed.


(** A task of a part keeps every invariant that does not depend on the
    part. *)
Lemma keeps_zoom {X} (t : Async.task Op ans A X) : keeps (zoom t).
Proof.
  induction t; intros s0 Hs; simpl; try done.
  - by apply H.
  - by apply IHt, Hframe.
  - split; [done|]; by apply H, Henv.
  - apply IHt2; rewrite run_zoom; simpl; by apply Hframe.
Qed.

End part.

(** *** Functions with local variables *)

Section locals.
Context {L : Type}.
Implicit Types l : L.

Lemma keeps_lift {A} (t : task A) l : keeps t → keeps (lift t l).
Proof. intros; apply keeps_handle; [done|]; intros; apply keeps_ret. Qed.

Lemma keeps_lret {A} (a : A) l : keeps (lret a l).
Proof. apply keeps_ret. Qed.

Lemma keeps_lthrow {A} e l : keeps (lthrow (A:=A) e l).
Proof. apply keeps_ret. Qed.

Lemma keeps_local {A} (f : L → A) l : keeps (local f l).
Proof. apply keeps_ret. Qed.

Lemma keeps_assign (f : L → L) l : keeps (assign f l).
Proof. apply keeps_ret. Qed.

Lemma keeps_lhandle {A B} (t : ltask Op ans L Σ A) (f : result A → ltask Op ans L Σ B) l :
  (∀ l', keeps (t l')) → (∀ r l', keeps (f r l')) → keeps (lhandle t f l).
Proof. intros Ht Hf; apply keeps_handle; [done|]; intros [[]|]; apply Hf. Qed.

Lemma keeps_lbind {A B} (t : ltask Op ans L Σ A) (f : A → ltask Op ans L Σ B) l :
  (∀ l', keeps (t l')) → (∀ a l', keeps (f a l')) → keeps (lbind t f l).
Proof. intros Ht Hf; apply keeps_lhandle; [done|]; intros [] ?; [done|apply keeps_ret]. Qed.

Lemma keeps_lcatch {A} (t : ltask Op ans L Σ A) (h : error → ltask Op ans L Σ A) l :
  (∀ l', keeps (t l')) → (∀ e l', keeps (h e l')) → keeps (lcatch t h l).
Proof. intros Ht Hf; apply keeps_lhandle; [done|]; intros [] ?; [apply keeps_ret|done]. Qed.

Lemma keeps_lfinally {A} (t : ltask Op ans L Σ A) (fin : ltask Op ans L Σ unit) l :
  (∀ l', keeps (t l')) → (∀ l', keeps (fin l')) → keeps (lfinally t fin l).
Proof.
  intros Ht Hf; apply keeps_lhandle; [done|]; intros r ?.
  apply keeps_lhandle; [done|]; intros [] ?; [destruct r|]; apply keeps_ret.
Qed.

Lemma keeps_with_locals {A} (t : ltask Op ans L Σ A) l :
  (∀ l', keeps (t l')) → keeps (with_locals l t).
Proof. intros Ht; apply keeps_bind; [done|]; intros []; apply keeps_settle. Qed.

End locals.

(** After a task that keeps [I], what follows starts in a state of [I]. *)
Lemma along_handle_keeps {A B} (P : Σ → Op → Prop) (Q : result B → Σ → Prop)
    (t : task A) (f : result A → task B) s :
  keeps t → I s → (∀ s' o, I s' → P s' o) →
  (∀ r s', I s' → along P Q ora env (f r) s') →
  along P Q ora env (handle t f) s.
Proof.
  intros Ht Hs HP Hf; apply along_handle.
  eapply along_mono; [..|by apply Ht]; simpl; eauto.
Qed.

End keeps_facts.

(** ** Blocks

    What a function with local variables ensures when it returns normally:
    the rules for [try], [catch] and [finally]. *)
Section blocks.
Context {Op : Type} {ans : Op → Type} {Σ L : Type} (ora : oracle Op ans) (env : Σ → Σ).

Local Abbreviation ltask := (ltask Op ans L Σ).

(** A [try] block and its [catch] block that both ensure [R]. *)
Lemma ensures_lcatch {A} R (t : ltask A) (h : error → ltask A) :
  ensures ora env R t → (∀ e, ensures ora env R (h e)) → ensures ora env R (lcatch t h).
Proof.
  intros Ht Hh l s; apply along_handle; eapply along_mono; [..|apply Ht]; [done|].
  intros [[[] ?]|] ??; simpl; [done|apply Hh..].
Qed.

(** A [finally] block that leads from [R] to [R']. *)
Lemma ensures_lfinally {A} (R R' : Σ → Prop) (t : ltask A) (fin : ltask unit) :
  ensures ora env R t →
  (∀ l s, R s → along (λ _ _, True) (λ _, R') ora env (fin l) s) →
  ensures ora env R' (lfinally t fin).
Proof.
  intros Ht Hf l s; apply along_handle; eapply along_mono; [..|apply Ht]; [done|].
  intros [[[] ?]|] ? HR; simpl.
  - apply along_handle; eapply along_mono; [..|by apply Hf, HR]; [done|].
    intros [[[] ?]|] ??; cbn; by intros.
  - apply along_handle_skip; [apply along_True|]; intros [[[] ?]|] ?; cbn; by intros.
  - apply along_handle_skip; [apply along_True|]; intros [[[] ?]|] ?; cbn; by intros.
Qed.

Lemma ensures_with_locals {A} R (t : ltask A) l s :
  ensures ora env R t →
  along (λ _ _, True) (λ r s', is_ok r = true → R s') ora env (with_locals l t) s.
Proof.
  intros Ht; apply along_bind; eapply along_mono; [..|apply Ht]; [done|].
  intros [[[] ?]|] ??; cbn in *; auto.
Qed.

End blocks.

(** Stepping over a statement of a function with local variables: what
    follows is run from any state, with any value of the variables. *)
Lemma along_lbind_skip {Op ans Σ L A B} (P : Σ → Op → Prop) (Q : result (result B * L) → Σ → Prop)
    ora env (t : ltask Op ans L Σ A) (f : A → ltask Op ans L Σ B) l s :
  along P (λ _ _, True) ora env (t l) s →
  (∀ e l' s', Q (Ok (Err e, l')) s') →
  (∀ a l' s', along P Q ora env (f a l') s') →
  along P Q ora env (lbind t f l) s.
Proof.
  intros Ht He Hf; apply along_handle_skip; [done|].
  intros [[[] ?]|] ?; simpl; auto.
Qed.

(** [keeps_auto side] follows the text of a task and applies the rule of
    each construct; [side] proves what the rules ask of the invariant (that
    the other tasks keep it, that an assignment keeps it).  A method it meets
    is unfolded, unless a hypothesis says that the method keeps the
    invariant. *)
Ltac keeps_head t := lazymatch t with ?f _ => keeps_head f | _ => t end.

Ltac keeps_hyp :=
  match goal with
  | H : context [keeps _ _ _ _] |- keeps _ _ _ _ => apply H
  end.

Ltac keeps_rule side :=
  lazymatch goal with
  | |- keeps _ _ _ (Ret _) => apply keeps_ret
  | |- keeps _ _ _ (Throw _) => apply keeps_throw
  | |- keeps _ _ _ (throw _) => apply keeps_throw
  | |- keeps _ _ _ (settle _) => apply keeps_settle
  | |- keeps _ _ _ (guard _ _) => apply keeps_guard
  | |- keeps _ _ _ (gets _) => apply keeps_gets
  | |- keeps _ _ _ get => apply keeps_get_state
  | |- keeps _ _ _ (Get _) => apply keeps_get; intros ? ?
  | |- keeps _ _ _ (modify _) => apply keeps_modify; side
  | |- keeps ?I ?ora ?env (await ?o) => apply (λ H, keeps_await I ora env H o); side
  | |- keeps ?I ?ora ?env (Await ?o _) =>
      apply (λ H, keeps_Await I ora env H o); [side|intros ?]
  | |- keeps _ _ _ (Put _ _) => apply keeps_Put; [side|]
  | |- keeps _ _ _ (Spawn _ _) => apply keeps_Spawn
  | |- keeps _ _ _ (spawn _) => apply keeps_spawn
  | |- keeps _ _ _ (callback_of _ _) => apply keeps_callback_of; [side|]
  | |- keeps _ _ _ (bind _ _) => apply keeps_bind; [|intros ?]
  | |- keeps _ _ _ (catch _ _) => apply keeps_catch; [|intros ?]
  | |- keeps _ _ _ (finally _ _) => apply keeps_finally
  | |- keeps _ _ _ (ignore_errors _) => apply keeps_ignore_errors
  | |- keeps _ _ _ (handle _ _) => apply keeps_handle; [|intros ?]
  | |- keeps _ _ _ (for_each _ _) => apply keeps_for_each; intros ?
  | |- keeps _ _ _ (vgets _) => apply keeps_vgets
  | |- keeps _ _ _ (vmodify _) => apply keeps_vmodify_with; side
  | |- keeps _ _ _ (vstate _) => apply keeps_vstate_with; side
  | |- keeps _ _ _ (zoom _) => apply keeps_zoom; side
  | |- keeps _ _ _ (lift _ _) => apply keeps_lift
  | |- keeps _ _ _ (lret _ _) => apply keeps_lret
  | |- keeps _ _ _ (lthrow _ _) => apply keeps_lthrow
  | |- keeps _ _ _ (local _ _) => apply keeps_local
  | |- keeps _ _ _ (assign _ _) => apply keeps_assign
  | |- keeps _ _ _ (lbind _ _ _) => apply keeps_lbind; [intros ?|intros ? ?]
  | |- keeps _ _ _ (lcatch _ _ _) => apply keeps_lcatch; [intros ?|intros ? ?]
  | |- keeps _ _ _ (lfinally _ _ _) => apply keeps_lfinally; intros ?
  | |- keeps _ _ _ (lhandle _ _ _) => apply keeps_lhandle; [intros ?|intros ? ?]
  | |- keeps _ _ _ (with_locals _ _) => apply keeps_with_locals; intros ?
  | |- keeps _ _ _ (match ?x with _ => _ end) => destruct x
  | |- keeps _ _ _ (match ?x with _ => _ end _) => destruct x
  | |- keeps _ _ _ (let _ := _ in _) => cbv zeta
  | |- keeps _ _ _ ?t => let h := keeps_head t in unfold h
  end.

Ltac keeps_step side :=
  unfold mbind, mret, ltask_bind, ltask_ret, task_bind, task_ret;
  first [keeps_hyp | keeps_rule side].

Ltac keeps_auto side := repeat keeps_step side.

(** ** Tasks that do not fail *)
Section total_facts.
Context {Op : Type} {ans : Op → Type} {Σ : Type}.

Local Abbreviation task := (task Op ans Σ).

Lemma total_exec {A} (t : task A) ora env s :
  total t → is_ok (e_result (exec ora env t s)) = true.
Proof. intros Ht; apply (along_exec (λ r _, is_ok r = true)), Ht. Qed.

Lemma total_exec_unit (t : task unit) ora env s :
  total t → e_result (exec ora env t s) = Ok tt.
Proof. intros Ht; pose proof (total_exec t ora env s Ht); by destruct (e_result _) as [[]|]. Qed.

Lemma total_ret {A} (a : A) : total (Ret a : task A).
Proof. by intros ???. Qed.

Lemma total_get {A} (k : Σ → task A) : (∀ s, total (k s)) → total (Get k).
Proof. intros Hk ???; apply Hk. Qed.

Lemma total_gets {A} (f : Σ → A) : total (gets f : task A).
Proof. by intros ???. Qed.

Lemma total_get_state : total (get : task Σ).
Proof. by intros ???. Qed.

Lemma total_modify (f : Σ → Σ) : total (modify f : task unit).
Proof. by intros ???. Qed.

Lemma total_Put {A} s (k : task A) : total k → total (Put s k).
Proof. intros Hk ???; apply Hk. Qed.

Lemma total_Spawn {A} (t : task unit) (k : task A) : total k → total (Spawn t k).
Proof. intros Hk ???; apply Hk. Qed.

Lemma total_spawn (t : task unit) : total (spawn t).
Proof. by intros ???. Qed.

Lemma total_callback_of (g : Σ → Σ) (child : task unit) : total (callback_of g child).
Proof. by intros ???. Qed.

(** The outcome of the first task does not matter when what follows
    handles both cases. *)
Lemma total_handle {A B} (t : task A) (f : result A → task B) :
  (∀ r, total (f r)) → total (handle t f).
Proof.
  intros Hf ???; apply along_handle_skip; [apply along_True|]; intros; apply Hf.
Qed.

Lemma total_bind {A B} (t : task A) (f : A → task B) :
  total t → (∀ a, total (f a)) → total (bind t f).
Proof.
  intros Ht Hf ???; apply along_bind; eapply along_mono; [..|apply Ht]; [done|].
  intros [] ??; [apply Hf|done].
Qed.

Lemma total_catch {A} (t : task A) (h : error → task A) : (∀ e, total (h e)) → total (catch t h).
Proof. intros Hh; apply total_handle; intros []; [apply total_ret|apply Hh]. Qed.

Lemma total_ignore_errors (t : task unit) : total (ignore_errors t).
Proof. apply total_catch; intros; apply total_ret. Qed.

Lemma total_finally {A} (t : task A) (fin : task unit) :
  total t → total fin → total (finally t fin).
Proof.
  intros Ht Hf ???; apply along_handle; eapply along_mono; [..|apply Ht]; [done|].
  intros [a|] s' ?; [|done]; apply along_handle; eapply along_mono; [..|apply Hf]; [done|].
  by intros [].
Qed.

Lemma total_for_each {X} (xs : list X) (body : X → task bool) :
  (∀ x, total (body x)) → total (for_each xs body).
Proof.
  intros Hb ???; apply along_for_each with (I := λ _, True); [done..|]; intros x s' _ _.
  eapply along_mono; [..|apply Hb]; [done|]; by intros [[]|].
Qed.

Lemma total_vgets {A X} `{!Lens Σ A} (f : A → X) : total (vgets f : task X).
Proof. by intros ???. Qed.

Lemma total_vmodify {A} `{!Lens Σ A} (f : A → A) : total (vmodify f : task unit).
Proof. by intros ???. Qed.

Lemma total_vstate {A X} `{!Lens Σ A} (f : A → X * A) : total (vstate f : task X).
Proof. by intros ???. Qed.

(** *** Functions with local variables *)

Section locals.
Context {L : Type}.

Local Abbreviation ltask := (ltask Op ans L Σ).

Lemma ltotal_lift {A} (t : task A) : total t → ltotal (lift (L:=L) t).
Proof.
  intros Ht ????; apply along_handle; eapply along_mono; [..|apply Ht]; [done|].
  by intros [].
Qed.

Lemma ltotal_lret {A} (a : A) : ltotal (lret a : ltask A).
Proof. by intros ????. Qed.

Lemma ltotal_local {A} (f : L → A) : ltotal (local f : ltask A).
Proof. by intros ????. Qed.

Lemma ltotal_assign (f : L → L) : ltotal (assign f : ltask unit).
Proof. by intros ????. Qed.

Lemma ltotal_lhandle {A B} (t : ltask A) (f : result A → ltask B) :
  (∀ r, ltotal (f r)) → ltotal (lhandle t f).
Proof.
  intros Hf ????; apply along_handle_skip; [apply along_True|].
  intros [[]|] ?; apply Hf.
Qed.

Lemma ltotal_lbind {A B} (t : ltask A) (f : A → ltask B) :
  ltotal t → (∀ a, ltotal (f a)) → ltotal (lbind t f).
Proof.
  intros Ht Hf ????; apply along_handle; eapply along_mono; [..|apply Ht]; [done|].
  intros [[[] ?]|] ??; try done; apply Hf.
Qed.

Lemma ltotal_lcatch {A} (t : ltask A) (h : error → ltask A) :
  (∀ e, ltotal (h e)) → ltotal (lcatch t h).
Proof. intros Hh; apply ltotal_lhandle; intros []; [apply ltotal_lret|apply Hh]. Qed.

Lemma ltotal_lfinally {A} (t : ltask A) (fin : ltask unit) :
  ltotal t → ltotal fin → ltotal (lfinally t fin).
Proof.
  intros Ht Hf ????; apply along_handle; eapply along_mono; [..|apply Ht]; [done|].
  intros [[[] ?]|] ??; try done.
  apply along_handle; eapply along_mono; [..|apply Hf]; [done|].
  by intros [[[] ?]|].
Qed.

Lemma total_with_locals {A} (t : ltask A) l : ltotal t → total (with_locals l t).
Proof.
  intros Ht ???; apply along_bind; eapply along_mono; [..|apply Ht]; [done|].
  by intros [[[] ?]|].
Qed.

End locals.

End total_facts.

(** [total_auto] follows the text of a task the way [keeps_auto] does. *)
Ltac total_hyp :=
  match goal with
  | H : context [total _] |- total _ => apply H
  | H : context [ltotal _] |- ltotal _ => apply H
  end.

Ltac total_rule :=
  lazymatch goal with
  | |- total (Ret _) => apply total_ret
  | |- total (gets _) => apply total_gets
  | |- total get => apply total_get_state
  | |- total (Get _) => apply total_get; intros ?
  | |- total (Put _ _) => apply total_Put
  | |- total (Spawn _ _) => apply total_Spawn
  | |- total (modify _) => apply total_modify
  | |- total (spawn _) => apply total_spawn
  | |- total (callback_of _ _) => apply total_callback_of
  | |- total (ignore_errors _) => apply total_ignore_errors
  | |- total (catch _ _) => apply total_catch; intros ?
  | |- total (bind _ _) => apply total_bind; [|intros ?]
  | |- total (finally _ _) => apply total_finally
  | |- total (for_each _ _) => apply total_for_each; intros ?
  | |- total (vgets _) => apply total_vgets
  | |- total (vmodify _) => apply total_vmodify
  | |- total (vstate _) => apply total_vstate
  | |- total (with_locals _ _) => apply total_with_locals
  | |- total (match ?x with _ => _ end) => destruct x
  | |- total (let _ := _ in _) => cbv zeta
  | |- ltotal (lift _) => apply ltotal_lift
  | |- ltotal (lret _) => apply ltotal_lret
  | |- ltotal (local _) => apply ltotal_local
  | |- ltotal (assign _) => apply ltotal_assign
  | |- ltotal (lcatch _ _) => apply ltotal_lcatch; intros ?
  | |- ltotal (lbind _ _) => apply ltotal_lbind; [|intros ?]
  | |- ltotal (lfinally _ _) => apply ltotal_lfinally
  | |- ltotal (match ?x with _ => _ end) => destruct x
  | |- ltotal (let _ := _ in _) => cbv zeta
  | |- total ?t => let h := keeps_head t in unfold h
  | |- ltotal ?t => let h := keeps_head t in unfold h
  end.

Ltac total_auto :=
  repeat (unfold mbind, mret, ltask_bind, ltask_ret, task_bind, task_ret;
          first [total_hyp | total_rule]).
