(* ===== verification/Rely.v ===== *)
(** * Rely: what holds along every run of a task

    [Logic] follows one run of a task: the answers of the operations and
    what the other tasks do meanwhile are given.  The event loop gives
    neither: an operation may be answered in any way, the same operation
    differently the next time, and between a suspension and the resumption
    any other task may have run.  The judgements of this file speak of all
    runs at once ([Async.sure]); what they ask of the other tasks is that
    they leave the state in the invariant.

    - [holds b I t]: [t] and every task it starts keep [I];
    - [settles b I t]: moreover, when [b] is set, the promise of [t] is
      never rejected.

    When [b] is set, both ask that no task [t] starts without [await] is
    ever rejected, since nobody would handle the rejection.  The rules are
    those of [Logic], one per construct, and [holds_auto] applies them along
    the text of a method.  [holds_keeps] and [settles_total] give the
    judgements of [Logic] back. *)

From S2P Require Import Prelude Async Logic.

Section judgements.
Context {Op : Type} {ans : Op → Type} {Σ : Type}.

(** How a task may settle: in a state of [I], and without error when [b]
    is set. *)
Definition settled_in {A} (b : bool) (I : Σ → Prop) (r : result A) (s : Σ) : Prop :=
  I s ∧ (b = true → is_ok r = true).

Definition holds {A} (b : bool) (I : Σ → Prop) (t : task Op ans Σ A) : Prop :=
  ∀ s, I s → sure I (λ s' _, I s') (settled_in b I) (λ _ s', I s') t s.

Definition settles {A} (b : bool) (I : Σ → Prop) (t : task Op ans Σ A) : Prop :=
  ∀ s, I s → sure I (λ s' _, I s') (settled_in b I) (settled_in b I) t s.

(** The same for a function with local variables, which returns the error
    it threw as a value. *)
Definition lsettled_in {A L} (b : bool) (I : Σ → Prop) (rl : result (result A * L)) (s : Σ)
    : Prop :=
  I s ∧ (b = true → lok rl = true).

Definition lsettles {A L} (b : bool) (I : Σ → Prop) (t : ltask Op ans L Σ A) : Prop :=
  ∀ l s, I s → sure I (λ s' _, I s') (settled_in b I) (lsettled_in b I) (t l) s.

(** A suspended task that can be resumed with any answer in any state of
    [I]. *)
Definition resumable (b : bool) (I : Σ → Prop) (w : susp Op ans Σ unit) : Prop :=
  ∀ r s, I s → sure I (λ s' _, I s') (settled_in b I) (settled_in b I) (s_k w r) s.

End judgements.

(** * Facts *)

Section sure_facts.
Context {Op : Type} {ans : Op → Type} {Σ : Type}.
Implicit Types (s : Σ) (I : Σ → Prop) (P : Σ → Op → Prop) (Qc : result unit → Σ → Prop).

Local Abbreviation task := (task Op ans Σ).

Lemma sure_mono {A} I I' P P' Qc Qc' (Q Q' : result A → Σ → Prop) (t : task A) s :
  (∀ s', I' s' → I s') → (∀ s' o, P s' o → P' s' o) → (∀ r s', Qc r s' → Qc' r s') →
  (∀ r s', Q r s' → Q' r s') →
  sure I P Qc Q t s → sure I' P' Qc' Q' t s.
Proof.
  intros HI HP HQc; revert Q Q' s.
  induction t as [A a|A e|A k IH|A s' k IH|A o k IH|A t' IH' k IH]; simpl; intros Q Q' s HQ;
    eauto.
  - intros [? Hk]; split; [auto|]; intros r s' ?; eapply IH; eauto.
  - intros [??]; split; eauto.
Qed.

(** A sequence: the first task, then the second from any outcome the first
    may have. *)
Lemma sure_handle {A B} I P Qc (Q : result B → Σ → Prop) (t : task A)
    (f : result A → task B) s :
  sure I P Qc Q (handle t f) s ↔ sure I P Qc (λ r s', sure I P Qc Q (f r) s') t s.
Proof.
  revert s; induction t as [A a|A e|A k IH|A s' k IH|A o k IH|A t' _ k IH]; simpl; intros s;
    try done.
  - split; intros [? Hk]; (split; [done|]); intros r s' ?; by apply IH, Hk.
  - by rewrite IH.
Qed.

(** A run with given answers is one of the runs. *)
Lemma sure_along {A} I P Qc (Q : result A → Σ → Prop) ora env (t : task A) s :
  (∀ s' o, P s' o → I (env s')) → sure I P Qc Q t s → along P Q ora env t s.
Proof.
  intros Henv; revert s.
  induction t as [A a|A e|A k IH|A s' k IH|A o k IH|A t' _ k IH]; simpl; intros s; eauto.
  - intros [? Hk]; split; [done|]; eapply IH, Hk, Henv; eauto.
  - intros [_ ?]; eauto.
Qed.

(** The first segment of a run: where it stops the task can be resumed, and
    so can every task it started; an error nobody handles is one that [Qc]
    allows. *)
Lemma sure_run {A} I P Qc (Q : result A → Σ → Prop) (t : task A) s :
  sure I P Qc Q t s →
  match r_status (run t s) with
  | Done x => Q x (r_state (run t s))
  | Blocked w =>
      P (r_state (run t s)) (s_op w) ∧ ∀ x s', I s' → sure I P Qc Q (s_k w x) s'
  end
  ∧ Forall (λ w, ∀ x s', I s' → sure I P Qc Qc (s_k w x) s') (r_spawned (run t s))
  ∧ Forall (λ e, ∃ s', Qc (Err e) s') (r_unhandled (run t s)).
Proof.
  revert Q s; induction t as [A a|A e|A k IH|A s' k IH|A o k IH|A t' IH' k IH]; simpl;
    intros Q s; eauto.
  intros [Ht' Hk]; destruct (IH' _ _ Ht') as (H1 & H2 & H3), (IH _ _ Hk) as (H4 & H5 & H6).
  split; [done|]; rewrite !Forall_app; split_and!; try done;
    destruct (r_status (run t' s)) as [[[]|]|]; simpl;
    rewrite ?Forall_singleton; naive_solver.
Qed.

End sure_facts.

Section zoom_facts.
Context {Op : Type} {ans : Op → Type} {Σ A : Type} `{!Lens Σ A}.
Context (I : Σ → Prop) (Hframe : ∀ s (a : A), I s → I (update a s)).

(** A task of a part, seen from the whole state: what it keeps of an
    invariant that does not depend on the part. *)
Lemma sure_zoom {X} (C : result unit → Prop) (D : result X → Prop)
    (t : Async.task Op ans A X) s :
  I s →
  sure (λ _, True) (λ _ _, True) (λ r _, C r) (λ r _, D r) t (view s) →
  sure I (λ s' _, I s') (λ r s', I s' ∧ C r) (λ r s', I s' ∧ D r) (zoom t) s.
Proof.
  revert D s; induction t as [X x|X e|X k IH|X a k IH|X o k IH|X t' IH' k IH]; simpl;
    intros D s Hs; eauto.
  - intros Hk; apply IH; [by apply Hframe|by rewrite view_update].
  - intros [_ Hk]; split; [done|]; intros; apply IH; auto.
  - intros [Ht' Hk]; split; [by apply IH'|].
    rewrite run_zoom; simpl; apply IH; [by apply Hframe|by rewrite view_update].
Qed.

End zoom_facts.

(** ** The rules

    One rule per construct, for each of the judgements. *)
Section holds_facts.
Context {Op : Type} {ans : Op → Type} {Σ : Type} (b : bool) (I : Σ → Prop).
Implicit Types s : Σ.

Local Abbreviation task := (task Op ans Σ).
Local Abbreviation holds := (@holds Op ans Σ _ b I).
Local Abbreviation settles := (@settles Op ans Σ _ b I).

Lemma settles_holds {A} (t : task A) : settles t → holds t.
Proof. intros Ht s Hs; eapply sure_mono; [..|by apply Ht]; try done; by intros ?? []. Qed.

(** Where the first segment of a task ends. *)
Lemma holds_run {A} (t : task A) s : holds t → I s → I (r_state (run t s)).
Proof.
  intros Ht Hs; destruct (sure_run _ _ _ _ t s (Ht s Hs)) as [H _].
  destruct (r_status (run t s)); naive_solver.
Qed.

Lemma holds_ret {A} (a : A) : holds (Ret a).
Proof. by intros s. Qed.

Lemma settles_ret {A} (a : A) : settles (Ret a).
Proof. by intros s. Qed.

Lemma holds_throw {A} e : holds (Throw e : task A).
Proof. by intros s. Qed.

Lemma holds_settle {A} (r : result A) : holds (settle r).
Proof. by destruct r; intros s. Qed.

Lemma holds_guard c e : holds (guard c e).
Proof. by destruct c; intros s. Qed.

Lemma holds_get {A} (k : Σ → task A) : (∀ s, I s → holds (k s)) → holds (Get k).
Proof. intros Hk s Hs; by apply Hk. Qed.

Lemma settles_get {A} (k : Σ → task A) : (∀ s, I s → settles (k s)) → settles (Get k).
Proof. intros Hk s Hs; by apply Hk. Qed.

Lemma settles_gets {A} (f : Σ → A) : settles (gets f).
Proof. by intros s. Qed.

Lemma settles_get_state : settles get.
Proof. by intros s. Qed.

Lemma settles_modify (f : Σ → Σ) : (∀ s, I s → I (f s)) → settles (modify f).
Proof. intros Hf s Hs; split; [by apply Hf|done]. Qed.

Lemma holds_Await {A} o (k : result (ans o) → task A) : (∀ r, holds (k r)) → holds (Await o k).
Proof. intros Hk s Hs; split; [done|]; intros; by apply Hk. Qed.

Lemma settles_Await {A} o (k : result (ans o) → task A) :
  (∀ r, settles (k r)) → settles (Await o k).
Proof. intros Hk s Hs; split; [done|]; intros; by apply Hk. Qed.

Lemma holds_await o : holds (await o).
Proof. apply holds_Await, holds_settle. Qed.

Lemma holds_Put {A} s' (k : task A) : I s' → holds k → holds (Put s' k).
Proof. intros Hs' Hk s _; by apply Hk. Qed.

Lemma settles_Put {A} s' (k : task A) : I s' → settles k → settles (Put s' k).
Proof. intros Hs' Hk s _; by apply Hk. Qed.

(** A task started without [await] must not fail: nobody handles its
    error. *)
Lemma holds_Spawn {A} (t : task unit) (k : task A) : settles t → holds k → holds (Spawn t k).
Proof. intros Ht Hk s Hs; split; [by apply Ht|]; by apply Hk, holds_run; [apply settles_holds|]. Qed.

Lemma settles_Spawn {A} (t : task unit) (k : task A) :
  settles t → settles k → settles (Spawn t k).
Proof. intros Ht Hk s Hs; split; [by apply Ht|]; by apply Hk, holds_run; [apply settles_holds|]. Qed.

Lemma settles_spawn (t : task unit) : settles t → settles (spawn t).
Proof. intros; apply settles_Spawn; [done|apply settles_ret]. Qed.

Lemma settles_callback_of (g : Σ → Σ) (child : task unit) :
  (∀ s, I s → I (g s)) → settles child → settles (callback_of g child).
Proof. intros Hg Ht s Hs; by apply settles_spawn, Hg. Qed.

Lemma holds_handle {A B} (t : task A) (f : result A → task B) :
  holds t → (∀ r, holds (f r)) → holds (handle t f).
Proof.
  intros Ht Hf s Hs; apply sure_handle.
  eapply sure_mono; [..|by apply Ht]; try done; intros r s' Hs'; by apply Hf.
Qed.

Lemma settles_handle {A B} (t : task A) (f : result A → task B) :
  holds t → (∀ r, settles (f r)) → settles (handle t f).
Proof.
  intros Ht Hf s Hs; apply sure_handle.
  eapply sure_mono; [..|by apply Ht]; try done; intros r s' Hs'; by apply Hf.
Qed.

Lemma holds_bind {A B} (t : task A) (f : A → task B) :
  holds t → (∀ a, holds (f a)) → holds (bind t f).
Proof. intros Ht Hf; apply holds_handle; [done|]; intros []; [done|apply holds_throw]. Qed.

Lemma settles_bind {A B} (t : task A) (f : A → task B) :
  settles t → (∀ a, settles (f a)) → settles (bind t f).
Proof.
  intros Ht Hf s Hs; apply sure_handle.
  eapply sure_mono; [..|by apply Ht]; try done.
  intros [a|e] s' [? Hb]; [by apply Hf|split; [done|]]; intros Hb'; by specialize (Hb Hb').
Qed.

Lemma holds_catch {A} (t : task A) (h : error → task A) :
  holds t → (∀ e, holds (h e)) → holds (catch t h).
Proof. intros Ht Hf; apply holds_handle; [done|]; intros []; [apply holds_ret|done]. Qed.

Lemma settles_catch {A} (t : task A) (h : error → task A) :
  holds t → (∀ e, settles (h e)) → settles (catch t h).
Proof. intros Ht Hf; apply settles_handle; [done|]; intros []; [apply settles_ret|done]. Qed.

Lemma settles_ignore_errors (t : task unit) : holds t → settles (ignore_errors t).
Proof. intros; apply settles_catch; [done|]; intros; apply settles_ret. Qed.

Lemma holds_finally {A} (t : task A) (fin : task unit) :
  holds t → holds fin → holds (finally t fin).
Proof.
  intros Ht Hf; apply holds_handle; [done|]; intros r.
  apply holds_handle; [done|]; intros []; [apply holds_settle|apply holds_throw].
Qed.

Lemma settles_finally {A} (t : task A) (fin : task unit) :
  settles t → settles fin → settles (finally t fin).
Proof.
  intros Ht Hf s Hs; apply sure_handle.
  eapply sure_mono; [..|by apply Ht]; try done; intros r s' [Hs' Hr]; apply sure_handle.
  eapply sure_mono; [..|by apply Hf]; try done; intros r' s'' [? Hr'].
  destruct r' as [[]|]; [destruct r|]; split; try done; intros Hb; by specialize (Hr' Hb).
Qed.

Lemma holds_for_each {X} (xs : list X) (body : X → task bool) :
  (∀ x, holds (body x)) → holds (for_each xs body).
Proof.
  intros Hb; induction xs as [|x xs IH]; simpl; [apply holds_ret|].
  apply holds_bind; [done|]; intros []; [done|apply holds_ret].
Qed.

Lemma settles_for_each {X} (xs : list X) (body : X → task bool) :
  (∀ x, settles (body x)) → settles (for_each xs body).
Proof.
  intros Hb; induction xs as [|x xs IH]; simpl; [apply settles_ret|].
  apply settles_bind; [done|]; intros []; [done|apply settles_ret].
Qed.

(** *** Parts *)

Lemma settles_vgets {A X} `{!Lens Σ A} (f : A → X) : settles (vgets f).
Proof. by intros s. Qed.

Lemma settles_vmodify {A} `{!Lens Σ A} (f : A → A) :
  (∀ s, I s → I (update (f (view s)) s)) → settles (vmodify f).
Proof. intros Hf s Hs; split; [by apply Hf|done]. Qed.

Lemma settles_vstate {A X} `{!Lens Σ A} (f : A → X * A) :
  (∀ s, I s → I (update (f (view s)).2 s)) → settles (vstate f).
Proof. intros Hf s Hs; split; [by apply Hf|done]. Qed.

(** A task of a part keeps every invariant that does not depend on the
    part; what it starts and how it settles is judged on the part. *)
Lemma holds_zoom {A X} `{!Lens Σ A} (t : Async.task Op ans A X) :
  (∀ s (a : A), I s → I (update a s)) → Rely.holds b (λ _, True) t → holds (zoom t).
Proof.
  intros Hframe Ht s Hs.
  eapply sure_mono; [..|apply (sure_zoom I Hframe (λ r, b = true → is_ok r = true)
                                 (λ _, True) t s Hs)]; try done; [by intros ?? []|].
  eapply sure_mono; [..|by apply Ht]; try done; by intros ?? [].
Qed.

Lemma settles_zoom {A X} `{!Lens Σ A} (t : Async.task Op ans A X) :
  (∀ s (a : A), I s → I (update a s)) → Rely.settles b (λ _, True) t → settles (zoom t).
Proof.
  intros Hframe Ht s Hs.
  eapply sure_mono; [..|apply (sure_zoom I Hframe (λ r, b = true → is_ok r = true)
                                 (λ r, b = true → is_ok r = true) t s Hs)]; try done.
  eapply sure_mono; [..|by apply Ht]; try done; by intros ?? [].
Qed.

(** *** Functions with local variables *)

Section locals.
Context {L : Type}.
Implicit Types l : L.

Local Abbreviation ltask := (ltask Op ans L Σ).
Local Abbreviation lsettles := (@lsettles Op ans Σ _ L b I).

Lemma holds_lift {A} (t : task A) l : holds t → holds (lift t l).
Proof. intros; apply holds_handle; [done|]; intros; apply holds_ret. Qed.

Lemma holds_lret {A} (a : A) l : holds (lret a l).
Proof. apply holds_ret. Qed.

Lemma holds_lthrow {A} e l : holds (lthrow (A:=A) e l).
Proof. apply holds_ret. Qed.

Lemma holds_local {A} (f : L → A) l : holds (local f l).
Proof. apply holds_ret. Qed.

Lemma holds_assign (f : L → L) l : holds (assign f l).
Proof. apply holds_ret. Qed.

Lemma holds_lhandle {A B} (t : ltask A) (f : result A → ltask B) l :
  (∀ l', holds (t l')) → (∀ r l', holds (f r l')) → holds (lhandle t f l).
Proof. intros Ht Hf; apply holds_handle; [done|]; intros [[]|]; apply Hf. Qed.

Lemma holds_lbind {A B} (t : ltask A) (f : A → ltask B) l :
  (∀ l', holds (t l')) → (∀ a l', holds (f a l')) → holds (lbind t f l).
Proof. intros Ht Hf; apply holds_lhandle; [done|]; intros [] ?; [done|apply holds_ret]. Qed.

Lemma holds_lcatch {A} (t : ltask A) (h : error → ltask A) l :
  (∀ l', holds (t l')) → (∀ e l', holds (h e l')) → holds (lcatch t h l).
Proof. intros Ht Hf; apply holds_lhandle; [done|]; intros [] ?; [apply holds_ret|done]. Qed.

Lemma holds_lfinally {A} (t : ltask A) (fin : ltask unit) l :
  (∀ l', holds (t l')) → (∀ l', holds (fin l')) → holds (lfinally t fin l).
Proof.
  intros Ht Hf; apply holds_lhandle; [done|]; intros r ?.
  apply holds_lhandle; [done|]; intros [] ?; [destruct r|]; apply holds_ret.
Qed.

Lemma holds_with_locals {A} (t : ltask A) l : (∀ l', holds (t l')) → holds (with_locals l t).
Proof. intros Ht; apply holds_bind; [done|]; intros []; apply holds_settle. Qed.

Lemma lsettles_holds {A} (t : ltask A) l : lsettles t → holds (t l).
Proof. intros Ht s Hs; eapply sure_mono; [..|by apply Ht]; try done; by intros ?? []. Qed.

Lemma lsettles_lift {A} (t : task A) : settles t → lsettles (lift t).
Proof.
  intros Ht l s Hs; apply sure_handle; eapply sure_mono; [..|by apply Ht]; done.
Qed.

Lemma lsettles_lret {A} (a : A) : lsettles (lret a : ltask A).
Proof. by intros l s. Qed.

Lemma lsettles_local {A} (f : L → A) : lsettles (local f : ltask A).
Proof. by intros l s. Qed.

Lemma lsettles_assign (f : L → L) : lsettles (assign f : ltask unit).
Proof. by intros l s. Qed.

Lemma lsettles_lhandle {A B} (t : ltask A) (f : result A → ltask B) :
  (∀ l, holds (t l)) → (∀ r, lsettles (f r)) → lsettles (lhandle t f).
Proof.
  intros Ht Hf l s Hs; apply sure_handle; eapply sure_mono; [..|by apply Ht]; try done.
  intros [[]|] ??; by apply Hf.
Qed.

Lemma lsettles_lbind {A B} (t : ltask A) (f : A → ltask B) :
  lsettles t → (∀ a, lsettles (f a)) → lsettles (lbind t f).
Proof.
  intros Ht Hf l s Hs; apply sure_handle; eapply sure_mono; [..|by apply Ht]; try done.
  intros [[[] ?]|] s' [? Hr]; simpl; try (by apply Hf);
    split; try done; intros Hb; by specialize (Hr Hb).
Qed.

Lemma lsettles_lcatch {A} (t : ltask A) (h : error → ltask A) :
  (∀ l, holds (t l)) → (∀ e, lsettles (h e)) → lsettles (lcatch t h).
Proof. intros Ht Hh; apply lsettles_lhandle; [done|]; intros []; [apply lsettles_lret|done]. Qed.

Lemma lsettles_lfinally {A} (t : ltask A) (fin : ltask unit) :
  lsettles t → lsettles fin → lsettles (lfinally t fin).
Proof.
  intros Ht Hf l s Hs; apply sure_handle; eapply sure_mono; [..|by apply Ht]; try done.
  intros r s' [Hs' Hr]; simpl.
  assert (∀ l', sure I (λ s0 _, I s0) (settled_in b I)
                  (λ rl s0, I s0 ∧ (b = true → lok r = true ∧ lok rl = true)) (fin l') s')
    as Hfin.
  { intros; eapply sure_mono; [..|by apply Hf]; try done; intros ?? []; naive_solver. }
  destruct r as [[[] ?]|]; simpl; apply sure_handle;
    (eapply sure_mono; [..|apply Hfin]; try done);
    intros [[[] ?]|] ? [? Hb]; split; try done; intros Hb'; by destruct (Hb Hb').
Qed.

Lemma settles_with_locals {A} (t : ltask A) l : lsettles t → settles (with_locals l t).
Proof.
  intros Ht s Hs; apply sure_handle; eapply sure_mono; [..|by apply Ht]; try done.
  intros [[[] ?]|] ? [? Hb]; split; try done; intros Hb'; by specialize (Hb Hb').
Qed.

End locals.

End holds_facts.

(** ** From all runs to one *)
Section one_run.
Context {Op : Type} {ans : Op → Type} {Σ : Type}.
Implicit Types (I : Σ → Prop) (ora : oracle Op ans) (env : Σ → Σ).

Lemma holds_keeps {A} b I ora env (t : task Op ans Σ A) :
  (∀ s, I s → I (env s)) → holds b I t → keeps I ora env t.
Proof.
  intros Henv Ht s Hs; unfold always.
  eapply (sure_along I); [|by apply Ht]; simpl; auto.
Qed.

Lemma settles_total {A} (t : task Op ans Σ A) : settles true (λ _, True) t → total t.
Proof.
  intros Ht ora env s; eapply along_mono; [..|eapply (sure_along (λ _, True)), (Ht s I)];
    try done.
  intros ?? [_ H]; by apply H.
Qed.

End one_run.

(** When failures are allowed, keeping the invariant is all there is to
    show. *)
Section lenient.
Context {Op : Type} {ans : Op → Type} {Σ : Type} (I : Σ → Prop).

Lemma holds_settles {A} (t : task Op ans Σ A) : holds false I t → settles false I t.
Proof. intros Ht s Hs; eapply sure_mono; [..|by apply Ht]; done. Qed.

Lemma holds_lsettles {A L} (t : ltask Op ans L Σ A) :
  (∀ l, holds false I (t l)) → lsettles false I t.
Proof. intros Ht l s Hs; eapply sure_mono; [..|by apply Ht]; done. Qed.

End lenient.

(** [holds_auto side] follows the text of a task and applies the rule of
    each construct, as [keeps_auto] does; [side] proves that an assignment
    keeps the invariant. *)
Ltac holds_hyp :=
  match goal with
  | H : context [holds _ _ _] |- holds _ _ ?t =>
      let h := keeps_head t in match type of H with context [h] => apply H end
  | H : context [settles _ _ _] |- settles _ _ ?t =>
      let h := keeps_head t in match type of H with context [h] => apply H end
  | H : context [settles _ _ _] |- holds _ _ ?t =>
      let h := keeps_head t in
      match type of H with context [h] => apply settles_holds, H end
  | H : context [lsettles _ _ _] |- lsettles _ _ ?t =>
      let h := keeps_head t in match type of H with context [h] => apply H end
  | H : context [lsettles _ _ _] |- holds _ _ (?t _) =>
      let h := keeps_head t in
      match type of H with context [h] => apply lsettles_holds, H end
  end.

Ltac holds_rule side :=
  lazymatch goal with
  | |- settles false _ _ => apply holds_settles
  | |- lsettles false _ _ => apply holds_lsettles; intros ?
  | |- holds _ _ (Ret _) => apply holds_ret
  | |- holds _ _ (Throw _) => apply holds_throw
  | |- holds _ _ (throw _) => apply holds_throw
  | |- holds _ _ (settle _) => apply holds_settle
  | |- holds _ _ (guard _ _) => apply holds_guard
  | |- holds _ _ (gets _) => apply settles_holds, settles_gets
  | |- holds _ _ get => apply settles_holds, settles_get_state
  | |- holds _ _ (Get _) => apply holds_get; intros ? ?
  | |- holds _ _ (modify _) => apply settles_holds, settles_modify; side
  | |- @holds ?Op ?ans ?Σ _ ?b ?I (await ?o) => apply (@holds_await Op ans Σ b I o)
  | |- @holds ?Op ?ans ?Σ _ ?b ?I (Await ?o _) =>
      apply (@holds_Await Op ans Σ b I _ o); intros ?
  | |- holds _ _ (Put _ _) => apply holds_Put; [side|]
  | |- holds _ _ (Spawn _ _) => apply holds_Spawn
  | |- holds _ _ (spawn _) => apply settles_holds, settles_spawn
  | |- holds _ _ (callback_of _ _) => apply settles_holds, settles_callback_of; [side|]
  | |- holds _ _ (bind _ _) => apply holds_bind; [|intros ?]
  | |- holds _ _ (catch _ _) => apply holds_catch; [|intros ?]
  | |- holds _ _ (finally _ _) => apply holds_finally
  | |- holds _ _ (ignore_errors _) => apply settles_holds, settles_ignore_errors
  | |- holds _ _ (handle _ _) => apply holds_handle; [|intros ?]
  | |- holds _ _ (for_each _ _) => apply holds_for_each; intros ?
  | |- holds _ _ (vgets _) => apply settles_holds, settles_vgets
  | |- holds _ _ (vmodify _) => apply settles_holds, settles_vmodify; side
  | |- holds _ _ (vstate _) => apply settles_holds, settles_vstate; side
  | |- holds _ _ (zoom _) => apply holds_zoom; [side|]
  | |- holds _ _ (lift _ _) => apply holds_lift
  | |- holds _ _ (lret _ _) => apply holds_lret
  | |- holds _ _ (lthrow _ _) => apply holds_lthrow
  | |- holds _ _ (local _ _) => apply holds_local
  | |- holds _ _ (assign _ _) => apply holds_assign
  | |- holds _ _ (lbind _ _ _) => apply holds_lbind; [intros ?|intros ? ?]
  | |- holds _ _ (lcatch _ _ _) => apply holds_lcatch; [intros ?|intros ? ?]
  | |- holds _ _ (lfinally _ _ _) => apply holds_lfinally; intros ?
  | |- holds _ _ (lhandle _ _ _) => apply holds_lhandle; [intros ?|intros ? ?]
  | |- holds _ _ (with_locals _ _) => apply holds_with_locals; intros ?
  | |- holds _ _ (match ?x with _ => _ end) => destruct x
  | |- holds _ _ (match ?x with _ => _ end _) => destruct x
  | |- holds _ _ (let _ := _ in _) => cbv zeta
  | |- settles _ _ (Ret _) => apply settles_ret
  | |- settles _ _ (gets _) => apply settles_gets
  | |- settles _ _ get => apply settles_get_state
  | |- settles _ _ (Get _) => apply settles_get; intros ? ?
  | |- settles _ _ (modify _) => apply settles_modify; side
  | |- @settles ?Op ?ans ?Σ _ ?b ?I (Await ?o _) =>
      apply (@settles_Await Op ans Σ b I _ o); intros ?
  | |- settles _ _ (Put _ _) => apply settles_Put; [side|]
  | |- settles _ _ (Spawn _ _) => apply settles_Spawn
  | |- settles _ _ (spawn _) => apply settles_spawn
  | |- settles _ _ (callback_of _ _) => apply settles_callback_of; [side|]
  | |- settles _ _ (bind _ _) => apply settles_bind; [|intros ?]
  | |- settles _ _ (catch _ _) => apply settles_catch; [|intros ?]
  | |- settles _ _ (finally _ _) => apply settles_finally
  | |- settles _ _ (ignore_errors _) => apply settles_ignore_errors
  | |- settles _ _ (handle _ _) => apply settles_handle; [|intros ?]
  | |- settles _ _ (for_each _ _) => apply settles_for_each; intros ?
  | |- settles _ _ (vgets _) => apply settles_vgets
  | |- settles _ _ (vmodify _) => apply settles_vmodify; side
  | |- settles _ _ (vstate _) => apply settles_vstate; side
  | |- settles _ _ (zoom _) => apply settles_zoom; [side|]
  | |- settles _ _ (with_locals _ _) => apply settles_with_locals
  | |- settles _ _ (match ?x with _ => _ end) => destruct x
  | |- settles _ _ (let _ := _ in _) => cbv zeta
  | |- lsettles _ _ (lift _) => apply lsettles_lift
  | |- lsettles _ _ (lret _) => apply lsettles_lret
  | |- lsettles _ _ (local _) => apply lsettles_local
  | |- lsettles _ _ (assign _) => apply lsettles_assign
  | |- lsettles _ _ (lcatch _ _) => apply lsettles_lcatch; [intros ?|intros ?]
  | |- lsettles _ _ (lbind _ _) => apply lsettles_lbind; [|intros ?]
  | |- lsettles _ _ (lfinally _ _) => apply lsettles_lfinally
  | |- lsettles _ _ (lhandle _ _) => apply lsettles_lhandle; [intros ?|intros ?]
  | |- lsettles _ _ (match ?x with _ => _ end) => destruct x
  | |- lsettles _ _ (let _ := _ in _) => cbv zeta
  | |- holds _ _ ?t => let h := keeps_head t in unfold h
  | |- settles _ _ ?t => let h := keeps_head t in unfold h
  | |- lsettles _ _ ?t => let h := keeps_head t in unfold h
  end.

Ltac holds_step side :=
  unfold mbind, mret, ltask_bind, ltask_ret, task_bind, task_ret;
  first [holds_hyp | holds_rule side].

Ltac holds_auto side := repeat holds_step side.
