(* ===== verification/Api.v ===== *)
(** * Api: what the program exchanges with the outside

    The data of the PeerTube runner API as the sources read it (a job offer,
    its payload, the requests of [RunnerClient], the fields of the answers
    the code looks at), and the external operations the sources await: HTTP
    requests, file system calls, ffprobe, and the calls into the supernovao
    library.  An operation is a value of [op]; [ans o] is the type of what
    its promise resolves to.  The operations on a [Pool] object name the job
    the pool was made for.  What the code reads of the object right after an
    operation is part of the answer: [pool.ready] after [loadConfig], the
    length of [pool.segments] ([None] when it is [undefined]) after
    [launch]; [Finalized] is the ['finalized'] event, with the path it
    carries.  A field that may be missing in a JSON document
    is an [option].

    The answers are typed: the model assumes that a field that is present
    has the type the code expects (a UUID is a string, a resolution is a
    number).  A body that is not JSON at all is [data = None]. *)

From S2P Require Import Prelude Async.

(** ** Jobs *)

Record job_input : Type := JobInput {
  videoFileUrl : option string;
  audioFileUrl : option string
}.

Record job_output : Type := JobOutput {
  out_resolution : option Z;
  out_fps : option Z
}.

Record payload : Type := Payload {
  input : option job_input;
  output : option job_output
}.

(** An element of [availableJobs]. *)
Record job : Type := Job {
  uuid : job_id;
  job_type : string;
  job_payload : option payload
}.

#[global] Instance job_input_eq_dec : EqDecision job_input.
Proof. solve_decision. Defined.
#[global] Instance job_output_eq_dec : EqDecision job_output.
Proof. solve_decision. Defined.
#[global] Instance payload_eq_dec : EqDecision payload.
Proof. solve_decision. Defined.
#[global] Instance job_eq_dec : EqDecision job.
Proof. solve_decision. Defined.

(** The [message] of an error report: one of the two fixed texts of the
    sources, or the [message] property of a caught error. *)
Inductive report : Type :=
| JobTimedOut
| RunnerShuttingDown
| MessageOf (e : error).

#[global] Instance report_eq_dec : EqDecision report.
Proof. solve_decision. Defined.

(** ** Requests

    One constructor per [fetch] of the sources, with the fields of the body
    it sends.  A token that is [null] or [undefined] is [None]. *)
Inductive request : Type :=
| Register (registrationToken name description : option string)
| Unregister (runnerToken : option string)
| RequestJob (runnerToken : option string)
| AcceptJob (id : job_id) (runnerToken : option string)
| UpdateJob (id : job_id) (runnerToken : option string) (jobToken : string) (progress : Z)
| PostSuccess (id : job_id) (runnerToken : option string) (jobToken : string)
    (fileName mime : string)
| PostError (id : job_id) (runnerToken : option string) (jobToken : string) (message : report)
| AbortJob (id : job_id) (runnerToken : option string) (jobToken : string)
| GetConfig
| PostInput (url : option string) (runnerToken jobToken : option string).

#[global] Instance request_eq_dec : EqDecision request.
Proof. solve_decision. Defined.

(** The fields the code reads in the JSON body of an answer. *)
Definition body (r : request) : Type :=
  match r with
  | Register _ _ _ => option string
  | RequestJob _ => option (list job)
  | AcceptJob _ _ => option (option string)
  | GetConfig => option string
  | _ => unit
  end.

Record response (D : Type) : Type := Response {
  status : Z;
  data : option D
}.
Arguments Response {D} status data.
Arguments status {D} r.
Arguments data {D} r.

(** [res.ok] *)
Definition ok {D} (res : response D) : bool := http_ok (status res).

(** ** External operations *)

(** What ffprobe hands to its callback as [metadata]: nothing, an object
    without [streams], or an object with so many streams, with or without a
    [format] field. *)
Inductive probed : Type :=
| NoMetadata
| NoStreamsField
| Streams (n : nat) (format : bool).

Inductive op : Type :=
| Fetch (r : request)
| Mkdtemp (prefix : string)
| Rm (dir : string)
| ReadFile (path : string)
| Access (path : string)
| Stat (path : string)
| Ffprobe (path : string)
| PipeToFile (dest : string)
| CreatePoolDrive (key : job_id)
| PipeToDrive (key : job_id) (src : string)
| Metadata (key : job_id) (src : string)
| Segment (key : job_id) (src tempDir : string)
| Demux (key : job_id) (src tempDir : string)
| DrivePut (key : job_id) (path : string) (content : list string)
| LoadConfig (key : job_id)
| Launch (key : job_id)
| Finalized (key : job_id)
| PipeFromDrive (key : job_id) (drivePath dest : string)
| PoolDestroy (key : job_id)
| SwarmDestroy
| StoreClose.

#[global] Instance op_eq_dec : EqDecision op.
Proof. solve_decision. Defined.

Definition ans (o : op) : Type :=
  match o with
  | Fetch r => response (body r)
  | Mkdtemp _ => string
  | Stat _ => Z
  | Ffprobe _ => probed
  | CreatePoolDrive _ => string
  | Segment _ _ _ => list string
  | Demux _ _ _ => option (list string)
  | LoadConfig _ => bool
  | Launch _ => option nat
  | Finalized _ => string
  | _ => unit
  end.

(** The tasks of the program. *)
Abbreviation task := (Async.task op ans).
Abbreviation ltask := (Async.ltask op ans).
Abbreviation susp := (Async.susp op ans).
Abbreviation oracle := (Async.oracle op ans).

(** The request that unregisters the runner. *)
Definition unregisters (o : op) : Prop := ∃ tok, o = Fetch (Unregister tok).

(** ** Answers for the examples

    [answers st] answers every request with status [st] and a body with all
    the fields the code reads, and lets every other operation succeed. *)
Definition body_default (r : request) : body r :=
  match r return body r with
  | Register _ _ _ => Some "runner-token"
  | RequestJob _ => Some []
  | AcceptJob _ _ => Some (Some "job-token")
  | GetConfig => Some "7.0.0"
  | Unregister _ | UpdateJob _ _ _ _ | PostSuccess _ _ _ _ _ | PostError _ _ _ _
  | AbortJob _ _ _ | PostInput _ _ _ => tt
  end.

Definition answers (st : Z) : oracle := λ o,
  Ok match o return ans o with
     | Fetch r => Response st (Some (body_default r))
     | Mkdtemp prefix => prefix +:+ "XXXXXX"
     | Stat _ => 1024
     | Ffprobe _ => Streams 2 true
     | CreatePoolDrive _ => "cafe"
     | Segment _ _ _ => ["segments/0.mp4"; "segments/1.mp4"]
     | Demux _ _ _ => Some ["tracks/audio.mp4"]
     | LoadConfig _ => true
     | Launch _ => Some 2%nat
     | Finalized _ => "outputs/final.mp4"
     | Rm _ | ReadFile _ | Access _ | PipeToFile _ | PipeToDrive _ _ | Metadata _ _
     | DrivePut _ _ _ | PipeFromDrive _ _ _ | PoolDestroy _ | SwarmDestroy | StoreClose => tt
     end.
