(* ===== verification/Socket.v ===== *)
(** * Socket: [createSocketListener] of src/unnamed/part_002
    (lib/socket-listener.js)

    The listener opens a socket.io connection to PeerTube and installs five
    handlers on it.  Four of them only write a line; the handler of
    ['available-jobs'] calls the callback the bridge passed.  The socket
    itself (transport, reconnection with the delays given here) is the
    socket.io library: the model keeps what the listener asks of it, and an
    event of the socket is an input.

    The handlers are written over any state, with the way to write a line
    and the callback as parameters, as [createSocketListener] has them. *)

From S2P Require Import Prelude Async Api.

Module SocketListener.

(** The options [createSocketListener] passes to [io]. *)
Record options : Type := Options {
  auth_runnerToken : option string;
  transports : list string;
  reconnection : bool;
  reconnectionDelay : Z;
  reconnectionDelayMax : Z
}.

(** The socket [io] returns: where it connects and how. *)
Record socket : Type := Socket {
  sock_url : string;
  sock_options : options
}.

(** What a socket can emit.  The listener hears the first five; socket.io
    emits others (['ping'], ['reconnect_attempt'], ...), which nobody
    hears. *)
Inductive event : Type :=
| Connect
| AvailableJobs
| Disconnect (reason : string)
| ConnectError (message : string)
| Reconnect (attempt : Z)
| Unheard (name : string).

(** The lines the handlers write with [logger]. *)
Inductive line : Type :=
| Connected (url : string)
| Disconnected (reason : string)
| ConnectionError (message : string)
| Reconnected (attempt : Z).

#[global] Instance options_eq_dec : EqDecision options.
Proof. solve_decision. Defined.
#[global] Instance socket_eq_dec : EqDecision socket.
Proof. solve_decision. Defined.
#[global] Instance event_eq_dec : EqDecision event.
Proof. solve_decision. Defined.
#[global] Instance line_eq_dec : EqDecision line.
Proof. solve_decision. Defined.

(** [createSocketListener(peertubeUrl, runnerToken, onJobsAvailable)]: the
    socket it returns. *)
Definition createSocketListener (peertubeUrl : string) (runnerToken : option string) : socket :=
  Socket peertubeUrl (Options runnerToken ["websocket"] true 1000 30000).

Section handlers.
Context {Σ : Type} (say : line → task Σ unit) (onJobsAvailable : task Σ unit).

(** The handlers [createSocketListener] installs: what runs when the
    socket emits [ev]. *)
Definition on_event (sock : socket) (ev : event) : task Σ unit :=
  match ev with
  | Connect => say (Connected (sock_url sock))
  | AvailableJobs => onJobsAvailable
  | Disconnect reason => say (Disconnected reason)
  | ConnectError message => say (ConnectionError message)
  | Reconnect attempt => say (Reconnected attempt)
  | Unheard _ => mret tt
  end.

(** The event is heard and is not the notification of jobs. *)
Definition chatter (ev : event) : Prop := ev ≠ AvailableJobs.

End handlers.

(** * Facts *)

Section socket_facts.
Context {Σ : Type} (say : line → task Σ unit) (onJobsAvailable : task Σ unit).
Implicit Types (sock : socket) (ev : event).

(** The socket is opened with the token it is given, over WebSocket only,
    and reconnects by itself, waiting between one and thirty seconds. *)
Lemma createSocketListener_options u tok :
  let o := sock_options (createSocketListener u tok) in
  sock_url (createSocketListener u tok) = u
  ∧ auth_runnerToken o = tok ∧ transports o = ["websocket"] ∧ reconnection o = true
  ∧ 0 < reconnectionDelay o ≤ reconnectionDelayMax o.
Proof. simpl; repeat split; lia. Qed.

(** An event that is not the notification of jobs runs at most [say]: when
    writing a line starts nothing and awaits nothing, neither does the
    handler. *)
Lemma on_event_quiet sock ev s :
  chatter ev →
  (∀ l s', started (run (say l) s') = [] ∧ r_status (run (say l) s') = Done (Ok tt)) →
  started (run (on_event say onJobsAvailable sock ev) s) = []
  ∧ r_status (run (on_event say onJobsAvailable sock ev) s) = Done (Ok tt).
Proof. intros Hev Hsay; destruct ev; simpl; auto; done. Qed.

End socket_facts.

End SocketListener.
