(* ===== verification/Client.v ===== *)
(** * Client: class [RunnerClient] of src/lib/runner-client.js

    The state of a client is its runner token and the table of job tokens.
    Every REST method is a task over that state: it builds the request from
    the state at the time of the call, awaits the answer, and then writes the
    state as it is at that time.  [await res.json()] follows [await fetch]
    with nothing in between, so both are one suspension: the answer carries
    the status and the parsed body, [None] when the body does not parse. *)

From Stdlib Require Import Ascii.
From S2P Require Import Prelude Async Api.

(** [config.peertube] *)
Record client_config : Type := ClientConfig {
  url : string;
  registrationToken : option string;
  runnerName : option string;
  runnerDescription : option string;
  cfg_runnerToken : option string
}.

Record client : Type := Client {
  runnerToken : option string;
  jobTokens : gmap job_id (option string)
}.

(** [constructor(config)] *)
Definition client_new : client := Client None ∅.

Definition set_runnerToken (tok : option string) (c : client) : client :=
  Client tok (jobTokens c).

Definition set_jobToken (id : job_id) (tok : option string) (c : client) : client :=
  Client (runnerToken c) (<[id := tok]> (jobTokens c)).

Definition delete_jobToken (id : job_id) (c : client) : client :=
  Client (runnerToken c) (delete id (jobTokens c)).

(** [_jobToken(jobUUID)]: an entry that holds [undefined] or the empty
    string is as good as none. *)
Definition _jobToken (id : job_id) (c : client) : result string :=
  match jobTokens c !! id with
  | Some (Some tok) => if decide (tok = "") then Err (ENoJobToken id) else Ok tok
  | _ => Err (ENoJobToken id)
  end.

(** [await res.json()] *)
Definition json {Σ D} (res : response D) : task Σ D :=
  match data res with
  | Some d => Ret d
  | None => Throw EBadJson
  end.

(** [if (!res.ok) throw new Error(...)] *)
Definition expect_ok {Σ D} (o : api_op) (res : response D) : task Σ unit :=
  guard (ok res) (EApi o (status res)).

(** [register()] *)
Definition register (cfg : client_config) : task client (option string) :=
  res ← await (Fetch (Register (registrationToken cfg) (runnerName cfg)
                               (runnerDescription cfg)));
  d ← json res;
  expect_ok OpRegister res;;
  modify (set_runnerToken d);;
  mret d.

(** [unregister()] *)
Definition unregister : task client unit :=
  c ← get;
  res ← await (Fetch (Unregister (runnerToken c)));
  expect_ok OpUnregister res;;
  modify (set_runnerToken None).

(** [requestJob()]: returns [data.availableJobs]. *)
Definition requestJob : task client (option (list job)) :=
  c ← get;
  res ← await (Fetch (RequestJob (runnerToken c)));
  d ← json res;
  expect_ok OpRequestJob res;;
  mret d.

(** [acceptJob(jobUUID)]: [data.job.jobToken] throws when [data.job] is
    missing; a missing [jobToken] is stored as [undefined]. *)
Definition acceptJob (id : job_id) : task client unit :=
  c ← get;
  res ← await (Fetch (AcceptJob id (runnerToken c)));
  d ← json res;
  expect_ok OpAcceptJob res;;
  match d with
  | None => throw ETypeError
  | Some tok => modify (set_jobToken id tok)
  end.

(** [updateJob(jobUUID, progress, payload)] *)
Definition updateJob (id : job_id) (progress : Z) : task client unit :=
  c ← get;
  tok ← settle (_jobToken id c);
  res ← await (Fetch (UpdateJob id (runnerToken c) tok progress));
  expect_ok OpUpdateJob res.

(** [path.basename(p)]: the part of [p] after its last [/]. *)
Fixpoint basename_from (acc : string) (p : string) : string :=
  match p with
  | EmptyString => String.rev acc
  | String c p' =>
      if Ascii.eqb c "/"%char then basename_from "" p'
      else basename_from (String c acc) p'
  end.

Definition basename (p : string) : string := basename_from "" p.

(** [fileName.endsWith('.webm')] *)
Definition ends_with (suffix s : string) : bool :=
  String.prefix (String.rev suffix) (String.rev s).

Definition mime_of (fileName : string) : string :=
  if ends_with ".webm" fileName then "video/webm" else "video/mp4".

(** [postSuccess(jobUUID, outputFilePath)] *)
Definition postSuccess (id : job_id) (outputFilePath : string) : task client unit :=
  c ← get;
  tok ← settle (_jobToken id c);
  await (ReadFile outputFilePath);;
  let fileName := basename outputFilePath in
  res ← await (Fetch (PostSuccess id (runnerToken c) tok fileName (mime_of fileName)));
  expect_ok OpPostSuccess res;;
  modify (delete_jobToken id).

(** [postError(jobUUID, message)] *)
Definition postError (id : job_id) (message : report) : task client unit :=
  c ← get;
  tok ← settle (_jobToken id c);
  res ← await (Fetch (PostError id (runnerToken c) tok message));
  expect_ok OpPostError res;;
  modify (delete_jobToken id).

(** [abortJob(jobUUID)] *)
Definition abortJob (id : job_id) : task client unit :=
  c ← get;
  tok ← settle (_jobToken id c);
  res ← await (Fetch (AbortJob id (runnerToken c) tok));
  expect_ok OpAbortJob res;;
  modify (delete_jobToken id).

(** ** The methods as an interface

    A call of a method of the client, and the task it runs; the returned
    data is dropped. *)
Inductive call : Type :=
| CallRegister (cfg : client_config)
| CallUnregister
| CallRequestJob
| CallAcceptJob (id : job_id)
| CallUpdateJob (id : job_id) (progress : Z)
| CallPostSuccess (id : job_id) (outputFilePath : string)
| CallPostError (id : job_id) (message : report)
| CallAbortJob (id : job_id).

Definition call_task (k : call) : task client unit :=
  match k with
  | CallRegister cfg => register cfg;; mret tt
  | CallUnregister => unregister
  | CallRequestJob => requestJob;; mret tt
  | CallAcceptJob id => acceptJob id
  | CallUpdateJob id progress => updateJob id progress
  | CallPostSuccess id p => postSuccess id p
  | CallPostError id m => postError id m
  | CallAbortJob id => abortJob id
  end.

(** The methods that end the life of a job token. *)
Definition is_final (k : call) : option job_id :=
  match k with
  | CallPostSuccess id _ | CallPostError id _ | CallAbortJob id => Some id
  | _ => None
  end.

(** The methods that need a job token. *)
Definition needs_token (k : call) : option job_id :=
  match k with
  | CallUpdateJob id _ => Some id
  | _ => is_final k
  end.

(** ** What the client promises: the set of jobs that hold a token

    A job enters the set when an accept succeeds and leaves it when a final
    report succeeds; nothing else changes the set. *)
Definition spec_call (k : call) (succeeded : bool) (held : gset job_id) : gset job_id :=
  if succeeded then
    match k with
    | CallAcceptJob id => {[id]} ∪ held
    | CallPostSuccess id _ | CallPostError id _ | CallAbortJob id => held ∖ {[id]}
    | _ => held
    end
  else held.

Definition held (c : client) : gset job_id := dom (jobTokens c).

(** A sequence of calls, each run to its end against its own answers. *)
Fixpoint exec_calls (ks : list (call * oracle)) (c : client) : client * list (result unit) :=
  match ks with
  | [] => (c, [])
  | (k, ora) :: ks' =>
      let r := exec ora id (call_task k) c in
      let '(c', rs) := exec_calls ks' (e_state r) in
      (c', e_result r :: rs)
  end.

Fixpoint spec_calls (ks : list call) (oks : list bool) (h : gset job_id) : gset job_id :=
  match ks, oks with
  | k :: ks', b :: oks' => spec_calls ks' oks' (spec_call k b h)
  | _, _ => h
  end.

(** ** Inputs of the examples *)

Definition client_demo : client :=
  Client (Some "rt-1") {[ "job-a" := Some "tok-a"; "job-b" := None ]}.

(** Symbolic execution of a method: compute, and split on the next thing the
    run depends on (the token, the answer, its body, its status). *)
Ltac client_step :=
  first
  [ progress cbn
  | match goal with
    | |- context [ _jobToken ?id ?c ] => destruct (_jobToken id c) eqn:?
    | |- context [ @json _ ?D ?a ] => unfold json; destruct (@data D a) as [?|] eqn:?
    | |- context [ @expect_ok _ ?D ?o ?a ] =>
        unfold expect_ok, guard; destruct (@ok D a) eqn:?
    | |- context [ @data ?D ?a ] => destruct (@data D a) as [?|] eqn:?
    | |- context [ @ok ?D ?a ] => destruct (@ok D a) eqn:?
    | |- context [ ?f (Fetch ?r) ] => is_var f; destruct (f (Fetch r)) as [?|?] eqn:?
    | |- context [ ?f (ReadFile ?p) ] => is_var f; destruct (f (ReadFile p)) as [?|?] eqn:?
    end ].

Ltac client_steps := repeat client_step.

(** * Facts *)

Section client_facts.
Implicit Types (c : client) (id : job_id) (ora : oracle) (env : client → client) (k : call).

Lemma jobToken_Ok id c tok :
  _jobToken id c = Ok tok ↔ jobTokens c !! id = Some (Some tok) ∧ tok ≠ "".
Proof.
  unfold _jobToken; split; [|intros [-> ?]];
    repeat (case_match; simplify_eq); naive_solver.
Qed.

Lemma jobToken_Err id c e : _jobToken id c = Err e → e = ENoJobToken id.
Proof. unfold _jobToken; repeat case_match; naive_solver. Qed.

Lemma jobToken_deleted id c : _jobToken id (delete_jobToken id c) = Err (ENoJobToken id).
Proof. unfold _jobToken; simpl; by rewrite lookup_delete_eq. Qed.

Lemma held_delete id c : held (delete_jobToken id c) = held c ∖ {[id]}.
Proof. apply dom_delete_L. Qed.

Lemma held_set id tok c : held (set_jobToken id tok c) = {[id]} ∪ held c.
Proof. apply dom_insert_L. Qed.

(** The answer to a request decides between the normal path of a method
    and its [throw]. *)
Lemma exec_expect_ok {D} o (res : response D) ora env c :
  exec ora env (expect_ok o res) c
  = Execd c (if ok res then Ok tt else Err (EApi o (status res))) [] [] [].
Proof. unfold expect_ok, guard; by destruct (ok res). Qed.

(** The state a method leaves is the state it finds when it resumes, with
    at most the entry of its job changed: the methods read nothing of the
    state they were called in but the tokens they send. *)
Lemma call_state k ora env c :
  let r := exec ora env (call_task k) c in
  let c' := Nat.iter (length (e_ops r)) env c in
  match e_result r, k with
  | Ok _, CallRegister _ => jobTokens (e_state r) = jobTokens c'
  | Ok _, CallUnregister => e_state r = set_runnerToken None c'
  | Ok _, CallAcceptJob id => ∃ tok, e_state r = set_jobToken id tok c'
  | Ok _, (CallPostSuccess id _ | CallPostError id _ | CallAbortJob id) =>
      e_state r = delete_jobToken id c'
  | _, _ => e_state r = c'
  end.
Proof.
  destruct k; client_steps; try done;
    repeat (case_match; cbn in *; simplify_eq); eauto.
Qed.

Lemma call_held k ora env c :
  let r := exec ora env (call_task k) c in
  held (e_state r)
  = spec_call k (is_ok (e_result r)) (held (Nat.iter (length (e_ops r)) env c)).
Proof.
  pose proof (call_state k ora env c) as H; cbv zeta in *.
  destruct (e_result _), k; unfold spec_call, is_ok; cbv beta iota in *;
    rewrite ?H; try done.
  - unfold held; by rewrite H.
  - destruct H as [tok ->]; apply held_set.
  - apply held_delete.
  - apply held_delete.
  - apply held_delete.
Qed.

(** A method that needs a job token and finds none throws in its first
    segment, before anything is sent. *)
Lemma needs_token_run k id c :
  needs_token k = Some id → is_ok (_jobToken id c) = false →
  run (call_task k) c = Ran c (Done (Err (ENoJobToken id))) [] [].
Proof.
  intros Hk Htok; destruct (_jobToken id c) as [|e] eqn:E; [done|].
  pose proof (jobToken_Err _ _ _ E) as ->.
  destruct k; simplify_eq/=; cbn; by rewrite E.
Qed.

(** Claim C6: the token table implements the set of jobs that hold a token.
    Along every sequence of calls, whatever the answers, the keys of
    [jobTokens] are the set obtained by adding a job at every accept that
    returns normally and removing it at every final report (success, error,
    abort) that returns normally; calls that throw and all other methods
    leave the set unchanged. *)
Theorem calls_refine_spec (ks : list (call * oracle)) c :
  held (exec_calls ks c).1
  = spec_calls ks.*1 (is_ok <$> (exec_calls ks c).2) (held c).
Proof.
  revert c; induction ks as [|[k ora] ks IH]; intros c; [done|]; simpl.
  specialize (IH (e_state (exec ora id (call_task k) c))).
  destruct (exec_calls ks _) as [c' rs]; simpl in *.
  rewrite IH, call_held; do 2 f_equal.
  by induction (length _); simpl.
Qed.

(** Claim C11: a report for a job without a usable token sends nothing.
    [updateJob], [postSuccess], [postError] and [abortJob] on a job whose
    entry is missing, [undefined] or empty throw 'No job token' in their
    first segment: no request is started and the state is unchanged. *)
Theorem report_without_token k id c :
  needs_token k = Some id → is_ok (_jobToken id c) = false →
  run (call_task k) c = Ran c (Done (Err (ENoJobToken id))) [] []
  ∧ ∀ ora env, e_ops (exec ora env (call_task k) c) = [].
Proof.
  intros Hk Htok; split; [by apply needs_token_run|]; intros ora env.
  by rewrite exec_run, (needs_token_run k id c).
Qed.

(** Claim C8: a final report consumes the token, whatever happened while it
    was in flight.  When [postSuccess], [postError] or [abortJob] returns
    normally, the entry of the job is gone and the rest of the table is as
    the other tasks left it; when it throws, it has changed nothing. *)
Theorem final_report_consumes_token k id ora env c :
  is_final k = Some id →
  let r := exec ora env (call_task k) c in
  let c' := Nat.iter (length (e_ops r)) env c in
  match e_result r with
  | Ok _ => jobTokens (e_state r) = delete id (jobTokens c')
            ∧ runnerToken (e_state r) = runnerToken c'
  | Err _ => e_state r = c'
  end.
Proof.
  intros Hk; pose proof (call_state k ora env c) as H; cbv zeta in *.
  destruct (e_result _), k; simpl in Hk; simplify_eq; cbv beta iota in *;
    by rewrite ?H.
Qed.

(** Claim C9: at most one final report per token.  After a final report of
    a job has returned normally, a second final report of the same job,
    of any kind, throws 'No job token' without sending a request. *)
Theorem no_second_final_report k1 k2 id ora c :
  is_final k1 = Some id → is_final k2 = Some id →
  let r := exec ora Datatypes.id (call_task k1) c in
  is_ok (e_result r) = true →
  run (call_task k2) (e_state r) = Ran (e_state r) (Done (Err (ENoJobToken id))) [] [].
Proof.
  intros Hk1 Hk2; pose proof (call_state k1 ora Datatypes.id c) as H; cbv zeta in *.
  intros Hok; apply needs_token_run; [by destruct k2|].
  destruct (e_result _); [|done].
  destruct k1; simpl in Hk1; simplify_eq; cbv beta iota in *;
    by rewrite H, jobToken_deleted.
Qed.

(** Claim C39: a job accepted with an answer that carries no job token can
    never be reported.  When the 2xx answer to accept has a [job] object
    without [jobToken] (or with an empty one), [acceptJob] returns normally
    and the job has an entry in [jobTokens], yet every method that needs the
    token throws without sending a request. *)
Theorem accept_unusable_token id ora c tok k :
  ora (Fetch (AcceptJob id (runnerToken c)))
    = Ok (Response 200 (Some (Some tok))) →
  js_falsy_str tok = true →
  needs_token k = Some id →
  let r := exec ora Datatypes.id (acceptJob id) c in
  e_result r = Ok tt
  ∧ id ∈ held (e_state r)
  ∧ run (call_task k) (e_state r) = Ran (e_state r) (Done (Err (ENoJobToken id))) [] [].
Proof.
  intros Hora Htok Hk; cbn; rewrite Hora; cbn; split_and!; [done|..].
  - apply elem_of_dom; simpl; by rewrite lookup_insert_eq.
  - apply needs_token_run; [done|].
    unfold _jobToken; simpl; rewrite lookup_insert_eq.
    destruct tok as [tok|]; [|done]; simpl in Htok; case_decide; [done|].
    by apply bool_decide_eq_true in Htok.
Qed.

End client_facts.

(** ** Examples *)

Definition client_demo_calls : list (call * oracle) :=
  [(CallAcceptJob "job-c", answers 200);
   (CallUpdateJob "job-c" 50, answers 500);
   (CallPostError "job-a" JobTimedOut, answers 204);
   (CallPostSuccess "job-c" "/tmp/ptsn-x/output.mp4", answers 404);
   (CallAbortJob "job-c", answers 200)].

Example client_demo_run :
  (exec_calls client_demo_calls client_demo).2
    = [Ok tt; Err (EApi OpUpdateJob 500); Ok tt; Err (EApi OpPostSuccess 404); Ok tt]
  ∧ (exec_calls client_demo_calls client_demo).1 = Client (Some "rt-1") {[ "job-b" := None ]}.
Proof. split; [done|]. vm_compute. done. Qed.

Lemma report_without_token_witness :
  run (call_task (CallPostError "job-b" JobTimedOut)) client_demo
    = Ran client_demo (Done (Err (ENoJobToken "job-b"))) [] []
  ∧ ∀ ora env, e_ops (exec ora env (call_task (CallPostError "job-b" JobTimedOut))
                           client_demo) = [].
Proof. by apply (report_without_token _ "job-b"). Defined.

Lemma final_report_consumes_token_witness :
  let r := exec (answers 204) id (call_task (CallPostError "job-a" JobTimedOut)) client_demo in
  match e_result r with
  | Ok _ => jobTokens (e_state r) = delete "job-a" (jobTokens client_demo)
            ∧ runnerToken (e_state r) = runnerToken client_demo
  | Err _ => e_state r = client_demo
  end.
Proof.
  exact (final_report_consumes_token (CallPostError "job-a" JobTimedOut) "job-a"
           (answers 204) id client_demo eq_refl).
Defined.

Lemma no_second_final_report_witness :
  let r := exec (answers 204) id (call_task (CallPostError "job-a" JobTimedOut)) client_demo in
  run (call_task (CallAbortJob "job-a")) (e_state r)
    = Ran (e_state r) (Done (Err (ENoJobToken "job-a"))) [] [].
Proof.
  exact (no_second_final_report (CallPostError "job-a" JobTimedOut) (CallAbortJob "job-a")
           "job-a" (answers 204) client_demo eq_refl eq_refl eq_refl).
Defined.

Lemma accept_unusable_token_witness :
  let ora : oracle := λ o,
    match o return result (ans o) with
    | Fetch (AcceptJob _ _) => Ok (Response 200 (Some (Some None)))
    | o' => answers 200 o'
    end in
  let r := exec ora id (acceptJob "job-z") client_demo in
  e_result r = Ok tt
  ∧ "job-z" ∈ held (e_state r)
  ∧ run (call_task (CallPostError "job-z" JobTimedOut)) (e_state r)
    = Ran (e_state r) (Done (Err (ENoJobToken "job-z"))) [] [].
Proof.
  intros ora.
  exact (accept_unusable_token "job-z" ora client_demo None
           (CallPostError "job-z" JobTimedOut) eq_refl eq_refl eq_refl).
Defined.
