(* ===== verification/Translator.v ===== *)
(** * Translator: src/unnamed/part_001 (lib/job-translator.js)

    The translation of a PeerTube job into the description of a pool
    workflow, and the download of its input.  [translateJob] is a pure
    function that throws; [downloadInput] is a task with two suspensions
    (the request and the copy of the body to the file). *)

From S2P Require Import Prelude Async Api.

Definition SUPPORTED_TYPES : gset string :=
  {[ "vod-web-video-transcoding"; "vod-hls-transcoding"; "vod-audio-merge-transcoding" ]}.

Definition TYPE_MAP : gmap string string :=
  {[ "vod-web-video-transcoding" := "vod-web";
     "vod-hls-transcoding" := "vod-hls";
     "vod-audio-merge-transcoding" := "audio-merge" ]}.

Definition FORMAT_MAP : gmap string string :=
  {[ "vod-web" := "mp4"; "vod-hls" := "hls"; "audio-merge" := "mp4" ]}.

(** [isSupported(jobType)] *)
Definition isSupported (jobType : string) : bool :=
  bool_decide (jobType ∈ SUPPORTED_TYPES).

(** [config.supernovao] *)
Record sn_config : Type := SnConfig {
  storage : option string;
  cfg_bitrate : option string;
  cfg_level : option string;
  segmentTimeoutMs : option Z
}.

(** The workflow object as [translateJob] returns it. *)
Record workflow : Type := Workflow {
  wf_type : option string;
  inputUrl : option string;
  resolution : option Z;
  fps : option Z;
  bitrate : string;
  level : string;
  outputFormat : option string
}.

(** The workflow object once the bridge has added [jobUUID] and
    [localInputPath] to it, as the pool manager receives it. *)
Record job_workflow : Type := JobWorkflow {
  wf : workflow;
  jobUUID : job_id;
  localInputPath : string
}.

(** [translateJob(jobType, payload, config)]; reading [payload.input] of a
    job without payload is a [TypeError]. *)
Definition translateJob (jobType : string) (payload : option payload) (config : sn_config)
    : result workflow :=
  if negb (isSupported jobType) then Err (EUnsupportedType jobType) else
  match payload with
  | None => Err ETypeError
  | Some p =>
      match input p, output p with
      | None, _ => Err (EInputMissing jobType)
      | Some _, None => Err (EOutputMissing jobType)
      | Some i, Some o =>
          let type := TYPE_MAP !! jobType in
          let inputUrl :=
            if decide (jobType = "vod-audio-merge-transcoding")
            then audioFileUrl i else videoFileUrl i in
          Ok (Workflow type inputUrl (out_resolution o) (out_fps o)
                (js_or_str (cfg_bitrate config) "200000")
                (js_or_str (cfg_level config) "5.1")
                (type ≫= (FORMAT_MAP !!.)))
      end
  end.

(** [downloadInput(inputUrl, destPath, runnerToken, jobToken)] *)
Definition downloadInput {Σ} (inputUrl : option string) (destPath : string)
    (runnerToken jobToken : option string) : task Σ string :=
  res ← await (Fetch (PostInput inputUrl runnerToken jobToken));
  guard (ok res) (EDownloadFailed (status res));;
  await (PipeToFile destPath);;
  mret destPath.

(** ** Inputs of the examples *)

Definition payload_demo : payload :=
  Payload (Some (JobInput (Some "https://pt.example/input.mp4") None))
          (Some (JobOutput (Some 720) (Some 30))).

Definition sn_config_demo : sn_config := SnConfig None None (Some "4.2") None.

(** * Facts *)

Section translator_facts.
Implicit Types (ty : string) (p : option payload) (cfg : sn_config) (w : workflow).

Lemma isSupported_cases ty :
  isSupported ty = true ↔
  ty = "vod-web-video-transcoding" ∨ ty = "vod-hls-transcoding"
  ∨ ty = "vod-audio-merge-transcoding".
Proof. unfold isSupported, SUPPORTED_TYPES; rewrite bool_decide_eq_true; set_solver. Qed.

(** Claim C37: [translateJob] accepts exactly the supported types with both
    payload parts.  It returns a workflow if and only if the type is one of
    the three supported ones and the payload has an [input] and an [output];
    otherwise it throws, and the error says which of the conditions failed
    first, in the order type, payload, input, output. *)
Theorem translateJob_accepts ty p cfg :
  match translateJob ty p cfg with
  | Ok w =>
      isSupported ty = true
      ∧ ∃ i o, p = Some (Payload (Some i) (Some o))
               ∧ resolution w = out_resolution o ∧ fps w = out_fps o
               ∧ inputUrl w = (if decide (ty = "vod-audio-merge-transcoding")
                               then audioFileUrl i else videoFileUrl i)
  | Err e =>
      if isSupported ty then
        match p with
        | None => e = ETypeError
        | Some (Payload None _) => e = EInputMissing ty
        | Some (Payload (Some _) None) => e = EOutputMissing ty
        | Some (Payload (Some _) (Some _)) => False
        end
      else e = EUnsupportedType ty
  end.
Proof.
  unfold translateJob; destruct (isSupported ty) eqn:Hty; simpl; [|done].
  destruct p as [[[i|] [o|]]|]; simpl; eauto 10.
Qed.

(** The two tables agree with the set of supported types.  Every
    workflow [translateJob] returns has a pool type and an output format:
    the format is [hls] exactly for HLS transcoding jobs and [mp4] for the
    two others; the bitrate and the level are never empty. *)
Theorem translateJob_tables ty p cfg w :
  translateJob ty p cfg = Ok w →
  (∃ t, wf_type w = Some t ∧ TYPE_MAP !! ty = Some t)
  ∧ outputFormat w = Some (if decide (ty = "vod-hls-transcoding") then "hls" else "mp4")
  ∧ bitrate w ≠ "" ∧ level w ≠ "".
Proof.
  unfold translateJob; destruct (isSupported ty) eqn:Hty; simpl; [|done].
  apply isSupported_cases in Hty.
  destruct p as [[[i|] [o|]]|]; simpl; try done; intros [= <-]; simpl.
  split_and!; [| |unfold js_or_str; case_steps..];
    destruct Hty as [->|[->| ->]]; vm_compute; eauto.
Qed.

End translator_facts.

Lemma translateJob_tables_witness :
  ∃ w, translateJob "vod-hls-transcoding" (Some payload_demo) sn_config_demo = Ok w
       ∧ outputFormat w = Some "hls" ∧ bitrate w = "200000" ∧ level w = "4.2".
Proof.
  eexists; split; [reflexivity|].
  pose proof (translateJob_tables "vod-hls-transcoding" (Some payload_demo) sn_config_demo
                _ eq_refl) as (_ & H & _).
  split; [exact H|split; reflexivity].
Defined.
