(* ===== verification/Assembler.v ===== *)
(** * Assembler: src/lib/result-assembler.js

    The checks on the file the pool produced ([prepareResult]), its upload
    ([uploadResult]) and the removal of a temporary directory
    ([cleanupTemp]). *)

From S2P Require Import Prelude Async Api Client Translator.

(** The object [prepareResult] returns. *)
Record prepared : Type := Prepared {
  videoFilePath : string;
  res_type : string
}.

(** [probeFile(filePath)]: the promise around the callback of ffprobe. *)
Definition probeFile {Σ} (filePath : string) : task Σ probed :=
  Await (Ffprobe filePath) (λ r,
    match r with
    | Err _ => Throw (EProbeFailed filePath)
    | Ok (Streams (S n) format) => Ret (Streams (S n) format)
    | Ok _ => Throw (ENoStreams filePath)
    end).

(** [prepareResult(outputPath, workflow)]; the [debug] line after the probe
    reads [metadata.format.duration], a [TypeError] when ffprobe reported no
    [format]. *)
Definition prepareResult {Σ} (outputPath : string) (w : workflow) : task Σ prepared :=
  catch (await (Access outputPath)) (λ _, throw (EOutputFileMissing outputPath));;
  size ← await (Stat outputPath);
  guard (negb (bool_decide (size = 0))) (EOutputFileEmpty outputPath);;
  metadata ← probeFile outputPath;
  guard (match metadata with Streams _ true => true | _ => false end) ETypeError;;
  if decide (wf_type w = Some "vod-hls")
  then mret (Prepared outputPath "hls")
  else mret (Prepared outputPath "web-video").

(** [uploadResult(runnerClient, jobUUID, result)] *)
Definition uploadResult {Σ} `{!Lens Σ client} (id : job_id) (result : prepared) : task Σ unit :=
  zoom (postSuccess id (videoFilePath result)).

(** [cleanupTemp(tempDir)] *)
Definition cleanupTemp {Σ} (tempDir : string) : task Σ unit :=
  catch (await (Rm tempDir)) (λ _, mret tt).

(** ** Inputs of the examples *)

Definition workflow_demo : workflow :=
  Workflow (Some "vod-hls") (Some "https://pt.example/input.mp4") (Some 720) (Some 30)
           "200000" "5.1" (Some "hls").

(** An output file that exists, is empty, and would probe well. *)
Definition empty_output : oracle := λ o,
  match o return result (ans o) with
  | Stat _ => Ok 0
  | o' => answers 200 o'
  end.

(** * Facts *)

Section assembler_facts.
Context {Σ : Type}.
Implicit Types (s : Σ) (ora : oracle) (env : Σ → Σ) (w : workflow) (p : string).

(** Claim C36: [prepareResult] returns a result only for a readable,
    non-empty file in which ffprobe found at least one stream.  Whatever
    the file system and ffprobe answer: if [prepareResult] returns, then
    [access] succeeded, [stat] gave a size other than 0 and the probe
    reported at least one stream; the result names the file it was given,
    with type [hls] exactly for a [vod-hls] workflow.  The shared state is
    not written. *)
Theorem prepareResult_validates ora p w s res :
  e_result (exec (Σ:=Σ) ora id (prepareResult p w) s) = Ok res →
  is_ok (ora (Access p)) = true
  ∧ (∃ size, ora (Stat p) = Ok size ∧ size ≠ 0)
  ∧ (∃ n, ora (Ffprobe p) = Ok (Streams (S n) true))
  ∧ videoFilePath res = p
  ∧ (res_type res = "hls" ↔ wf_type w = Some "vod-hls")
  ∧ e_state (exec ora id (prepareResult p w) s) = s.
Proof.
  cbn; destruct (ora (Access p)) as [[]|]; cbn; [|done].
  destruct (ora (Stat p)) as [size|]; cbn; [|done].
  case_bool_decide; cbn; [done|].
  destruct (ora (Ffprobe p)) as [[| |[|n] [|]]|]; cbn; try done.
  case_decide; cbn; intros [= <-]; split_and!; eauto; simpl; naive_solver.
Qed.

(** The errors of [prepareResult], in the order of its checks.  A
    file that cannot be read is reported missing whatever the reason; an
    empty file is reported empty before ffprobe is asked; a failure of
    [stat] itself is passed on unchanged. *)
Theorem prepareResult_errors ora p w s :
  let r := exec (Σ:=Σ) ora id (prepareResult p w) s in
  match ora (Access p), ora (Stat p) with
  | Err _, _ => e_result r = Err (EOutputFileMissing p) ∧ e_ops r = [Access p]
  | Ok _, Err e => e_result r = Err e ∧ e_ops r = [Access p; Stat p]
  | Ok _, Ok size =>
      if decide (size = 0)
      then e_result r = Err (EOutputFileEmpty p) ∧ e_ops r = [Access p; Stat p]
      else e_ops r = [Access p; Stat p; Ffprobe p]
  end.
Proof.
  cbn; destruct (ora (Access p)) as [[]|]; cbn; [|done].
  destruct (ora (Stat p)) as [size|]; cbn; [|done].
  case_decide; case_bool_decide; cbn; try done.
  by destruct (ora (Ffprobe p)) as [[| |[|n] [|]]|]; cbn; try case_decide.
Qed.

(** [cleanupTemp] is best effort: it asks for the removal of the
    directory and returns normally whether or not the removal succeeded,
    without touching the shared state. *)
Theorem cleanupTemp_never_throws ora env (dir : string) s :
  let r := exec (Σ:=Σ) ora env (cleanupTemp dir) s in
  e_result r = Ok tt ∧ e_ops r = [Rm dir] ∧ e_state r = env s.
Proof. cbn; by destruct (ora (Rm dir)) as [[]|]. Qed.

End assembler_facts.

Lemma prepareResult_validates_witness :
  let r := exec (Σ:=unit) (answers 200) id (prepareResult "/tmp/ptsn-x/output.mp4" workflow_demo) tt in
  e_result r = Ok (Prepared "/tmp/ptsn-x/output.mp4" "hls")
  ∧ is_ok (answers 200 (Access "/tmp/ptsn-x/output.mp4")) = true.
Proof.
  split; [reflexivity|].
  exact (proj1 (prepareResult_validates (Σ:=unit) (answers 200) "/tmp/ptsn-x/output.mp4"
                  workflow_demo tt _ eq_refl)).
Defined.

Example prepareResult_empty_file :
  e_result (exec (Σ:=unit) empty_output id (prepareResult "/tmp/ptsn-x/output.mp4" workflow_demo) tt)
  = Err (EOutputFileEmpty "/tmp/ptsn-x/output.mp4").
Proof. reflexivity. Qed.
