(* ===== verification/Pool.v ===== *)
(** * Pool: class [PoolManager] of src/lib/pool-manager.js

    The pool manager runs a workflow through the supernovao pipeline.  Its
    own state is the table of the jobs that run in a launched pool, the
    swarm and the key of the last pool.  The calls into the supernovao
    library are awaited operations ([Api.op]); what this file models is the
    order in which [processJob] makes them, what it does to the table and to
    the timers, what it reports through [onProgress], and how it cleans up.

    [processJob] is written over any state [Σ] that holds a pool manager and
    the timer table, because [onProgress] is a callback of the caller and
    works on the caller's state.  Its two [let] variables that the [catch]
    and [finally] blocks read ([pool], [progressInterval]) are locals of the
    task ([Async.ltask]).

    The percentage of the progress timer is computed on IEEE 754 doubles, as
    JavaScript does, with the operations of [SpecFloat].

    The loop of [destroy] iterates over the table while its body deletes
    from it ([each_job], on the live [JsMap]); [each_key] is the loop over
    the keys taken beforehand, and [cancel_all_snapshot] shows that they
    agree. *)

From Stdlib Require Import Floats.SpecFloat.
From S2P Require Import Prelude JsMap Runtime Async Logic Api Translator.

Module PoolManager.

(** An entry of [activeJobs]: [{ pool, tempDir, startTime }]; the pool
    object is known by the key of the entry. *)
Record pool_job : Type := PoolJob {
  tempDir : string;
  startTime : Z
}.

Record pool_manager : Type := Pm {
  config : sn_config;
  activeJobs : jsmap pool_job;
  swarm : bool;
  poolKey : option string
}.

(** [constructor(config)] *)
Definition new (cfg : sn_config) : pool_manager := Pm cfg [] false None.

Definition set_activeJobs (f : jsmap pool_job → jsmap pool_job) (pm : pool_manager)
    : pool_manager :=
  Pm (config pm) (f (activeJobs pm)) (swarm pm) (poolKey pm).

Definition set_swarm (b : bool) (pm : pool_manager) : pool_manager :=
  Pm (config pm) (activeJobs pm) b (poolKey pm).

Definition set_poolKey (k : option string) (pm : pool_manager) : pool_manager :=
  Pm (config pm) (activeJobs pm) (swarm pm) k.

(** ** The progress formula *)

(** Doubles: 53 bits of precision, exponents up to 1024. *)
Definition double (n : Z) : spec_float := binary_normalize 53 1024 n 0 false.

(** [Math.floor] of a double that is not negative, as an integer; [None]
    for a negative number, an infinity or NaN. *)
Definition floor (x : spec_float) : option Z :=
  match x with
  | S754_zero _ => Some 0
  | S754_finite false m e =>
      Some (if bool_decide (0 ≤ e) then Z.pos m * 2 ^ e else Z.pos m / 2 ^ (- e))
  | _ => None
  end.

(** [Math.min(10 + Math.floor((done / totalSegs) * 75), 85)] *)
Definition progress_pct (totalSegs done : nat) : option Z :=
  pct ← floor (SFmul 53 1024 (SFdiv 53 1024 (double (Z.of_nat done)) (double (Z.of_nat totalSegs)))
                     (double 75));
  Some (Z.min (10 + pct) 85).

(** The same formula on rational numbers, for comparison. *)
Definition progress_exact (totalSegs done : nat) : Z :=
  Z.min (10 + (Z.of_nat done * 75) / Z.of_nat totalSegs) 85.

(** ** The methods *)

(** The [let] variables of [processJob]: whether [pool] is not [null], and
    the handle of the progress timer. *)
Record locals : Type := Locals {
  l_pool : bool;
  l_progressInterval : option timer_id
}.

Definition set_l_pool (b : bool) (l : locals) : locals := Locals b (l_progressInterval l).
Definition set_l_progressInterval (t : option timer_id) (l : locals) : locals :=
  Locals (l_pool l) t.

(** What [processJob] returns: [{ outputPath, tempDir }]. *)
Record pool_result : Type := PoolResult {
  outputPath : string;
  res_tempDir : string
}.

Section methods.
Context {Σ C : Type} `{!Lens Σ pool_manager} `{!Lens Σ (runtime (callback C))}.

Local Abbreviation rt := (runtime (callback C)).

(** [start()] *)
Definition start : task Σ unit := vmodify (set_swarm true).

(** The body of the progress timer: [done] is [pool.segmentsComplete.length]
    when the timer runs. *)
Definition progress_tick (onProgress : Z → task Σ unit) (totalSegs done : nat) : task Σ unit :=
  if bool_decide (0 < totalSegs)%nat then
    match progress_pct totalSegs done with
    | Some pct => onProgress pct
    | None => mret tt
    end
  else mret tt.

(** The [try] block of [processJob]. *)
Definition processJob_try (w : job_workflow) (onProgress : Z → task Σ unit)
    (tempDir : string) : ltask locals Σ pool_result :=
  let jobKey := jobUUID w in
  lift (onProgress 0);;
  assign (set_l_pool true);;
  key ← lift (await (CreatePoolDrive jobKey));
  lift (vmodify (set_poolKey (Some key)));;
  lift (await (PipeToDrive jobKey (localInputPath w)));;
  lift (await (Metadata jobKey (localInputPath w)));;
  lift (onProgress 2);;
  segPaths ← lift (await (Segment jobKey (localInputPath w) tempDir));
  lift (onProgress 8);;
  trackPaths ← lift (await (Demux jobKey (localInputPath w) tempDir));
  lift (onProgress 10);;
  lift (await (DrivePut jobKey "config/segments.json" segPaths));;
  lift (await (DrivePut jobKey "config/tracks.json" (default [] trackPaths)));;
  ready ← lift (await (LoadConfig jobKey));
  lift (guard ready EPoolNotReady);;
  segments ← lift (await (Launch jobKey));
  t0 ← lift (vgets (now (P:=callback C)));
  lift (vmodify (set_activeJobs (jm_set jobKey (PoolJob tempDir t0))));;
  totalSegs ← lift (settle (match segments with Some n => Ok n | None => Err ETypeError end));
  interval ← lift (vstate (setInterval (CbPoolProgress jobKey totalSegs) 2000));
  assign (set_l_progressInterval (Some interval));;
  ms ← lift (vgets (λ pm, js_or (segmentTimeoutMs (config pm)) 600000));
  timeout ← lift (vstate (setTimeout (CbPoolTimeout jobKey ms) ms));
  outputDrivePath ← lift (await (Finalized jobKey));
  lift (vmodify (clearTimeout (P:=callback C) timeout));;
  lift (vmodify (clearInterval (P:=callback C) interval));;
  assign (set_l_progressInterval None);;
  lift (onProgress 95);;
  let outputPath := tempDir +:+ "/output.mp4" in
  lift (await (PipeFromDrive jobKey outputDrivePath outputPath));;
  lift (onProgress 100);;
  lift (await (PoolDestroy jobKey));;
  assign (set_l_pool false);;
  mret (PoolResult outputPath tempDir).

(** The [catch] block. *)
Definition processJob_catch (err : error) : ltask locals Σ pool_result :=
  i ← local l_progressInterval;
  match i with
  | Some t => lift (vmodify (clearInterval (P:=callback C) t))
  | None => mret tt
  end;;
  lthrow err.

(** The [finally] block. *)
Definition processJob_finally (w : job_workflow) : ltask locals Σ unit :=
  p ← local l_pool;
  (if p : bool then lift (ignore_errors (await (PoolDestroy (jobUUID w)))) else mret tt);;
  lift (vmodify (set_activeJobs (jm_delete (jobUUID w)))).

(** [processJob(workflow, onProgress)] *)
Definition processJob (w : job_workflow) (onProgress : Z → task Σ unit) : task Σ pool_result :=
  tempDir ← await (Mkdtemp "ptsn-");
  with_locals (Locals false None)
    (lfinally (lcatch (processJob_try w onProgress tempDir) processJob_catch)
              (processJob_finally w)).

(** [cancelJob(jobUUID)] *)
Definition cancelJob (id : job_id) : task Σ unit :=
  job ← vgets (λ pm, jm_get id (activeJobs pm));
  match job with
  | None => mret tt
  | Some j =>
      ignore_errors (await (PoolDestroy id));;
      (if decide (tempDir j = "") then mret tt else ignore_errors (await (Rm (tempDir j))));;
      vmodify (set_activeJobs (jm_delete id))
  end.

(** [for (const [uuid] of this.activeJobs) { await body(uuid) }] over the
    live table: the iterator stands at index [i]; [fuel] bounds the number
    of entries visited, and the result says whether the loop came to its
    end. *)
Fixpoint each_job (body : job_id → task Σ unit) (fuel : nat) (i : nat) : task Σ bool :=
  match fuel with
  | O => m ← vgets activeJobs; mret (bool_decide (jm_next i m = None))
  | S fuel' =>
      m ← vgets activeJobs;
      match jm_next i m with
      | None => mret true
      | Some (j, uuid, _) => body uuid;; each_job body fuel' (S j)
      end
  end.

(** The loop of [destroy]. *)
Definition cancel_all (fuel : nat) (i : nat) : task Σ bool := each_job cancelJob fuel i.

(** [destroy()]; the result says whether the loop came to its end within
    [fuel] entries. *)
Definition destroy (fuel : nat) : task Σ bool :=
  finished ← cancel_all fuel 0;
  sw ← vgets swarm;
  (if sw : bool then await SwarmDestroy else mret tt);;
  await StoreClose;;
  mret finished.

(** The loop over a list of keys fixed beforehand: what the loop over the
    table is meant to be. *)
Fixpoint each_key (body : job_id → task Σ unit) (keys : list job_id) : task Σ bool :=
  match keys with
  | [] => mret true
  | k :: keys' => body k;; each_key body keys'
  end.

(** The table has at most [n] entries, deleted ones included. *)
Definition short (n : nat) (s : Σ) : Prop := (length (activeJobs (view s)) ≤ n)%nat.

(** [start()] has joined the swarm: [this.swarm] is set. *)
Definition joined (s : Σ) : Prop := swarm (view s) = true.

End methods.

(** The stages of a run that succeeds, with the data that flows from one
    to the next. *)
Definition stages (w : job_workflow) (dir : string) (segs : list string) (tracks : option (list string))
    (path : string) : list op :=
  [Mkdtemp "ptsn-"; CreatePoolDrive (jobUUID w);
   PipeToDrive (jobUUID w) (localInputPath w); Metadata (jobUUID w) (localInputPath w);
   Segment (jobUUID w) (localInputPath w) dir; Demux (jobUUID w) (localInputPath w) dir;
   DrivePut (jobUUID w) "config/segments.json" segs;
   DrivePut (jobUUID w) "config/tracks.json" (default [] tracks);
   LoadConfig (jobUUID w); Launch (jobUUID w); Finalized (jobUUID w);
   PipeFromDrive (jobUUID w) path (dir +:+ "/output.mp4"); PoolDestroy (jobUUID w)].

(** ** The progress formula, checked

    [progress_ok total] says of a pool of [total] segments: the percentage
    is 10 when no segment is complete and 85 when all are; completing one
    more segment never lowers it; and it is the percentage computed on
    rationals, or one less. *)
Definition progress_step_ok (total done : nat) : bool :=
  match progress_pct total done, progress_pct total (S done) with
  | Some p, Some q =>
      bool_decide (10 ≤ p ∧ p ≤ q ∧ q ≤ 85
                   ∧ progress_exact total done - 1 ≤ p ∧ p ≤ progress_exact total done)
  | _, _ => false
  end.

Definition progress_ok (total : nat) : bool :=
  forallb (progress_step_ok total) (seq 0 total)
  && bool_decide (progress_pct total 0 = Some 10)
  && bool_decide (progress_pct total total = Some 85).

(** The largest pool the formula is checked for. *)
Definition max_checked_segments : nat := 64.

(** ** Inputs of the examples *)

Definition workflow_demo : job_workflow :=
  JobWorkflow (Workflow (Some "vod-web") (Some "https://pt.example/input.mp4") (Some 720)
                 (Some 30) "200000" "5.1" (Some "mp4"))
              "job-a" "/tmp/ptsn-job-a/input.mp4".

(** A state that holds a pool manager, the timers, and the list of the
    percentages reported so far. *)
Record probe : Type := Probe {
  p_pm : pool_manager;
  p_rt : runtime (callback unit);
  p_log : list Z
}.

#[global] Instance probe_pm : Lens probe pool_manager.
Proof.
  by refine {| view := p_pm; update pm s := Probe pm (p_rt s) (p_log s) |}; [|intros []|].
Defined.

#[global] Instance probe_rt : Lens probe (runtime (callback unit)).
Proof.
  by refine {| view := p_rt; update r s := Probe (p_pm s) r (p_log s) |}; [|intros []|].
Defined.

(** An [onProgress] that records the percentage. *)
Definition record_progress (pct : Z) : task probe unit :=
  callback_of (λ s, Probe (p_pm s) (p_rt s) (p_log s ++ [pct])) (Ret tt).

Definition probe_demo : probe :=
  Probe (new (SnConfig None None None None)) (rt_init 1000) [].

(** A pool manager with two jobs in its table, and the place of a job that
    was deleted between them. *)
Definition probe_busy : probe :=
  Probe (Pm (SnConfig None None None None)
            [Some ("job-a", PoolJob "ptsn-a" 0); None; Some ("job-b", PoolJob "ptsn-b" 5)]
            true None)
        (rt_init 1000) [].

(** The pool of ["job-a"] never gets ready. *)
Definition not_ready : oracle := λ o,
  match o return result (ans o) with
  | LoadConfig _ => Ok false
  | o' => answers 200 o'
  end.

(** * Facts *)

(** Computing with the locals of [processJob]. *)
Ltac pool_cbn H :=
  cbn [l_pool l_progressInterval set_l_pool set_l_progressInterval] in H.

Section pool_facts.
Context {Σ C : Type} `{!Lens Σ pool_manager} `{!Lens Σ (runtime (callback C))}.
Context (g : Z → Σ → Σ) (child : Z → task Σ unit).
Implicit Types (s : Σ) (ora : oracle) (w : job_workflow).

Local Abbreviation onProgress := (λ pct, callback_of (g pct) (child pct)).

(** Every path of [processJob], at once: what the claims below need of
    it. *)
Lemma processJob_paths w ora s :
  let r := exec ora id (processJob (C:=C) w onProgress) s in
  match ora (Mkdtemp "ptsn-") with
  | Err e => e_result r = Err e ∧ e_ops r = [Mkdtemp "ptsn-"] ∧ e_state r = s
  | Ok dir =>
      jm_get (jobUUID w) (activeJobs (view (e_state r))) = None
      ∧ PoolDestroy (jobUUID w) ∈ e_ops r
      ∧ (∀ p, Rm p ∉ e_ops r)
      ∧ (∀ res, e_result r = Ok res →
           ∃ segs tracks path,
             e_ops r = stages w dir segs tracks path
             ∧ res = PoolResult (dir +:+ "/output.mp4") dir
             ∧ ora (Segment (jobUUID w) (localInputPath w) dir) = Ok segs
             ∧ ora (Demux (jobUUID w) (localInputPath w) dir) = Ok tracks
             ∧ ora (LoadConfig (jobUUID w)) = Ok true
             ∧ ora (Finalized (jobUUID w)) = Ok path)
  end.
Proof.
  unfold processJob, processJob_try, processJob_catch, processJob_finally, stages.
  exec_cases_with ora ltac:(fun H => pool_cbn H); try done;
    (split_and!;
     [ by rewrite view_update; simpl; rewrite jm_get_delete, decide_True
     | set_solver
     | intros p; rewrite !elem_of_cons, elem_of_nil; naive_solver
     | try done; intros ? [= <-]; eauto 10 ]).
Qed.

(** Claim C33: the stages of the pipeline run in a fixed order.  When
    [processJob] returns a result it has made exactly these calls, in this
    order: temp directory, pool drive, source into the drive, metadata,
    segmentation, demux, the two manifests (those segmentation and demux
    returned), load of the configuration, launch, wait for 'finalized',
    extraction to [output.mp4] in the temp directory, destruction of the
    pool.  The pool was ready, and the result names the extracted file and
    the temp directory. *)
Theorem processJob_sequence w ora s res :
  let r := exec ora id (processJob (C:=C) w onProgress) s in
  e_result r = Ok res →
  ∃ dir segs tracks path,
    e_ops r = stages w dir segs tracks path
    ∧ res = PoolResult (dir +:+ "/output.mp4") dir
    ∧ ora (Mkdtemp "ptsn-") = Ok dir
    ∧ ora (Segment (jobUUID w) (localInputPath w) dir) = Ok segs
    ∧ ora (Demux (jobUUID w) (localInputPath w) dir) = Ok tracks
    ∧ ora (LoadConfig (jobUUID w)) = Ok true
    ∧ ora (Finalized (jobUUID w)) = Ok path.
Proof.
  intros r Hres; subst r; pose proof (processJob_paths w ora s) as H; cbv zeta in H.
  destruct (ora (Mkdtemp "ptsn-")) as [dir|e]; [|destruct H as [H _]; by rewrite H in Hres].
  destruct H as (_ & _ & _ & H); destruct (H res Hres) as (segs & tracks & path & ?).
  exists dir, segs, tracks, path; naive_solver.
Qed.

(** Claim C32: [processJob] tears the pool down on every path.  Once the
    temp directory exists, whatever stage fails and whatever the callback
    does, the pool is destroyed before [processJob] settles and the job has
    no entry in [activeJobs] afterwards. *)
Theorem processJob_teardown w ora s dir :
  let r := exec ora id (processJob (C:=C) w onProgress) s in
  ora (Mkdtemp "ptsn-") = Ok dir →
  PoolDestroy (jobUUID w) ∈ e_ops r
  ∧ jm_get (jobUUID w) (activeJobs (view (e_state r))) = None.
Proof.
  intros r Hdir; subst r; pose proof (processJob_paths w ora s) as H; cbv zeta in H.
  rewrite Hdir in H; naive_solver.
Qed.

(** Claim C35: [processJob] never removes the temp directory it creates.  On
    success the directory is handed to the caller; when a stage fails, the
    directory is left behind and the caller receives only the error, not
    the path. *)
Theorem processJob_keeps_tempDir w ora s dir e :
  let r := exec ora id (processJob (C:=C) w onProgress) s in
  ora (Mkdtemp "ptsn-") = Ok dir →
  e_result r = Err e →
  Mkdtemp "ptsn-" ∈ e_ops r ∧ ∀ p, Rm p ∉ e_ops r.
Proof.
  intros r Hdir He; subst r; pose proof (processJob_paths w ora s) as H; cbv zeta in H.
  rewrite Hdir in H; split; [|naive_solver].
  unfold processJob; task_cbn_goal; set_solver.
Qed.

(** Claim C34: [cancelJob] is idempotent and never throws.  On a job without
    an entry it does nothing; on a job with an entry it destroys the pool,
    removes the temp directory and deletes the entry, whether or not the two
    operations succeed; a second call then finds no entry and frees
    nothing. *)
Theorem cancelJob_idempotent (id : job_id) ora s :
  let r := exec ora Datatypes.id (cancelJob id) s in
  e_result r = Ok tt
  ∧ jm_get id (activeJobs (view (e_state r))) = None
  ∧ match jm_get id (activeJobs (view s)) with
    | None => e_ops r = [] ∧ e_state r = s
    | Some j => e_ops r = PoolDestroy id :: (if decide (tempDir j = "") then []
                                             else [Rm (tempDir j)])
    end
  ∧ e_ops (exec ora Datatypes.id (cancelJob id) (e_state r)) = [].
Proof.
  unfold cancelJob; task_cbn_goal.
  destruct (jm_get id (activeJobs (view s))) as [j|] eqn:Hj; task_cbn_goal;
    [|by rewrite Hj].
  destruct (ora (PoolDestroy id)) as [[]|]; task_cbn_goal;
    (case_decide; task_cbn_goal;
     [|destruct (ora (Rm (tempDir j))) as [[]|]; task_cbn_goal]);
    rewrite !view_update; simpl; rewrite jm_get_delete, decide_True by done; done.
Qed.

End pool_facts.

(** ** What the methods leave alone

    The methods change the pool manager and the timers, and nothing else:
    they keep every invariant of the caller's state that depends on
    neither, provided the callback keeps it. *)
Section pool_keeps.
Context {Σ C : Type} `{!Lens Σ pool_manager} `{!Lens Σ (runtime (callback C))}.
Context (I : Σ → Prop) (ora : oracle) (env : Σ → Σ).
Context (Henv : ∀ s, I s → I (env s)).
Context (Hpool : ∀ s (p : pool_manager), I s → I (update p s)).
Context (Hrt : ∀ s (r : runtime (callback C)), I s → I (update r s)).

Lemma processJob_keeps w (onProgress : Z → task Σ unit) :
  (∀ pct, keeps I ora env (onProgress pct)) →
  keeps I ora env (processJob (C:=C) w onProgress).
Proof. intros; keeps_auto ltac:(by auto). Qed.

Lemma cancelJob_keeps id : keeps I ora env (cancelJob id).
Proof. keeps_auto ltac:(by auto). Qed.

Lemma each_job_keeps (body : job_id → task Σ unit) fuel i :
  (∀ id, keeps I ora env (body id)) → keeps I ora env (each_job body fuel i).
Proof. intros; revert i; induction fuel; intros i; simpl; keeps_auto ltac:(by auto). Qed.

Lemma cancel_all_keeps fuel i : keeps I ora env (cancel_all fuel i).
Proof. apply each_job_keeps, cancelJob_keeps. Qed.

Lemma destroy_keeps fuel : keeps I ora env (destroy fuel).
Proof. pose proof cancel_all_keeps; keeps_auto ltac:(by auto). Qed.

End pool_keeps.

(** ** The loop of [destroy] comes to its end

    The iterator of [destroy] moves forward by at least one entry at every
    turn, and deleting an entry does not move the others.  So when the other
    tasks add no entry, a fuel of the length of the table is enough: the
    loop visits every entry and says so. *)
Section pool_fuel.
Context {Σ C : Type} `{!Lens Σ pool_manager} `{!Lens Σ (runtime (callback C))}.
Context (ora : oracle) (env : Σ → Σ) (n : nat).

Context (Henv : ∀ s, short n s → short n (env s)).

Local Abbreviation short := (short n).

Lemma cancelJob_total id : total (cancelJob (Σ:=Σ) id).
Proof. total_auto. Qed.

Lemma cancelJob_short id : keeps short ora env (cancelJob id).
Proof.
  keeps_auto ltac:(first [assumption|idtac]).
  intros s Hs; unfold short in *; by rewrite view_update; simpl; rewrite jm_delete_length.
Qed.

Lemma each_job_finishes (body : job_id → task Σ unit) fuel i s :
  (∀ id, keeps short ora env (body id)) → (∀ id, total (body id)) →
  (n ≤ i + fuel)%nat → short s →
  along (λ _ _, True) (λ r s', r = Ok true ∧ short s') ora env (each_job body fuel i) s.
Proof.
  intros Hk Ht; revert i s; induction fuel as [|fuel IH]; intros i s Hn Hs; simpl; task_compute.
  { split; [|done]; rewrite jm_next_past; [done|unfold PoolManager.short in Hs; lia]. }
  destruct (jm_next i _) as [[[j uuid] v]|] eqn:E; task_compute; [|done].
  apply jm_next_Some in E as [Hj _]; apply along_bind.
  eapply along_mono; [..|apply along_and; [by apply Hk|apply Ht]]; [done|].
  intros [[]|] s' [Hs' ?]; [|done]; apply IH; [lia|done].
Qed.

Lemma cancel_all_finishes fuel i s :
  (n ≤ i + fuel)%nat → short s →
  along (λ _ _, True) (λ r s', r = Ok true ∧ short s') ora env (cancel_all fuel i) s.
Proof. apply each_job_finishes; [apply cancelJob_short|apply cancelJob_total]. Qed.

(** With a fuel of the length of the table, and when the other
    tasks add no entry meanwhile, the loop of [destroy] does not stop for
    lack of fuel: if [destroy] returns, it has visited every entry. *)
Theorem destroy_finishes fuel s :
  (n ≤ fuel)%nat → short s →
  e_result (exec ora env (destroy fuel) s) ≠ Ok false.
Proof.
  intros Hn Hs; apply (along_exec (λ r _, r ≠ Ok false)); unfold destroy.
  apply along_bind; eapply along_mono; [..|by apply (cancel_all_finishes fuel 0)]; [done|].
  intros r s' [-> _]; task_compute.
  destruct (swarm _); task_compute; repeat (split; [done|]);
    repeat (destruct (ora _); task_compute; try (split; [done|])); done.
Qed.

End pool_fuel.

(** ** When the swarm or the store fails to close

    [destroy] awaits [swarm.destroy()] and [store.close()] outside any
    [try]: when one of them rejects, so does [destroy], whatever the loop
    before it did.  On the way it sends no request to PeerTube. *)
Section pool_along.
Context {Σ : Type} `{!Lens Σ pool_manager}.
Context (ora : oracle) (env : Σ → Σ) (P : Σ → op → Prop) (I : Σ → Prop).

(** The rule of the loop for an invariant and a condition on the
    operations that every turn keeps, whether it returns or throws. *)
Lemma each_job_along (body : job_id → task Σ unit) fuel i s :
  (∀ id s', I s' → along P (λ _, I) ora env (body id) s') →
  I s → along P (λ _, I) ora env (each_job body fuel i) s.
Proof.
  intros Hbody; revert i s; induction fuel as [|fuel IH]; intros i s Hs; simpl; task_compute;
    [done|].
  destruct (jm_next i _) as [[[j uuid] v]|]; task_compute; [|done].
  apply along_bind; eapply along_mono; [done| |by apply Hbody].
  intros [[]|] s' Hs'; [by apply IH|done].
Qed.

End pool_along.

Section pool_close.
Context {Σ : Type} `{!Lens Σ pool_manager}.
Context (ora : oracle) (env : Σ → Σ).
Context (Henv : ∀ s, joined s → joined (env s)).
Context (Hfails : is_ok (ora SwarmDestroy) = false ∨ is_ok (ora StoreClose) = false).

Local Abbreviation quiet := (λ (_ : Σ) o, ¬ unregisters o).

Lemma joined_table s f : joined s → joined (update (set_activeJobs f (view s)) s).
Proof. unfold joined; by rewrite view_update. Qed.

Lemma cancelJob_joined id s : joined s → along quiet (λ _, joined) ora env (cancelJob id) s.
Proof.
  intros Hs; unfold cancelJob; task_cbn_goal.
  destruct (jm_get _ _); task_cbn_goal; [|done].
  split; [by intros [? [=]]|].
  destruct (ora (PoolDestroy id)); task_cbn_goal; (case_decide; task_cbn_goal;
    [by apply joined_table, Henv|split; [by intros [? [=]]|]]);
    destruct (ora (Rm _)); task_cbn_goal; by apply joined_table, Henv, Henv.
Qed.

Lemma destroy_fails fuel s :
  joined s → along quiet (λ r _, is_ok r = false) ora env (destroy fuel) s.
Proof.
  intros Hs; unfold destroy; apply along_bind.
  eapply along_mono; [..|by apply (each_job_along ora env quiet joined), Hs; apply cancelJob_joined];
    [done|].
  intros [b|] s' Hs'; [|done]; task_compute; rewrite Hs'; task_compute.
  split; [by intros [? [=]]|].
  destruct (ora SwarmDestroy); task_compute; [|done].
  split; [by intros [? [=]]|].
  destruct (ora StoreClose); task_compute; [|done]; by destruct Hfails.
Qed.

End pool_close.

(** ** The loop over the live table and the loop over its keys

    When nothing else runs between the turns of the loop, iterating over
    the live table while the body deletes the entry it is called on is the
    same as iterating over the keys the table had at the start: every job
    is cancelled once, in the order of insertion. *)
Section pool_snapshot.
Context {Σ : Type} `{!Lens Σ pool_manager}.
Context (ora : oracle) (body : job_id → task Σ unit).

(** What the body does to the table: nothing, or it deletes its job. *)
Context (Hbody : ∀ k s,
  let m' := activeJobs (view (e_state (exec ora id (body k) s))) in
  m' = activeJobs (view s) ∨ m' = jm_delete k (activeJobs (view s))).

Lemma body_after k v j s :
  let s' := e_state (exec ora id (body k) s) in
  jm_wf (activeJobs (view s)) → activeJobs (view s) !! j = Some (Some (k, v)) →
  jm_wf (activeJobs (view s'))
  ∧ length (activeJobs (view s')) = length (activeJobs (view s))
  ∧ drop (S j) (activeJobs (view s')) = drop (S j) (activeJobs (view s)).
Proof.
  intros s' Hwf Hj; subst s'; destruct (Hbody k s) as [->| ->]; [done|].
  split_and!; [by apply jm_delete_wf|apply jm_delete_length|by eapply jm_delete_after].
Qed.

Lemma each_job_snapshot fuel i s :
  jm_wf (activeJobs (view s)) → (length (activeJobs (view s)) ≤ i + fuel)%nat →
  exec ora id (each_job body fuel i) s
  = exec ora id (each_key body (jm_entries (drop i (activeJobs (view s)))).*1) s.
Proof.
  revert i s; induction fuel as [|fuel IH]; intros i s Hwf Hlen; simpl; task_compute.
  { by rewrite jm_next_past, drop_ge by lia. }
  destruct (jm_next i _) as [[[j k] v]|] eqn:E.
  - rewrite (jm_next_entries _ _ _ _ _ E); apply jm_next_Some in E as [Hj Hl]; simpl.
    change (bind (body k) ?f) with (body k ≫= f); rewrite !exec_bind.
    destruct (body_after k v j s Hwf Hl) as (Hwf' & Hlen' & Hdrop).
    destruct (e_result _) as [[]|]; [|done].
    by rewrite IH, Hdrop; [| |lia].
  - apply jm_next_None in E; by rewrite E.
Qed.

End pool_snapshot.

Section pool_cancel_all.
Context {Σ : Type} `{!Lens Σ pool_manager}.

Lemma cancelJob_table ora (id : job_id) (s : Σ) :
  let m' := activeJobs (view (e_state (exec ora Datatypes.id (cancelJob id) s))) in
  m' = activeJobs (view s) ∨ m' = jm_delete id (activeJobs (view s)).
Proof.
  unfold cancelJob; task_cbn_goal.
  destruct (jm_get id _); task_cbn_goal; [right|by left].
  destruct (ora (PoolDestroy id)) as [[]|]; task_cbn_goal;
    (case_decide; task_cbn_goal; [|destruct (ora (Rm _)) as [[]|]; task_cbn_goal]);
    by rewrite view_update.
Qed.

(** Claim C23: the loop of [destroy] is the loop over the keys of the
    table.  When [destroy] runs alone, on a table in which no key has two
    entries and with a fuel of at least its length, the loop over the live
    table, whose body deletes the entry it stands on, makes the same calls
    and ends in the same state as [cancelJob] called on each key the table
    had at the start, in the order of insertion. *)
Theorem cancel_all_snapshot ora fuel (s : Σ) :
  jm_wf (activeJobs (view s)) → (length (activeJobs (view s)) ≤ fuel)%nat →
  exec ora id (cancel_all fuel 0) s
  = exec ora id (each_key cancelJob (jm_entries (activeJobs (view s))).*1) s.
Proof.
  intros; unfold cancel_all.
  rewrite (each_job_snapshot ora cancelJob (cancelJob_table ora)); [done|done|simpl; lia].
Qed.

End pool_cancel_all.

Section progress_facts.

Lemma progress_ok_checked : forallb progress_ok (seq 1 max_checked_segments) = true.
Proof. vm_compute; reflexivity. Qed.

(** Claim C38: the percentage of the progress timer, on doubles.  For every
    pool of up to 64 segments and every count of completed segments: the
    percentage is defined, lies between 10 and 85, is 10 when nothing is
    complete and 85 when everything is, does not decrease when one more
    segment completes, and differs from the percentage computed on
    rationals by at most one, never upwards. *)
Theorem progress_pct_checked (total done : nat) :
  (0 < total ≤ max_checked_segments)%nat → (done < total)%nat →
  ∃ p q, progress_pct total done = Some p ∧ progress_pct total (S done) = Some q
         ∧ 10 ≤ p ∧ p ≤ q ∧ q ≤ 85
         ∧ progress_exact total done - 1 ≤ p ∧ p ≤ progress_exact total done
         ∧ progress_pct total 0 = Some 10 ∧ progress_pct total total = Some 85.
Proof.
  intros Htotal Hdone; pose proof progress_ok_checked as H.
  rewrite forallb_forall in H; specialize (H total); rewrite in_seq in H.
  specialize (H ltac:(lia)); unfold progress_ok in H.
  apply andb_true_iff in H as [[Hs H0]%andb_true_iff H1].
  rewrite forallb_forall in Hs; specialize (Hs done); rewrite in_seq in Hs.
  specialize (Hs ltac:(lia)); unfold progress_step_ok in Hs.
  apply bool_decide_eq_true in H0, H1.
  destruct (progress_pct total done) as [p|], (progress_pct total (S done)) as [q|];
    try done.
  apply bool_decide_eq_true in Hs; exists p, q; naive_solver.
Qed.

(** The percentage is not the rounded-down share of completed
    segments.  With 11 of 15 segments complete the timer reports 64, where
    10 + 75 * 11 / 15 is exactly 65: the quotient 11 / 15 is rounded to a
    double before it is multiplied. *)
Theorem progress_pct_rounding :
  progress_pct 15 11 = Some 64 ∧ progress_exact 15 11 = 65.
Proof. split; vm_compute; reflexivity. Qed.

End progress_facts.

(** ** Examples *)

Definition record_g (pct : Z) (s : probe) : probe :=
  Probe (p_pm s) (p_rt s) (p_log s ++ [pct]).

Example processJob_demo :
  let r := exec (answers 200) id (processJob (C:=unit) workflow_demo record_progress) probe_demo in
  e_result r = Ok (PoolResult "ptsn-XXXXXX/output.mp4" "ptsn-XXXXXX")
  ∧ p_log (e_state r) = [0; 2; 8; 10; 95; 100]
  ∧ timers (p_rt (e_state r)) = ∅
  ∧ activeJobs (p_pm (e_state r)) = [None].
Proof. vm_compute; done. Qed.

Example processJob_not_ready :
  let r := exec not_ready id (processJob (C:=unit) workflow_demo record_progress) probe_demo in
  e_result r = Err EPoolNotReady
  ∧ p_log (e_state r) = [0; 2; 8; 10]
  ∧ last (e_ops r) = Some (PoolDestroy "job-a")
  ∧ activeJobs (p_pm (e_state r)) = [].
Proof. vm_compute; done. Qed.

Lemma processJob_sequence_witness :
  ∃ dir segs tracks path,
    e_ops (exec (answers 200) id (processJob (C:=unit) workflow_demo record_progress) probe_demo)
      = stages workflow_demo dir segs tracks path
    ∧ PoolResult "ptsn-XXXXXX/output.mp4" "ptsn-XXXXXX" = PoolResult (dir +:+ "/output.mp4") dir
    ∧ answers 200 (Mkdtemp "ptsn-") = Ok dir
    ∧ answers 200 (Segment (jobUUID workflow_demo) (localInputPath workflow_demo) dir) = Ok segs
    ∧ answers 200 (Demux (jobUUID workflow_demo) (localInputPath workflow_demo) dir) = Ok tracks
    ∧ answers 200 (LoadConfig (jobUUID workflow_demo)) = Ok true
    ∧ answers 200 (Finalized (jobUUID workflow_demo)) = Ok path.
Proof.
  apply (processJob_sequence (C:=unit) record_g (λ _, Ret tt) workflow_demo (answers 200)
           probe_demo).
  vm_compute; reflexivity.
Defined.

Lemma processJob_teardown_witness :
  let r := exec not_ready id (processJob (C:=unit) workflow_demo record_progress) probe_demo in
  PoolDestroy "job-a" ∈ e_ops r
  ∧ jm_get "job-a" (activeJobs (view (e_state r))) = None.
Proof.
  apply (processJob_teardown (C:=unit) record_g (λ _, Ret tt) workflow_demo not_ready
           probe_demo "ptsn-XXXXXX").
  reflexivity.
Defined.

Lemma processJob_keeps_tempDir_witness :
  let r := exec not_ready id (processJob (C:=unit) workflow_demo record_progress) probe_demo in
  Mkdtemp "ptsn-" ∈ e_ops r ∧ ∀ p, Rm p ∉ e_ops r.
Proof.
  apply (processJob_keeps_tempDir (C:=unit) record_g (λ _, Ret tt) workflow_demo not_ready
           probe_demo "ptsn-XXXXXX" EPoolNotReady); [reflexivity|].
  vm_compute; reflexivity.
Defined.

Lemma progress_pct_checked_witness :
  ∃ p q, progress_pct 3 1 = Some p ∧ progress_pct 3 2 = Some q
         ∧ 10 ≤ p ∧ p ≤ q ∧ q ≤ 85
         ∧ progress_exact 3 1 - 1 ≤ p ∧ p ≤ progress_exact 3 1
         ∧ progress_pct 3 0 = Some 10 ∧ progress_pct 3 3 = Some 85.
Proof. apply (progress_pct_checked 3 1); unfold max_checked_segments; lia. Defined.

Example destroy_demo :
  let r := exec (answers 200) id (destroy 3) probe_busy in
  e_result r = Ok true
  ∧ e_ops r = [PoolDestroy "job-a"; Rm "ptsn-a"; PoolDestroy "job-b"; Rm "ptsn-b";
               SwarmDestroy; StoreClose]
  ∧ activeJobs (p_pm (e_state r)) = [None; None; None]
  ∧ e_result (exec (answers 200) id (destroy 1) probe_busy) = Ok false.
Proof. vm_compute; done. Qed.

Lemma cancel_all_snapshot_witness :
  exec (answers 200) id (cancel_all 3 0) probe_busy
  = exec (answers 200) id (each_key cancelJob ["job-a"; "job-b"]) probe_busy.
Proof.
  change ["job-a"; "job-b"] with (jm_entries (activeJobs (view probe_busy))).*1.
  apply (cancel_all_snapshot (answers 200) 3 probe_busy); [|simpl; lia].
  apply (bool_decide_unpack _); vm_compute; reflexivity.
Defined.

Lemma destroy_finishes_witness :
  e_result (exec (answers 200) id (destroy 3) probe_busy) ≠ Ok false.
Proof.
  apply (destroy_finishes (answers 200) id 3); [intros; assumption|lia|].
  unfold short; simpl; lia.
Defined.

End PoolManager.
