(* ===== verification/Shutdown.v ===== *)
(** * Shutdown: [gracefulShutdown] of src/lib/health.js

    The function the bridge runs when it stops: it arms a timer that ends
    the process after 30 s, stops the health monitor, reports every job of
    the pool manager it holds a token for as failed, destroys the pools,
    clears the watchdog, unregisters the runner, and disarms the timer.

    It is written over any state that holds the four components and the
    timer table.  Its loop over [poolManager.activeJobs] awaits inside the
    body, so the table can change under the iterator; as in [PoolManager],
    the iterator is a position in the table and a fuel bounds the number of
    entries visited. *)

From S2P Require Import Prelude JsMap Runtime Watchdog Health Async Logic Api Client Pool.

Section shutdown.
Context {Σ C : Type}.
Context `{!Lens Σ client} `{!Lens Σ PoolManager.pool_manager} `{!Lens Σ (wd_state C)}.
Context `{!Lens Σ (health * runtime (callback C))} `{!Lens Σ (runtime (callback C))}.

(** The body of the loop: [if (!runnerClient.jobTokens.has(uuid)) continue;
    await runnerClient.postError(uuid, 'Runner shutting down')] inside
    [try { } catch { }]. *)
Definition report_shutdown (id : job_id) : task Σ unit :=
  has ← vgets (λ c, bool_decide (is_Some (jobTokens c !! id)));
  if has : bool then ignore_errors (zoom (postError id RunnerShuttingDown)) else mret tt.

(** The loop over [poolManager.activeJobs]. *)
Definition report_all (fuel : nat) (i : nat) : task Σ bool :=
  PoolManager.each_job report_shutdown fuel i.

(** The [try] block. *)
Definition shutdown_steps (fuel : nat) : task Σ bool :=
  vmodify (hm_stop (C:=C));;
  reported ← report_all fuel 0;
  destroyed ← PoolManager.destroy fuel;
  vmodify (clearAll (C:=C));;
  ignore_errors (zoom unregister);;
  mret (reported && destroyed).

(** [gracefulShutdown(runnerClient, poolManager, watchdog, monitor)] *)
Definition gracefulShutdown (fuel : nat) : task Σ bool :=
  hardTimeout ← vstate (setTimeout (P:=callback C) CbHardShutdown 30000);
  finally (shutdown_steps fuel) (vmodify (clearTimeout (P:=callback C) hardTimeout)).

(** What the loop has checked when it reports a job. *)
Definition reports_held (s : Σ) (o : op) : Prop :=
  ∀ id rtok tok m, o = Fetch (PostError id rtok tok m) →
    m = RunnerShuttingDown ∧ jobTokens (view s) !! id = Some (Some tok) ∧ tok ≠ "".

End shutdown.

(** * Facts *)

Section shutdown_facts.
Context {Σ C : Type}.
Context `{!Lens Σ client} `{!Lens Σ PoolManager.pool_manager} `{!Lens Σ (wd_state C)}.
Context `{!Lens Σ (health * runtime (callback C))} `{!Lens Σ (runtime (callback C))}.
Implicit Types (s : Σ) (ora : oracle) (env : Σ → Σ) (id : job_id).

Lemma report_shutdown_held id ora env s :
  along reports_held (λ r _, r = Ok tt) ora env (report_shutdown (Σ:=Σ) id) s.
Proof.
  unfold report_shutdown, postError, expect_ok; task_cbn_goal.
  case_bool_decide; task_cbn_goal; [|done].
  destruct (_jobToken id (view s)) as [tok|] eqn:Htok; task_cbn_goal; [|done].
  apply jobToken_Ok in Htok; split; [by intros ???? [= <- <- <- <-]|].
  destruct (ora _) as [res|]; task_cbn_goal; [|done].
  destruct (ok res); by task_cbn_goal.
Qed.

(** Claim C27: at shutdown a job is reported as failed only when the client
    holds a usable token for it at that moment, and the message is that the
    runner shuts down; the loop itself never throws. *)
Theorem report_all_held fuel i ora env s :
  along reports_held (λ r _, is_ok r = true) ora env (report_all (Σ:=Σ) fuel i) s.
Proof.
  unfold report_all; revert i s; induction fuel as [|fuel IH]; intros i s; simpl;
    task_cbn_goal; [done|].
  destruct (jm_next i _) as [[[j uuid] ?]|]; task_cbn_goal; [|done].
  apply along_handle; eapply along_mono; [done| |apply report_shutdown_held].
  intros ? s' ->; apply IH.
Qed.

(** Claim C26: the timer that ends the process is disarmed whenever
    [gracefulShutdown] settles, also when a step of the shutdown throws. *)
Theorem gracefulShutdown_disarms fuel ora env s :
  let r := exec ora env (gracefulShutdown (C:=C) fuel) s in
  let hardTimeout := next_timer (view (Lens:=_ : Lens Σ (runtime (callback C))) s) in
  timers (view (Lens:=_ : Lens Σ (runtime (callback C))) (e_state r)) !! hardTimeout = None.
Proof.
  unfold gracefulShutdown; task_cbn_goal; rewrite exec_finally; simpl.
  rewrite view_update; apply clearTimeout_lookup.
Qed.

End shutdown_facts.

(** The shutdown changes the four components and the timers, and nothing
    else. *)
Section shutdown_keeps.
Context {Σ C : Type}.
Context `{!Lens Σ client} `{!Lens Σ PoolManager.pool_manager} `{!Lens Σ (wd_state C)}.
Context `{!Lens Σ (health * runtime (callback C))} `{!Lens Σ (runtime (callback C))}.
Context (I : Σ → Prop) (ora : oracle) (env : Σ → Σ).
Context (Henv : ∀ s, I s → I (env s)).
Context (Hclient : ∀ s (c : client), I s → I (update c s)).
Context (Hpool : ∀ s (p : PoolManager.pool_manager), I s → I (update p s)).
Context (Hwd : ∀ s (w : wd_state C), I s → I (update w s)).
Context (Hhm : ∀ s (h : health * runtime (callback C)), I s → I (update h s)).
Context (Hrt : ∀ s (r : runtime (callback C)), I s → I (update r s)).

Lemma report_shutdown_keeps id : keeps I ora env (report_shutdown id).
Proof. keeps_auto ltac:(by auto). Qed.

Lemma report_all_keeps fuel i : keeps I ora env (report_all fuel i).
Proof. apply PoolManager.each_job_keeps; auto using report_shutdown_keeps. Qed.

Lemma gracefulShutdown_keeps fuel : keeps I ora env (gracefulShutdown (C:=C) fuel).
Proof.
  pose proof report_all_keeps; pose proof (PoolManager.destroy_keeps I ora env Henv Hpool).
  keeps_auto ltac:(by auto).
Qed.

End shutdown_keeps.

(** ** The loops of the shutdown come to their end *)
Section shutdown_fuel.
Context {Σ C : Type}.
Context {Lc : Lens Σ client} {Lp : Lens Σ PoolManager.pool_manager} {Lw : Lens Σ (wd_state C)}.
Context {Lh : Lens Σ (health * runtime (callback C))} {Lr : Lens Σ (runtime (callback C))}.
Context `{!Apart Lp Lc} `{!Apart Lp Lw} `{!Apart Lp Lh} `{!Apart Lp Lr}.
Context (ora : oracle) (env : Σ → Σ) (fuel : nat).
Context (Henv : ∀ s, PoolManager.short fuel s → PoolManager.short fuel (env s)).

Local Abbreviation short := (PoolManager.short fuel).

Lemma short_apart {B} {Lb : Lens Σ B} `{!Apart Lp Lb} s (b : B) : short s → short (update b s).
Proof. unfold PoolManager.short; by rewrite view_update_apart. Qed.

Lemma report_shutdown_total id : total (report_shutdown (Σ:=Σ) id).
Proof. total_auto. Qed.

Lemma shutdown_steps_finishes s :
  short s → along (λ _ _, True) (λ r _, r ≠ Ok false) ora env (shutdown_steps (C:=C) fuel) s.
Proof.
  intros Hs; unfold shutdown_steps; task_compute.
  apply along_bind; eapply along_mono; [done|..].
  2: { apply PoolManager.each_job_finishes with (n := fuel);
         [intros; apply report_shutdown_keeps; auto using short_apart
         |apply report_shutdown_total|lia|by apply short_apart]. }
  intros ? s' [-> Hs']; apply along_bind.
  eapply along_mono; [done|..];
    [|by apply (along_exec (λ r _, r ≠ Ok false)),
               PoolManager.destroy_finishes with (n := fuel)].
  intros [[]|] s'' ?; [|done..]; task_compute.
  apply along_handle_skip; [apply along_True|]; by intros [].
Qed.

(** With a fuel of the length of the table of the pool manager, and when
    the other tasks add no entry to it meanwhile, neither loop of the
    shutdown stops for lack of fuel. *)
Lemma gracefulShutdown_finishes s :
  short s → e_result (exec ora env (gracefulShutdown (C:=C) fuel) s) ≠ Ok false.
Proof.
  intros Hs; apply (along_exec (λ r _, r ≠ Ok false)); unfold gracefulShutdown; task_compute.
  apply along_handle; eapply along_mono; [done|..];
    [|by apply shutdown_steps_finishes, short_apart].
  by intros [] ?.
Qed.

End shutdown_fuel.

(** ** A shutdown that cannot close the swarm or the store

    [gracefulShutdown] awaits [poolManager.destroy()] inside its [try]
    block, which has a [finally] and no [catch]: when [swarm.destroy()] or
    [store.close()] rejects, the steps after it are skipped and
    [gracefulShutdown] rejects. *)
Section shutdown_fails.
Context {Σ C : Type}.
Context {Lc : Lens Σ client} {Lp : Lens Σ PoolManager.pool_manager} {Lw : Lens Σ (wd_state C)}.
Context {Lh : Lens Σ (health * runtime (callback C))} {Lr : Lens Σ (runtime (callback C))}.
Context `{!Apart Lp Lc} `{!Apart Lp Lh} `{!Apart Lp Lr}.
Context (ora : oracle) (env : Σ → Σ).
Context (Henv : ∀ s, PoolManager.joined s → PoolManager.joined (env s)).
Context (Hfails : is_ok (ora SwarmDestroy) = false ∨ is_ok (ora StoreClose) = false).

Local Abbreviation joined := PoolManager.joined.
Local Abbreviation quiet := (λ (_ : Σ) o, ¬ unregisters o).

Lemma joined_apart {B} {Lb : Lens Σ B} `{!Apart Lp Lb} s (b : B) : joined s → joined (update b s).
Proof. unfold PoolManager.joined; by rewrite view_update_apart. Qed.

Lemma report_shutdown_joined id s :
  joined s → along quiet (λ _, joined) ora env (report_shutdown id) s.
Proof.
  intros Hs; unfold report_shutdown, postError, expect_ok; task_cbn_goal.
  case_bool_decide; task_cbn_goal; [|done].
  destruct (_jobToken id (view s)); task_cbn_goal; [|done].
  split; [by intros [? [=]]|].
  destruct (ora (Fetch _)) as [res|]; task_cbn_goal; [|by apply Henv].
  destruct (ok res); task_cbn_goal; [apply joined_apart|]; by apply Henv.
Qed.

Lemma shutdown_steps_fails fuel s :
  joined s → along quiet (λ r _, is_ok r = false) ora env (shutdown_steps (C:=C) fuel) s.
Proof.
  intros Hs; unfold shutdown_steps, report_all; task_compute; apply along_bind.
  eapply along_mono;
    [..|by apply (PoolManager.each_job_along ora env quiet joined), joined_apart, Hs;
           apply report_shutdown_joined]; [done|].
  intros [b|] s' Hs'; [|done]; apply along_bind.
  eapply along_mono; [..|by apply PoolManager.destroy_fails]; [done|by intros [] ?].
Qed.

(** No request unregisters the runner, and the promise is rejected. *)
Lemma gracefulShutdown_fails fuel s :
  joined s → along quiet (λ r _, is_ok r = false) ora env (gracefulShutdown (C:=C) fuel) s.
Proof.
  intros Hs; unfold gracefulShutdown; task_compute; apply along_handle.
  eapply along_mono; [..|by apply shutdown_steps_fails, joined_apart, Hs]; [done|].
  by intros [] ?.
Qed.

End shutdown_fails.
