(* ===== verification/Orchestrator.v ===== *)
(** * Orchestrator: class [Bridge] of src/unnamed/part_003 (lib/bridge.js)

    The bridge owns one object of every other component, the table of the
    jobs it is processing, the set of the jobs that failed, and the handles
    of the poll timer and of the socket.  The state of the whole program is
    the record [state]; the components work on their parts of it through
    the lenses declared here.

    [poll] asks for jobs and admits them; every admitted job is processed by
    a task of its own ([processJob]), started without [await].  [start]
    makes the socket, starts the monitor and the poll timer and registers
    the handler of SIGINT and SIGTERM ([shutdown]); [signal] is what the
    process runs when a signal arrives, [socket_event] what it runs for an
    event of the socket.  What the bridge logs with [this.log] is appended
    to the [log] field, and so is the exit of the process. *)

From S2P Require Import Prelude JsMap Runtime Watchdog Health Async Logic Api Socket Client.
From S2P Require Import Translator Assembler Pool Shutdown.

Module Bridge.

(** [config]: [peertube], [supernovao], [polling], [timeouts]. *)
Record config : Type := Config {
  peertube : client_config;
  supernovao : sn_config;
  intervalMs : Z;
  maxConcurrentJobs : Z;
  jobTimeoutMs : option Z
}.

(** An entry of [activeJobs]: [{ type, startTime }]. *)
Record job_record : Type := JobRecord {
  jr_type : string;
  jr_startTime : Z
}.

(** The lines the bridge writes with [this.log]. *)
Inductive log_event : Type :=
| UsingRunnerToken
| BridgeStarted
| AcceptedJob (id : job_id) (type : string)
| InputDownloaded (id : job_id)
| JobTimedOut (id : job_id)
| JobCompleted (id : job_id) (type : string)
| JobFailed (id : job_id) (err : error)
| JobRejected (id : job_id) (err : error)
| PollError (err : error)
| PeerTubeUnhealthy (why : reason)
| Monitor (ev : hm_event)
| SocketLine (l : SocketListener.line)
| ShutdownSignal
| ProcessExit (code : Z).

Record state : Type := State {
  runnerClient : client;
  poolManager : PoolManager.pool_manager;
  watchdog : Watchdog.watchdog unit;
  healthMonitor : health;
  rt : runtime (callback unit);
  activeJobs : gmap job_id job_record;
  failedJobs : gset job_id;
  isRunning : bool;
  pollTimer : option timer_id;
  socket : option SocketListener.socket;
  signalHandlers : nat;
  log : list log_event
}.

Definition set_activeJobs (f : gmap job_id job_record → gmap job_id job_record) (s : state)
    : state :=
  State (runnerClient s) (poolManager s) (watchdog s) (healthMonitor s) (rt s)
        (f (activeJobs s)) (failedJobs s) (isRunning s) (pollTimer s) (socket s) (signalHandlers s) (log s).

Definition set_failedJobs (f : gset job_id → gset job_id) (s : state) : state :=
  State (runnerClient s) (poolManager s) (watchdog s) (healthMonitor s) (rt s)
        (activeJobs s) (f (failedJobs s)) (isRunning s) (pollTimer s) (socket s) (signalHandlers s) (log s).

Definition set_isRunning (b : bool) (s : state) : state :=
  State (runnerClient s) (poolManager s) (watchdog s) (healthMonitor s) (rt s)
        (activeJobs s) (failedJobs s) b (pollTimer s) (socket s) (signalHandlers s) (log s).

Definition set_pollTimer (t : option timer_id) (s : state) : state :=
  State (runnerClient s) (poolManager s) (watchdog s) (healthMonitor s) (rt s)
        (activeJobs s) (failedJobs s) (isRunning s) t (socket s) (signalHandlers s) (log s).

Definition set_socket (b : option SocketListener.socket) (s : state) : state :=
  State (runnerClient s) (poolManager s) (watchdog s) (healthMonitor s) (rt s)
        (activeJobs s) (failedJobs s) (isRunning s) (pollTimer s) b (signalHandlers s) (log s).

Definition set_signalHandlers (n : nat) (s : state) : state :=
  State (runnerClient s) (poolManager s) (watchdog s) (healthMonitor s) (rt s)
        (activeJobs s) (failedJobs s) (isRunning s) (pollTimer s) (socket s) n (log s).

Definition add_log (ev : log_event) (s : state) : state :=
  State (runnerClient s) (poolManager s) (watchdog s) (healthMonitor s) (rt s)
        (activeJobs s) (failedJobs s) (isRunning s) (pollTimer s) (socket s) (signalHandlers s) (log s ++ [ev]).

(** ** The parts of the state *)

#[global] Instance state_client : Lens state client.
Proof.
  by refine {| view := runnerClient;
               update c s := State c (poolManager s) (watchdog s) (healthMonitor s) (rt s)
                 (activeJobs s) (failedJobs s) (isRunning s) (pollTimer s) (socket s) (signalHandlers s) (log s) |};
    [|intros []|].
Defined.

#[global] Instance state_pool : Lens state PoolManager.pool_manager.
Proof.
  by refine {| view := poolManager;
               update p s := State (runnerClient s) p (watchdog s) (healthMonitor s) (rt s)
                 (activeJobs s) (failedJobs s) (isRunning s) (pollTimer s) (socket s) (signalHandlers s) (log s) |};
    [|intros []|].
Defined.

#[global] Instance state_rt : Lens state (runtime (callback unit)).
Proof.
  by refine {| view := rt;
               update r s := State (runnerClient s) (poolManager s) (watchdog s)
                 (healthMonitor s) r (activeJobs s) (failedJobs s) (isRunning s) (pollTimer s)
                 (socket s) (signalHandlers s) (log s) |};
    [|intros []|].
Defined.

(** The watchdog works on its table and on the timers. *)
#[global] Instance state_watchdog : Lens state (wd_state unit).
Proof.
  by refine {| view s := (watchdog s, rt s);
               update w s := State (runnerClient s) (poolManager s) w.1 (healthMonitor s) w.2
                 (activeJobs s) (failedJobs s) (isRunning s) (pollTimer s) (socket s) (signalHandlers s) (log s) |};
    [intros []|intros []|].
Defined.

(** So does the health monitor. *)
#[global] Instance state_health : Lens state (health * runtime (callback unit)).
Proof.
  by refine {| view s := (healthMonitor s, rt s);
               update h s := State (runnerClient s) (poolManager s) (watchdog s) h.1 h.2
                 (activeJobs s) (failedJobs s) (isRunning s) (pollTimer s) (socket s) (signalHandlers s) (log s) |};
    [intros []|intros []|].
Defined.

(** The parts do not overlap with the pool manager. *)
#[global] Instance pool_client_apart : Apart state_pool state_client.
Proof. by split. Qed.

#[global] Instance pool_watchdog_apart : Apart state_pool state_watchdog.
Proof. by split. Qed.

#[global] Instance pool_health_apart : Apart state_pool state_health.
Proof. by split. Qed.

#[global] Instance pool_rt_apart : Apart state_pool state_rt.
Proof. by split. Qed.

(** ** The methods *)

(** [this.log.info(...)], [this.log.error(...)] *)
Definition say (ev : log_event) : task state unit := modify (add_log ev).

(** [constructor(config)]; [t0] is the time on the clock. *)
Definition new (cfg : config) (t0 : Z) : state :=
  State client_new (PoolManager.new (supernovao cfg)) (wd_new (jobTimeoutMs cfg))
        (hm_new (Some (HmConfig (Some 30000) (jobTimeoutMs cfg) (Some 5))))
        (rt_init t0) ∅ ∅ false None None 0 [].

(** The progress callback [processJob] hands to the pool manager: it kicks
    the watchdog and reports the percentage without awaiting the report. *)
Definition onProgress (id : job_id) (percent : Z) : task state unit :=
  callback_of (λ s, update (kick (C:=unit) id (view s)) s)
              (catch (zoom (updateJob id percent)) (λ _, mret tt)).

(** The [onTimeout] callback [processJob] hands to the watchdog. *)
Definition onTimeout (uuid : job_id) : task state unit :=
  say (JobTimedOut uuid);;
  catch (zoom (postError uuid Api.JobTimedOut);; PoolManager.cancelJob uuid)
        (λ _, mret tt).

(** The [let] variables of [processJob]. *)
Record locals : Type := Locals {
  tempDir : option string;
  poolTempDir : option string
}.

Definition set_tempDir (d : option string) (l : locals) : locals := Locals d (poolTempDir l).
Definition set_poolTempDir (d : option string) (l : locals) : locals := Locals (tempDir l) d.

(** [jobUUID.slice(0, 8)] *)
Definition slice8 (id : job_id) : string := String.substring 0 8 id.

(** The [try] block of [processJob]. *)
Definition processJob_try (cfg : config) (jobUUID : job_id) (jobType : string)
    (payload : option payload) : ltask locals state unit :=
  workflow ← lift (settle (translateJob jobType payload (supernovao cfg)));
  dir ← lift (await (Mkdtemp ("ptsn-" +:+ slice8 jobUUID +:+ "-")));
  assign (set_tempDir (Some dir));;
  let inputPath := dir +:+ "/input.mp4" in
  jobToken ← lift (vgets (λ c, mjoin (jobTokens c !! jobUUID)));
  runnerToken ← lift (vgets runnerToken);
  lift (downloadInput (inputUrl workflow) inputPath runnerToken jobToken);;
  lift (say (InputDownloaded jobUUID));;
  lift (vmodify (watch (C:=unit) jobUUID tt));;
  poolResult ← lift (PoolManager.processJob (C:=unit) (JobWorkflow workflow jobUUID inputPath)
                       (onProgress jobUUID));
  assign (set_poolTempDir (Some (PoolManager.res_tempDir poolResult)));;
  result ← lift (prepareResult (PoolManager.outputPath poolResult) workflow);
  lift (uploadResult jobUUID result);;
  lift (say (JobCompleted jobUUID jobType));;
  lift (vmodify (clear (C:=unit) jobUUID)).

(** The [catch] block. *)
Definition processJob_catch (jobUUID : job_id) (err : error) : ltask locals state unit :=
  lift (say (JobFailed jobUUID err));;
  lift (catch (zoom (postError jobUUID (MessageOf err))) (λ _, mret tt));;
  lift (modify (set_failedJobs (λ f, {[jobUUID]} ∪ f)));;
  lift (vmodify (clear (C:=unit) jobUUID));;
  lift (ignore_errors (PoolManager.cancelJob jobUUID)).

(** [if (dir) await cleanupTemp(dir)] *)
Definition cleanup_if (dir : option string) : ltask locals state unit :=
  if js_falsy_str dir then mret tt else lift (cleanupTemp (default "" dir)).

(** The [finally] block. *)
Definition processJob_finally (jobUUID : job_id) : ltask locals state unit :=
  lift (modify (set_activeJobs (delete jobUUID)));;
  d ← local tempDir;
  cleanup_if d;;
  p ← local poolTempDir;
  cleanup_if p.

(** [processJob(jobUUID, jobType, payload)] *)
Definition processJob (cfg : config) (jobUUID : job_id) (jobType : string)
    (payload : option payload) : task state unit :=
  t0 ← vgets (now (P:=callback unit));
  modify (set_activeJobs (<[jobUUID := JobRecord jobType t0]>));;
  with_locals (Locals None None)
    (lfinally (lcatch (processJob_try cfg jobUUID jobType payload) (processJob_catch jobUUID))
              (processJob_finally jobUUID)).

(** The task [poll] starts for a job it admitted, with the handler of its
    promise: [this.processJob(...).catch(...)]. *)
Definition admitted (cfg : config) (j : job) : task state unit :=
  catch (processJob cfg (uuid j) (job_type j) (job_payload j))
        (λ err, say (JobRejected (uuid j) err)).

(** [this.activeJobs.size >= this.config.polling.maxConcurrentJobs] *)
Definition at_limit (cfg : config) (s : state) : bool :=
  bool_decide (maxConcurrentJobs cfg ≤ Z.of_nat (size (activeJobs s))).

(** The body of the [for] loop of [poll]; [false] is [break]. *)
Definition poll_job (cfg : config) (j : job) : task state bool :=
  s ← get;
  if at_limit cfg s then mret false
  else if negb (isSupported (job_type j)) then mret true
  else if bool_decide (uuid j ∈ failedJobs s) then mret true
  else
    zoom (acceptJob (uuid j));;
    say (AcceptedJob (uuid j) (job_type j));;
    spawn (admitted cfg j);;
    mret true.

(** [poll()] *)
Definition poll (cfg : config) : task state unit :=
  s ← get;
  if negb (isRunning s) then mret tt
  else if negb (isHealthy (healthMonitor s)) then mret tt
  else if at_limit cfg s then mret tt
  else
    catch (availableJobs ← zoom requestJob;
           jobs ← settle (match availableJobs with
                          | Some l => Ok l
                          | None => Err ETypeError
                          end);
           for_each jobs (poll_job cfg))
          (λ err, say (PollError err)).

(** The callback of the poll timer and of the socket listener:
    [this.poll().catch(...)]. *)
Definition poll_trigger (cfg : config) : task state unit :=
  catch (poll cfg) (λ _, mret tt).

(** [start()]; the two calls of [process.on] count as one handler, since
    [SIGINT] and [SIGTERM] run the same function. *)
Definition start (cfg : config) : task state unit :=
  guard (negb (js_falsy_str (cfg_runnerToken (peertube cfg)))) ENoRunnerToken;;
  vmodify (set_runnerToken (cfg_runnerToken (peertube cfg)));;
  say UsingRunnerToken;;
  PoolManager.start;;
  tok ← vgets runnerToken;
  modify (set_socket (Some (SocketListener.createSocketListener (url (peertube cfg)) tok)));;
  vmodify (hm_start (C:=unit));;
  modify (set_isRunning true);;
  t ← vstate (setInterval (P:=callback unit) CbPoll (intervalMs cfg));
  modify (set_pollTimer (Some t));;
  modify (λ s, set_signalHandlers (S (signalHandlers s)) s);;
  say BridgeStarted.

(** [stop()]; the result says whether the loops of the shutdown came to
    their end within [fuel] entries. *)
Definition stop (fuel : nat) : task state bool :=
  modify (set_isRunning false);;
  t ← gets pollTimer;
  match t with
  | Some t => vmodify (clearInterval (P:=callback unit) t);; modify (set_pollTimer None)
  | None => mret tt
  end;;
  sock ← gets socket;
  match sock with
  | Some _ => modify (set_socket None)
  | None => mret tt
  end;;
  gracefulShutdown (C:=unit) fuel.

(** The handler of SIGINT and SIGTERM that [start] installs.  When the
    loops of the shutdown ran out of fuel the model goes no further: it does
    not say that the process exits. *)
Definition shutdown (fuel : nat) : task state unit :=
  say ShutdownSignal;;
  finished ← stop fuel;
  if finished : bool then say (ProcessExit 0) else mret tt.

(** What runs when the process receives SIGINT or SIGTERM: every handler
    that was installed, each up to its first [await]. *)
Definition signal (fuel : nat) : task state unit :=
  n ← gets signalHandlers;
  Nat.iter n (λ rest, spawn (shutdown fuel);; rest) (mret tt).

(** What runs when the socket emits [ev]: the handler the listener installed,
    with the callback [start] passed, which starts a poll and drops its
    promise. *)
Definition socket_event (cfg : config) (ev : SocketListener.event) : task state unit :=
  sock ← gets socket;
  match sock with
  | Some sk =>
      SocketListener.on_event (λ l, say (SocketLine l)) (spawn (poll_trigger cfg)) sk ev
  | None => mret tt
  end.

(** The callback of the timer [gracefulShutdown] arms. *)
Definition hard_exit : task state unit := say (ProcessExit 1).

(** What the monitor and the handler of ['unhealthy'] that [start] installs
    write for an event of the monitor. *)
Definition lines_of (ev : hm_event) : list log_event :=
  match ev with
  | Unhealthy why _ => [Monitor ev; PeerTubeUnhealthy why]
  | ZombieWarning _ _ => [Monitor ev]
  end.

(** The callback of the timer of the health monitor: [_check()], with the
    table of the pool manager and the clock read when the answer of the
    probe arrives. *)
Definition health_check : task state unit :=
  Await (Fetch GetConfig) (λ r,
    let o := match r with
             | Ok res => ProbeResp (status res)
             | Err e => ProbeThrow e
             end in
    s ← get;
    let active := (λ kj, (kj.1, Some (PoolManager.startTime kj.2)))
                    <$> jm_entries (PoolManager.activeJobs (poolManager s)) in
    let hevs := check_resume o (now (rt s)) active (healthMonitor s) in
    vmodify (λ hr : health * runtime (callback unit), (hevs.1, hr.2));;
    modify (λ s', foldl (λ s'' ev, add_log ev s'') s' (hevs.2 ≫= lines_of))).

(** [process.exit] was called. *)
Definition exited (s : state) : bool :=
  existsb (λ ev, match ev with ProcessExit _ => true | _ => false end) (log s).

(** ** Inputs of the examples *)

Definition cfg_demo : config :=
  Config (ClientConfig "https://pt.example" None None None (Some "rt-1"))
         sn_config_demo 5000 2 (Some 60000).

Definition job_demo : job := Job "job-1" "vod-web-video-transcoding" (Some payload_demo).

(** A server that lists [jobs] and answers every other request with
    status 200. *)
Definition offers (jobs : list job) : oracle := λ o,
  match o return result (ans o) with
  | Fetch r =>
      match r return result (response (body r)) with
      | RequestJob _ => Ok (Response 200 (Some (Some jobs)))
      | r' => answers 200 (Fetch r')
      end
  | o' => answers 200 o'
  end.

(** The bridge after [start()], and after a poll that admitted
    [job_demo]. *)
Definition started_demo : state :=
  e_state (exec (answers 200) Datatypes.id (start cfg_demo) (new cfg_demo 0)).

Definition admitted_demo : state :=
  e_state (exec (offers [job_demo]) Datatypes.id (poll cfg_demo) started_demo).

(** A server and a pool that answer as [answers 200] does, but for the
    segmentation of the input, which fails. *)
Definition segment_fails : oracle := λ o,
  match o return result (ans o) with
  | Segment _ _ _ => Err (EExternal "ffmpeg exited with code 1")
  | o' => answers 200 o'
  end.

(** The swarm fails to close. *)
Definition swarm_fails : oracle := λ o,
  match o return result (ans o) with
  | SwarmDestroy => Err (EExternal "swarm destroy failed")
  | o' => answers 200 o'
  end.

(** A bridge that watches ["job-1"] and nothing else. *)
Definition mem_launched : state :=
  update (watch (C:=unit) "job-1" tt (wd_new (Some 60000), Rt 0 6 ∅)) (new cfg_demo 0).

Definition cfg_one : config :=
  Config (peertube cfg_demo) (supernovao cfg_demo) (intervalMs cfg_demo) 1
         (jobTimeoutMs cfg_demo).

Definition job_other : job := Job "job-2" "vod-hls-transcoding" (Some payload_demo).

(** ** What the theorems say

    The predicates the statements below are written with. *)

(** What the methods leave alone.
    An invariant of the fields of the bridge itself ([activeJobs],
    [failedJobs], [isRunning], [pollTimer], [socket]) depends neither on a
    component nor on the log. *)
Definition own_fields (I : state → Prop) : Prop :=
  ∀ s c p w h r l,
    I s → I (State c p w h r (activeJobs s) (failedJobs s) (isRunning s) (pollTimer s)
                   (socket s) (signalHandlers s) l).

(** The jobs some answer of the server to a job request lists. *)
Definition listed (ora : oracle) (j : job) : Prop :=
  ∃ tok st l, ora (Fetch (RequestJob tok)) = Ok (Response st (Some (Some l))) ∧ j ∈ l.

(** What [poll] has checked when it sends the request that accepts job
    [id]. *)
Definition admissible (cfg : config) (ora : oracle) (s : state) (id : job_id) : Prop :=
  (id ∉ failedJobs s)
  ∧ Z.of_nat (size (activeJobs s)) < maxConcurrentJobs cfg
  ∧ (∃ j, uuid j = id ∧ isSupported (job_type j) = true ∧ listed ora j).

Definition accepts_admissible (cfg : config) (ora : oracle) (s : state) (o : op) : Prop :=
  ∀ id tok, o = Fetch (AcceptJob id tok) → admissible cfg ora s id.

(** The server answers the job request of the bridge with the list [l],
    and its request to accept job [id] with a token. *)
Definition lists (ora : oracle) (s : state) (l : list job) : Prop :=
  ∃ st, http_ok st = true
        ∧ ora (Fetch (RequestJob (runnerToken (runnerClient s))))
          = Ok (Response st (Some (Some l))).

Definition grants (ora : oracle) (s : state) (id : job_id) : Prop :=
  ∃ st tok, http_ok st = true
            ∧ ora (Fetch (AcceptJob id (runnerToken (runnerClient s))))
              = Ok (Response st (Some (Some tok))).

(** [translateJob] takes the job. *)
Definition translates (cfg : config) (j : job) : Prop :=
  ∃ w, translateJob (job_type j) (job_payload j) (supernovao cfg) = Ok w.

(** The watchdog has no entry for the job. *)
Definition unwatched (id : job_id) (s : state) : Prop := jobs (watchdog s) !! id = None.

(** The job came to an end: it completed or it is in [failedJobs], and the
    watchdog does not watch it. *)
Definition finished (id : job_id) (ty : string) (s : state) : Prop :=
  unwatched id s ∧ (JobCompleted id ty ∈ log s ∨ id ∈ failedJobs s).

(** And [processJob] has returned. *)
Definition settled (id : job_id) (ty : string) (s : state) : Prop :=
  activeJobs s !! id = None ∧ finished id ty s.

(** The bridge has stopped. *)
Definition halted (s : state) : Prop :=
  isRunning s = false ∧ pollTimer s = None ∧ socket s = None.

(** [poll] has nothing to do. *)
Definition paused (cfg : config) (s : state) : Prop :=
  isRunning s = false ∨ isHealthy (healthMonitor s) = false
  ∨ maxConcurrentJobs cfg ≤ Z.of_nat (size (activeJobs s)).

(** * Facts *)

(** Computing with the state of the bridge and its parts. *)
Ltac bridge_cbn :=
  cbn [view update state_client state_pool state_rt state_watchdog state_health
       runnerClient poolManager watchdog healthMonitor rt activeJobs failedJobs isRunning
       pollTimer socket signalHandlers log set_activeJobs set_failedJobs set_isRunning
       set_pollTimer set_socket set_signalHandlers add_log tempDir poolTempDir set_tempDir set_poolTempDir fst snd] in *.

(** Computing the segments of [poll]: the guards and the answers are
    rewritten with the hypotheses that give them. *)
Ltac poll_cbn :=
  repeat (progress (task_cbn_goal; bridge_cbn; cbn [s_op s_k data status negb])).

Ltac poll_known :=
  match goal with
  | H : isRunning _ = _ |- _ => rewrite H
  | H : isHealthy _ = _ |- _ => rewrite H
  | H : at_limit _ _ = _ |- _ => rewrite H
  | H : isSupported _ = _ |- _ => rewrite H
  | H : http_ok _ = _ |- _ => rewrite H
  | H : translateJob _ _ _ = _ |- _ => rewrite H
  | H : _ (Fetch _) = _ |- _ => rewrite H
  | H : _ ∉ failedJobs _ |- _ => rewrite (bool_decide_eq_false_2 _ H)
  end.

Ltac poll_run :=
  unfold resume, started, poll, poll_job, requestJob, acceptJob, json, expect_ok, ok, say,
    admitted, processJob, processJob_try;
  repeat first [progress poll_cbn | progress poll_known].

Section bridge_keeps.
Context (I : state → Prop) (ora : oracle) (env : state → state).
Context (Henv : ∀ s, I s → I (env s)) (Hown : own_fields I).
Implicit Types (cfg : config) (s : state) (id : job_id).

Lemma own_client s (c : client) : I s → I (update c s).
Proof. intros; by apply Hown. Qed.

Lemma own_pool s (p : PoolManager.pool_manager) : I s → I (update p s).
Proof. intros; by apply Hown. Qed.

Lemma own_rt s (r : runtime (callback unit)) : I s → I (update r s).
Proof. intros; by apply Hown. Qed.

Lemma own_watchdog s (w : wd_state unit) : I s → I (update w s).
Proof. intros; by apply Hown. Qed.

Lemma own_health s (h : health * runtime (callback unit)) : I s → I (update h s).
Proof. intros; by apply Hown. Qed.

Lemma own_log s ev : I s → I (add_log ev s).
Proof. intros; by apply Hown. Qed.

Lemma job_keeps cfg id ty p :
  (∀ s jr, I s → I (set_activeJobs <[id := jr]> s)) →
  (∀ s, I s → I (set_activeJobs (delete id) s)) →
  (∀ s, I s → I (set_failedJobs (λ f, {[id]} ∪ f) s)) →
  keeps I ora env (processJob cfg id ty p).
Proof.
  intros Hadd Hdel Hfail.
  keeps_auto ltac:(intros; eauto using own_client, own_pool, own_rt, own_watchdog,
                                    own_health, own_log).
Qed.

Lemma admitted_keeps cfg j :
  (∀ s jr, I s → I (set_activeJobs <[uuid j := jr]> s)) →
  (∀ s, I s → I (set_activeJobs (delete (uuid j)) s)) →
  (∀ s, I s → I (set_failedJobs (λ f, {[uuid j]} ∪ f) s)) →
  keeps I ora env (admitted cfg j).
Proof.
  intros; apply keeps_catch; [by apply job_keeps|].
  intros; apply keeps_modify; intros; by apply own_log.
Qed.

End bridge_keeps.

Section bridge_facts.
Implicit Types (cfg : config) (s : state) (ora : oracle) (env : state → state) (id : job_id).

(** Starting the task of a job adds at most the entry of that job. *)
Lemma admitted_run_dom cfg j s :
  dom (activeJobs (r_state (run (admitted cfg j) s))) ⊆ {[uuid j]} ∪ dom (activeJobs s).
Proof.
  set (K := λ s', dom (activeJobs s') ⊆ {[uuid j]} ∪ dom (activeJobs s)).
  apply (always_run K (λ _, Err ETypeError) Datatypes.id).
  apply admitted_keeps; unfold K; try (by intros ?); simpl; intros;
    rewrite ?dom_insert, ?dom_delete; set_solver.
Qed.

Lemma admitted_run_size cfg j s :
  (size (activeJobs (r_state (run (admitted cfg j) s))) ≤ S (size (activeJobs s)))%nat.
Proof.
  rewrite <-!size_dom; etrans; [apply subseteq_size, admitted_run_dom|].
  rewrite size_union_alt, size_singleton; apply le_n_S, subseteq_size; set_solver.
Qed.

Section one_poll.
Context (cfg : config) (ora : oracle) (env : state → state).
Context (Henv : ∀ s, (size (activeJobs (env s)) ≤ size (activeJobs s))%nat).

Local Abbreviation within := (λ s, Z.of_nat (size (activeJobs s)) ≤ maxConcurrentJobs cfg).

Lemma poll_job_within j : keeps within ora env (poll_job cfg j).
Proof.
  intros s Hs; unfold poll_job; task_cbn_goal.
  destruct (at_limit cfg s) eqn:Hlim; [done|]; apply bool_decide_eq_false in Hlim.
  destruct (negb _); [done|]; destruct (bool_decide _); [done|].
  set (below := λ s', Z.of_nat (size (activeJobs s')) < maxConcurrentJobs cfg).
  apply along_bind; eapply along_mono;
    [..|apply (keeps_zoom below ora env) with (t := acceptJob (uuid j))].
  - unfold below; lia.
  - intros [[]|e] s' Hs'; unfold below in Hs'; [|lia].
    unfold say; task_cbn_goal.
    pose proof (admitted_run_size cfg j (add_log (AcceptedJob (uuid j) (job_type j)) s')) as Hle.
    change (activeJobs (add_log _ s')) with (activeJobs s') in Hle; lia.
  - unfold below; intros s' ?; specialize (Henv s'); lia.
  - done.
  - unfold below; lia.
Qed.

(** Claim C3: the admission bound within one poll cycle.  When the tasks
    that run between the steps of [poll] admit no job, a poll that starts
    with at most [maxConcurrentJobs] active jobs never has more: not when it
    waits for an answer, and not when it returns. *)
Theorem poll_admission_bound s :
  Z.of_nat (size (activeJobs s)) ≤ maxConcurrentJobs cfg →
  always (λ s', Z.of_nat (size (activeJobs s')) ≤ maxConcurrentJobs cfg) ora env (poll cfg) s.
Proof.
  revert s; change (keeps within ora env (poll cfg)).
  pose proof poll_job_within.
  assert (∀ s, within s → within (env s)) by (intros s ?; specialize (Henv s); lia).
  keeps_auto ltac:(by auto).
Qed.

End one_poll.

Lemma requestJob_listed cfg ora env s :
  along (accepts_admissible cfg ora)
        (λ r _, ∀ l, r = Ok (Some l) → ∀ j, j ∈ l → listed ora j)
        ora env (zoom requestJob) s.
Proof.
  unfold requestJob, json, expect_ok; task_cbn_goal; split; [done|].
  destruct (ora _) as [[st [[l|]|]]|] eqn:Hora; task_cbn_goal; try done;
    destruct (ok _); task_cbn_goal; try done.
  intros ? [= <-] j Hj; by exists (runnerToken (view s)), st, l.
Qed.

Lemma poll_job_admissible cfg ora env j s :
  listed ora j →
  along (accepts_admissible cfg ora) (λ _ _, True) ora env (poll_job cfg j) s.
Proof.
  intros Hj; unfold poll_job; task_cbn_goal.
  destruct (at_limit cfg s) eqn:Hlim; [done|]; apply bool_decide_eq_false in Hlim.
  destruct (isSupported _) eqn:Hsup; [|done]; case_bool_decide; [done|].
  unfold acceptJob, json, expect_ok, say; task_cbn_goal; split.
  { intros ?? [= <- <-]; split_and!; [done|lia|by exists j]. }
  destruct (ora _) as [[st [[tok|]|]]|]; task_cbn_goal; try done;
    destruct (ok _); by task_cbn_goal.
Qed.

(** Claim C2: [poll] accepts a job only after its checks.  Whatever the
    other tasks do meanwhile, when [poll] sends the request that accepts a
    job, the job is one the server listed, its type is supported, it is not
    in [failedJobs], and there are fewer than [maxConcurrentJobs] active
    jobs: an unsupported job and a job that failed before are skipped
    without a request. *)
Theorem poll_accepts_admissible cfg ora env s :
  along (accepts_admissible cfg ora) (λ _ _, True) ora env (poll cfg) s.
Proof.
  unfold poll; task_cbn_goal; repeat (case_match; [done|]).
  do 2 apply along_handle.
  eapply along_mono; [done| |apply (requestJob_listed cfg)].
  intros [[l|]|e] s' Hl; unfold say; task_cbn_goal; try done.
  apply along_for_each with (I := λ _, True); try done.
  intros j s'' Hj _.
  eapply along_mono; [done| |apply poll_job_admissible; by eapply Hl].
  by intros [[]|] ??.
Qed.

(** ** The end of a job *)

(** [processJob], [poll] and the callbacks never reject their promise:
    every error is caught and logged. *)
Lemma processJob_total cfg id ty p : total (processJob cfg id ty p).
Proof. total_auto. Qed.

Lemma poll_total cfg : total (poll cfg).
Proof. total_auto. Qed.

Lemma onTimeout_total id : total (onTimeout id).
Proof. total_auto. Qed.

Lemma clear_unwatched id s : unwatched id (update (clear (C:=unit) id (view s)) s).
Proof.
  unfold unwatched, clear; bridge_cbn.
  destruct (jobs (watchdog s) !! id) eqn:E; simpl; [apply lookup_delete_eq|done].
Qed.

Section job_end.
Context (cfg : config) (id : job_id) (ty : string) (ora : oracle) (env : state → state).
Context (Hfin : ∀ s, finished id ty s → finished id ty (env s)).
Context (Hset : ∀ s, settled id ty s → settled id ty (env s)).

Lemma try_ends p : ensures ora env (finished id ty) (processJob_try cfg id ty p).
Proof.
  intros l s; unfold processJob_try, mbind, ltask_bind; cbv zeta.
  do 12 (apply along_lbind_skip; [apply along_True|done|intros ???]).
  unfold say; task_cbn_goal; intros _; split; [apply clear_unwatched|].
  left; bridge_cbn; set_solver.
Qed.

Lemma catch_ends e : ensures ora env (finished id ty) (processJob_catch id e).
Proof.
  intros l s; unfold processJob_catch, mbind, ltask_bind.
  do 2 (apply along_lbind_skip; [apply along_True|done|intros ???]).
  task_cbn_goal.
  apply (along_handle_keeps (finished id ty)); [|split|done|by intros ????].
  - keeps_auto ltac:(first [assumption | by intros]).
  - apply clear_unwatched.
  - right; bridge_cbn; set_solver.
Qed.

(** The [finally] block, after a job that came to an end. *)
Lemma finally_settles l s :
  finished id ty s →
  along (λ _ _, True) (λ _, settled id ty) ora env (processJob_finally id l) s.
Proof.
  intros Hs; unfold processJob_finally, mbind, ltask_bind; task_cbn_goal.
  assert (∀ d l', keeps (settled id ty) ora env (cleanup_if d l')) as Hk
    by (intros; keeps_auto ltac:(first [assumption | by intros])).
  apply (along_handle_keeps (settled id ty)); [apply Hk|split|done|].
  - apply lookup_delete_eq.
  - done.
  - intros [[[] l0]|] s' Hs'; simpl; [|done..].
    eapply along_mono; [..|by apply Hk]; done.
Qed.

(** Claim C1: every job [processJob] takes comes to an end.  The promise
    of [processJob] is never rejected, and when it settles the job is no
    longer in [activeJobs], the watchdog does not watch it, and either the
    bridge logged that it completed or the job is in [failedJobs].  The
    other tasks are assumed not to undo this for the same job. *)
Theorem processJob_settles p s :
  let r := exec ora env (processJob cfg id ty p) s in
  e_result r = Ok tt ∧ settled id ty (e_state r).
Proof.
  split; [apply total_exec_unit, processJob_total|].
  apply (along_exec (λ r s', is_ok r = true → settled id ty s'));
    [|apply total_exec, processJob_total].
  unfold processJob; task_compute.
  apply ensures_with_locals, ensures_lfinally with (R := finished id ty);
    [apply ensures_lcatch|]; auto using try_ends, catch_ends, finally_settles.
Qed.

End job_end.

End bridge_facts.

(** ** Pausing and stopping *)

Section bridge_stop.
Implicit Types (cfg : config) (s : state) (ora : oracle) (env : state → state).

(** Claim C21: a poll of a bridge that is stopped, unhealthy or at its limit
    sends no request and changes nothing. *)
Theorem poll_paused cfg ora env s :
  paused cfg s → exec ora env (poll cfg) s = Execd s (Ok tt) [] [] [].
Proof.
  unfold paused, poll, at_limit; intros Hp; task_cbn_goal.
  destruct (isRunning s); [|done]; destruct (isHealthy _); [|done]; simpl.
  case_bool_decide; [done|naive_solver].
Qed.

Lemma stop_keeps_halted fuel ora env :
  (∀ s, halted s → halted (env s)) → keeps halted ora env (gracefulShutdown (C:=unit) fuel).
Proof. intros; by apply gracefulShutdown_keeps. Qed.

(** Claim C18: [stop] halts the bridge.  However the shutdown goes, when
    [stop] settles the bridge is not running, it has no poll timer and no
    socket, and a poll that was already under way or is triggered later
    sends no request.  The other tasks are assumed not to start the bridge
    again. *)
Theorem stop_halts fuel cfg ora env s :
  (∀ s', halted s' → halted (env s')) →
  let s' := e_state (exec ora env (stop fuel) s) in
  halted s' ∧ ∀ ora' env', exec ora' env' (poll cfg) s' = Execd s' (Ok tt) [] [] [].
Proof.
  intros Henv s'; assert (halted s') as Hs'; [|split; [done|]].
  - apply (along_exec (λ _, halted)); unfold stop; task_compute; bridge_cbn.
    destruct (pollTimer s) eqn:Ht; task_compute; bridge_cbn;
      (destruct (socket s) eqn:Hsock; task_compute; bridge_cbn).
    all: eapply along_mono; [..|apply stop_keeps_halted; [assumption|]]; by simpl.
  - intros; apply poll_paused; left; apply Hs'.
Qed.

(** Claim C22: [stop] comes to the end of its loops.  With a fuel of
    the length of the table of the pool manager, and when the other tasks add
    no entry to it meanwhile, the shutdown does not stop for lack of fuel:
    if [stop] returns, every job of the table was reported and cancelled. *)
Theorem stop_finishes fuel ora env s :
  (∀ s', PoolManager.short fuel s' → PoolManager.short fuel (env s')) →
  PoolManager.short fuel s →
  e_result (exec ora env (stop fuel) s) ≠ Ok false.
Proof.
  intros Henv Hs; apply (along_exec (λ r _, r ≠ Ok false)); unfold stop; task_compute; bridge_cbn.
  destruct (pollTimer s); task_compute; bridge_cbn;
    (destruct (socket s); task_compute; bridge_cbn).
  all: by apply (along_exec (λ r _, r ≠ Ok false)), gracefulShutdown_finishes.
Qed.

(** Claim C17: the handler of a watchdog timeout does not end the job.  It
    logs, reports the error and cancels the pool, and never throws; the job
    keeps its entry in [activeJobs], is not added to [failedJobs], and the
    watchdog keeps its entry, so that a later [kick] arms the timer again.
    The job leaves [activeJobs] only when its own [processJob] settles. *)
Theorem onTimeout_leaves_job id ora s :
  let r := exec ora Datatypes.id (onTimeout id) s in
  e_result r = Ok tt
  ∧ activeJobs (e_state r) = activeJobs s
  ∧ failedJobs (e_state r) = failedJobs s
  ∧ jobs (watchdog (e_state r)) = jobs (watchdog s).
Proof.
  split; [apply total_exec_unit, onTimeout_total|].
  set (I := λ s', activeJobs s' = activeJobs s ∧ failedJobs s' = failedJobs s
                  ∧ jobs (watchdog s') = jobs (watchdog s)).
  apply (along_exec (λ _, I)).
  assert (keeps I ora Datatypes.id (onTimeout id)) as Hk
    by keeps_auto ltac:(first [assumption | by intros]).
  eapply along_mono; [..|by apply Hk]; done.
Qed.

End bridge_stop.

(** ** A poll that is offered one job

    [poll] reads the guards on the state in which it starts ([s0]), the
    limit and [failedJobs] again on the state in which the list arrives
    ([s1]), and nothing when the job is accepted ([s2]). *)
Section poll_one.
Context (cfg : config) (ora : oracle) (j : job) (s0 s1 : state).
Context (Hready : ¬ paused cfg s0) (Hlist : lists ora s0 [j]).
Context (Hlim : Z.of_nat (size (activeJobs s1)) < maxConcurrentJobs cfg).
Context (Hfailed : uuid j ∉ failedJobs s1).
Context (Htr : translates cfg j).

Lemma not_paused s :
  ¬ paused cfg s →
  isRunning s = true ∧ isHealthy (healthMonitor s) = true ∧ at_limit cfg s = false.
Proof.
  unfold paused, at_limit; intros Hp; split_and!.
  - destruct (isRunning s); [done|by destruct Hp; left].
  - destruct (isHealthy _); [done|by destruct Hp; right; left].
  - apply bool_decide_eq_false_2; intros ?; apply Hp; by right; right.
Qed.

Lemma below_limit s :
  Z.of_nat (size (activeJobs s)) < maxConcurrentJobs cfg → at_limit cfg s = false.
Proof. intros; apply bool_decide_eq_false_2; lia. Qed.

Lemma translates_supported : isSupported (job_type j) = true.
Proof. destruct Htr as [w Hw]; unfold translateJob in Hw; by destruct (isSupported _). Qed.

Lemma poll_run_state : r_state (run (poll cfg) s0) = s0.
Proof. destruct (not_paused s0 Hready) as (? & ? & ?); by poll_run. Qed.

(** The request to accept the job is sent from [s1], which stays as it
    is. *)
Lemma poll_listed :
  let a := resume ora (run (poll cfg) s0) s1 in
  r_state a = s1 ∧ started a = [Fetch (AcceptJob (uuid j) (runnerToken (runnerClient s1)))].
Proof.
  destruct (not_paused s0 Hready) as (? & ? & ?), Hlist as (st & ? & ?).
  pose proof (below_limit s1 Hlim); pose proof translates_supported.
  by cbv zeta; poll_run.
Qed.

(** When the server grants the job, [processJob] is started on the state
    of that moment. *)
Lemma poll_granted s2 :
  grants ora s1 (uuid j) →
  let b := resume ora (resume ora (run (poll cfg) s0) s1) s2 in
  r_status b = Done (Ok tt)
  ∧ activeJobs (r_state b) = <[uuid j := JobRecord (job_type j) (now (rt s2))]> (activeJobs s2)
  ∧ s_op <$> r_spawned b = [Mkdtemp ("ptsn-" +:+ slice8 (uuid j) +:+ "-")]
  ∧ log (r_state b) = log s2 ++ [AcceptedJob (uuid j) (job_type j)].
Proof.
  intros (st' & tok & ? & ?).
  destruct (not_paused s0 Hready) as (? & ? & ?), Hlist as (st & ? & ?), Htr as [w ?].
  pose proof (below_limit s1 Hlim); pose proof translates_supported.
  by cbv zeta; poll_run.
Qed.

(** Claim C24: [poll] accepts the job it is offered whenever the job passes
    its three checks, and starts a task for it.  When the bridge is running,
    healthy and below its limit, and the server lists one job whose type
    is supported, that is not in [failedJobs] and that [translateJob]
    takes, [poll] sends the request to accept it; when the server grants
    it, [poll] returns, [processJob] has run up to the creation of its
    temp directory, and the job is in [activeJobs] with the time of that
    moment.  Nothing asks whether the job is in [activeJobs] already: a
    job that the server lists again while it runs is accepted again, a
    second task is started for it, and the entry of the first is
    overwritten. *)
Theorem poll_accepts_listed s2 :
  grants ora s1 (uuid j) →
  let a := resume ora (run (poll cfg) s0) s1 in
  let b := resume ora a s2 in
  started a = [Fetch (AcceptJob (uuid j) (runnerToken (runnerClient s1)))]
  ∧ r_status b = Done (Ok tt)
  ∧ activeJobs (r_state b) = <[uuid j := JobRecord (job_type j) (now (rt s2))]> (activeJobs s2)
  ∧ s_op <$> r_spawned b = [Mkdtemp ("ptsn-" +:+ slice8 (uuid j) +:+ "-")]
  ∧ log (r_state b) = log s2 ++ [AcceptedJob (uuid j) (job_type j)]
  ∧ (is_Some (activeJobs s2 !! uuid j) → size (activeJobs (r_state b)) = size (activeJobs s2)).
Proof.
  intros Hg a b; destruct poll_listed as [_ Ha], (poll_granted s2 Hg) as (Hb & Hact & Hsp & Hlog).
  split_and!; try done.
  intros [r Hr]; subst a b; rewrite Hact, map_size_insert_Some; done.
Qed.

End poll_one.

(** ** Polls that overlap *)
Section poll_two.
Context (cfg : config) (ora1 ora2 : oracle) (j1 j2 : job) (s : state).
Context (Hready : ¬ paused cfg s).
Context (Hlist1 : lists ora1 s [j1]) (Hlist2 : lists ora2 s [j2]).
Context (Hgrant1 : grants ora1 s (uuid j1)) (Hgrant2 : grants ora2 s (uuid j2)).
Context (Htr1 : translates cfg j1) (Htr2 : translates cfg j2).
Context (Hfailed1 : uuid j1 ∉ failedJobs s) (Hfailed2 : uuid j2 ∉ failedJobs s).
Context (Hnew1 : activeJobs s !! uuid j1 = None) (Hnew2 : activeJobs s !! uuid j2 = None).
Context (Hne : uuid j1 ≠ uuid j2).

Lemma ready_below : Z.of_nat (size (activeJobs s)) < maxConcurrentJobs cfg.
Proof. unfold paused in Hready; lia. Qed.

(** Claim C15: polls that overlap admit more jobs than the limit allows.
    A second poll starts while the first waits for the list of jobs (the
    interval timer and a notification of the socket, or a slow server);
    each is offered a job of its own.  Both pass the check of the limit
    before either has admitted its job, because the job enters
    [activeJobs] only when the request to accept it has been answered, and
    the limit is not read again after that: both jobs are accepted and
    both become active.  When the bridge was one job below its limit, it
    is one job above it in the end. *)
Theorem overlapping_polls :
  let a1 := run (poll cfg) s in
  let b1 := run (poll cfg) (r_state a1) in
  let a2 := resume ora1 a1 (r_state b1) in
  let b2 := resume ora2 b1 (r_state a2) in
  let a3 := resume ora1 a2 (r_state b2) in
  let b3 := resume ora2 b2 (r_state a3) in
  started a2 = [Fetch (AcceptJob (uuid j1) (runnerToken (runnerClient s)))]
  ∧ started b2 = [Fetch (AcceptJob (uuid j2) (runnerToken (runnerClient s)))]
  ∧ r_status a3 = Done (Ok tt)
  ∧ r_status b3 = Done (Ok tt)
  ∧ size (activeJobs (r_state b3)) = S (S (size (activeJobs s)))
  ∧ (maxConcurrentJobs cfg ≤ Z.of_nat (size (activeJobs s)) + 1 →
     maxConcurrentJobs cfg < Z.of_nat (size (activeJobs (r_state b3)))).
Proof.
  pose proof ready_below as Hlim; cbv zeta.
  rewrite !(poll_run_state cfg s Hready).
  destruct (poll_listed cfg ora1 j1 s s Hready Hlist1 Hlim Hfailed1 Htr1) as [-> Ha2].
  destruct (poll_listed cfg ora2 j2 s s Hready Hlist2 Hlim Hfailed2 Htr2) as [-> Hb2].
  destruct (poll_granted cfg ora1 j1 s s Hready Hlist1 Hlim Hfailed1 Htr1 s Hgrant1)
    as (Ha3 & Hact1 & _).
  set (sa := r_state (resume ora1 (resume ora1 (run (poll cfg) s) s) s)) in *.
  destruct (poll_granted cfg ora2 j2 s s Hready Hlist2 Hlim Hfailed2 Htr2 sa Hgrant2)
    as (Hb3 & Hact2 & _).
  assert (size (activeJobs (r_state (resume ora2 (resume ora2 (run (poll cfg) s) s) sa)))
          = S (S (size (activeJobs s)))) as Hsize.
  { rewrite Hact2, Hact1, !map_size_insert_None; [done..|by rewrite lookup_insert_ne]. }
  split_and!; try done; rewrite Hsize; lia.
Qed.

End poll_two.

(** ** A shutdown that cannot close the swarm or the store *)
Section bridge_close.
Context (ora : oracle) (env : state → state).
Context (Hjoined : ∀ s, PoolManager.joined s → PoolManager.joined (env s)).
Context (Hexited : ∀ s, exited s = false → exited (env s) = false).
Context (Hfails : is_ok (ora SwarmDestroy) = false ∨ is_ok (ora StoreClose) = false).

Local Abbreviation quiet := (λ (_ : state) o, ¬ unregisters o).

Lemma stop_close_fails fuel s :
  PoolManager.joined s → exited s = false →
  along quiet (λ r s', is_ok r = false ∧ exited s' = false) ora env (stop fuel) s.
Proof.
  intros Hj Hs; unfold stop; task_compute; bridge_cbn.
  destruct (pollTimer s); task_compute; bridge_cbn;
    (destruct (socket s); task_compute; bridge_cbn).
  all: eapply along_mono;
    [..|apply along_and;
          [apply (gracefulShutdown_fails ora env Hjoined Hfails)
          |apply (gracefulShutdown_keeps (λ s', exited s' = false) ora env Hexited)]];
    simpl; try done; naive_solver.
Qed.

(** Claim C16: a shutdown that cannot close the swarm or the store stops
    there.  When the bridge has joined the swarm and [swarm.destroy()] or
    [store.close()] rejects, then whatever the other operations answer and
    whatever the other tasks do meanwhile (as long as they neither leave
    the swarm nor end the process), the handler of SIGINT and SIGTERM sends
    no request to unregister the runner, its promise is rejected, and
    [process.exit] is not called.  [start] registers the handler with
    [process.on] and nothing handles its promise. *)
Theorem shutdown_close_fails fuel s :
  PoolManager.joined s → exited s = false →
  along quiet (λ r s', is_ok r = false ∧ exited s' = false) ora env (shutdown fuel) s.
Proof.
  intros Hj Hs; unfold shutdown, say; task_compute; apply along_bind.
  eapply along_mono; [..|apply stop_close_fails]; [done| |done|].
  - by intros [] ? [].
  - unfold exited in *; bridge_cbn; by rewrite existsb_app, Hs.
Qed.

End bridge_close.

(** ** The progress timer and the watchdog *)
Section bridge_progress.
Implicit Types (s : state) (id : job_id).

(** The first segment of the progress callback: the watchdog is kicked, and
    the report is started or fails at once; nothing else changes. *)
Lemma onProgress_run id pct s :
  r_state (run (onProgress id pct) s) = update (kick (C:=unit) id (view s)) s.
Proof.
  unfold onProgress, updateJob; task_compute.
  destruct (_jobToken _ _); by task_compute.
Qed.

(** Claim C14: every run of the progress timer arms the watchdog anew,
    whether or not a segment has completed since the last one.  After the
    timer of a launched pool has run, the earlier watchdog timer of the job
    is cleared and the new one is due a full timeout later; [done], the
    number of completed segments, plays no part.  So while a pool is
    monitored (the timer runs every two seconds) the watchdog does not
    expire, however long the pool makes no progress. *)
Theorem progress_rearms_watchdog id total done s (e : wd_entry unit) :
  wd_wf (view s) → jobs (watchdog s) !! id = Some e →
  (0 < total)%nat → is_Some (PoolManager.progress_pct total done) →
  let s' := r_state (run (PoolManager.progress_tick (onProgress id) total done) s) in
  jobs (watchdog s') !! id = Some (WdEntry (next_timer (rt s)) (Watchdog.onTimeout e) (startTime e))
  ∧ timers (rt s') !! next_timer (rt s)
    = Some (Timer (now (rt s) + clamp_delay (timeoutMs (watchdog s))) None
                  (CbWatchdog id (Watchdog.onTimeout e)))
  ∧ timers (rt s') !! timer e = None.
Proof.
  intros Hwf He Htotal [pct Hpct]; cbv zeta; unfold PoolManager.progress_tick.
  rewrite bool_decide_eq_true_2, Hpct, onProgress_run by done.
  destruct (kick_known id (view s) e Hwf He) as (Hj & Ht & Hold & _).
  bridge_cbn; rewrite Hj, lookup_insert_eq; done.
Qed.

End bridge_progress.

(** ** The examples *)

Example start_demo :
  isRunning started_demo = true
  ∧ socket started_demo
    = Some (SocketListener.createSocketListener "https://pt.example" (Some "rt-1"))
  ∧ pollTimer started_demo = Some 1%nat
  ∧ signalHandlers started_demo = 1%nat
  ∧ log started_demo = [UsingRunnerToken; BridgeStarted].
Proof. vm_compute; done. Qed.

Example poll_demo :
  let r := exec (offers [job_demo]) Datatypes.id (poll cfg_demo) started_demo in
  e_ops r = [Fetch (RequestJob (Some "rt-1")); Fetch (AcceptJob "job-1" (Some "rt-1"))]
  ∧ (s_op <$> e_spawned r) = [Mkdtemp "ptsn-job-1-"]
  ∧ activeJobs (e_state r) !! "job-1" = Some (JobRecord "vod-web-video-transcoding" 0)
  ∧ log (e_state r) = [UsingRunnerToken; BridgeStarted;
                       AcceptedJob "job-1" "vod-web-video-transcoding"].
Proof. vm_compute; done. Qed.



(** The job of the example from admission to the upload of the result. *)
Example job_demo_run :
  let r := exec (answers 200) Datatypes.id
             (processJob cfg_demo "job-1" "vod-web-video-transcoding" (Some payload_demo))
             admitted_demo in
  e_result r = Ok tt
  ∧ e_ops r
    = [Mkdtemp "ptsn-job-1-";
       Fetch (PostInput (Some "https://pt.example/input.mp4") (Some "rt-1") (Some "job-token"));
       PipeToFile "ptsn-job-1-XXXXXX/input.mp4"; Mkdtemp "ptsn-"; CreatePoolDrive "job-1";
       PipeToDrive "job-1" "ptsn-job-1-XXXXXX/input.mp4";
       Metadata "job-1" "ptsn-job-1-XXXXXX/input.mp4";
       Segment "job-1" "ptsn-job-1-XXXXXX/input.mp4" "ptsn-XXXXXX";
       Demux "job-1" "ptsn-job-1-XXXXXX/input.mp4" "ptsn-XXXXXX";
       DrivePut "job-1" "config/segments.json" ["segments/0.mp4"; "segments/1.mp4"];
       DrivePut "job-1" "config/tracks.json" ["tracks/audio.mp4"];
       LoadConfig "job-1"; Launch "job-1"; Finalized "job-1";
       PipeFromDrive "job-1" "outputs/final.mp4" "ptsn-XXXXXX/output.mp4";
       PoolDestroy "job-1"; Access "ptsn-XXXXXX/output.mp4"; Stat "ptsn-XXXXXX/output.mp4";
       Ffprobe "ptsn-XXXXXX/output.mp4"; ReadFile "ptsn-XXXXXX/output.mp4";
       Fetch (PostSuccess "job-1" (Some "rt-1") "job-token" "output.mp4" "video/mp4");
       Rm "ptsn-job-1-XXXXXX"; Rm "ptsn-XXXXXX"]
  ∧ (s_op <$> e_spawned r)
    = (λ pct, Fetch (UpdateJob "job-1" (Some "rt-1") "job-token" pct)) <$> [0; 2; 8; 10; 95; 100]
  ∧ activeJobs (e_state r) = ∅
  ∧ failedJobs (e_state r) = ∅
  ∧ jobs (watchdog (e_state r)) = ∅
  ∧ timers (rt (e_state r)) !! 2%nat = None
  ∧ jobTokens (runnerClient (e_state r)) = ∅
  ∧ log (e_state r) = [UsingRunnerToken; BridgeStarted;
                       AcceptedJob "job-1" "vod-web-video-transcoding";
                       InputDownloaded "job-1";
                       JobCompleted "job-1" "vod-web-video-transcoding"].
Proof. vm_compute; done. Qed.

Example job_segment_fails :
  let r := exec segment_fails Datatypes.id
             (processJob cfg_demo "job-1" "vod-web-video-transcoding" (Some payload_demo))
             admitted_demo in
  e_result r = Ok tt
  ∧ e_ops r
    = [Mkdtemp "ptsn-job-1-";
       Fetch (PostInput (Some "https://pt.example/input.mp4") (Some "rt-1") (Some "job-token"));
       PipeToFile "ptsn-job-1-XXXXXX/input.mp4"; Mkdtemp "ptsn-"; CreatePoolDrive "job-1";
       PipeToDrive "job-1" "ptsn-job-1-XXXXXX/input.mp4";
       Metadata "job-1" "ptsn-job-1-XXXXXX/input.mp4";
       Segment "job-1" "ptsn-job-1-XXXXXX/input.mp4" "ptsn-XXXXXX";
       PoolDestroy "job-1";
       Fetch (PostError "job-1" (Some "rt-1") "job-token"
                (MessageOf (EExternal "ffmpeg exited with code 1")));
       Rm "ptsn-job-1-XXXXXX"]
  ∧ activeJobs (e_state r) = ∅
  ∧ failedJobs (e_state r) = {["job-1"]}
  ∧ jobs (watchdog (e_state r)) = ∅
  ∧ log (e_state r) = [UsingRunnerToken; BridgeStarted;
                       AcceptedJob "job-1" "vod-web-video-transcoding";
                       InputDownloaded "job-1";
                       JobFailed "job-1" (EExternal "ffmpeg exited with code 1")].
Proof. vm_compute; done. Qed.

(** The server lists ["job-1"] again while it is active. *)
Lemma poll_accepts_listed_witness :
  let a := resume (offers [job_demo]) (run (poll cfg_demo) admitted_demo) admitted_demo in
  let b := resume (offers [job_demo]) a admitted_demo in
  started a = [Fetch (AcceptJob "job-1" (runnerToken (runnerClient admitted_demo)))]
  ∧ r_status b = Done (Ok tt)
  ∧ activeJobs (r_state b)
    = <["job-1" := JobRecord (job_type job_demo) (now (rt admitted_demo))]>
        (activeJobs admitted_demo)
  ∧ s_op <$> r_spawned b = [Mkdtemp ("ptsn-" +:+ slice8 "job-1" +:+ "-")]
  ∧ log (r_state b) = log admitted_demo ++ [AcceptedJob "job-1" (job_type job_demo)]
  ∧ (is_Some (activeJobs admitted_demo !! "job-1") →
     size (activeJobs (r_state b)) = size (activeJobs admitted_demo)).
Proof.
  apply (poll_accepts_listed cfg_demo (offers [job_demo]) job_demo admitted_demo admitted_demo).
  - intros [H|[H|H]]; vm_compute in H; by try apply H.
  - by exists 200.
  - by vm_compute.
  - by vm_compute.
  - by eexists; vm_compute.
  - by exists 200, (Some "job-token").
Defined.

(** A limit of one job, and the jobs ["job-1"] and ["job-2"]. *)
Lemma overlapping_polls_witness :
  let a1 := run (poll cfg_one) started_demo in
  let b1 := run (poll cfg_one) (r_state a1) in
  let a2 := resume (offers [job_demo]) a1 (r_state b1) in
  let b2 := resume (offers [job_other]) b1 (r_state a2) in
  let a3 := resume (offers [job_demo]) a2 (r_state b2) in
  let b3 := resume (offers [job_other]) b2 (r_state a3) in
  started a2 = [Fetch (AcceptJob "job-1" (runnerToken (runnerClient started_demo)))]
  ∧ started b2 = [Fetch (AcceptJob "job-2" (runnerToken (runnerClient started_demo)))]
  ∧ r_status a3 = Done (Ok tt)
  ∧ r_status b3 = Done (Ok tt)
  ∧ size (activeJobs (r_state b3)) = S (S (size (activeJobs started_demo)))
  ∧ (maxConcurrentJobs cfg_one ≤ Z.of_nat (size (activeJobs started_demo)) + 1 →
     maxConcurrentJobs cfg_one < Z.of_nat (size (activeJobs (r_state b3)))).
Proof.
  apply (overlapping_polls cfg_one (offers [job_demo]) (offers [job_other]) job_demo job_other
           started_demo).
  - intros [H|[H|H]]; vm_compute in H; by try apply H.
  - by exists 200.
  - by exists 200.
  - by exists 200, (Some "job-token").
  - by exists 200, (Some "job-token").
  - by eexists; vm_compute.
  - by eexists; vm_compute.
  - by vm_compute.
  - by vm_compute.
  - by vm_compute.
  - by vm_compute.
  - done.
Defined.

Lemma shutdown_close_fails_witness :
  along (λ _ o, ¬ unregisters o) (λ r s', is_ok r = false ∧ exited s' = false)
        swarm_fails Datatypes.id (shutdown 8) started_demo.
Proof. by apply (shutdown_close_fails swarm_fails Datatypes.id); [..|left| |]. Defined.

Lemma poll_admission_bound_witness :
  always (λ s', Z.of_nat (size (activeJobs s')) ≤ maxConcurrentJobs cfg_demo)
         (offers [job_demo]) Datatypes.id (poll cfg_demo) started_demo.
Proof. apply poll_admission_bound; [intros; reflexivity|vm_compute; discriminate]. Defined.

Lemma poll_paused_witness :
  exec (answers 200) Datatypes.id (poll cfg_demo) (new cfg_demo 0)
  = Execd (new cfg_demo 0) (Ok tt) [] [] [].
Proof. apply poll_paused; left; reflexivity. Defined.

Lemma stop_halts_witness :
  let s' := e_state (exec (answers 200) Datatypes.id (stop 8) admitted_demo) in
  halted s' ∧ ∀ ora' env', exec ora' env' (poll cfg_demo) s' = Execd s' (Ok tt) [] [] [].
Proof. apply stop_halts; intros; assumption. Defined.

Lemma progress_rearms_watchdog_witness :
  let s := mem_launched in
  let s' := r_state (run (PoolManager.progress_tick (onProgress "job-1") 2 0) s) in
  jobs (watchdog s') !! "job-1" = Some (WdEntry 7%nat tt 0)
  ∧ timers (rt s') !! 7%nat = Some (Timer 60000 None (CbWatchdog "job-1" tt))
  ∧ timers (rt s') !! 6%nat = None.
Proof.
  apply (progress_rearms_watchdog "job-1" 2 0 mem_launched (WdEntry 6%nat tt 0));
    [|vm_compute; reflexivity|lia|by eexists; vm_compute].
  apply (watch_wf "job-1" tt (wd_new (Some 60000), Rt 0 6 ∅)); [|done].
  split; simpl; [by intros ??|by intros ??|by intros ???|].
  intros ?? (? & ? & ? & _); done.
Defined.

Lemma stop_finishes_witness :
  e_result (exec (answers 200) Datatypes.id (stop 1) admitted_demo) ≠ Ok false.
Proof. apply stop_finishes; [intros; assumption|vm_compute; lia]. Defined.

Lemma processJob_settles_witness :
  let r := exec (answers 200) Datatypes.id
             (processJob cfg_demo "job-1" "vod-web-video-transcoding" (Some payload_demo))
             admitted_demo in
  e_result r = Ok tt ∧ settled "job-1" "vod-web-video-transcoding" (e_state r).
Proof. apply processJob_settles; intros; assumption. Defined.

End Bridge.
