(* ===== verification/Invariant.v ===== *)
(** * Invariant: the well-formedness of the state of the bridge

    [state_wf] is the invariant of the representation of the whole program:
    every timer handle that a component keeps (the entries of the watchdog,
    the interval of the health monitor, the poll timer of the bridge) was
    handed out by the runtime, the table of timers holds no handle of the
    future, the flag of the health monitor agrees with its streak, and the
    table of the pool manager has one entry per key.

    Every task of the bridge keeps it, in every run and whatever the other
    tasks do between its segments as long as they keep it too: the lemmas
    [*_typed] below, proved with the rules of Rely.v.  System.v concludes
    that every reachable state of the event loop is well-formed. *)

From S2P Require Import Prelude JsMap Runtime Watchdog Health Async Logic Rely Api Socket Client.
From S2P Require Import Translator Assembler Pool Shutdown Orchestrator.
Import Bridge.

Record state_wf (s : state) : Prop := StateWf {
  wf_watchdog : wd_typed (watchdog s, rt s);
  wf_monitor : hm_typed (healthMonitor s, rt s);
  wf_pollTimer : ∀ t, pollTimer s = Some t → (t < next_timer (rt s))%nat;
  wf_pool : jm_wf (PoolManager.activeJobs (poolManager s))
}.

(** * Facts *)
(** ** Writing a part of the state *)
Section parts.
Implicit Types (s : state) (r : runtime (callback unit)).

Lemma wf_update_rt s r : state_wf s → rt_grows (rt s) r → state_wf (update r s).
Proof.
  intros [Hw Hm Hp ?] Hr; split; simpl; [| |intros t ?%Hp; destruct Hr; lia|done].
  - by eapply wd_typed_grows.
  - by eapply hm_typed_grows.
Qed.

Lemma wf_update_watchdog s (a : wd_state unit) :
  state_wf s → wd_typed a → rt_grows (rt s) a.2 → state_wf (update a s).
Proof.
  intros [Hw Hm Hp ?] Ha Hr; split; simpl; [by destruct a| |intros t ?%Hp; destruct Hr; lia|done].
  by eapply hm_typed_grows.
Qed.

Lemma wf_update_monitor s (a : health * runtime (callback unit)) :
  state_wf s → hm_typed a → rt_grows (rt s) a.2 → state_wf (update a s).
Proof.
  intros [Hw Hm Hp ?] Ha Hr; split; simpl; [|by destruct a|intros t ?%Hp; destruct Hr; lia|done].
  by eapply wd_typed_grows.
Qed.

Lemma wf_update_pool s (p : PoolManager.pool_manager) :
  state_wf s → jm_wf (PoolManager.activeJobs p) → state_wf (update p s).
Proof. by intros [] ?; split. Qed.

Lemma wf_update_client s (c : client) : state_wf s → state_wf (update c s).
Proof. by intros []; split. Qed.

(** *** The watchdog *)
Lemma wf_watch id s : state_wf s → state_wf (update (watch (C:=unit) id tt (view s)) s).
Proof.
  intros Hs; apply wf_update_watchdog; [done| |exact (watch_grows id tt (view s))].
  apply watch_typed, Hs.
Qed.

Lemma wf_kick id s : state_wf s → state_wf (update (kick (C:=unit) id (view s)) s).
Proof.
  intros Hs; apply wf_update_watchdog; [done| |exact (kick_grows id (view s))].
  apply kick_typed, Hs.
Qed.

Lemma wf_clear id s : state_wf s → state_wf (update (clear (C:=unit) id (view s)) s).
Proof.
  intros Hs; apply wf_update_watchdog; [done| |exact (clear_grows id (view s))].
  apply clear_typed, Hs.
Qed.

Lemma wf_clearAll s : state_wf s → state_wf (update (clearAll (C:=unit) (view s)) s).
Proof.
  intros Hs; apply wf_update_watchdog; [done| |exact (clearAll_grows (view s))].
  apply clearAll_typed, Hs.
Qed.

(** *** The health monitor *)
Lemma wf_hm_start s : state_wf s → state_wf (update (hm_start (C:=unit) (view s)) s).
Proof.
  intros Hs; apply wf_update_monitor; [done| |exact (hm_start_grows (view s))].
  apply hm_start_typed, Hs.
Qed.

Lemma wf_hm_stop s : state_wf s → state_wf (update (hm_stop (C:=unit) (view s)) s).
Proof.
  intros Hs; apply wf_update_monitor; [done| |exact (hm_stop_grows (view s))].
  apply hm_stop_typed, Hs.
Qed.

Lemma wf_check_resume o now active s :
  state_wf s →
  state_wf (update ((check_resume o now active (healthMonitor s)).1, rt s) s).
Proof.
  intros Hs; apply wf_update_monitor; [done| |apply rt_grows_refl].
  apply check_resume_typed, Hs.
Qed.

(** *** The timers *)
Lemma wf_setTimeout cb ms s :
  state_wf s → state_wf (update (setTimeout (P:=callback unit) cb ms (view s)).2 s).
Proof. intros; apply wf_update_rt; [done|apply arm_grows]. Qed.

Lemma wf_setInterval cb ms s :
  state_wf s → state_wf (update (setInterval (P:=callback unit) cb ms (view s)).2 s).
Proof. intros; apply wf_update_rt; [done|apply arm_grows]. Qed.

Lemma wf_clearTimeout t s :
  state_wf s → state_wf (update (clearTimeout (P:=callback unit) t (view s)) s).
Proof. intros; apply wf_update_rt; [done|apply clearTimeout_grows]. Qed.

Lemma wf_clearInterval t s :
  state_wf s → state_wf (update (clearInterval (P:=callback unit) t (view s)) s).
Proof. apply wf_clearTimeout. Qed.

Lemma wf_advance d s : state_wf s → state_wf (update (advance d (rt s)) s).
Proof. intros; apply wf_update_rt; [done|apply advance_grows]. Qed.

Lemma wf_fire s t cb r : state_wf s → fire t (rt s) = Some (cb, r) → state_wf (update r s).
Proof. intros; apply wf_update_rt; [done|by eapply fire_grows]. Qed.

(** *** The table of the pool manager *)
Lemma wf_pool_set id j s :
  state_wf s →
  state_wf (update (PoolManager.set_activeJobs (jm_set id j) (view s)) s).
Proof. intros Hs; apply wf_update_pool; [done|]; apply jm_set_wf, Hs. Qed.

Lemma wf_pool_delete id s :
  state_wf s →
  state_wf (update (PoolManager.set_activeJobs (jm_delete id) (view s)) s).
Proof. intros Hs; apply wf_update_pool; [done|]; apply jm_delete_wf, Hs. Qed.

Lemma wf_set_swarm b s :
  state_wf s → state_wf (update (PoolManager.set_swarm b (view s)) s).
Proof. intros Hs; apply wf_update_pool; [done|apply Hs]. Qed.

(** *** The fields of the bridge *)
Lemma wf_add_log ev s : state_wf s → state_wf (add_log ev s).
Proof. by intros []; split. Qed.

Lemma wf_add_logs evs s : state_wf s → state_wf (foldl (λ s' ev, add_log ev s') s evs).
Proof. revert s; induction evs; simpl; auto using wf_add_log. Qed.

Lemma wf_set_activeJobs f s : state_wf s → state_wf (set_activeJobs f s).
Proof. by intros []; split. Qed.

Lemma wf_set_failedJobs f s : state_wf s → state_wf (set_failedJobs f s).
Proof. by intros []; split. Qed.

Lemma wf_set_isRunning b s : state_wf s → state_wf (set_isRunning b s).
Proof. by intros []; split. Qed.

Lemma wf_set_socket b s : state_wf s → state_wf (set_socket b s).
Proof. by intros []; split. Qed.

Lemma wf_set_signalHandlers n s : state_wf s → state_wf (set_signalHandlers n s).
Proof. by intros []; split. Qed.

Lemma wf_no_pollTimer s : state_wf s → state_wf (set_pollTimer None s).
Proof. by intros []; split. Qed.

(** The poll timer as [start] arms it. *)
Lemma wf_arm_pollTimer ms s :
  state_wf s →
  state_wf (set_pollTimer (Some (setInterval (P:=callback unit) CbPoll ms (view s)).1)
              (update (setInterval (P:=callback unit) CbPoll ms (view s)).2 s)).
Proof.
  intros Hs; destruct (wf_setInterval CbPoll ms s Hs); split; try done.
  intros t [= <-]; apply arm_handle.
Qed.

Lemma wf_new cfg t0 : state_wf (new cfg t0).
Proof.
  split; simpl; [split|split| |]; try done; apply NoDup_nil_2.
Qed.

End parts.

Create HintDb typed discriminated.
#[export] Hint Constants Opaque : typed.
#[export] Hint Variables Opaque : typed.
#[export] Hint Resolve wf_update_client wf_watch wf_kick wf_clear wf_clearAll wf_hm_start
  wf_hm_stop wf_setTimeout wf_setInterval wf_clearTimeout wf_clearInterval wf_advance
  wf_pool_set wf_pool_delete wf_set_swarm wf_add_log wf_add_logs wf_set_activeJobs
  wf_set_failedJobs wf_set_isRunning wf_set_socket wf_set_signalHandlers wf_no_pollTimer
  wf_new : typed.

(** The side conditions of the rules: one of the writes above. *)
Ltac typed_side :=
  intros;
  first [ solve [eauto 2 with typed nocore]
        | solve [apply wf_update_pool; [assumption|apply wf_pool; assumption]] ].

Ltac typed_auto := repeat first [holds_step typed_side | intros ?].

(** ** Loops *)
Section loops.
Context {Σ : Type} `{!Lens Σ PoolManager.pool_manager} (b : bool) (I : Σ → Prop).

(** The loop over the live table keeps what its body keeps. *)
Lemma each_job_holds (body : job_id → task Σ unit) fuel i :
  (∀ id, holds b I (body id)) → holds b I (PoolManager.each_job body fuel i).
Proof.
  intros Hbody; revert i; induction fuel as [|fuel IH]; intros i; simpl;
    holds_auto ltac:(idtac).
Qed.

End loops.

(** ** The tasks of the bridge *)
Section tasks.
Implicit Types (cfg : config) (id : job_id).

Lemma processJob_typed cfg id ty p : holds false state_wf (processJob cfg id ty p).
Proof. holds_auto typed_side. Qed.

Lemma poll_typed cfg : holds false state_wf (poll cfg).
Proof. pose proof processJob_typed; holds_auto typed_side. Qed.

Lemma poll_trigger_typed cfg : holds false state_wf (poll_trigger cfg).
Proof. pose proof poll_typed; holds_auto typed_side. Qed.

Lemma health_check_typed : holds false state_wf health_check.
Proof.
  intros s Hs; split; [done|]; intros r s' Hs'; task_compute.
  apply wf_add_logs; exact (wf_check_resume _ _ _ _ Hs').
Qed.

Lemma onTimeout_typed id : holds false state_wf (onTimeout id).
Proof. holds_auto typed_side. Qed.

Lemma onProgress_typed id pct : holds false state_wf (onProgress id pct).
Proof. holds_auto typed_side. Qed.

Lemma stop_typed fuel : holds false state_wf (stop fuel).
Proof. pose proof (@each_job_holds state _ false state_wf); typed_auto. Qed.

Lemma shutdown_typed fuel : holds false state_wf (shutdown fuel).
Proof. pose proof stop_typed; typed_auto. Qed.

Lemma signal_typed fuel : holds false state_wf (signal fuel).
Proof.
  pose proof shutdown_typed; unfold signal; apply holds_bind; [typed_auto|].
  intros n; induction n; simpl; typed_auto.
Qed.

Lemma socket_event_typed cfg sev : holds false state_wf (socket_event cfg sev).
Proof. pose proof poll_trigger_typed; typed_auto. Qed.

(** [start] arms the poll timer and stores its handle in one segment. *)
Lemma start_typed cfg : holds false state_wf (start cfg).
Proof.
  intros s Hs; unfold start, PoolManager.start, say, guard; task_compute.
  destruct (negb _); task_compute; [|done].
  apply wf_add_log, wf_set_signalHandlers, wf_arm_pollTimer; auto 10 with typed.
Qed.

End tasks.
