(* ===== verification/System.v ===== *)
(** * System: the event loop

    The bridge is a set of tasks that share one state and run one at a
    time.  Node.js takes an event (a timer that is due, the completion of an
    operation, a message on the socket, a signal), runs what the program
    registered for it up to the next [await] of every task involved, and
    takes the next event.  This file is that loop: the state of the process
    ([system]: the shared state, the suspended tasks, the rejections nobody
    handled), the events, and what each event runs.

    [step] is the transition relation, one rule per kind of event;
    [deliver] computes it.  The theorems are about every sequence of
    events: what the judgements of [Rely] give for the whole system
    ([step_ok]), the well-formedness of every reachable state, the absence
    of unhandled rejections, and that a task that is the only one to run
    runs as [Async.exec] says. *)

From S2P Require Import Prelude JsMap Runtime Watchdog Health Async Logic Rely Api Socket Client.
From S2P Require Import Translator Assembler Pool Shutdown Orchestrator Invariant.

Module System.
Import Bridge.

(** The process: the shared state, the tasks that wait for an operation,
    the errors of the promises that were rejected without a handler, and the
    operations started so far. *)
Record system : Type := Sys {
  mem : state;
  waiting : list (susp state unit);
  unhandled : list error;
  sent : list op
}.

Inductive signal_kind : Type := SIGINT | SIGTERM.

(** What the event loop can take next.  [done] is
    [pool.segmentsComplete.length] at that moment, which only the progress
    timer reads; [answer] gives what the operation resolves to. *)
Inductive event : Type :=
| Tick (d : Z)
| Timer (t : timer_id) (done : nat)
| Answer (i : nat) (answer : oracle)
| SocketEvent (ev : SocketListener.event)
| Signal (sig : signal_kind) (fuel : nat).

(** The process runs: it has not exited and no rejection went unhandled
    (Node.js ends the process on the first one). *)
Definition alive (sys : system) : bool :=
  negb (exited (mem sys)) && bool_decide (unhandled sys = []).

(** The exit code of the default action of a signal. *)
Definition killed_by (sig : signal_kind) : Z :=
  match sig with SIGINT => 130 | SIGTERM => 143 end.

(** The event loop calls [t]: it runs up to its first suspension, and so
    does every task it starts on the way. *)
Definition enter (t : task state unit) (sys : system) : system :=
  let r := run t (mem sys) in
  Sys (r_state r)
      ((left_behind (r_status r)).1 ++ waiting sys ++ r_spawned r)
      (unhandled sys ++ r_unhandled r ++ (left_behind (r_status r)).2)
      (sent sys ++ (s_op <$> r_spawned r) ++ (s_op <$> (left_behind (r_status r)).1)).

(** The [i]-th waiting task goes on with the outcome [x] of its
    operation. *)
Definition resume_with (i : nat) (w : susp state unit) (x : result (ans (s_op w)))
    (sys : system) : system :=
  enter (s_k w x) (Sys (mem sys) (delete i (waiting sys)) (unhandled sys) (sent sys)).

(** The ['finalized'] event of a pool is its only way to resolve the promise
    [processJob] waits for; the promise is rejected by the timer of the
    pool, not from outside. *)
Definition from_outside (o : op) (x : result (ans o)) : bool :=
  match o with
  | Finalized _ => is_ok x
  | _ => true
  end.

(** A task waits for the pool of [id] to finalize. *)
Definition awaits_finalized (id : job_id) (w : susp state unit) : bool :=
  bool_decide (s_op w = Finalized id).

(** The timer of the pool of [id] rejects the promise: the first task that
    waits for it goes on with the error. *)
Definition reject_finalized (id : job_id) (e : error) (sys : system) : system :=
  match list_find (λ w, awaits_finalized id w = true) (waiting sys) with
  | Some (i, w) => resume_with i w (Err e) sys
  | None => sys
  end.

(** What a timer runs, by the callback it was armed with. *)
Definition on_timer (cfg : config) (cb : callback unit) (done : nat) : task state unit :=
  match cb with
  | CbWatchdog id _ => onTimeout id
  | CbHealthCheck => health_check
  | CbPoll => poll_trigger cfg
  | CbPoolProgress id totalSegs => PoolManager.progress_tick (onProgress id) totalSegs done
  | CbPoolTimeout _ _ => mret tt
  | CbHardShutdown => hard_exit
  end.

Definition set_rt (r : runtime (callback unit)) (sys : system) : system :=
  Sys (update r (mem sys)) (waiting sys) (unhandled sys) (sent sys).

(** The timer [t] runs. *)
Definition timer_fires (cfg : config) (cb : callback unit) (done : nat) (sys : system)
    : system :=
  match cb with
  | CbPoolTimeout id ms => reject_finalized id (EPoolTimeout ms) sys
  | _ => enter (on_timer cfg cb done) sys
  end.

(** A signal arrives: the handlers run if there are any, else the process
    ends. *)
Definition signalled (sig : signal_kind) (fuel : nat) (sys : system) : system :=
  match signalHandlers (mem sys) with
  | O => Sys (add_log (ProcessExit (killed_by sig)) (mem sys)) (waiting sys) (unhandled sys)
             (sent sys)
  | S _ => enter (signal fuel) sys
  end.

(** [main] of cli.js for the command [start], from [bridge.start()] on:
    an error of [start] ends the process. *)
Definition launch (cfg : config) : task state unit :=
  catch (start cfg) (λ _, say (ProcessExit 1)).

(** The process when [main] has come to its first suspension. *)
Definition boot (cfg : config) (t0 : Z) : system :=
  enter (launch cfg) (Sys (new cfg t0) [] [] []).

(** ** The transition relation *)
Inductive step (cfg : config) : system → event → system → Prop :=
| step_tick sys d :
    alive sys = true →
    step cfg sys (Tick d) (set_rt (advance d (rt (mem sys))) sys)
| step_timer sys t done cb r :
    alive sys = true →
    fire t (rt (mem sys)) = Some (cb, r) →
    step cfg sys (Timer t done) (timer_fires cfg cb done (set_rt r sys))
| step_answer sys i (w : susp state unit) (x : oracle) :
    alive sys = true →
    waiting sys !! i = Some w →
    from_outside (s_op w) (x (s_op w)) = true →
    step cfg sys (Answer i x) (resume_with i w (x (s_op w)) sys)
| step_socket sys ev :
    alive sys = true →
    step cfg sys (SocketEvent ev) (enter (socket_event cfg ev) sys)
| step_signal sys sig fuel :
    alive sys = true →
    step cfg sys (Signal sig fuel) (signalled sig fuel sys).

(** The same, computed. *)
Definition deliver (cfg : config) (ev : event) (sys : system) : option system :=
  if alive sys then
    match ev with
    | Tick d => Some (set_rt (advance d (rt (mem sys))) sys)
    | Timer t done =>
        match fire t (rt (mem sys)) with
        | Some (cb, r) => Some (timer_fires cfg cb done (set_rt r sys))
        | None => None
        end
    | Answer i x =>
        match waiting sys !! i with
        | Some w =>
            if from_outside (s_op w) (x (s_op w)) then Some (resume_with i w (x (s_op w)) sys)
            else None
        | None => None
        end
    | SocketEvent ev => Some (enter (socket_event cfg ev) sys)
    | Signal sig fuel => Some (signalled sig fuel sys)
    end
  else None.

(** A sequence of events, one after the other. *)
Fixpoint deliver_all (cfg : config) (evs : list event) (sys : system) : option system :=
  match evs with
  | [] => Some sys
  | ev :: evs' =>
      match deliver cfg ev sys with
      | Some sys' => deliver_all cfg evs' sys'
      | None => None
      end
  end.

Inductive steps (cfg : config) : system → list event → system → Prop :=
| steps_nil sys : steps cfg sys [] sys
| steps_cons sys ev sys' evs sys'' :
    step cfg sys ev sys' → steps cfg sys' evs sys'' → steps cfg sys (ev :: evs) sys''.

(** What the process can come to from its start. *)
Definition reachable (cfg : config) (t0 : Z) (sys : system) : Prop :=
  ∃ evs, steps cfg (boot cfg t0) evs sys.

(** ** Timers in order

    [step] lets any timer that is due run.  Node.js runs the timers in the
    order in which they are due; a run in which every timer that fires is
    one of those due first is [orderly]. *)
Definition earliest (t : timer_id) (r : runtime (callback unit)) : bool :=
  match timers r !! t with
  | Some tm => bool_decide (map_Forall (λ _ tm', t_due tm ≤ t_due tm') (timers r))
  | None => false
  end.

Fixpoint orderly (cfg : config) (evs : list event) (sys : system) : bool :=
  match evs with
  | [] => true
  | ev :: evs' =>
      match ev with Timer t _ => earliest t (rt (mem sys)) | _ => true end
      && match deliver cfg ev sys with
         | Some sys' => orderly cfg evs' sys'
         | None => false
         end
  end.

(** ** A task that runs alone

    [alone ora n own sys]: the task at the head of the waiting list (when
    [own] says that it is still suspended) is resumed with the answers of
    [ora] until it settles, and nothing else happens; [n] bounds the number
    of its operations. *)
Definition suspended (r : Async.ran op ans state unit) : bool :=
  match r_status r with Blocked _ => true | Done _ => false end.

Fixpoint alone (ora : oracle) (n : nat) (own : bool) (sys : system) : system :=
  match n, own, waiting sys with
  | S n', true, w :: _ =>
      alone ora n' (suspended (run (s_k w (ora (s_op w))) (mem sys)))
            (resume_with 0 w (ora (s_op w)) sys)
  | _, _, _ => sys
  end.

(** The error of a promise that was rejected. *)
Definition rejection {A} (r : result A) : list error :=
  match r with Ok _ => [] | Err e => [e] end.

(** ** What a run shows

    The directories the program asked to remove, and the final reports it
    sent for jobs. *)
Definition removed (sys : system) : list string :=
  omap (λ o, match o with Rm dir => Some dir | _ => None end) (sent sys).

Definition reported (sys : system) : list (job_id * option report) :=
  omap (λ o, match o with
             | Fetch (PostError id _ _ m) => Some (id, Some m)
             | Fetch (PostSuccess id _ _ _ _) => Some (id, None)
             | _ => None
             end) (sent sys).

(** The prefixes of the temp directories it made, and the percentages it
    reported for a job. *)
Definition made (sys : system) : list string :=
  omap (λ o, match o with Mkdtemp prefix => Some prefix | _ => None end) (sent sys).

Definition progress_of (id : job_id) (sys : system) : list Z :=
  omap (λ o, match o with
             | Fetch (UpdateJob id' _ _ pct) => if decide (id' = id) then Some pct else None
             | _ => None
             end) (sent sys).

Definition armed (sys : system) : list (timer_id * Z * callback unit) :=
  (λ x, (x.1, t_due x.2, t_cb x.2)) <$> map_to_list (timers (rt (mem sys))).

(** ** Inputs of the examples *)

(** A bridge whose pools give up after five seconds. *)
Definition cfg_quick : config :=
  Config (peertube cfg_demo) (SnConfig None None None (Some 5000)) 5000 2 (Some 60000).

(** A bridge whose watchdog gives a job five seconds. *)
Definition cfg_strict : config :=
  Config (peertube cfg_demo) (SnConfig None None None None) 5000 2 (Some 5000).

(** The operation of the task at the head of the list completes; the
    server offers [job_demo] to every request for jobs. *)
Definition offered : event := Answer 0 (offers [job_demo]).

(** The operation of the [i]-th task completes; the server has no job. *)
Definition quiet (i : nat) : event := Answer i (answers 200).

(** The first poll, five seconds after the start, takes [job_demo] up to
    the launch of its pool. *)
Definition until_launched : list event :=
  [Tick 5000; Timer 1 0] ++ replicate 15 offered.

(** Then no segment ever completes.  The progress timer runs every two
    seconds, the poll timer after five, and the timer of the pool when its
    five seconds have passed; the job then runs through its [catch] and
    [finally] blocks. *)
Definition pool_times_out : list event :=
  until_launched
  ++ [Tick 2000; Timer 7 0; Tick 2000; Timer 7 0; Tick 1000; Timer 1 0; Timer 8 0]
  ++ [quiet 1; quiet 0; quiet 0; quiet 0].

(** The same start with a watchdog of five seconds: seven seconds after
    the launch no segment has completed. *)
Definition pool_stalls : list event :=
  until_launched
  ++ [Tick 2000; Timer 7 0; Tick 2000; Timer 7 0; Tick 1000; Timer 1 0; quiet 0;
      Tick 1000; Timer 7 0; Tick 1000].

(** SIGTERM one second after the start; the swarm fails to close. *)
Definition sigterm_swarm_fails : list event :=
  [Tick 1000; Signal SIGTERM 1; Answer 0 swarm_fails].

(** The same when everything answers. *)
Definition sigterm : list event :=
  [Tick 1000; Signal SIGTERM 1; quiet 0; quiet 0; quiet 0].

(** The operation of the [i]-th task fails. *)
Definition down (i : nat) : event := Answer i (λ _, Err (EExternal "down")).

(** The server offers [job_demo] to the first poll and, on the socket
    event that follows, to a second poll while the job is being set up. *)
Definition offered_twice : list event :=
  [Tick 5000; Timer 1 0; offered; quiet 0;
   SocketEvent SocketListener.AvailableJobs; Answer 1 (offers [job_demo]); quiet 1; quiet 1].

(** The first of the two tasks goes on to the launch of its pool, where
    it fails. *)
Definition first_fails : list event :=
  offered_twice ++ [quiet 0; quiet 0; quiet 0; quiet 0; down 0; quiet 0; quiet 0].

(** The process after the events [evs], when it can take them all. *)
Definition runs (cfg : config) (evs : list event) : bool :=
  bool_decide (is_Some (deliver_all cfg evs (boot cfg 0))).

Definition after (cfg : config) (evs : list event) : system :=
  default (boot cfg 0) (deliver_all cfg evs (boot cfg 0)).

(** A state of [I] in which every waiting task can be resumed. *)
Definition ok (b : bool) (I : state → Prop) (sys : system) : Prop :=
  I (mem sys) ∧ Forall (resumable b I) (waiting sys).

Definition is_signal (ev : event) : bool :=
  match ev with Signal _ _ => true | _ => false end.

(** * Facts *)

Section step_facts.
Context (cfg : config).
Implicit Types (sys : system) (ev : event) (evs : list event).

Lemma deliver_step ev sys sys' : deliver cfg ev sys = Some sys' ↔ step cfg sys ev sys'.
Proof.
  unfold deliver; split.
  - destruct (alive sys) eqn:?; [|done]; destruct ev; intros; case_steps; simplify_eq;
      by econstructor.
  - intros [] ; by repeat match goal with H : _ = _ |- _ => rewrite H end.
Qed.

Lemma deliver_all_steps evs sys sys' :
  deliver_all cfg evs sys = Some sys' ↔ steps cfg sys evs sys'.
Proof.
  revert sys; induction evs as [|ev evs IH]; intros sys; simpl.
  - split; [intros [= <-]; constructor|by inversion 1].
  - split.
    + destruct (deliver cfg ev sys) eqn:E; [|done].
      intros; econstructor; [by apply deliver_step|by apply IH].
    + inversion 1 as [|? ? sys1 ? ? Hs Hss]; subst.
      apply deliver_step in Hs; rewrite Hs; by apply IH.
Qed.

(** Only a process that runs takes events. *)
Lemma step_alive sys ev sys' : step cfg sys ev sys' → alive sys = true.
Proof. by intros []. Qed.

End step_facts.

(** ** What the judgements on tasks give for the system

    When every task the event loop may start keeps [I] and can be resumed in
    any state of [I], every event leaves the system in such a state; and
    when these tasks never fail, no event adds an unhandled rejection. *)
Section ok_facts.
Context (cfg : config) (b : bool) (I : state → Prop).
Implicit Types (sys : system) (ev : event).

Local Abbreviation ok := (ok b I).

Lemma enter_sure t sys :
  sure I (λ s _, I s) (settled_in b I) (settled_in b I) t (mem sys) →
  Forall (resumable b I) (waiting sys) →
  ok (enter t sys) ∧ (b = true → unhandled (enter t sys) = unhandled sys).
Proof.
  intros (Hown & Hsp & Hun)%sure_run Hw; unfold ok, enter; simpl.
  assert (b = true → r_unhandled (run t (mem sys)) = []) as Hnil.
  { intros ->; destruct Hun as [|e ? [? [_ He]]]; [done|]; by specialize (He eq_refl). }
  destruct (r_status (run t (mem sys))) as [[[]|e]|w]; simpl in *.
  - split; [split; [apply Hown|by apply Forall_app]|].
    intros Hb; by rewrite Hnil, !app_nil_r.
  - split; [split; [apply Hown|by apply Forall_app]|].
    intros Hb; by destruct Hown as [_ He]; specialize (He Hb).
  - split; [split; [apply Hown|]|].
    + apply Forall_cons; split; [by destruct Hown|by apply Forall_app].
    + intros Hb; by rewrite Hnil, !app_nil_r.
Qed.

Lemma enter_ok t sys :
  settles b I t → ok sys → ok (enter t sys) ∧ (b = true → unhandled (enter t sys) = unhandled sys).
Proof. intros Ht [??]; apply enter_sure; [by apply Ht|done]. Qed.

Lemma resume_ok i w x sys :
  waiting sys !! i = Some w → ok sys →
  ok (resume_with i w x sys) ∧ (b = true → unhandled (resume_with i w x sys) = unhandled sys).
Proof.
  intros Hi [HI Hw]; unfold resume_with.
  apply (enter_sure _ (Sys (mem sys) (delete i (waiting sys)) (unhandled sys) (sent sys)));
    simpl.
  - by apply (Forall_lookup_1 _ _ _ _ Hw Hi).
  - by apply Forall_delete.
Qed.

Lemma reject_finalized_ok id e sys :
  ok sys →
  ok (reject_finalized id e sys)
  ∧ (b = true → unhandled (reject_finalized id e sys) = unhandled sys).
Proof.
  intros Hok; unfold reject_finalized.
  destruct (list_find _ _) as [[i w]|] eqn:E; [|done].
  apply list_find_Some in E as (? & _); by apply resume_ok.
Qed.

(** What the events are assumed to run. *)
Context (Htick : ∀ s d, I s → I (update (advance d (rt s)) s)).
Context (Hfire : ∀ s t cb r, I s → fire t (rt s) = Some (cb, r) → I (update r s)).
Context (Htimer : ∀ cb done, settles b I (on_timer cfg cb done)).
Context (Hsocket : ∀ sev, settles b I (socket_event cfg sev)).

Lemma step_ok sys ev sys' :
  (∀ sig fuel, ev = Signal sig fuel →
     settles b I (signal fuel) ∧ ∀ s, I s → I (add_log (ProcessExit (killed_by sig)) s)) →
  step cfg sys ev sys' → ok sys →
  ok sys' ∧ (b = true → unhandled sys' = unhandled sys).
Proof.
  intros Hsig Hstep [HI Hw]; destruct Hstep as [sys d|sys t done cb r ? Hf|sys i w x|sys ev|sys sig fuel].
  - split; [split; [by apply Htick|done]|done].
  - assert (ok (set_rt r sys)) as Hok by (split; [by eapply Hfire|done]).
    change (unhandled sys) with (unhandled (set_rt r sys)); unfold timer_fires.
    destruct cb; try (by apply enter_ok; [apply (Htimer _ done)|]).
    by apply reject_finalized_ok.
  - by apply resume_ok.
  - by apply enter_ok.
  - destruct (Hsig sig fuel eq_refl) as [Hs Hk]; unfold signalled.
    destruct (signalHandlers _); [|by apply enter_ok].
    split; [split; [by apply Hk|done]|done].
Qed.

Lemma steps_ok sys evs sys' :
  (∀ sig fuel, Signal sig fuel ∈ evs →
     settles b I (signal fuel) ∧ ∀ s, I s → I (add_log (ProcessExit (killed_by sig)) s)) →
  steps cfg sys evs sys' → ok sys →
  ok sys' ∧ (b = true → unhandled sys' = unhandled sys).
Proof.
  intros Hsig Hsteps; induction Hsteps as [|sys ev sys1 evs sys2 Hstep _ IH]; [done|].
  intros Hok; destruct (step_ok sys ev sys1) as [Hok1 Hun1]; [|done..|].
  { intros ?? ->; apply Hsig; left. }
  destruct IH as [Hok2 Hun2]; [intros; apply Hsig; by right|done|].
  split; [done|]; intros; by rewrite Hun2, Hun1.
Qed.

End ok_facts.

(** ** A task that runs alone runs as [exec] says *)
Section alone_facts.
Implicit Types (sys : system) (ora : oracle) (t : task state unit).

Lemma alone_exec_from ora n t s ws us :
  let r := exec ora id t s in
  let sys := alone ora n (suspended (run t s)) (enter t (Sys s ws us [])) in
  (length (e_ops r) ≤ n)%nat →
  mem sys = e_state r ∧ waiting sys = ws ++ e_spawned r
  ∧ unhandled sys = us ++ e_unhandled r ++ rejection (e_result r).
Proof.
  assert (∀ os,
    let r := exec ora id t s in
    let sys := alone ora n (suspended (run t s)) (enter t (Sys s ws us os)) in
    (length (e_ops r) ≤ n)%nat →
    mem sys = e_state r ∧ waiting sys = ws ++ e_spawned r
    ∧ unhandled sys = us ++ e_unhandled r ++ rejection (e_result r)) as H; [|apply H].
  revert t s ws us; induction n as [|n IH]; intros t s ws us os; simpl;
    rewrite (exec_run ora id t s); unfold enter, suspended; simpl;
    destruct (r_status (run t s)) as [[[]|e]|w] eqn:E; simpl; try done; try lia.
  all: try by (destruct n; rewrite ?app_nil_r).
  intros Hn; unfold resume_with; simpl.
  destruct (IH (s_k w (ora (s_op w))) (r_state (run t s)) (ws ++ r_spawned (run t s))
              (us ++ r_unhandled (run t s) ++ [])
              (os ++ (s_op <$> r_spawned (run t s)) ++ [s_op w])) as (H1 & H2 & H3); [lia|].
  unfold suspended in *; rewrite H1, H2, H3; by rewrite !app_nil_r, <-!app_assoc.
Qed.

(** The event loop runs a task that is alone as [exec] does.
    When the event loop starts task [t] in a process where nothing else
    happens, and completes each operation [t] waits for with the answer of
    [ora], then once [t] has settled the state of the process, the tasks
    [t] started and left suspended, and the rejections nobody handled are
    those of [exec ora id t]; the rejection of [t] itself, if any, is
    unhandled too. *)
Theorem alone_exec ora n t s :
  let r := exec ora id t s in
  let sys := alone ora n (suspended (run t s)) (enter t (Sys s [] [] [])) in
  (length (e_ops r) ≤ n)%nat →
  mem sys = e_state r ∧ waiting sys = e_spawned r
  ∧ unhandled sys = e_unhandled r ++ rejection (e_result r).
Proof. intros r sys Hn; by apply (alone_exec_from ora n t s [] []). Qed.

End alone_facts.

(** ** No rejection goes unhandled

    Every task the event loop starts for a timer or for the socket, and
    every task such a task starts without [await], handles its own
    errors. *)
Section crash_facts.
Context (cfg : config).

Lemma on_timer_settles cb done : settles true (λ _, True) (on_timer cfg cb done).
Proof. destruct cb; simpl; holds_auto ltac:(by auto). Qed.

Lemma socket_event_settles sev : settles true (λ _, True) (socket_event cfg sev).
Proof. holds_auto ltac:(by auto). Qed.

Lemma launch_settles : settles true (λ _, True) (launch cfg).
Proof. holds_auto ltac:(by auto). Qed.

Lemma boot_ok t0 : ok true (λ _, True) (boot cfg t0) ∧ unhandled (boot cfg t0) = [].
Proof.
  destruct (enter_ok true (λ _, True) (launch cfg) (Sys (new cfg t0) [] [] []))
    as [? Hun]; [apply launch_settles|done|]; split; [done|by apply Hun].
Qed.

(** Claim C5: no promise is rejected without a handler.  Whatever
    the timers, the answers of the operations and the socket do, and in
    whatever order, as long as no signal arrives: no task of the bridge ends
    with an error that nobody handles, so Node.js never ends the process for
    an unhandled rejection. *)
Theorem no_unhandled_rejection t0 evs sys :
  steps cfg (boot cfg t0) evs sys →
  Forall (λ ev, is_signal ev = false) evs →
  unhandled sys = [].
Proof.
  intros Hsteps Hevs; destruct (boot_ok t0) as [Hok Hun].
  edestruct (steps_ok cfg true (λ _, True)) as [_ H];
    [..|exact Hsteps|exact Hok|by rewrite H];
    auto using on_timer_settles, socket_event_settles.
  intros sig fuel Hin; by apply (proj1 (Forall_forall _ _) Hevs) in Hin.
Qed.

End crash_facts.

(** ** Every reachable state is well-formed

    The invariant of Invariant.v holds when [main] has run, every event
    keeps it, and every suspended task can be resumed in any well-formed
    state: signals, failed shutdowns and overlapping polls included. *)
Section typed_facts.
Context (cfg : config).

Lemma on_timer_typed cb done : settles false state_wf (on_timer cfg cb done).
Proof.
  pose proof onTimeout_typed; pose proof health_check_typed; pose proof (poll_trigger_typed cfg).
  pose proof onProgress_typed; destruct cb; simpl; typed_auto.
Qed.

Lemma boot_typed t0 : ok false state_wf (boot cfg t0).
Proof.
  apply enter_ok; [|by split; [apply wf_new|]].
  pose proof (start_typed cfg); typed_auto.
Qed.

Lemma steps_typed sys evs sys' :
  steps cfg sys evs sys' → ok false state_wf sys → ok false state_wf sys'.
Proof.
  intros Hsteps Hok.
  edestruct (steps_ok cfg false state_wf) as [H _]; [..|exact Hsteps|exact Hok|exact H];
    eauto using wf_advance, wf_fire, on_timer_typed.
  - intros; apply holds_settles, socket_event_typed.
  - intros; split; [apply holds_settles, signal_typed|apply wf_add_log].
Qed.

(** Claim C7: every state the process can reach is well-formed.  Whatever
    the timers, the answers of the operations, the socket and the signals
    do, and in whatever order: every timer handle kept by the watchdog, by
    the health monitor or as the poll timer of the bridge was handed out by
    the runtime, the timer table holds no handle that was not, the flag of
    the health monitor is down exactly when its streak has reached the
    threshold, and the table of the pool manager has no key twice. *)
Theorem reachable_typed t0 sys : reachable cfg t0 sys → state_wf (mem sys).
Proof. intros [evs Hsteps]; by apply (steps_typed _ _ _ Hsteps), boot_typed. Qed.

End typed_facts.

(** ** Examples *)

(** The pipeline never reaches 'finalized' (Scenario B of the design).
    The timer of the pool rejects the wait; the job is reported as failed
    with the timeout error and enters [failedJobs]; its entries and its
    timers are gone.  Of the two temp directories only the one of the
    bridge is removed. *)
Example pool_timeout_run :
  let sys := after cfg_quick pool_times_out in
  runs cfg_quick pool_times_out = true
  ∧ orderly cfg_quick pool_times_out (boot cfg_quick 0) = true
  ∧ log (mem sys) = [UsingRunnerToken; BridgeStarted;
                     AcceptedJob "job-1" "vod-web-video-transcoding";
                     InputDownloaded "job-1"; JobFailed "job-1" (EPoolTimeout 5000)]
  ∧ reported sys = [("job-1", Some (MessageOf (EPoolTimeout 5000)))]
  ∧ classify (EPoolTimeout 5000) = Timeout
  ∧ elements (failedJobs (mem sys)) = ["job-1"]
  ∧ activeJobs (mem sys) = ∅
  ∧ jobs (watchdog (mem sys)) = ∅
  ∧ jm_entries (PoolManager.activeJobs (poolManager (mem sys))) = []
  ∧ armed sys = [(1%nat, 15000, CbPoll); (0%nat, 30000, CbHealthCheck)]
  ∧ made sys = ["ptsn-job-1-"; "ptsn-"]
  ∧ removed sys = ["ptsn-job-1-XXXXXX"]
  ∧ unhandled sys = [].
Proof. vm_compute; done. Qed.

(** A pool in which no segment ever completes, under a watchdog of five
    seconds.  Seven seconds after the launch the job has not been timed
    out: every run of the progress timer reported ten percent again and
    armed the watchdog anew, which is now due four seconds later. *)
Example stalled_pool_run :
  let sys := after cfg_strict pool_stalls in
  runs cfg_strict pool_stalls = true
  ∧ orderly cfg_strict pool_stalls (boot cfg_strict 0) = true
  ∧ now (rt (mem sys)) = 12000
  ∧ PoolManager.startTime <$> jm_get "job-1" (PoolManager.activeJobs (poolManager (mem sys)))
    = Some 5000
  ∧ elements (dom (activeJobs (mem sys))) = ["job-1"]
  ∧ failedJobs (mem sys) = ∅
  ∧ reported sys = []
  ∧ filter (λ x, x.2 = CbWatchdog "job-1" tt) (armed sys)
    = [(11%nat, 16000, CbWatchdog "job-1" tt)]
  ∧ progress_of "job-1" sys = [0; 2; 8; 10; 10; 10; 10].
Proof. vm_compute; done. Qed.

(** A shutdown whose swarm fails to close, in the event loop.  SIGTERM
    arrives and [swarm.destroy()] fails: [stop] rejects, the runner is not
    unregistered, [process.exit(0)] is not reached
    ([Bridge.shutdown_close_fails] shows this of every run), and the
    promise of the handler is rejected with nobody to handle it. *)
Example shutdown_swarm_fails :
  let sys := after cfg_demo sigterm_swarm_fails in
  runs cfg_demo sigterm_swarm_fails = true
  ∧ log (mem sys) = [UsingRunnerToken; BridgeStarted; ShutdownSignal]
  ∧ sent sys = [SwarmDestroy]
  ∧ unhandled sys = [EExternal "swarm destroy failed"]
  ∧ waiting sys = []
  ∧ armed sys = []
  ∧ alive sys = false.
Proof. vm_compute; done. Qed.

(** The same shutdown when everything answers: the runner is unregistered
    and the process exits with code 0. *)
Example shutdown_run :
  let sys := after cfg_demo sigterm in
  runs cfg_demo sigterm = true
  ∧ log (mem sys) = [UsingRunnerToken; BridgeStarted; ShutdownSignal; ProcessExit 0]
  ∧ sent sys = [SwarmDestroy; StoreClose; Fetch (Unregister (Some "rt-1"))]
  ∧ unhandled sys = []
  ∧ armed sys = []
  ∧ alive sys = false.
Proof. vm_compute; done. Qed.

(** A job that is offered again while it is active is accepted again:
    [poll] looks the id up in [failedJobs] only.  Two tasks then run for
    one entry of [activeJobs]; when the first fails, its [finally] deletes
    the entry and the watchdog of the job, and the second runs on with
    neither. *)
Example poll_reaccepts_active :
  let sys := after cfg_demo offered_twice in
  let sys' := after cfg_demo first_fails in
  runs cfg_demo first_fails = true
  ∧ log (mem sys) = [UsingRunnerToken; BridgeStarted;
                     AcceptedJob "job-1" "vod-web-video-transcoding";
                     AcceptedJob "job-1" "vod-web-video-transcoding"]
  ∧ length (waiting sys) = 2%nat
  ∧ elements (dom (activeJobs (mem sys))) = ["job-1"]
  ∧ elements (failedJobs (mem sys')) = ["job-1"]
  ∧ activeJobs (mem sys') = ∅
  ∧ jobs (watchdog (mem sys')) = ∅
  ∧ s_op <$> waiting sys' = [Rm "ptsn-job-1-XXXXXX"; Mkdtemp "ptsn-job-1-";
                             Fetch (UpdateJob "job-1" (Some "rt-1") "job-token" 0)]
  ∧ unhandled sys' = [].
Proof. vm_compute; done. Qed.

Lemma no_unhandled_rejection_witness :
  runs cfg_quick pool_times_out = true ∧ unhandled (after cfg_quick pool_times_out) = [].
Proof.
  split; [by vm_compute|]; unfold after.
  destruct (deliver_all cfg_quick pool_times_out (boot cfg_quick 0)) as [sys|] eqn:E;
    [|by vm_compute in E].
  apply (no_unhandled_rejection cfg_quick 0 pool_times_out sys);
    [by apply deliver_all_steps|by vm_compute; repeat constructor].
Defined.

Lemma reachable_typed_witness : state_wf (mem (after cfg_quick pool_times_out)).
Proof.
  apply (reachable_typed cfg_quick 0); exists pool_times_out.
  apply deliver_all_steps; by vm_compute.
Defined.

Lemma alone_exec_witness :
  let r := exec (offers [job_demo]) id (poll cfg_demo) started_demo in
  let sys := alone (offers [job_demo]) 2 (suspended (run (poll cfg_demo) started_demo))
                   (enter (poll cfg_demo) (Sys started_demo [] [] [])) in
  mem sys = e_state r ∧ waiting sys = e_spawned r
  ∧ unhandled sys = e_unhandled r ++ rejection (e_result r).
Proof. apply (alone_exec (offers [job_demo]) 2 (poll cfg_demo) started_demo); by vm_compute. Defined.

End System.
