(* ===== verification/Cli.v ===== *)
(** * Cli: the command line

    cli.js reads its arguments, prints the usage or the version, or loads
    the configuration file and runs one of four commands: [start] makes a
    bridge and starts it, [register] asks the server for a runner token and
    writes it into the configuration file, [unregister] gives the token
    back, [status] asks the server for its version.

    The state of the process is a [world]: the configuration files, what was
    written on the two streams of the console, the exit code once
    [process.exit] has been called, the [RunnerClient] of [register] and
    [unregister], and the state of the bridge.  [process.exit] ends the
    process where it is called, also inside a [try]: a function that may
    call it returns [None] when it did ([proc]), and [catch] does not see
    it.  [register_script] is scripts/register.js.

    The arguments are those [util.parseArgs] returns, the content of a file
    is what [JSON.parse] makes of it, and paths are taken as given (the
    working directory does not change).  [fs.writeFileSync] is taken to
    succeed. *)

From S2P Require Import Prelude JsMap Runtime Watchdog Health Async Logic Rely Api Socket Client.
From S2P Require Import Translator Assembler Pool Shutdown Orchestrator Invariant System.

Module Cli.
Import Bridge.

(** [values.config]: [parseArgs] is called with [strict: false], so [-c]
    without a value gives [true]. *)
Inductive config_arg : Type :=
| ConfigPath (p : string)
| ConfigTrue.

(** [values] *)
Record values : Type := Values {
  v_config : config_arg;
  v_version : bool;
  v_help : bool
}.

(** The object in the configuration file, by the sections the program
    reads; a section that is missing is [None]. *)
Record raw_config : Type := RawConfig {
  raw_peertube : option client_config;
  raw_supernovao : option sn_config;
  raw_timeouts : option (option Z);
  raw_polling : Z * Z
}.

(** A file, as [fs.readFileSync] and [JSON.parse] see it. *)
Inductive file : Type :=
| Unreadable
| NotJson
| Json (c : raw_config).

Inductive stream : Type := Stdout | Stderr.

(** What cli.js writes with [console.log] and [console.error]. *)
Inductive line : Type :=
| Usage
| Version
| ConfigNotFound (p : string)
| RunnerToken (tok : option string)
| RunnerId
| TokenSaved (p : string)
| NoRunnerToken
| Unregistered
| PeerTubeReturned (st : Z)
| PeerTubeUrl (u : string)
| ServerVersion (v : string)
| RunnerRegistered (yes : bool)
| CannotReach (u : string) (e : error)
| UnknownCommand (c : string)
| Fatal (e : error)
| Registered (tok : option string)
| Failed (e : error).

Record world : Type := World {
  files : gmap string file;
  console : list (stream * line);
  exit_code : option Z;
  runner : client;
  bridge : Bridge.state
}.

#[global] Instance config_arg_eq_dec : EqDecision config_arg.
Proof. solve_decision. Defined.

#[global] Instance stream_eq_dec : EqDecision stream.
Proof. solve_decision. Defined.

#[global] Instance line_eq_dec : EqDecision line.
Proof. solve_decision. Defined.

Definition add_line (l : stream * line) (w : world) : world :=
  World (files w) (console w ++ [l]) (exit_code w) (runner w) (bridge w).

Definition set_exit (n : Z) (w : world) : world :=
  World (files w) (console w) (Some n) (runner w) (bridge w).

Definition write_file (p : string) (f : file) (w : world) : world :=
  World (<[p := f]> (files w)) (console w) (exit_code w) (runner w) (bridge w).

#[global] Instance world_runner : Lens world client.
Proof.
  by refine {| view := runner;
               update c w := World (files w) (console w) (exit_code w) c (bridge w) |};
    [|intros []|].
Defined.

#[global] Instance world_bridge : Lens world Bridge.state.
Proof.
  by refine {| view := bridge;
               update b w := World (files w) (console w) (exit_code w) (runner w) b |};
    [|intros []|].
Defined.

(** A function that may end the process: [None] when it has. *)
Abbreviation proc A := (task world (option A)).

Definition and_then {A B} (m : proc A) (k : A → proc B) : proc B :=
  r ← m;
  match r with
  | Some a => k a
  | None => mret None
  end.

(** [console.log] and [console.error] *)
Definition log (l : line) : task world unit := modify (add_line (Stdout, l)).
Definition error (l : line) : task world unit := modify (add_line (Stderr, l)).

(** [process.exit(n)] *)
Definition exit {A} (n : Z) : proc A := modify (set_exit n);; mret None.

(** [loadConfig(configPath)]; [path.resolve] of a value that is not a
    string is a [TypeError]. *)
Definition loadConfig (configPath : config_arg) : proc raw_config :=
  match configPath with
  | ConfigTrue => throw ETypeError
  | ConfigPath p =>
      fs ← gets files;
      match fs !! p with
      | None => error (ConfigNotFound p);; exit 1
      | Some Unreadable => throw (EExternal "readFileSync")
      | Some NotJson => throw EBadJson
      | Some (Json c) => mret (Some c)
      end
  end.

(** [positionals[0] || 'start'] *)
Definition command (positionals : list string) : string :=
  js_or_str (head positionals) "start".

(** [config.peertube], where a property of it is read. *)
Definition peertube_of (config : raw_config) : result client_config :=
  match raw_peertube config with
  | Some pt => Ok pt
  | None => Err ETypeError
  end.

(** What the constructor of [Bridge] reads of the configuration: the
    constructors of the client and of the pool manager read a property of
    their section, and the watchdog is given [config.timeouts.jobTimeoutMs]. *)
Definition bridge_config (config : raw_config) : result Bridge.config :=
  match raw_peertube config, raw_supernovao config, raw_timeouts config with
  | Some pt, Some sn, Some t => Ok (Config pt sn (raw_polling config).1 (raw_polling config).2 t)
  | _, _, _ => Err ETypeError
  end.

(** [config.peertube.runnerToken = tok] *)
Definition set_token (tok : option string) (config : raw_config) : raw_config :=
  RawConfig
    ((λ pt, ClientConfig (url pt) (registrationToken pt) (runnerName pt)
                         (runnerDescription pt) tok) <$> raw_peertube config)
    (raw_supernovao config) (raw_timeouts config) (raw_polling config).

(** [case 'start'] *)
Definition run_start (config : raw_config) : proc unit :=
  cfg ← settle (bridge_config config);
  vmodify (λ b : Bridge.state, update (rt b) (Bridge.new cfg 0));;
  zoom (Bridge.start cfg);;
  mret (Some tt).

(** [case 'register'] *)
Definition run_register (configPath : config_arg) (config : raw_config) : proc unit :=
  pt ← settle (peertube_of config);
  vmodify (λ _ : client, client_new);;
  data ← zoom (register pt);
  log (RunnerToken data);;
  log RunnerId;;
  match configPath with
  | ConfigTrue => throw ETypeError
  | ConfigPath p =>
      modify (write_file p (Json (set_token data config)));;
      log (TokenSaved p);;
      mret (Some tt)
  end.

(** [case 'unregister'] *)
Definition run_unregister (config : raw_config) : proc unit :=
  pt ← settle (peertube_of config);
  vmodify (λ _ : client, client_new);;
  if js_falsy_str (cfg_runnerToken pt) then error NoRunnerToken;; exit 1
  else
    vmodify (set_runnerToken (cfg_runnerToken pt));;
    zoom unregister;;
    log Unregistered;;
    mret (Some tt).

(** [case 'status'] *)
Definition run_status (config : raw_config) : proc unit :=
  catch
    (pt ← settle (peertube_of config);
     res ← await (Fetch GetConfig);
     if negb (ok res) then log (PeerTubeReturned (status res));; exit 1
     else
       data ← json res;
       log (PeerTubeUrl (url pt));;
       log (ServerVersion (js_or_str data "unknown"));;
       log (RunnerRegistered (negb (js_falsy_str (cfg_runnerToken pt))));;
       mret (Some tt))
    (λ e,
       pt ← settle (peertube_of config);
       error (CannotReach (url pt) e);;
       exit 1).

(** [main()] *)
Definition main (v : values) (positionals : list string) : proc unit :=
  and_then (loadConfig (v_config v)) (λ config,
    let c := command positionals in
    if decide (c = "start") then run_start config
    else if decide (c = "register") then run_register (v_config v) config
    else if decide (c = "unregister") then run_unregister config
    else if decide (c = "status") then run_status config
    else error (UnknownCommand c);; log Usage;; exit 1).

(** The module, from the arguments on: the two early exits, then
    [main().catch(...)]. *)
Definition cli (v : values) (positionals : list string) : proc unit :=
  if v_help v then log Usage;; exit 0
  else if v_version v then log Version;; exit 0
  else catch (main v positionals) (λ e, error (Fatal e);; exit 1).

(** scripts/register.js (the first lines of src/unnamed/part_001): the
    registration alone.  The token is printed and not stored, and a failure
    is written on the standard error without an exit code. *)
Definition register_script (config : raw_config) : task world unit :=
  pt ← settle (peertube_of config);
  vmodify (λ _ : client, client_new);;
  catch (data ← zoom (register pt); log (Registered data)) (λ e, error (Failed e)).

(** The exit status of a process that has nothing left to do. *)
Definition status_of (w : world) : Z := default 0 (exit_code w).

(** ** Inputs of the examples *)

Definition blank : Bridge.state :=
  Bridge.new (Config (ClientConfig "" None None None None) (SnConfig None None None None) 0 0 None) 0.

Definition raw_demo : raw_config :=
  RawConfig (Some (ClientConfig "https://pt.example" (Some "reg-1") (Some "runner") None None))
            (Some sn_config_demo) (Some (Some 60000)) (5000, 2).

Definition world_demo : world :=
  World {["./config.json" := Json raw_demo]} [] None client_new blank.

Definition defaults : values := Values (ConfigPath "./config.json") false false.

(** A configuration that holds the token of a registered runner. *)
Definition raw_registered : raw_config := set_token (Some "rt-1") raw_demo.

Definition cfg_registered : Bridge.config :=
  Config (ClientConfig "https://pt.example" (Some "reg-1") (Some "runner") None (Some "rt-1"))
         sn_config_demo 5000 2 (Some 60000).

Definition world_registered : world :=
  World {["./config.json" := Json raw_registered]} [] None client_new blank.

(** The world after [cmd] has run to its end against [ora]. *)
Definition after (ora : oracle) (cmd : string) (w : world) : world :=
  e_state (exec ora id (cli defaults [cmd]) w).

(** What is left of a run of [cli]: the process has not exited and the
    early exits were not taken, or it has exited, with 0 from an early exit
    and with 1 otherwise. *)
Definition outcome (v : values) (r : result (option unit)) (w : world) : Prop :=
  match r with
  | Ok (Some _) => exit_code w = None ∧ v_help v = false ∧ v_version v = false
  | Ok None => exit_code w = Some (if v_help v || v_version v then 0 else 1)
  | Err _ => False
  end.

(** The world [register] leaves when the server has answered with [tok]. *)
Definition registered (p : string) (config : raw_config) (tok : option string) (w : world)
    : world :=
  add_line (Stdout, TokenSaved p)
    (write_file p (Json (set_token tok config))
       (add_line (Stdout, RunnerId)
          (add_line (Stdout, RunnerToken tok) (update (set_runnerToken tok client_new) w)))).

(** * Facts *)

(** Symbolic execution of the commands: the definitions of this file are
    unfolded, and the run splits on what it depends on. *)
Ltac cli_unfold :=
  unfold cli, main, and_then, loadConfig, run_start, run_register, run_unregister, run_status,
    register_script, exit, log, error, register, unregister, json, expect_ok, Bridge.start,
    PoolManager.start, Bridge.say, registered, command, guard.

Ltac cli_cbn :=
  cbn [view update world_runner world_bridge files console exit_code runner bridge
       add_line set_exit write_file v_config v_version v_help negb orb id head] in *.

Ltac cli_step :=
  first [ progress task_compute
        | progress cli_cbn
        | match goal with
          | |- context [settle ?x] => destruct x eqn:?
          | |- context [match ?x with _ => _ end] => destruct x eqn:?
          | |- context [if ?x then _ else _] => destruct x eqn:?
          end ].

Ltac cli_run := cli_unfold; repeat cli_step.

(** The run of one command with the default arguments on a file that
    holds a configuration ([Hfile]). *)
Ltac cli_command Hfile :=
  cli_unfold; cbn [v_help v_version v_config head js_or_str]; task_compute;
  rewrite Hfile; task_compute;
  repeat first [rewrite decide_True by done | rewrite decide_False by done];
  task_compute.

Section cli_facts.
Implicit Types (v : values) (pos : list string) (w : world) (ora : oracle).

(** Claim C10: the exit status of the command line.  Whatever the arguments,
    the files and the answers of the server: [main] never ends in a
    rejection that is not handled; [--help] and [--version] exit with 0
    before anything is read; and every other way of ending the process by
    [process.exit] (no configuration file, an unknown command, no runner
    token to give back, a server that cannot be reached or answers with an
    error, any error thrown by a command) exits with 1. *)
Theorem cli_exits ora v pos w :
  exit_code w = None →
  let r := exec ora id (cli v pos) w in
  outcome v (e_result r) (e_state r).
Proof.
  intros Hw; cbv zeta; apply (along_exec (outcome v)).
  destruct v as [c [|] [|]]; cli_run; by simplify_eq/=.
Qed.

(** Claim C25: only [register] writes.  Whatever the arguments and the
    answers, a command other than [register] leaves every file as it was;
    so [unregister], which gives the runner token back to the server, leaves
    it in the configuration file. *)
Theorem only_register_writes ora v pos w :
  command pos ≠ "register" →
  files (e_state (exec ora id (cli v pos) w)) = files w.
Proof.
  intros Hc; apply (along_exec (λ _ w', files w' = files w)).
  destruct v as [c [|] [|]]; cli_run; by simplify_eq/=.
Qed.

(** The script reports a failed registration and ends as if it had
    succeeded: it never exits with an error, and it writes no file. *)
Lemma register_script_quiet ora config pt w :
  raw_peertube config = Some pt →
  let r := exec ora id (register_script config) w in
  e_result r = Ok tt ∧ exit_code (e_state r) = exit_code w ∧ files (e_state r) = files w.
Proof.
  intros Hpt; cbv zeta.
  apply (along_exec (λ r w', r = Ok tt ∧ exit_code w' = exit_code w ∧ files w' = files w)).
  cli_unfold; unfold peertube_of; rewrite Hpt; repeat cli_step; done.
Qed.

(** What [register] leaves when the server has answered with a token. *)
Lemma register_run ora p config pt st tok w :
  files w !! p = Some (Json config) → raw_peertube config = Some pt →
  ora (Fetch (Register (registrationToken pt) (runnerName pt) (runnerDescription pt)))
    = Ok (Response st (Some tok)) →
  http_ok st = true →
  e_state (exec ora id (cli (Values (ConfigPath p) false false) ["register"]) w)
  = registered p config tok w.
Proof.
  intros Hp Hpt Hora Hok.
  apply (along_exec (λ _ w', w' = registered p config tok w)).
  cli_command Hp.
  unfold peertube_of; rewrite Hpt; task_compute; cli_cbn; rewrite Hora; task_compute.
  unfold ok; cbn [status data]; rewrite Hok; by task_compute.
Qed.

(** What [start] leaves in a world whose file holds a configuration with a
    token. *)
Lemma start_run ora p config cfg w :
  files w !! p = Some (Json config) → bridge_config config = Ok cfg →
  js_falsy_str (cfg_runnerToken (peertube cfg)) = false →
  let w' := e_state (exec ora id (cli (Values (ConfigPath p) false false) ["start"]) w) in
  exit_code w' = exit_code w
  ∧ bridge w' = r_state (run (Bridge.start cfg) (update (rt (bridge w)) (Bridge.new cfg 0))).
Proof.
  intros Hp Hcfg Htok; cbv zeta.
  apply (along_exec (λ _ w', exit_code w' = exit_code w ∧ bridge w' = _)).
  cli_command Hp.
  rewrite Hcfg; task_compute; rewrite Htok; cbn [negb]; task_compute; by cli_cbn.
Qed.

(** Claim C19: the token that [register] obtains is the token the bridge
    starts with.  When the server answers the registration with a token
    that is not empty, [register] writes it into the configuration file it
    was given, and [start] with the same file then runs with that token: it
    does not exit, the client of the bridge holds the token and the bridge
    is running. *)
Theorem register_then_start ora p config pt cfg st tok w :
  files w !! p = Some (Json config) → exit_code w = None →
  raw_peertube config = Some pt → bridge_config config = Ok cfg →
  ora (Fetch (Register (registrationToken pt) (runnerName pt) (runnerDescription pt)))
    = Ok (Response st (Some (Some tok))) →
  http_ok st = true → tok ≠ "" →
  let v := Values (ConfigPath p) false false in
  let w1 := e_state (exec ora id (cli v ["register"]) w) in
  let w2 := e_state (exec ora id (cli v ["start"]) w1) in
  files w1 !! p = Some (Json (set_token (Some tok) config))
  ∧ exit_code w2 = None
  ∧ runnerToken (runnerClient (bridge w2)) = Some tok
  ∧ isRunning (bridge w2) = true.
Proof.
  intros Hp Hw Hpt Hcfg Hora Hok Htok; cbv zeta.
  rewrite (register_run ora p config pt st (Some tok) w) by done.
  assert (files (registered p config (Some tok) w) !! p
          = Some (Json (set_token (Some tok) config))) as Hp1 by apply lookup_insert_eq.
  split; [done|].
  unfold bridge_config in Hcfg; rewrite Hpt in Hcfg.
  destruct (raw_supernovao config) as [sn|] eqn:Hsn; [|done].
  destruct (raw_timeouts config) as [t|] eqn:Ht; simplify_eq.
  edestruct (start_run ora p (set_token (Some tok) config)) as [-> ->]; [done| |..].
  - unfold bridge_config, set_token; simpl; by rewrite Hpt, Hsn, Ht.
  - simpl; by rewrite bool_decide_eq_false_2.
  - unfold Bridge.start, PoolManager.start, Bridge.say, guard; simpl.
    rewrite bool_decide_eq_false_2 by done; by task_compute.
Qed.

(** Claim C20: [start] of the command line is the start of the event loop.
    For a configuration file with the sections the constructors read,
    [start] leaves the bridge in the state from which System.v lets the
    events run, when the configuration holds a runner token; without one
    the process exits with 1, in both descriptions. *)
Theorem cli_start_boots ora p config cfg t0 w :
  files w !! p = Some (Json config) → bridge_config config = Ok cfg →
  exit_code w = None → rt (bridge w) = rt_init t0 →
  let w' := e_state (exec ora id (cli (Values (ConfigPath p) false false) ["start"]) w) in
  let sys := System.boot cfg t0 in
  if js_falsy_str (cfg_runnerToken (peertube cfg))
  then exit_code w' = Some 1 ∧ System.alive sys = false
  else exit_code w' = None ∧ bridge w' = System.mem sys ∧ System.alive sys = true.
Proof.
  intros Hp Hcfg Hw Hrt; cbv zeta.
  destruct (js_falsy_str _) eqn:Htok.
  - split.
    + apply (along_exec (λ _ w', exit_code w' = Some 1)).
      cli_command Hp.
      rewrite Hcfg; task_compute; rewrite Htok; cbn [negb]; by task_compute.
    + unfold System.boot, System.launch, System.enter, Bridge.start, guard.
      rewrite Htok; by task_compute.
  - destruct (start_run ora p config cfg w Hp Hcfg Htok) as [-> ->]; rewrite Hrt.
    unfold System.boot, System.launch, System.enter, Bridge.start, PoolManager.start,
      Bridge.say, guard.
    rewrite Htok; by task_compute.
Qed.

End cli_facts.

(** ** Examples *)

(** [unregister] gives the token back, and a [start] that follows runs with
    the token that is left in the file: the bridge polls with a token the
    server has forgotten. *)
Example unregister_then_start :
  let w1 := after (answers 200) "unregister" world_registered in
  let w2 := after (answers 200) "start" w1 in
  console w1 = [(Stdout, Unregistered)]
  ∧ runnerToken (runner w1) = None
  ∧ files w1 = files world_registered
  ∧ exit_code w2 = None
  ∧ isRunning (bridge w2) = true
  ∧ runnerToken (runnerClient (bridge w2)) = Some "rt-1".
Proof. vm_compute; done. Qed.

(** [status] of a server that answers with an error writes on the standard
    output and exits with 1; an unknown command writes the usage there. *)
Example status_of_failing_server :
  let w1 := after (answers 503) "status" world_demo in
  let w2 := after (answers 200) "stop" world_demo in
  console w1 = [(Stdout, PeerTubeReturned 503)] ∧ exit_code w1 = Some 1
  ∧ console w2 = [(Stderr, UnknownCommand "stop"); (Stdout, Usage)] ∧ exit_code w2 = Some 1.
Proof. vm_compute; done. Qed.

(** [-c] without a value: [path.resolve(true)] throws in [main]. *)
Example config_without_value :
  let r := exec (answers 200) id (cli (Values ConfigTrue false false) ["status"]) world_demo in
  e_result r = Ok None ∧ console (e_state r) = [(Stderr, Fatal ETypeError)]
  ∧ exit_code (e_state r) = Some 1.
Proof. vm_compute; done. Qed.

(** ** Witnesses *)

Lemma cli_exits_witness :
  let r := exec (answers 503) id (cli defaults ["status"]) world_demo in
  outcome defaults (e_result r) (e_state r).
Proof. by apply (cli_exits (answers 503) defaults ["status"] world_demo). Defined.

Lemma only_register_writes_witness :
  files (after (answers 200) "unregister" world_registered) = files world_registered.
Proof. by apply (only_register_writes (answers 200) defaults ["unregister"]). Defined.

Lemma register_then_start_witness :
  let w1 := after (answers 200) "register" world_demo in
  let w2 := after (answers 200) "start" w1 in
  files w1 !! "./config.json" = Some (Json (set_token (Some "runner-token") raw_demo))
  ∧ exit_code w2 = None
  ∧ runnerToken (runnerClient (bridge w2)) = Some "runner-token"
  ∧ isRunning (bridge w2) = true.
Proof.
  by eapply (register_then_start (answers 200) "./config.json" raw_demo _ _ 200
               "runner-token" world_demo).
Defined.

Lemma cli_start_boots_witness :
  let w' := after (answers 200) "start" world_registered in
  exit_code w' = None ∧ bridge w' = System.mem (System.boot cfg_registered 0)
  ∧ System.alive (System.boot cfg_registered 0) = true.
Proof.
  by apply (cli_start_boots (answers 200) "./config.json" raw_registered cfg_registered 0
              world_registered).
Defined.

End Cli.
