(* ===== verification/Stream.v ===== *)
(** * Stream: [pipeStreams] of src/lib/pool-manager.js

    [pipeStreams(reader, writer)] copies a readable stream into a writable
    one by hand: it writes every chunk the reader emits, pauses the reader
    when the writer asks for it and resumes it on ['drain'], ends the writer
    when the reader ends, and settles its promise on ['finish'] or on the
    first ['error'].

    The five handlers are the code of the function.  Around them, [step] is
    what the two streams do, as Node.js documents it: a reader in flowing
    mode emits its chunks in order and then ['end'], and emits nothing while
    it is paused; [write] queues the chunk and returns [false] when the
    queue has reached the high-water mark; the writer flushes its queue,
    emits ['drain'] when a queue that was full is empty again, and
    ['finish'] when it was ended and its queue is empty; either stream may
    fail at any time before it is done.  What a stream does after it has
    failed is not described: the promise is settled by then. *)

From S2P Require Import Prelude.

Module PipeStreams.

Abbreviation chunk := string (only parsing).

(** The promise, the two streams and the listeners for ['drain'] that
    [once] has registered.  [source] is what the reader has still to emit,
    [queue] what the writer has accepted and not yet flushed, [sink] what
    it has flushed. *)
Record pipe : Type := Pipe {
  promise : option (result unit);
  source : list chunk;
  flowing : bool;
  reader_ended : bool;
  reader_failed : bool;
  highWaterMark : nat;
  queue : list chunk;
  sink : list chunk;
  needDrain : bool;
  ending : bool;
  finished : bool;
  writer_failed : bool;
  drain_once : nat
}.

Inductive event : Type :=
| Data
| End
| Flush
| Finish
| ReaderError (e : error)
| WriterError (e : error).

#[global] Instance event_eq_dec : EqDecision event.
Proof. solve_decision. Defined.

(** The bytes in the queue. *)
Definition queued (q : list chunk) : nat := sum_list (String.length <$> q).

(** [resolve] and [reject]: the first call settles the promise. *)
Definition settle_with (r : result unit) (p : pipe) : pipe :=
  Pipe (match promise p with None => Some r | Some r0 => Some r0 end)
       (source p) (flowing p) (reader_ended p) (reader_failed p) (highWaterMark p)
       (queue p) (sink p) (needDrain p) (ending p) (finished p) (writer_failed p) (drain_once p).

(** [writer.write(chunk)]: the chunk is queued; the result is [false] when
    the queue has reached the high-water mark, and then the writer will
    emit ['drain']. *)
Definition write (c : chunk) (p : pipe) : bool * pipe :=
  let q := queue p ++ [c] in
  let ok := bool_decide (queued q < highWaterMark p)%nat in
  (ok, Pipe (promise p) (source p) (flowing p) (reader_ended p) (reader_failed p)
            (highWaterMark p) q (sink p) (needDrain p || negb ok) (ending p) (finished p)
            (writer_failed p) (drain_once p)).

(** [reader.pause()] and [reader.resume()] *)
Definition set_flowing (b : bool) (p : pipe) : pipe :=
  Pipe (promise p) (source p) b (reader_ended p) (reader_failed p) (highWaterMark p)
       (queue p) (sink p) (needDrain p) (ending p) (finished p) (writer_failed p) (drain_once p).

(** [writer.once('drain', () => reader.resume())] *)
Definition once_drain (p : pipe) : pipe :=
  Pipe (promise p) (source p) (flowing p) (reader_ended p) (reader_failed p) (highWaterMark p)
       (queue p) (sink p) (needDrain p) (ending p) (finished p) (writer_failed p)
       (S (drain_once p)).

(** [writer.end()] *)
Definition end_writer (p : pipe) : pipe :=
  Pipe (promise p) (source p) (flowing p) (reader_ended p) (reader_failed p) (highWaterMark p)
       (queue p) (sink p) (needDrain p) true (finished p) (writer_failed p) (drain_once p).

(** ** The handlers *)

(** [reader.on('data', chunk => ...)] *)
Definition on_data (c : chunk) (p : pipe) : pipe :=
  let '(ok, p1) := write c p in
  if ok then p1 else once_drain (set_flowing false p1).

(** [reader.on('end', () => writer.end())] *)
Definition on_end (p : pipe) : pipe := end_writer p.

(** [writer.on('finish', resolve)] *)
Definition on_finish (p : pipe) : pipe := settle_with (Ok tt) p.

(** [writer.on('error', reject)] and [reader.on('error', reject)] *)
Definition on_error (e : error) (p : pipe) : pipe := settle_with (Err e) p.

(** The listeners that [once] registered run and are removed: each resumes
    the reader. *)
Definition on_drain (p : pipe) : pipe :=
  Pipe (promise p) (source p) (if drain_once p is O then flowing p else true)
       (reader_ended p) (reader_failed p) (highWaterMark p)
       (queue p) (sink p) (needDrain p) (ending p) (finished p) (writer_failed p) 0.

(** [pipeStreams(reader, writer)]: the listeners are registered, which puts
    the reader in flowing mode. *)
Definition pipeStreams (input : list chunk) (hwm : nat) : pipe :=
  Pipe None input true false false hwm [] [] false false false false 0.

(** ** What the streams do *)

Definition set_source (src : list chunk) (p : pipe) : pipe :=
  Pipe (promise p) src (flowing p) (reader_ended p) (reader_failed p) (highWaterMark p)
       (queue p) (sink p) (needDrain p) (ending p) (finished p) (writer_failed p) (drain_once p).

Definition reader_end (p : pipe) : pipe :=
  Pipe (promise p) (source p) (flowing p) true (reader_failed p) (highWaterMark p)
       (queue p) (sink p) (needDrain p) (ending p) (finished p) (writer_failed p) (drain_once p).

Definition reader_fail (p : pipe) : pipe :=
  Pipe (promise p) (source p) false (reader_ended p) true (highWaterMark p)
       (queue p) (sink p) (needDrain p) (ending p) (finished p) (writer_failed p) (drain_once p).

Definition writer_fail (p : pipe) : pipe :=
  Pipe (promise p) (source p) (flowing p) (reader_ended p) (reader_failed p) (highWaterMark p)
       (queue p) (sink p) (needDrain p) (ending p) (finished p) true (drain_once p).

Definition writer_finish (p : pipe) : pipe :=
  Pipe (promise p) (source p) (flowing p) (reader_ended p) (reader_failed p) (highWaterMark p)
       (queue p) (sink p) (needDrain p) (ending p) true (writer_failed p) (drain_once p).

(** The queue goes to the sink; a writer that asked for a pause says that
    it is ready again. *)
Definition flush (p : pipe) : pipe :=
  let p1 := Pipe (promise p) (source p) (flowing p) (reader_ended p) (reader_failed p)
                 (highWaterMark p) [] (sink p ++ queue p) false (ending p) (finished p)
                 (writer_failed p) (drain_once p) in
  if needDrain p then on_drain p1 else p1.

(** The reader can emit: it is in flowing mode and has neither ended nor
    failed. *)
Definition reading (p : pipe) : bool :=
  flowing p && negb (reader_ended p) && negb (reader_failed p).

(** The writer works: it has neither finished nor failed. *)
Definition writing (p : pipe) : bool := negb (finished p) && negb (writer_failed p).

Inductive step : pipe → event → pipe → Prop :=
| step_data p c src :
    reading p = true → writing p = true → source p = c :: src →
    step p Data (on_data c (set_source src p))
| step_end p :
    reading p = true → source p = [] →
    step p End (on_end (reader_end p))
| step_flush p :
    writing p = true → queue p ≠ [] →
    step p Flush (flush p)
| step_finish p :
    writing p = true → ending p = true → queue p = [] →
    step p Finish (on_finish (writer_finish p))
| step_reader_error p e :
    reader_ended p = false → reader_failed p = false →
    step p (ReaderError e) (on_error e (reader_fail p))
| step_writer_error p e :
    writing p = true →
    step p (WriterError e) (on_error e (writer_fail p)).

(** The same as a function. *)
Definition deliver (ev : event) (p : pipe) : option pipe :=
  match ev with
  | Data =>
      match source p with
      | c :: src => if reading p && writing p then Some (on_data c (set_source src p)) else None
      | [] => None
      end
  | End =>
      if reading p && bool_decide (source p = []) then Some (on_end (reader_end p)) else None
  | Flush =>
      if writing p && negb (bool_decide (queue p = [])) then Some (flush p) else None
  | Finish =>
      if writing p && ending p && bool_decide (queue p = [])
      then Some (on_finish (writer_finish p)) else None
  | ReaderError e =>
      if negb (reader_ended p) && negb (reader_failed p)
      then Some (on_error e (reader_fail p)) else None
  | WriterError e =>
      if writing p then Some (on_error e (writer_fail p)) else None
  end.

Fixpoint deliver_all (evs : list event) (p : pipe) : option pipe :=
  match evs with
  | [] => Some p
  | ev :: evs' => p' ← deliver ev p; deliver_all evs' p'
  end.

Inductive steps : pipe → list event → pipe → Prop :=
| steps_nil p : steps p [] p
| steps_cons p ev p' evs p'' : step p ev p' → steps p' evs p'' → steps p (ev :: evs) p''.

Definition is_error (ev : event) : bool :=
  match ev with ReaderError _ | WriterError _ => true | _ => false end.

(** ** The invariant

    Of a pipe made by [pipeStreams input hwm], as long as no stream has
    failed: every chunk of the input is in the sink, in the queue or still
    at the reader, in the order of the input; the reader is paused exactly
    while the writer owes a ['drain'], and then exactly one listener waits
    for it; the writer is ended exactly when the reader has ended, and then
    nothing is left at the reader; and the promise is resolved exactly when
    the writer has finished. *)
Record pipe_inv (input : list chunk) (p : pipe) : Prop := PipeInv {
  inv_chunks : sink p ++ queue p ++ source p = input;
  inv_paused : flowing p = negb (needDrain p);
  inv_listener : drain_once p = if needDrain p then 1%nat else 0%nat;
  inv_full : needDrain p = true → queue p ≠ [];
  inv_room : ∀ q c, queue p = q ++ [c] → q = [] ∨ (queued q < highWaterMark p)%nat;
  inv_below : needDrain p = false → queue p = [] ∨ (queued (queue p) < highWaterMark p)%nat;
  inv_ending : ending p = reader_ended p;
  inv_ended : reader_ended p = true → source p = [];
  inv_finished : finished p = true → ending p = true ∧ queue p = [];
  inv_promise : promise p = if finished p then Some (Ok tt) else None;
  inv_alive : reader_failed p = false ∧ writer_failed p = false
}.

(** What is left to do: the events a pipe can still take before it
    finishes, when no stream fails. *)
Definition todo (p : pipe) : nat :=
  2 * length (source p) + length (queue p)
  + (if reader_ended p then 0 else 1) + (if finished p then 0 else 1).

(** What holds of every pipe, failed or not: the writer is ended exactly
    when the reader has ended, a reader that has failed has not ended, and
    a promise that is resolved says that every chunk is in the sink. *)
Record pipe_safe (input : list chunk) (p : pipe) : Prop := PipeSafe {
  safe_ending : ending p = reader_ended p;
  safe_failed : reader_failed p = true → reader_ended p = false;
  safe_finished : finished p = true → ending p = true;
  safe_resolved : promise p = Some (Ok tt) → pipe_inv input p ∧ finished p = true;
  safe_running : promise p = None → pipe_inv input p
}.

(** ** Inputs of the examples *)

Definition chunks_demo : list chunk := ["aaaa"; "bb"; "cccc"].

(** A run in which the second chunk fills the queue. *)
Definition run_demo : list event := [Data; Data; Flush; Data; End; Flush; Finish].

(** * Facts *)

Section pipe_facts.
Implicit Types (p : pipe) (ev : event) (evs : list event) (input : list chunk).

Local Ltac pipe_cases :=
  repeat first
    [ progress simplify_eq/=
    | progress boolify
    | match goal with
      | H : _ ∧ _ |- _ => destruct H
      | |- context [bool_decide ?P] => destruct (bool_decide_reflect P)
      | H : context [bool_decide ?P] |- _ => destruct (bool_decide_reflect P)
      | |- context [if ?b then _ else _] => destruct b eqn:?
      | H : context [if ?b then _ else _] |- _ => destruct b eqn:?
      | |- context [match ?l with [] => _ | _ :: _ => _ end] => destruct l eqn:?
      | H : context [match ?l with [] => _ | _ :: _ => _ end] |- _ => destruct l eqn:?
      end ].

Lemma pipe_deliver_step ev p p' : deliver ev p = Some p' ↔ step p ev p'.
Proof.
  split.
  - destruct ev; unfold deliver; intros; pipe_cases; constructor; by boolify.
  - destruct 1; simpl;
      repeat match goal with H : _ = _ |- _ => rewrite H; clear H end;
      rewrite ?bool_decide_eq_true_2, ?bool_decide_eq_false_2 by done; done.
Qed.

Lemma pipe_deliver_all_steps evs p p' : deliver_all evs p = Some p' ↔ steps p evs p'.
Proof.
  revert p; induction evs as [|ev evs IH]; intros p; simpl.
  - split; [intros [= <-]; constructor|by inversion 1].
  - destruct (deliver ev p) as [p1|] eqn:E; simpl.
    + rewrite IH; split; [intros; econstructor; [by apply pipe_deliver_step|done]|].
      inversion 1 as [|????? Hs%pipe_deliver_step]; by simplify_eq.
    + split; [done|]; inversion 1 as [|????? Hs%pipe_deliver_step]; by simplify_eq.
Qed.

Lemma queued_app q1 q2 : queued (q1 ++ q2) = (queued q1 + queued q2)%nat.
Proof.
  unfold queued; induction q1 as [|c q1 IH]; [done|].
  rewrite <-app_comm_cons, !fmap_cons; simpl; rewrite IH; lia.
Qed.

Lemma pipeStreams_inv input hwm : pipe_inv input (pipeStreams input hwm).
Proof.
  split; simpl; try done; [by intros [] ? ?|by left].
Qed.

(** ** Preservation *)

Lemma write_inv input c src p :
  pipe_inv input p → source p = c :: src → needDrain p = false → finished p = false →
  pipe_inv input (on_data c (set_source src p)).
Proof.
  intros [Hc Hp Hl Hf Hr Hb He Hd Hfin Hpr Hal] Hsrc Hn Hfd; unfold on_data, write; simpl.
  rewrite Hn, Hfd in *; simpl in *.
  assert (sink p ++ (queue p ++ [c]) ++ src = input) as Hc'.
  { by rewrite <-Hc, Hsrc, <-app_assoc. }
  assert (∀ q c', queue p ++ [c] = q ++ [c'] →
            q = [] ∨ (queued q < highWaterMark p)%nat) as Hroom.
  { intros q c' [<- <-]%app_inj_tail; destruct (Hb eq_refl); auto. }
  assert (reader_ended p = true → src = []) as Hd' by (intros ?%Hd; congruence).
  case_bool_decide; split; simpl; try done; [by right|by rewrite Hl|].
  intros _ ?%app_eq_nil; naive_solver.
Qed.

Lemma step_inv input p ev p' :
  pipe_inv input p → step p ev p' → is_error ev = false → pipe_inv input p'.
Proof.
  intros Hinv Hstep Hev; destruct Hstep as [p c src Hr Hw Hsrc|p Hr Hsrc|p Hw Hq|p Hw He Hq| |];
    try done.
  - unfold writing in Hw; apply write_inv; [done..| |by destruct (finished p)].
    destruct Hinv as [_ Hp _ _ _ _ _ _ _ _ _]; unfold reading in Hr.
    destruct (needDrain p); [|done]; rewrite Hp in Hr; done.
  - destruct Hinv; split; simpl; try done; unfold on_end; simpl; auto.
    intros Hf; split; [done|]; by apply inv_finished0.
  - destruct Hinv as [Hc Hp Hl Hf Hr Hb He Hd Hfin Hpr Hal]; unfold flush, on_drain.
    destruct (needDrain p) eqn:Hn; rewrite ?Hl; split; simpl; try done;
      rewrite ?app_nil_r, <-?app_assoc; try done; try (by intros [] ? ?); try (by left);
      by intros [? ?]%Hfin.
  - destruct Hinv as [Hc Hp Hl Hf Hr Hb Hend Hd Hfin Hpr Hal].
    unfold writing in Hw; destruct (finished p) eqn:Hfd; [done|].
    split; simpl; try done; rewrite ?Hpr; done.
Qed.

Lemma steps_inv input p evs p' :
  pipe_inv input p → steps p evs p' → Forall (λ ev, is_error ev = false) evs →
  pipe_inv input p'.
Proof.
  intros Hinv Hsteps; induction Hsteps as [|p ev p1 evs p2 Hstep _ IH]; [done|].
  intros [Hev Hevs]%Forall_cons; eauto using step_inv.
Qed.

Lemma pipe_inv_safe input p : pipe_inv input p → pipe_safe input p.
Proof.
  intros Hinv; split; try done; try apply Hinv.
  - destruct Hinv as [_ _ _ _ _ _ _ _ _ _ [-> _]]; done.
  - pose proof (inv_promise _ _ Hinv) as Hpr; split; [done|].
    destruct (finished p); [done|congruence].
Qed.

(** A pipe whose promise is resolved takes no event. *)
Lemma resolved_final input p ev p' :
  pipe_inv input p → finished p = true → step p ev p' → False.
Proof.
  intros [_ _ _ _ _ _ Hend _ Hfin _ _] Hf; destruct (Hfin Hf) as [He _].
  rewrite He in Hend; intros Hstep.
  destruct Hstep;
    try (match goal with H : writing _ = true |- _ => unfold writing in H; by rewrite Hf in H end).
  - match goal with H : reading _ = true |- _ => unfold reading in H; rewrite <-Hend in H end.
    by destruct (flowing p).
  - congruence.
Qed.

(** A step changes the promise only by settling it. *)
Lemma step_promise p ev p' r : step p ev p' → promise p = Some r → promise p' = Some r.
Proof.
  destruct 1; unfold on_data, write, on_end, flush, on_drain, on_finish, on_error; simpl;
    intros Hr; repeat case_match; simplify_eq/=; by rewrite ?Hr.
Qed.

Lemma step_safe input p ev p' : pipe_safe input p → step p ev p' → pipe_safe input p'.
Proof.
  intros [Hend Hfail Hfin Hres Hrun] Hstep.
  destruct (promise p) as [[[]|e]|] eqn:Hp.
  - destruct (Hres eq_refl) as [Hinv Hf]; by destruct (resolved_final _ _ _ _ Hinv Hf Hstep).
  - pose proof (step_promise _ _ _ _ Hstep Hp) as Hp'.
    split; [..|by rewrite Hp'|by rewrite Hp']; clear Hres Hrun;
      destruct Hstep; unfold on_data, write, flush, on_drain, writing, reading in *; simpl in *;
      repeat case_match; simplify_eq/=; boolify; naive_solver.
  - specialize (Hrun eq_refl); destruct (is_error ev) eqn:Hev.
    + clear Hres; destruct Hstep; simplify_eq/=; split; simpl; rewrite ?Hp; done.
    + by apply pipe_inv_safe, (step_inv _ p ev).
Qed.

Lemma steps_safe input hwm evs p : steps (pipeStreams input hwm) evs p → pipe_safe input p.
Proof.
  assert (pipe_safe input (pipeStreams input hwm)) as H0 by apply pipe_inv_safe, pipeStreams_inv.
  revert H0; generalize (pipeStreams input hwm); intros p0 H0 Hsteps.
  induction Hsteps; eauto using step_safe.
Qed.

(** ** What the theorems are made of *)

(** Every event that is not a failure does a part of what is left. *)
Lemma step_todo input p ev p' :
  pipe_inv input p → step p ev p' → is_error ev = false → (todo p' < todo p)%nat.
Proof.
  intros _; destruct 1 as [p c src ? ? Hsrc|p Hr ?|p ? Hq|p Hw ? ?| |]; intros ?;
    simplify_eq/=; unfold todo, reading, writing in *.
  - unfold on_data, write; simpl; rewrite Hsrc.
    case_bool_decide; simpl; rewrite length_app; simpl; lia.
  - simpl; destruct (reader_ended p); [by rewrite andb_false_r in Hr|lia].
  - unfold flush, on_drain; destruct (needDrain p); simpl;
      (destruct (queue p); [done|simpl; lia]).
  - simpl; destruct (finished p); [done|lia].
Qed.

(** A pipe that has not finished and has not failed can take an event that
    is not a failure: the reader is never paused without a ['drain'] to
    come. *)
Lemma inv_progress input p :
  pipe_inv input p → finished p = false → ∃ ev p', step p ev p' ∧ is_error ev = false.
Proof.
  intros [_ Hp _ Hfull _ _ Hend Hd _ _ [Hrf Hwf]] Hf.
  assert (writing p = true) as Hw by (unfold writing; by rewrite Hf, Hwf).
  destruct (queue p) as [|c q] eqn:Hq.
  - assert (needDrain p = false) as Hn by (destruct (needDrain p); [by destruct Hfull|done]).
    destruct (reader_ended p) eqn:He.
    + exists Finish, (on_finish (writer_finish p)); split; [|done].
      constructor; [done|by rewrite Hend|done].
    + assert (reading p = true) as Hr by (unfold reading; by rewrite Hp, Hn, He, Hrf).
      destruct (source p) as [|c src] eqn:Hsrc.
      * exists End, (on_end (reader_end p)); split; [by constructor|done].
      * exists Data, (on_data c (set_source src p)); split; [by constructor|done].
  - exists Flush, (flush p); split; [constructor; [done|by rewrite Hq]|done].
Qed.

Lemma inv_finishes input p :
  pipe_inv input p →
  ∃ evs p', steps p evs p' ∧ Forall (λ ev, is_error ev = false) evs
            ∧ pipe_inv input p' ∧ finished p' = true ∧ (length evs ≤ todo p)%nat.
Proof.
  remember (todo p) as n eqn:Hn; revert p Hn.
  induction (lt_wf n) as [n _ IH]; intros p -> Hinv.
  destruct (finished p) eqn:Hf.
  { exists [], p; split_and!; [constructor|constructor|done|done|simpl; lia]. }
  destruct (inv_progress input p Hinv Hf) as (ev & p1 & Hstep & Hev).
  pose proof (step_todo input p ev p1 Hinv Hstep Hev) as Hlt.
  destruct (IH _ Hlt p1 eq_refl (step_inv _ _ _ _ Hinv Hstep Hev))
    as (evs & p2 & Hsteps & Hevs & Hinv2 & Hf2 & Hlen).
  exists (ev :: evs), p2; split_and!; [by econstructor|by constructor|done|done|simpl; lia].
Qed.

(** ** The theorems *)

(** Claim C30: a resolved promise means a complete copy.  Whatever the
    streams do and in whatever order, failures included: when the promise
    of [pipeStreams] is resolved, every chunk of the input has been written
    and flushed, in the order of the input, and nothing is left in the
    queue or at the reader. *)
Theorem resolved_writes_all input hwm evs p :
  steps (pipeStreams input hwm) evs p → promise p = Some (Ok tt) →
  sink p = input ∧ queue p = [] ∧ source p = [].
Proof.
  intros [_ _ _ Hres _]%steps_safe Hp; destruct (Hres Hp) as [Hinv Hf].
  destruct (inv_finished _ _ Hinv Hf) as [He Hq].
  rewrite (inv_ending _ _ Hinv) in He; pose proof (inv_ended _ _ Hinv He) as Hs.
  pose proof (inv_chunks _ _ Hinv) as Hc; rewrite Hq, Hs, !app_nil_r in Hc; done.
Qed.

(** Claim C31: the copy comes to its end.  As long as no stream has failed
    the pipe is never stuck: from every state it can reach, the events that
    are left (at most two per chunk still at the reader, one per chunk in
    the queue, the end and the finish) lead to a resolved promise with the
    whole input in the sink.  In particular a reader that was paused is
    resumed: whenever it is paused, the writer owes a ['drain'], and
    exactly one listener waits for it. *)
Theorem pipe_finishes input hwm evs p :
  steps (pipeStreams input hwm) evs p → promise p = None →
  (flowing p = false → needDrain p = true ∧ drain_once p = 1%nat ∧ queue p ≠ [])
  ∧ ∃ evs' p', steps p evs' p' ∧ (length evs' ≤ todo p)%nat
               ∧ promise p' = Some (Ok tt) ∧ sink p' = input.
Proof.
  intros Hsteps Hp; pose proof (safe_running _ _ (steps_safe _ _ _ _ Hsteps) Hp) as Hinv.
  split.
  - pose proof (inv_paused _ _ Hinv) as Hpa; pose proof (inv_listener _ _ Hinv) as Hl.
    pose proof (inv_full _ _ Hinv) as Hfull.
    intros Hfl; rewrite Hfl in Hpa; destruct (needDrain p); [auto|done].
  - destruct (inv_finishes input p Hinv) as (evs' & p' & Hsteps' & _ & Hinv' & Hf & Hlen).
    assert (steps (pipeStreams input hwm) (evs ++ evs') p') as Hall.
    { clear -Hsteps Hsteps'; induction Hsteps; [done|by econstructor; eauto]. }
    assert (promise p' = Some (Ok tt)) as Hp' by (by rewrite (inv_promise _ _ Hinv'), Hf).
    exists evs', p'; split_and!; [done..|].
    by apply (resolved_writes_all input hwm (evs ++ evs') p').
Qed.

(** The queue holds at most one chunk beyond the high-water mark. *)
Theorem queue_bounded input hwm evs p q c :
  steps (pipeStreams input hwm) evs p → promise p = None →
  queue p = q ++ [c] → q = [] ∨ (queued q < highWaterMark p)%nat.
Proof.
  intros Hsteps Hp; apply (inv_room input).
  by apply (safe_running _ _ (steps_safe _ _ _ _ Hsteps)).
Qed.

(** Claim C40: a reader that fails leaves the writer open.  Whatever
    happens after the reader has failed, [writer.end()] is not called and
    the writer does not finish: the promise is rejected, and what was
    written stays in a stream that nobody closes. *)
Theorem reader_error_leaves_writer_open input hwm evs p :
  steps (pipeStreams input hwm) evs p → reader_failed p = true →
  ending p = false ∧ finished p = false ∧ ∃ e, promise p = Some (Err e).
Proof.
  intros [Hend Hfail Hfin Hres Hrun]%steps_safe Hrf.
  assert (ending p = false) as He by (by rewrite Hend, Hfail).
  split_and!; [done|destruct (finished p); [by rewrite Hfin in He|done]|].
  destruct (promise p) as [[[]|e]|]; [|by eexists|].
  - destruct Hres as [[_ _ _ _ _ _ _ _ _ _ [? _]] _]; [done|congruence].
  - destruct Hrun as [_ _ _ _ _ _ _ _ _ _ [? _]]; [done|congruence].
Qed.

End pipe_facts.

(** ** Examples *)

(** The second chunk fills a queue of six bytes: the reader is paused, the
    flush resumes it, and the copy is complete. *)
Example run_demo_pauses :
  (λ p, (flowing p, needDrain p, drain_once p, queue p))
    <$> deliver_all (take 2 run_demo) (pipeStreams chunks_demo 6)
  = Some (false, true, 1%nat, ["aaaa"; "bb"])
  ∧ (λ p, (promise p, sink p)) <$> deliver_all run_demo (pipeStreams chunks_demo 6)
    = Some (Some (Ok tt), chunks_demo).
Proof. by vm_compute. Qed.

(** ** Witnesses *)

Lemma resolved_writes_all_witness :
  ∃ p, deliver_all run_demo (pipeStreams chunks_demo 6) = Some p
       ∧ sink p = chunks_demo ∧ queue p = [] ∧ source p = [].
Proof.
  destruct (deliver_all run_demo (pipeStreams chunks_demo 6)) as [p|] eqn:E;
    [|by vm_compute in E].
  exists p; split; [done|].
  apply (resolved_writes_all chunks_demo 6 run_demo p); [by apply pipe_deliver_all_steps|].
  vm_compute in E; by simplify_eq.
Defined.

Lemma pipe_finishes_witness :
  ∃ p, deliver_all (take 2 run_demo) (pipeStreams chunks_demo 6) = Some p
       ∧ (flowing p = false → needDrain p = true ∧ drain_once p = 1%nat ∧ queue p ≠ [])
       ∧ ∃ evs' p', steps p evs' p' ∧ (length evs' ≤ todo p)%nat
                    ∧ promise p' = Some (Ok tt) ∧ sink p' = chunks_demo.
Proof.
  destruct (deliver_all (take 2 run_demo) (pipeStreams chunks_demo 6)) as [p|] eqn:E;
    [|by vm_compute in E].
  exists p; split; [done|].
  apply (pipe_finishes chunks_demo 6 (take 2 run_demo) p); [by apply pipe_deliver_all_steps|].
  vm_compute in E; by simplify_eq.
Defined.

Lemma reader_error_leaves_writer_open_witness :
  ∃ p, deliver_all [Data; ReaderError (EExternal "EIO"); Flush] (pipeStreams chunks_demo 6)
       = Some p
       ∧ ending p = false ∧ finished p = false ∧ ∃ e, promise p = Some (Err e).
Proof.
  destruct (deliver_all [Data; ReaderError (EExternal "EIO"); Flush]
              (pipeStreams chunks_demo 6)) as [p|] eqn:E; [|by vm_compute in E].
  exists p; split; [done|].
  apply (reader_error_leaves_writer_open chunks_demo 6
           [Data; ReaderError (EExternal "EIO"); Flush] p); [by apply pipe_deliver_all_steps|].
  vm_compute in E; by simplify_eq.
Defined.

End PipeStreams.
